(* ===== verification/_CoqProject ===== *)
-Q . S2P
Prelude.v
RustStd.v
JsonText.v
Ipv6.v
Wire.v
SocketVmnet.v
Packets.v
TunRelay.v
Vm.v
Pfctl.v
PfctlMain.v
RelayStart.v
ConsoleRing.v
PortDaemon.v
Relays.v
Paths.v
Json.v
GuestEvents.v
GuestProto.v
Protocol.v
VmState.v
GuestBuild.v
GuestServer.v
GuestChild.v
GuestMain.v
ExecSession.v
ExecFlow.v
HostClient.v
Watcher.v
Clock.v
HostCli.v
Daemon.v
DaemonStart.v
Bless.v
HostMain.v
HostConsole.v
Terminal.v
HostMachine.v
HostPorts.v
HostVm.v
Life.v
DockerConfig.v
DockerText.v
DockerJson.v
Docker.v
DockerPaths.v
