(* ===== verification/Prelude.v ===== *)
(** Verification of pelagos-mac: a Linux container runtime for macOS.

    * The program

    [pelagos] (pelagos-mac/src/main.rs) is the command of the host.  It keeps one daemon per profile
    (pelagos-mac/src/daemon.rs, state.rs), which owns a virtual machine (pelagos-vz) and passes
    connections on its Unix socket to the guest daemon (pelagos-guest/src/main.rs) inside.  Requests and
    replies are JSON lines; exec sessions switch to binary frames.  The machine's network is either a
    socket_vmnet stream (pelagos-vz/src/socket_vmnet.rs) or a utun relay (pelagos-vz/src/tun_relay.rs)
    set up by a privileged helper (pelagos-pfctl/src/main.rs).  pelagos-docker is a docker command line
    on top.

    * How it is modelled

    Data are the program's: bytes and machine integers are [Z] with their wrap-around, text is the list
    of its bytes, structs are records and enums inductive types; where a reader takes UTF-8 only, validity
    is computed ([RustStd.valid_utf8]).  Pure functions are functions.
    Code that talks to the outside (subprocesses, files, sockets, clocks) is a program over the state
    monad [Sys] of this file: each call out is an event, and the outside is any function from the history
    of events to replies, so a theorem about all environments covers every failure and every answer.
    Threads that share state are sequences of steps of the threads.  Loops whose end the kernel does not
    see by itself take fuel; what is enough is proved or stated where the fuel is: one round per byte of
    input suffices for the frame loop ([Wire.run_guest_frames]), the connection loop
    ([GuestServer.connection_ends]) and the client loops (a line has at least one byte).  Loops without an end
    of their own (accept loops, pollers) run as long as their fuel, and theorems hold for every fuel; what
    ends them is a theorem of its own ([Daemon.daemon_leaves], [ExecFlow.exec_ends], [Relays.relay_ends]).  Waits for
    a deadline are given a clock that shows at least the time slept; 301 rounds of 200 ms then outlast the 60 seconds.

    * The files

    - [Prelude] (this file), [RustStd] (text and numbers of the Rust library), [Paths] ([std::path]),
      [Json] (the accessors of JSON values), [Ipv6] (textual addresses) carry the rest.
    - [JsonText]: the texts of JSON values as an interface, a class with the laws that are relied on, and a
      compact printer and parser as its instance.  [Protocol]: the JSON form of every message, as the
      declarations and serde attributes of each program give it: what one program writes the other reads
      as the same message, nothing is read from a part of one, and no request to the guest is a command of
      the daemon.  Decoders take fields by name or by position, as derived code does.
    - [Wire]: frames of exec sessions (guest and main.rs: [send_frame], [recv_frame],
      [read_guest_frames], the terminal input loop).  A session is replayed exactly; a frame over a broken
      connection arrives whole or not at all; the loops end.
    - [ExecSession]: the threads of an exec session on both sides with the child and a connection that
      breaks: the client ends with the child's outcome and complete outputs or with 1; the child's input is
      an initial part of the host's.  There a frame is one step.  [ExecFlow]: the same output side on a
      connection that fills up, where a write waits for the host with the lock of the writer in hand: it sends
      the same, and sessions end unless the host neither reads nor goes away.
    - [Relays]: the two-way copies of the daemon and of the ssh relay, for every interleaving.
    - [SocketVmnet]: both threads of the vmnet relay.  Frames cross it whole and in order however the
      stream is cut into reads; the frame buffer is never overrun.
    - [Packets]: the packets the program makes (ARP, router and neighbour advertisements), byte for byte,
      and both checksum functions, which agree and verify.
    - [TunRelay]: the utun relay: packets cross unchanged, the gateway is resolved, the alias is claimed
      once, frames are addressed to the machine.
    - [Vm]: the virtual machine (vm.rs): configuration, start with its clean-up, connections to the guest
      with their retries, shutdown.  The framework's objects are calls.
    - [RelayStart]: how both network relays start, and the client of the helper, whose requests [Pfctl]
      serves: a relay leaves no trace in the helper.
    - [Pfctl]: the privileged helper, all requests.  Its packet-filter file is exactly the rules of its
      state; the invariant of its state; what teardown and redirection requests do.
      [PfctlMain]: its start, and the creation of a utun interface: made, or nothing left open.
    - [ConsoleRing]: the serial console's ring buffer keeps the last bytes; a late client is shown them.
    - [PortDaemon]: port forwarding by listener threads, commands and events, for every interleaving.
      [Watcher]: the daemon's subscription to the guest's events, from the bytes on the connection to the ports
      of exited containers.
    - [VmState]: the profile's files: subnet allocation, PID and mounts, the decision to reuse a daemon ([DaemonStart]).
    - [Clock], [HostCli]: the daemon's arguments, computed by the client, printed, parsed and computed
      again by the daemon; the date passed to the guest.
    - [Daemon]: the daemon's life (daemon.rs: [run]): the order of its effects, its accept loop, its end, and
      two daemons that start at once.  [DaemonStart]: how a client gets its daemon (daemon.rs: [ensure_running]): the
      running one if it has the same mounts, or a new one, whose socket it waits for; the JSON of the files
      that tell.  [Bless]: the installation of the helper (bless.rs) and the
      command that root runs.
    - [GuestProto], [GuestBuild], [GuestServer]: messages, Dockerfile scanning, and the whole command server
      of the guest with its subprocesses: one reply per request, output streamed exactly, descriptors
      closed, images pulled as planned, the connection ends.
    - [GuestChild]: the children of the guest between fork and exec: a copy runs with the files of its
      container and in its namespaces, the PID namespace apart, or not at all; a session with a terminal has it.
    - [GuestMain]: the guest's listener and accept loop, and the table of file descriptors its threads share:
      nothing leaks, and without terminals no connection is taken for another; with them it can be.
    - [GuestEvents]: container events: polls, bounded broadcast, subscriptions; what a client knows.
    - [HostClient]: the reply loops of the host, put together with [GuestServer] and [Wire].
    - [HostMain]: the dispatch of the host's commands (main.rs: [main], [send_daemon_cmd], the [vm] commands,
      [run], [compose], [build], [cp], [login], [ping] over ssh) as programs of calls to the daemon, the
      guest, the terminal and the file system.  [HostMachine]: the machine is started and talked to only
      when it should be.  [HostPorts]: the ports [run] and [compose] register are given back, with the
      daemon's handler of [PortDaemon] at the other end.  [HostVm]: what [vm init] may change, and the end
      of the waiting loops.  [HostConsole]: the console session, which offers every block once and loses what a
      short write does not take.  [Terminal]: raw mode, which is always
      undone, and how a new window size reaches the guest.
    - [Life]: a command from the host's dispatch through the daemon and its relay to the guest's subprocess and
      back: the host gives the subprocess's exit code and the text of its output, or 1 when anything on the way
      failed, never a wrong 0.
      The texts on the way are those of [Protocol].
    - [DockerConfig], [DockerText], [DockerJson], [Docker]: the docker command line (pelagos-docker: config.rs,
      docker_types.rs with the helpers of main.rs, the derived JSON, invoke.rs and the commands of main.rs).  Its file of
      container data refines a map, and proxies of published ports end, as long as the file can be written;
      builds start after their pulls;
      what [docker ps], [inspect], [port] and [events] show; what reaches the container.
    - [DockerPaths]: a volume from the host's command line through the guest to what docker shows.

    What a program does in every environment is stated with the observations of this file: [seen] picks
    from the history of calls those a property is about, [adds] and [does] say what a program contributes
    to it, and their lemmas compose along the program.

    * Theorems

    A theorem whose comment begins with an identifier C<n> is a property of the program; the lemma
    [<theorem>_witness] applies it to concrete data.  Examples evaluate the definitions, among them the
    inputs for which the code does not do what its comments say.

    * What is not modelled

    The virtualization framework itself, the system calls behind the events, the handler for SIGTERM,
    the command line parser ([HostCli] has the meaning of its declarations, with defaults and environment
    variables, for the options the program itself writes), the text of JSON values (the class
    [JsonText]; files and outputs of other programs that are JSON are read through the class [Json]; the white space
    of pretty-printed JSON is a parameter), and Unicode tables beyond white space (parameters). *)

From Stdlib Require Export ZArith Lia.
From Stdlib Require Export Ascii.
From stdpp Require Export base gmap strings list fin_maps.

#[export] Set Default Goal Selector "!".

(** * Notations *)

Declare Scope pel_scope.
Delimit Scope pel_scope with pel.

(** A Rust [str] or [String] is a list of the bytes of its UTF-8 encoding. *)
Abbreviation str := (list ascii).

(** A byte string literal. *)
Notation "# s" := (String.list_ascii_of_string s%string) (at level 1, format "# s") : pel_scope.

Open Scope pel_scope.

(** * Tactics *)

(** Case analysis on the innermost [if] or [match] of the goal, keeping the equation. *)
Ltac case_goal :=
  match goal with
  | |- context [if ?b then _ else _] =>
      lazymatch b with context [if _ then _ else _] => fail | context [match _ with _ => _ end] => fail
      | _ => destruct b eqn:? end
  | |- context [match ?e with _ => _ end] =>
      lazymatch e with context [match _ with _ => _ end] => fail | _ => destruct e eqn:? end
  end.

(** The same in hypothesis [H]. *)
Ltac case_hyp H :=
  match type of H with
  | context [if ?b then _ else _] =>
      lazymatch b with context [if _ then _ else _] => fail | context [match _ with _ => _ end] => fail
      | _ => destruct b eqn:? end
  | context [match ?e with _ => _ end] =>
      lazymatch e with context [match _ with _ => _ end] => fail | _ => destruct e eqn:? end
  end.

(** Boolean comparisons of the context and the goal as propositions, then linear arithmetic. *)
Ltac bool_arith :=
  repeat match goal with
         | H : (_ <? _)%Z = true |- _ => apply Z.ltb_lt in H
         | H : (_ <? _)%Z = false |- _ => apply Z.ltb_ge in H
         | H : (_ <=? _)%Z = true |- _ => apply Z.leb_le in H
         | H : (_ <=? _)%Z = false |- _ => apply Z.leb_gt in H
         | H : (_ =? _)%Z = true |- _ => apply Z.eqb_eq in H
         | H : (_ =? _)%Z = false |- _ => apply Z.eqb_neq in H
         | H : (_ <? _)%nat = true |- _ => apply Nat.ltb_lt in H
         | H : (_ <? _)%nat = false |- _ => apply Nat.ltb_ge in H
         | H : (_ <=? _)%nat = true |- _ => apply Nat.leb_le in H
         | H : (_ <=? _)%nat = false |- _ => apply Nat.leb_gt in H
         | H : (_ =? _)%nat = true |- _ => apply Nat.eqb_eq in H
         | H : (_ =? _)%nat = false |- _ => apply Nat.eqb_neq in H
         | H : (_ && _)%bool = true |- _ => apply andb_true_iff in H as [? ?]
         | H : (_ || _)%bool = false |- _ => apply orb_false_iff in H as [? ?]
         | H : negb _ = true |- _ => apply negb_true_iff in H
         | H : negb _ = false |- _ => apply negb_false_iff in H
         end; try lia.

(** Replaces a hypothesis [length l = n], for a literal [n], by the explicit list. *)
Ltac explode_list l H :=
  repeat (destruct l as [|? l]; simpl in H; [ (discriminate H || fail) | ]);
  try (destruct l; [| discriminate H]).

(** Splits the disjunctions of boolean tests known to hold. *)
Ltac bool_cases :=
  repeat match goal with
         | H : (_ || _)%bool = true |- _ => destruct (orb_true_elim _ _ H); clear H
         | H : (_ && _)%bool = true |- _ => destruct (andb_prop _ _ H); clear H
         end; bool_arith.

(** * Programs that talk to the outside

    A call that leaves the program (a subprocess, a system call, a file, a socket) is an event of a
    type [E]; what comes back for an event [e] has type [R e].  The outside is an environment: a
    function from the history of the events so far (the newest first) and the new event to the
    reply.  As it ranges over all such functions, it ranges over every behaviour of the outside,
    whatever state it keeps. *)

Definition Env (E : Type) (R : E -> Type) : Type := forall (h : list E) (e : E), R e.

(** A computation over a program state [S]: it threads the state and the history. *)
Definition Sys (E : Type) (R : E -> Type) (S A : Type) : Type :=
  Env E R -> S -> list E -> A * (S * list E).

Section Sys.
Context {E : Type} {R : E -> Type} {S : Type}.

Definition ret {A} (a : A) : Sys E R S A := fun _ s h => (a, (s, h)).

Definition bind {A B} (m : Sys E R S A) (k : A -> Sys E R S B) : Sys E R S B :=
  fun env s h => let '(a, (s', h')) := m env s h in k a env s' h'.

Definition get_st : Sys E R S S := fun _ s h => (s, (s, h)).
Definition put_st (s : S) : Sys E R S unit := fun _ _ h => (tt, (s, h)).
Definition modify (f : S -> S) : Sys E R S unit := fun _ s h => (tt, (f s, h)).
Definition call (e : E) : Sys E R S (R e) := fun env s h => (env h e, (s, e :: h)).

(** A [for] loop over a list whose body has no early exit. *)
Fixpoint for_each {A} (l : list A) (body : A -> Sys E R S unit) : Sys E R S unit :=
  match l with
  | [] => ret tt
  | x :: l => bind (body x) (fun _ => for_each l body)
  end.

(** The events a computation performs never disappear from the history. *)
Definition appends {A} (m : Sys E R S A) : Prop :=
  forall env s h, exists new, snd (snd (m env s h)) = new ++ h.

Lemma appends_ret {A} (a : A) : appends (ret a).
Proof. intros env s h. by exists []. Qed.

Lemma appends_call e : appends (call e).
Proof. intros env s h. by exists [e]. Qed.

Lemma appends_get : appends get_st.
Proof. intros env s h. by exists []. Qed.

Lemma appends_put s : appends (put_st s).
Proof. intros env s' h. by exists []. Qed.

Lemma appends_bind {A B} (m : Sys E R S A) (k : A -> Sys E R S B) :
  appends m -> (forall a, appends (k a)) -> appends (bind m k).
Proof.
  intros Hm Hk env s h. unfold bind.
  destruct (Hm env s h) as [n1 H1].
  destruct (m env s h) as [a [s' h']]; simpl in *; subst.
  destruct (Hk a env s' (n1 ++ h)) as [n2 H2].
  exists (n2 ++ n1). by rewrite H2, <- app_assoc.
Qed.

Lemma appends_for_each {A} (l : list A) (body : A -> Sys E R S unit) :
  (forall a, appends (body a)) -> appends (for_each l body).
Proof. intros Hb. induction l; simpl; [apply appends_ret | by apply appends_bind]. Qed.

(** [m] keeps the property [P] of the environment, the state and the history. *)
Definition keeps {A} (P : Env E R -> S -> list E -> Prop) (m : Sys E R S A) : Prop :=
  forall env s h, P env s h -> P env (fst (snd (m env s h))) (snd (snd (m env s h))).

Lemma keeps_ret {A} P (a : A) : keeps P (ret a).
Proof. intros env s h H. exact H. Qed.

Lemma keeps_get P : keeps P get_st.
Proof. intros env s h H. exact H. Qed.

Lemma keeps_modify P (f : S -> S) :
  (forall env s h, P env s h -> P env (f s) h) -> keeps P (modify f).
Proof. intros Hf env s h H. by apply Hf. Qed.

Lemma keeps_call P e : (forall env s h, P env s h -> P env s (e :: h)) -> keeps P (call e).
Proof. intros He env s h H. by apply He. Qed.

Lemma keeps_bind {A B} P (m : Sys E R S A) (k : A -> Sys E R S B) :
  keeps P m -> (forall a, keeps P (k a)) -> keeps P (bind m k).
Proof.
  intros Hm Hk env s h H. specialize (Hm env s h H). unfold bind.
  destruct (m env s h) as [a [s' h']]. by apply Hk.
Qed.

Lemma keeps_for_each {A} P (l : list A) (body : A -> Sys E R S unit) :
  (forall a, keeps P (body a)) -> keeps P (for_each l body).
Proof. intros Hb. induction l; simpl; [apply keeps_ret | by apply keeps_bind]. Qed.

(** [m] leaves the state alone. *)
Definition steady {A} (m : Sys E R S A) : Prop := forall env s h, fst (snd (m env s h)) = s.

Lemma steady_ret {A} (a : A) : steady (ret a).
Proof. by intros env s h. Qed.
Lemma steady_get : steady get_st.
Proof. by intros env s h. Qed.
Lemma steady_call e : steady (call e).
Proof. by intros env s h. Qed.
Lemma steady_bind {A B} (m : Sys E R S A) (k : A -> Sys E R S B) :
  steady m -> (forall a, steady (k a)) -> steady (bind m k).
Proof.
  intros Hm Hk env s h. specialize (Hm env s h). unfold bind.
  destruct (m env s h) as [a [s' h']]. cbn in Hm. subst. apply Hk.
Qed.

(** A property of the state alone is kept by what leaves the state alone. *)
Lemma steady_keeps {A} (Q : S -> Prop) (m : Sys E R S A) :
  steady m -> keeps (fun _ s _ => Q s) m.
Proof. intros Hm env s h H. by rewrite Hm. Qed.

(** Running a bind whose first part leaves the state alone. *)
Lemma bind_steady {A B} (m : Sys E R S A) (k : A -> Sys E R S B) env s h :
  steady m -> exists a h', m env s h = (a, (s, h')) /\ bind m k env s h = k a env s h'.
Proof.
  intros Hm. specialize (Hm env s h). unfold bind. destruct (m env s h) as [a [s' h']].
  cbn in Hm. subst. by eexists _, _.
Qed.

(** From the state [s], [m] ends in the state [s'], whatever the outside does. *)
Definition goes {A} (m : Sys E R S A) (s s' : S) : Prop :=
  forall env h, fst (snd (m env s h)) = s'.

Lemma goes_bind {A B} (m : Sys E R S A) (k : A -> Sys E R S B) s s1 s2 :
  goes m s s1 -> (forall a, goes (k a) s1 s2) -> goes (bind m k) s s2.
Proof.
  intros Hm Hk env h. specialize (Hm env h). unfold bind.
  destruct (m env s h) as [a [s' h']]. cbn in Hm. subst. apply Hk.
Qed.

Lemma goes_bind_get {B} (k : S -> Sys E R S B) s s' : goes (k s) s s' -> goes (bind get_st k) s s'.
Proof. intros Hk env h. apply Hk. Qed.

Lemma goes_bind_modify {B} f (k : unit -> Sys E R S B) s s' :
  goes (k tt) (f s) s' -> goes (bind (modify f) k) s s'.
Proof. intros Hk env h. apply Hk. Qed.

Lemma goes_modify f s : goes (modify f) s (f s).
Proof. by intros env h. Qed.

Lemma goes_steady {A} (m : Sys E R S A) s : steady m -> goes m s s.
Proof. intros Hm env h. apply Hm. Qed.

(** Binding a call that leaves the state alone and whose result is known. *)
Lemma goes_bind_result {A B} (m : Sys E R S A) (k : A -> Sys E R S B) a s s' :
  steady m -> (forall env h, fst (m env s h) = a) -> goes (k a) s s' -> goes (bind m k) s s'.
Proof.
  intros Hm Ha Hk env h. specialize (Hm env s h). specialize (Ha env h). unfold bind.
  destruct (m env s h) as [x [s1 h1]]. cbn in *. subst. apply Hk.
Qed.

(** A program whose last step has a known result has it. *)
Lemma bind_returns {A B} (m : Sys E R S A) (k : A -> Sys E R S B) b :
  (forall a env s h, fst (k a env s h) = b) -> forall env s h, fst (bind m k env s h) = b.
Proof. intros Hk env s h. unfold bind. destruct (m env s h) as [a [s' h']]. apply Hk. Qed.
End Sys.

(** ** What is seen of a program

    An observation [see] gives, for an event and the reply to it, what is of interest; [seen] is all that
    is of interest in a history. *)
Section Seen.
Context {E : Type} {R : E -> Type} {S O : Type} (see : forall e : E, R e -> list O).

Fixpoint seen (env : Env E R) (h : list E) : list O :=
  match h with
  | [] => []
  | e :: h => seen env h ++ see e (env h e)
  end.

(** Whatever happens, [m] adds to what is seen a list that with its result is as [P] says. *)
Definition adds {A} (m : Sys E R S A) (P : A -> list O -> Prop) : Prop :=
  forall env s h, exists os, seen env (snd (snd (m env s h))) = seen env h ++ os /\ P (fst (m env s h)) os.

Definition silent {A} (m : Sys E R S A) : Prop := adds m (fun _ os => os = []).

Lemma adds_weaken {A} (m : Sys E R S A) (P Q : A -> list O -> Prop) :
  adds m P -> (forall a os, P a os -> Q a os) -> adds m Q.
Proof. intros Hm HPQ env s h. destruct (Hm env s h) as (os & H1 & H2). exists os. auto. Qed.

Lemma adds_ret {A} (a : A) (P : A -> list O -> Prop) : P a [] -> adds (ret a) P.
Proof. intros H env s h. exists []. cbn. by rewrite app_nil_r. Qed.

Lemma adds_call e (P : R e -> list O -> Prop) : (forall a, P a (see e a)) -> adds (call e) P.
Proof. intros H env s h. by exists (see e (env h e)). Qed.

Lemma adds_bind {A B} (m : Sys E R S A) (k : A -> Sys E R S B) P Q :
  adds m P -> (forall a, adds (k a) (fun b os' => forall os, P a os -> Q b (os ++ os'))) -> adds (bind m k) Q.
Proof.
  intros Hm Hk env s h. destruct (Hm env s h) as (os & H1 & H2). unfold bind.
  destruct (m env s h) as [a [s1 h1]]. cbn in *. destruct (Hk a env s1 h1) as (os' & H3 & H4).
  exists (os ++ os'). rewrite H3, H1, app_assoc. auto.
Qed.

(** With what is known of the first part's result and additions at hand. *)
Lemma adds_bind_known {A B} (m : Sys E R S A) (k : A -> Sys E R S B) P Q :
  adds m P -> (forall a os, P a os -> adds (k a) (fun b os' => Q b (os ++ os'))) -> adds (bind m k) Q.
Proof.
  intros Hm Hk env s h. destruct (Hm env s h) as (os & H1 & H2). unfold bind.
  destruct (m env s h) as [a [s1 h1]]. cbn in *. destruct (Hk a os H2 env s1 h1) as (os' & H3 & H4).
  exists (os ++ os'). rewrite H3, H1, app_assoc. auto.
Qed.

Lemma silent_ret {A} (a : A) : silent (ret a).
Proof. by apply adds_ret. Qed.
Lemma silent_call e : (forall a, see e a = []) -> silent (call e).
Proof. intros H. apply adds_call. intros a. apply H. Qed.
Lemma silent_get : silent get_st.
Proof. intros env s h. exists []. cbn. by rewrite app_nil_r. Qed.
Lemma silent_put s : silent (put_st s).
Proof. intros env s' h. exists []. cbn. by rewrite app_nil_r. Qed.
Lemma silent_modify f : silent (modify f).
Proof. intros env s h. exists []. cbn. by rewrite app_nil_r. Qed.

Lemma adds_silent {A B} (m : Sys E R S A) (k : A -> Sys E R S B) Q :
  silent m -> (forall a, adds (k a) Q) -> adds (bind m k) Q.
Proof.
  intros Hm Hk. eapply adds_bind; [exact Hm|]. intros a. eapply adds_weaken; [apply Hk|].
  intros b os' HQ os ->. exact HQ.
Qed.

Lemma silent_bind {A B} (m : Sys E R S A) (k : A -> Sys E R S B) :
  silent m -> (forall a, silent (k a)) -> silent (bind m k).
Proof. apply adds_silent. Qed.

Lemma silent_for_each {A} (l : list A) (body : A -> Sys E R S unit) :
  (forall a, silent (body a)) -> silent (for_each l body).
Proof. intros Hb. induction l as [|x l IH]; cbn [for_each]; [apply silent_ret|]. by apply adds_silent. Qed.

(** What [m] adds to what is seen is only of the kind [K]. *)
Definition only {A} (K : O -> Prop) (m : Sys E R S A) : Prop := adds m (fun _ os => Forall K os).

Lemma only_ret {A} K (a : A) : only K (ret a).
Proof. by apply adds_ret. Qed.
Lemma only_call K e : (forall a, Forall K (see e a)) -> only K (call e).
Proof. intros H. apply adds_call, H. Qed.
Lemma only_bind {A B} K (m : Sys E R S A) (k : A -> Sys E R S B) : only K m -> (forall a, only K (k a)) -> only K (bind m k).
Proof.
  intros Hm Hk. eapply adds_bind; [exact Hm|]. intros a. eapply adds_weaken; [apply Hk|].
  intros b os' Ho os Ha. by apply Forall_app.
Qed.
Lemma only_for_each {A} K (l : list A) (body : A -> Sys E R S unit) : (forall a, only K (body a)) -> only K (for_each l body).
Proof. intros Hb. induction l as [|x l IH]; [apply only_ret|]. by apply only_bind. Qed.

(** In the environment [env], from a state with [P], [m] ends with a result, a state and additions to
    what is seen that are as [Q] says. *)
Definition does {A} (env : Env E R) (P : S -> Prop) (m : Sys E R S A) (Q : A -> S -> list O -> Prop) : Prop :=
  forall s h, P s -> exists os, seen env (snd (snd (m env s h))) = seen env h ++ os
    /\ Q (fst (m env s h)) (fst (snd (m env s h))) os.

Lemma does_weaken {A} env P (m : Sys E R S A) Q Q' :
  does env P m Q -> (forall a s os, Q a s os -> Q' a s os) -> does env P m Q'.
Proof. intros Hm HQ s h HP. destruct (Hm s h HP) as (os & H1 & H2). exists os. auto. Qed.

Lemma does_pre {A} env (P P' : S -> Prop) (m : Sys E R S A) Q : (forall s, P' s -> P s) -> does env P m Q -> does env P' m Q.
Proof. intros HP Hm s h H. by apply Hm, HP. Qed.

Lemma does_bind {A B} env P (m : Sys E R S A) (k : A -> Sys E R S B) Q Q' :
  does env P m Q -> (forall a os, does env (fun s => Q a s os) (k a) (fun b s os' => Q' b s (os ++ os'))) ->
  does env P (bind m k) Q'.
Proof.
  intros Hm Hk s h HP. destruct (Hm s h HP) as (os & H1 & H2). unfold bind.
  destruct (m env s h) as [a [s1 h1]]. cbn in *. destruct (Hk a os s1 h1 H2) as (os' & H3 & H4).
  exists (os ++ os'). rewrite H3, H1, app_assoc. auto.
Qed.

Lemma does_ret {A} env P (a : A) (Q : A -> S -> list O -> Prop) : (forall s, P s -> Q a s []) -> does env P (ret a) Q.
Proof. intros H s h HP. exists []. rewrite app_nil_r. auto. Qed.

Lemma does_call env P e (Q : R e -> S -> list O -> Prop) :
  (forall h s, P s -> Q (env h e) s (see e (env h e))) -> does env P (call e) Q.
Proof. intros H s h HP. exists (see e (env h e)). cbn. auto. Qed.

(** What leaves the state alone and shows nothing. *)
Lemma does_quiet {A} env P (m : Sys E R S A) : steady m -> silent m -> does env P m (fun _ s os => P s /\ os = []).
Proof.
  intros Hst Hsi s h HP. destruct (Hsi env s h) as (os & H1 & ->). exists []. by rewrite Hst.
Qed.

Lemma does_quiet_bind {A B} env P (m : Sys E R S A) (k : A -> Sys E R S B) Q :
  steady m -> silent m -> (forall a, does env P (k a) Q) -> does env P (bind m k) Q.
Proof.
  intros Hst Hsi Hk. eapply does_bind; [by apply does_quiet|]. intros a os s h [HP ->].
  destruct (Hk a s h HP) as (os' & H1 & H2). by exists os'.
Qed.
End Seen.

Arguments ret {E R S A} a _ _ _ /.
Arguments bind {E R S A B} m k _ _ _ /.
Arguments get_st {E R S} _ _ _ /.
Arguments put_st {E R S} s _ _ _ /.
Arguments modify {E R S} f _ _ _ /.
Arguments call {E R S} e _ _ _ /.

Notation "x <- m ;; k" := (bind m (fun x => k))
  (at level 100, m at next level, k at level 200, right associativity) : pel_scope.
Notation "m ;; k" := (bind m (fun _ => k))
  (at level 100, k at level 200, right associativity) : pel_scope.

(** * Errors *)

(** [Result<A, E>]. *)
Inductive result (A E : Type) : Type :=
| Ok (a : A)
| Err (e : E).
Arguments Ok {A E} a.
Arguments Err {A E} e.

#[export] Instance result_eq_dec {A E} `{!EqDecision A, !EqDecision E} : EqDecision (result A E).
Proof. solve_decision. Defined.

Definition is_ok {A E} (r : result A E) : bool := match r with Ok _ => true | Err _ => false end.

(** The question mark operator. *)
Definition try {E R S A B X} (m : Sys E R S (result A X)) (k : A -> Sys E R S (result B X)) : Sys E R S (result B X) :=
  bind m (fun r => match r with Ok a => k a | Err e => ret (Err e) end).
Notation "x <-? m ;; k" := (try m (fun x => k))
  (at level 100, m at next level, k at level 200, right associativity) : pel_scope.
Notation "m ;;? k" := (try m (fun _ => k))
  (at level 100, k at level 200, right associativity) : pel_scope.

Section Try.
Context {E : Type} {R : E -> Type} {S O X : Type} (see : forall e : E, R e -> list O).

Lemma try_adds {A B} (m : Sys E R S (result A X)) (k : A -> Sys E R S (result B X)) P Q :
  adds see m P ->
  (forall e os, P (Err e) os -> Q (Err e) os) ->
  (forall a, adds see (k a) (fun b os' => forall os, P (Ok a) os -> Q b (os ++ os'))) ->
  adds see (try m k) Q.
Proof.
  intros Hm He Hk. eapply adds_bind; [exact Hm|]. intros [a|e]; [apply Hk|].
  apply adds_ret. intros os HP. rewrite app_nil_r. auto.
Qed.

Lemma try_silent {A B} (m : Sys E R S (result A X)) (k : A -> Sys E R S (result B X)) Q :
  silent see m -> (forall e, Q (Err e) []) -> (forall a, adds see (k a) Q) -> adds see (try m k) Q.
Proof.
  intros Hm He Hk. eapply adds_silent; [exact Hm|]. intros [a|e]; [apply Hk|]. apply adds_ret, He.
Qed.

Lemma try_quiet {A B} (m : Sys E R S (result A X)) (k : A -> Sys E R S (result B X)) :
  silent see m -> (forall a, silent see (k a)) -> silent see (try m k).
Proof. intros Hm Hk. by apply try_silent. Qed.

Lemma only_try {A B} K (m : Sys E R S (result A X)) (k : A -> Sys E R S (result B X)) :
  only see K m -> (forall a, only see K (k a)) -> only see K (try m k).
Proof. intros Hm Hk. apply only_bind; [done|]. intros [a|x]; [apply Hk|apply only_ret]. Qed.
End Try.

(** [opt.or_else(..)] and [opt.unwrap_or(..)]. *)
Definition or_else {A} (o o' : option A) : option A := match o with Some _ => o | None => o' end.
Definition unwrap_or {A} (o : option A) (d : A) : A := match o with Some a => a | None => d end.

(** What holds of all elements holds of those [retain] keeps. *)
Lemma Forall_retain {A} (P Q : A -> Prop) `{!forall x, Decision (Q x)} (l : list A) :
  Forall P l -> Forall P (filter Q l).
Proof. rewrite !Forall_forall. intros HP x [_ Hx]%list_elem_of_filter. auto. Qed.

(** * Byte lists *)

(** [l[i..j]], for [i <= j <= l.len()]. *)
Definition slice {A} (i j : nat) (l : list A) : list A := take (j - i) (drop i l).

(** [dst[i..i + src.len()].copy_from_slice(src)], within bounds. *)
Definition splice {A} (i : nat) (src dst : list A) : list A :=
  take i dst ++ src ++ drop (i + length src) dst.

Lemma length_slice {A} i j (l : list A) : i <= j -> j <= length l -> length (slice i j l) = j - i.
Proof. intros. unfold slice. rewrite length_take, length_drop. lia. Qed.

Lemma length_splice {A} i (src dst : list A) :
  i + length src <= length dst -> length (splice i src dst) = length dst.
Proof. intros. unfold splice. rewrite !length_app, length_take, length_drop. lia. Qed.

#[local] Open Scope Z_scope.

Definition is_u8 (b : Z) : Prop := 0 <= b < 256.
Definition is_u16 (b : Z) : Prop := 0 <= b < 65536.
Definition is_u32 (b : Z) : Prop := 0 <= b < 4294967296.

(** A buffer of bytes. *)
Definition bytes (l : list Z) : Prop := Forall is_u8 l.

(** [x as u8], [x as u16], [x as u32], and the [i32] whose bits are those of a [u32]. *)
Definition as_u8 (x : Z) : Z := x mod 256.
Definition as_u16 (x : Z) : Z := x mod 65536.
Definition as_u32 (x : Z) : Z := x mod 4294967296.
Definition as_i32 (x : Z) : Z := (x + 2147483648) mod 4294967296 - 2147483648.

(** [u16::from_be_bytes], [u32::from_be_bytes] and their inverses. *)
Definition be16 (hi lo : Z) : Z := hi * 256 + lo.
Definition be32 (a b c d : Z) : Z := a * 16777216 + b * 65536 + c * 256 + d.
Definition to_be16 (x : Z) : list Z := [x / 256 mod 256; x mod 256].
Definition to_be32 (x : Z) : list Z :=
  [x / 16777216 mod 256; x / 65536 mod 256; x / 256 mod 256; x mod 256].

Lemma bytes_nil : bytes [].
Proof. constructor. Qed.
Lemma bytes_cons b l : is_u8 b -> bytes l -> bytes (b :: l).
Proof. by constructor. Qed.
Lemma bytes_cons_inv b l : bytes (b :: l) -> is_u8 b /\ bytes l.
Proof. by inversion 1. Qed.
Lemma bytes_app l k : bytes l -> bytes k -> bytes (l ++ k).
Proof. intros. by apply Forall_app. Qed.
Lemma bytes_take n l : bytes l -> bytes (take n l).
Proof. apply Forall_take. Qed.
Lemma bytes_drop n l : bytes l -> bytes (drop n l).
Proof. apply Forall_drop. Qed.
Lemma bytes_slice i j l : bytes l -> bytes (slice i j l).
Proof. intros. by apply bytes_take, bytes_drop. Qed.
Lemma bytes_splice i src dst : bytes src -> bytes dst -> bytes (splice i src dst).
Proof. intros. unfold splice. auto using bytes_app, bytes_take, bytes_drop. Qed.
Lemma bytes_replicate n b : is_u8 b -> bytes (replicate n b).
Proof. intros. by apply Forall_replicate. Qed.

Lemma is_u8_mod x : is_u8 (x mod 256).
Proof. unfold is_u8. apply Z.mod_pos_bound. lia. Qed.
Lemma as_u8_is_u8 x : is_u8 (as_u8 x).
Proof. apply is_u8_mod. Qed.
Lemma as_u16_is_u16 x : is_u16 (as_u16 x).
Proof. unfold is_u16, as_u16. apply Z.mod_pos_bound. lia. Qed.

Lemma to_be16_bytes x : bytes (to_be16 x).
Proof. repeat constructor; apply Z.mod_pos_bound; lia. Qed.
Lemma to_be32_bytes x : bytes (to_be32 x).
Proof. repeat constructor; apply Z.mod_pos_bound; lia. Qed.

Lemma be16_bound hi lo : is_u8 hi -> is_u8 lo -> is_u16 (be16 hi lo).
Proof. unfold is_u8, is_u16, be16. lia. Qed.
Lemma be32_bound a b c d : is_u8 a -> is_u8 b -> is_u8 c -> is_u8 d -> is_u32 (be32 a b c d).
Proof. unfold is_u8, is_u32, be32. lia. Qed.

Lemma be16_to_be16 x : is_u16 x -> be16 (x / 256 mod 256) (x mod 256) = x.
Proof.
  unfold is_u16, be16. intros. rewrite (Z.mod_small (x / 256)).
  - pose proof (Z.div_mod x 256). lia.
  - split; [apply Z.div_pos; lia | apply Z.div_lt_upper_bound; lia].
Qed.

Lemma be32_to_be32 x : is_u32 x ->
  be32 (x / 16777216 mod 256) (x / 65536 mod 256) (x / 256 mod 256) (x mod 256) = x.
Proof.
  unfold is_u32, be32. intros.
  replace 16777216 with (65536 * 256) by lia. replace 65536 with (256 * 256) by lia.
  rewrite <- !Z.div_div by lia.
  rewrite (Z.mod_small (x / 256 / 256 / 256)).
  - pose proof (Z.div_mod x 256). pose proof (Z.div_mod (x / 256) 256).
    pose proof (Z.div_mod (x / 256 / 256) 256). lia.
  - rewrite !Z.div_div by lia.
    split; [apply Z.div_pos; lia | apply Z.div_lt_upper_bound; lia].
Qed.

(** The two's complement reading of the big-endian bytes of an [i32] gives the number back. *)
Lemma as_i32_as_u32 x : -2147483648 <= x < 2147483648 -> as_i32 (as_u32 x) = x.
Proof.
  intros. unfold as_i32, as_u32.
  rewrite Z.add_mod_idemp_l by lia. rewrite Z.mod_small by lia. lia.
Qed.

Lemma as_u32_is_u32 x : is_u32 (as_u32 x).
Proof. unfold is_u32, as_u32. apply Z.mod_pos_bound. lia. Qed.

Create HintDb bytes_db discriminated.
#[export] Hint Resolve bytes_nil bytes_cons bytes_app bytes_take bytes_drop bytes_slice
  bytes_splice bytes_replicate is_u8_mod as_u8_is_u8 as_u16_is_u16 to_be16_bytes to_be32_bytes
  be16_bound be32_bound as_u32_is_u32 : bytes_db.

#[local] Close Scope Z_scope.

Create HintDb sys_db discriminated.
#[export] Hint Resolve appends_ret appends_call appends_get appends_put appends_bind
  appends_for_each keeps_ret keeps_get keeps_bind keeps_for_each
  steady_ret steady_get steady_call steady_bind
  silent_ret silent_get silent_put silent_modify silent_bind silent_for_each : sys_db.

(** Follows the structure of a program in a goal [keeps P m], without unfolding its calls; what is
    left are the calls and the state updates. *)
Ltac keeps_go :=
  repeat lazymatch goal with
         | |- keeps _ (bind _ _) => apply keeps_bind; [|intros ?]
         | |- keeps _ (ret _) => apply keeps_ret
         | |- keeps _ get_st => apply keeps_get
         | |- keeps _ (for_each _ _) => apply keeps_for_each; intros ?
         | |- keeps _ (match ?e with _ => _ end) => destruct e eqn:?
         | |- keeps _ (let _ := _ in _) => cbv zeta
         end.

(** The same for a goal [steady m]; [sys_db] holds the calls known to be steady. *)
Ltac steady_go :=
  repeat lazymatch goal with
         | |- steady (bind _ _) => apply steady_bind; [|intros ?]
         | |- steady (ret _) => apply steady_ret
         | |- steady get_st => apply steady_get
         | |- steady (call _) => exact (steady_call _)
         | |- steady (match ?e with _ => _ end) => destruct e eqn:?
         | |- steady (let _ := _ in _) => cbv zeta
         | |- steady _ => solve [auto with sys_db]
         end.

(** The same for a goal [silent see m]; the calls that are left must be seen to be of no interest. *)
Ltac silent_go :=
  repeat lazymatch goal with
         | |- silent _ (bind _ _) => apply silent_bind; [|intros ?]
         | |- silent _ (try _ _) => apply try_quiet; [|intros ?]
         | |- silent _ (ret _) => apply silent_ret
         | |- silent _ get_st => apply silent_get
         | |- silent _ (put_st _) => apply silent_put
         | |- silent _ (modify _) => apply silent_modify
         | |- silent _ (for_each _ _) => apply silent_for_each; intros ?
         | |- silent _ (call _) => refine (silent_call _ _ _); intros ?; reflexivity
         | |- silent _ (match ?e with _ => _ end) => destruct e eqn:?
         | |- silent _ (let _ := _ in _) => cbv zeta
         | |- silent _ _ => solve [auto with sys_db]
         end.

(** The same for a goal [only see K m]; a call must show nothing that is not evidently of the kind. *)
Ltac only_go :=
  repeat lazymatch goal with
         | |- only _ _ (bind _ _) => apply only_bind; [|intros ?]
         | |- only _ _ (try _ _) => apply only_try; [|intros ?]
         | |- only _ _ (ret _) => apply only_ret
         | |- only _ _ (for_each _ _) => apply only_for_each; intros ?
         | |- only _ _ (call _) => refine (only_call _ _ _ _); intros ?; repeat constructor
         | |- only _ _ (match ?x with _ => _ end) => destruct x
         | |- only _ _ (let _ := _ in _) => cbv zeta
         | |- only _ _ _ => solve [auto with sys_db]
         end.
