(* ===== verification/RustStd.v ===== *)
(** The parts of the Rust standard library the program's text handling uses: [str] methods on the
    UTF-8 bytes of a string, decimal and hexadecimal parsing and printing of machine integers, and
    the textual form of IPv4 addresses.  [char] predicates that are tables of Unicode properties
    are exact on white space; other tables are parameters of the definitions that use them. *)

From stdpp Require Import sorting.
From S2P Require Import Prelude.

#[local] Open Scope Z_scope.

(** * Characters *)

Definition byte_of (c : ascii) : Z := Z.of_N (N_of_ascii c).
Definition of_byte (b : Z) : ascii := ascii_of_N (Z.to_N b).

Definition NL : ascii := "010".
Definition CR : ascii := "013".

Definition is_digit (c : ascii) : bool := (48 <=? byte_of c) && (byte_of c <=? 57).
Definition is_upper (c : ascii) : bool := (65 <=? byte_of c) && (byte_of c <=? 90).
Definition is_lower (c : ascii) : bool := (97 <=? byte_of c) && (byte_of c <=? 122).

(** [u8::is_ascii_alphanumeric] *)
Definition is_ascii_alphanumeric (c : ascii) : bool := is_digit c || is_upper c || is_lower c.

Definition upper (c : ascii) : ascii := if is_lower c then of_byte (byte_of c - 32) else c.
Definition lower (c : ascii) : ascii := if is_upper c then of_byte (byte_of c + 32) else c.

(** [str::to_ascii_uppercase], [str::to_ascii_lowercase] *)
Definition to_ascii_uppercase (s : str) : str := map upper s.
Definition to_ascii_lowercase (s : str) : str := map lower s.

(** The ASCII characters with the Unicode property White_Space. *)
Definition is_ascii_space (c : ascii) : bool :=
  ((9 <=? byte_of c) && (byte_of c <=? 13)) || (byte_of c =? 32).

(** [char::is_whitespace] on the first character of a byte string: the number of bytes of that
    character when it is white space, 0 when it is not. *)
Definition ws_len (s : str) : nat :=
  match s with
  | [] => 0
  | a :: t =>
      if is_ascii_space a then 1
      else match t with
           | [] => 0
           | b :: t =>
               if (byte_of a =? 194) && ((byte_of b =? 133) || (byte_of b =? 160)) then 2
               else match t with
                    | [] => 0
                    | c :: _ =>
                        let k := byte_of a * 65536 + byte_of b * 256 + byte_of c in
                        if (k =? 14785152)
                           || ((14844032 <=? k) && (k <=? 14844042))
                           || (k =? 14844072) || (k =? 14844073) || (k =? 14844079)
                           || (k =? 14844319) || (k =? 14909568)
                        then 3 else 0
                    end
           end
  end.

(** The same on the last character, given the string reversed. *)
Definition rws_len (s : str) : nat :=
  match s with
  | [] => 0
  | c :: t =>
      if is_ascii_space c then 1
      else match t with
           | [] => 0
           | b :: t =>
               if (byte_of b =? 194) && ((byte_of c =? 133) || (byte_of c =? 160)) then 2
               else match t with
                    | [] => 0
                    | a :: _ => if (ws_len [a; b; c] =? 3)%nat then 3 else 0
                    end
           end
  end.

(** Drops characters from the front while [len] says the first one is to go. *)
Fixpoint strip_front (len : str -> nat) (skip : nat) (s : str) : str :=
  match s with
  | [] => []
  | c :: t =>
      match skip with
      | S k => strip_front len k t
      | O => match len s with O => s | S k => strip_front len k t end
      end
  end.

(** [str::trim_start], [str::trim_end], [str::trim] *)
Definition trim_start (s : str) : str := strip_front ws_len 0 s.
Definition trim_end (s : str) : str := rev (strip_front rws_len 0 (rev s)).
Definition trim (s : str) : str := trim_end (trim_start s).

(** [str::trim_start_matches(c)], [str::trim_end_matches(c)], [str::trim_matches(c)] *)
Definition one (c : ascii) (s : str) : nat :=
  match s with a :: _ => if decide (a = c) then 1 else 0 | [] => 0 end.
Definition trim_start_matches (c : ascii) (s : str) : str := strip_front (one c) 0 s.
Definition trim_end_matches (c : ascii) (s : str) : str := rev (strip_front (one c) 0 (rev s)).
Definition trim_matches (c : ascii) (s : str) : str := trim_end_matches c (trim_start_matches c s).

(** The code points of a valid UTF-8 string ([str::chars]); in any other byte string, which no [str]
    is, an interrupted sequence counts as one character. *)
Fixpoint chars (s : str) : list Z :=
  match s with
  | [] => []
  | a :: t =>
      let x := byte_of a in
      if x <? 128 then x :: chars t
      else match t with
           | [] => [x]
           | b :: t1 =>
               let y := byte_of b mod 64 in
               if byte_of b <? 128 then x :: chars t
               else if x <? 224 then ((x mod 32) * 64 + y) :: chars t1
               else match t1 with
                    | [] => [x]
                    | c :: t2 =>
                        let z := byte_of c mod 64 in
                        if byte_of c <? 128 then x :: chars t1
                        else if x <? 240 then ((x mod 16) * 4096 + y * 64 + z) :: chars t2
                        else match t2 with
                             | [] => [x]
                             | d :: t3 =>
                                 if byte_of d <? 128 then x :: chars t2
                                 else ((x mod 8) * 262144 + y * 4096 + z * 64 + byte_of d mod 64)
                                      :: chars t3
                             end
                    end
           end
  end.

(** [format!("{:<n$}", s)] and [format!("{:>n$}", s)]: widths count characters. *)
Definition pad_right (n : nat) (s : str) : str := s ++ replicate (n - length (chars s)) " "%char.
Definition pad_left (n : nat) (s : str) : str := replicate (n - length (chars s)) " "%char ++ s.

(** The order of [String], and [sort] of a [Vec<String>]. *)
Fixpoint str_leb (a b : str) : bool :=
  match a, b with
  | [], _ => true
  | _ :: _, [] => false
  | x :: a, y :: b => (byte_of x <? byte_of y)%Z || ((byte_of x =? byte_of y)%Z && str_leb a b)
  end.
Definition str_le (a b : str) : Prop := str_leb a b = true.
#[export] Instance str_le_dec : RelDecision str_le.
Proof. intros a b. unfold str_le. apply _. Defined.
Definition sort_strs : list str -> list str := merge_sort str_le.

(** A slice of a [str] by byte offsets panics ([None]) outside the text and inside a character. *)
Definition is_char_boundary (s : str) (i : nat) : bool :=
  (i =? length s)%nat || match s !! i with Some c => (byte_of c <? 128) || (192 <=? byte_of c) | None => false end.
Definition split_at (i : nat) (s : str) : option (str * str) :=
  if is_char_boundary s i then Some (take i s, drop i s) else None.

(** The characters of a text, each as its bytes: a continuation byte belongs to the character before. *)
Fixpoint char_slices_go (cur : str) (s : str) : list str :=
  match s with
  | [] => match cur with [] => [] | _ => [cur] end
  | c :: t =>
      if (128 <=? byte_of c) && (byte_of c <? 192) then char_slices_go (cur ++ [c]) t
      else match cur with [] => char_slices_go [c] t | _ => cur :: char_slices_go [c] t end
  end.
Definition char_slices (s : str) : list str := char_slices_go [] s.

(** The quotation mark, for texts that contain it. *)
Definition DQ : ascii := "034".

(** * Searching and splitting *)

(** [str::strip_prefix] *)
Fixpoint strip_prefix (p s : str) : option str :=
  match p, s with
  | [], _ => Some s
  | a :: p, b :: s => if decide (a = b) then strip_prefix p s else None
  | _ :: _, [] => None
  end.

(** [str::starts_with] *)
Definition starts_with (p s : str) : bool :=
  match strip_prefix p s with Some _ => true | None => false end.

(** [str::find]: the byte index of the first occurrence. *)
Fixpoint find_sub (p s : str) : option nat :=
  if starts_with p s then Some 0%nat
  else match s with [] => None | _ :: t => S <$> find_sub p t end.

(** [str::contains] for a string pattern *)
Definition contains (p s : str) : bool :=
  match find_sub p s with Some _ => true | None => false end.

(** [str::contains] for a character pattern *)
Definition contains_char (c : ascii) (s : str) : bool := bool_decide (c ∈ s).

(** [str::split_once] with a character *)
Fixpoint split_once (sep : ascii) (s : str) : option (str * str) :=
  match s with
  | [] => None
  | c :: t =>
      if decide (c = sep) then Some ([], t)
      else match split_once sep t with Some (a, b) => Some (c :: a, b) | None => None end
  end.

(** [str::rsplit_once] with a character *)
Definition rsplit_once (sep : ascii) (s : str) : option (str * str) :=
  match split_once sep (rev s) with Some (b, a) => Some (rev a, rev b) | None => None end.

(** [str::split] with a character *)
Fixpoint split_char (sep : ascii) (s : str) : list str :=
  match s with
  | [] => [[]]
  | c :: t =>
      if decide (c = sep) then [] :: split_char sep t
      else match split_char sep t with
           | p :: ps => (c :: p) :: ps
           | [] => [[c]]
           end
  end.

(** [str::splitn] with a character *)
Fixpoint splitn (n : nat) (sep : ascii) (s : str) : list str :=
  match n with
  | O => []
  | S O => [s]
  | S m => match split_once sep s with None => [s] | Some (a, b) => a :: splitn m sep b end
  end.

(** [str::replace], for a non-empty pattern *)
Fixpoint replace_go (p r : str) (skip : nat) (s : str) : str :=
  match s with
  | [] => []
  | c :: t =>
      match skip with
      | S k => replace_go p r k t
      | O => if starts_with p s then r ++ replace_go p r (length p - 1) t
             else c :: replace_go p r 0 t
      end
  end.
Definition replace (p r s : str) : str := replace_go p r 0 s.

(** ** Validity of UTF-8 ([core::str::from_utf8])

    The ranges of the bytes that complete the character that a first byte begins, if it begins one. *)
Definition utf8_rest (x : Z) : option (list (Z * Z)) :=
  let cont := (128, 191) in
  if x <? 128 then Some []
  else if (194 <=? x) && (x <=? 223) then Some [cont]
  else if x =? 224 then Some [(160, 191); cont]
  else if x =? 237 then Some [(128, 159); cont]
  else if (225 <=? x) && (x <=? 239) then Some [cont; cont]
  else if x =? 240 then Some [(144, 191); cont; cont]
  else if (241 <=? x) && (x <=? 243) then Some [cont; cont; cont]
  else if x =? 244 then Some [(128, 143); cont; cont]
  else None.

(** The text goes on with bytes in the ranges [due] and then with whole characters. *)
Fixpoint utf8_from (due : list (Z * Z)) (s : str) : bool :=
  match s, due with
  | [], [] => true
  | [], _ :: _ => false
  | c :: s, [] => match utf8_rest (byte_of c) with Some due => utf8_from due s | None => false end
  | c :: s, (lo, hi) :: due => (lo <=? byte_of c) && (byte_of c <=? hi) && utf8_from due s
  end.
Definition valid_utf8 : str -> bool := utf8_from [].

(** [str::lines]: a line ends at a newline, which is dropped together with one carriage return
    before it; an empty last line does not count.  [acc] is the current line, reversed. *)
Fixpoint lines_go (acc : str) (s : str) : list str :=
  match s with
  | [] => match acc with [] => [] | _ => [rev acc] end
  | c :: t =>
      if decide (c = NL) then
        match acc with
        | a :: acc' => if decide (a = CR) then rev acc' else rev acc
        | [] => []
        end :: lines_go [] t
      else lines_go (c :: acc) t
  end.
Definition lines (s : str) : list str := lines_go [] s.

(** [str::split_whitespace]: the maximal non-empty runs without white space. *)
Fixpoint split_ws_go (skip : nat) (acc : str) (s : str) : list str :=
  match s with
  | [] => match acc with [] => [] | _ => [rev acc] end
  | c :: t =>
      match skip with
      | S k => split_ws_go k acc t
      | O => match ws_len s with
             | O => split_ws_go 0 (c :: acc) t
             | S k => match acc with
                      | [] => split_ws_go k [] t
                      | _ => rev acc :: split_ws_go k [] t
                      end
             end
      end
  end.
Definition split_whitespace (s : str) : list str := split_ws_go 0 [] s.

(** [slice::join] *)
Fixpoint join (sep : str) (l : list str) : str :=
  match l with
  | [] => []
  | [x] => x
  | x :: l => x ++ sep ++ join sep l
  end.

(** * Integers *)

Definition digit_val (c : ascii) : option Z :=
  if is_digit c then Some (byte_of c - 48) else None.

Definition hex_val (c : ascii) : option Z :=
  if is_digit c then Some (byte_of c - 48)
  else if (97 <=? byte_of c) && (byte_of c <=? 102) then Some (byte_of c - 87)
  else if (65 <=? byte_of c) && (byte_of c <=? 70) then Some (byte_of c - 55)
  else None.

(** The digits of [s] in the given radix after the value [acc], with the overflow check of every
    multiply-and-add of [from_str_radix]. *)
Fixpoint digits (val : ascii -> option Z) (radix mx acc : Z) (s : str) : option Z :=
  match s with
  | [] => Some acc
  | c :: t =>
      match val c with
      | None => None
      | Some d =>
          let acc' := acc * radix + d in
          if acc' <=? mx then digits val radix mx acc' t else None
      end
  end.

(** [parse::<uN>()] and [uN::from_str_radix(_, 16)], for the type whose largest value is [mx]: one
    leading [+] is accepted, an empty digit string is not. *)
Definition parse_radix (val : ascii -> option Z) (radix mx : Z) (s : str) : option Z :=
  match s with
  | [] => None
  | c :: t =>
      if decide (c = "+"%char)
      then match t with [] => None | _ => digits val radix mx 0 t end
      else digits val radix mx 0 s
  end.
Definition parse_uint : Z -> str -> option Z := parse_radix digit_val 10.
Definition parse_hex : Z -> str -> option Z := parse_radix hex_val 16.

Definition U8_MAX : Z := 255.
Definition U16_MAX : Z := 65535.
Definition U32_MAX : Z := 4294967295.
Definition U64_MAX : Z := 18446744073709551615.

Definition parse_u16 : str -> option Z := parse_uint U16_MAX.
Definition parse_u32 : str -> option Z := parse_uint U32_MAX.
(** [usize] has 64 bits on both targets. *)
Definition parse_usize : str -> option Z := parse_uint U64_MAX.

(** [to_string] of an unsigned integer; 20 digits are enough for 64 bits. *)
Fixpoint dec_go (fuel : nat) (n : Z) (acc : str) : str :=
  let acc' := of_byte (48 + n mod 10) :: acc in
  match fuel with
  | O => acc'
  | S f => if n / 10 =? 0 then acc' else dec_go f (n / 10) acc'
  end.
Definition dec (n : Z) : str := dec_go 20 n [].

(** * IPv4 addresses *)

(** An octet of [Ipv4Addr::from_str]: one to three digits, no leading zero, at most 255. *)
Definition parse_octet (s : str) : option Z :=
  match s with
  | [] => None
  | c :: t =>
      if (3 <? length s)%nat then None
      else if decide (c = "0"%char /\ t <> []) then None
      else digits digit_val 10 U8_MAX 0 s
  end.

(** [parse::<Ipv4Addr>()]; the address is its four octets. *)
Definition parse_ipv4 (s : str) : option (list Z) :=
  match split_char "." s with
  | [a; b; c; d] =>
      match parse_octet a, parse_octet b, parse_octet c, parse_octet d with
      | Some a, Some b, Some c, Some d => Some [a; b; c; d]
      | _, _, _, _ => None
      end
  | _ => None
  end.

(** [Display] of [Ipv4Addr], and [format!("{}.{}.{}.{}", ..)] of four octets. *)
Definition show_ipv4 (a : list Z) : str := join #"." (map dec a).

(** * Lemmas *)

Lemma byte_of_of_byte b : is_u8 b -> byte_of (of_byte b) = b.
Proof.
  unfold is_u8, byte_of, of_byte. intros Hb.
  rewrite N_ascii_embedding by lia. by rewrite Z2N.id by lia.
Qed.

Lemma of_byte_byte_of c : of_byte (byte_of c) = c.
Proof. unfold of_byte, byte_of. by rewrite N2Z.id, ascii_N_embedding. Qed.

Lemma byte_of_u8 c : is_u8 (byte_of c).
Proof. unfold is_u8, byte_of. pose proof (N_ascii_bounded c). lia. Qed.

Lemma byte_of_inj a b : byte_of a = byte_of b -> a = b.
Proof. intros H. by rewrite <- (of_byte_byte_of a), <- (of_byte_byte_of b), H. Qed.

(** An ASCII byte of a string is one of its characters. *)
Lemma chars_ascii c s : byte_of c < 128 -> c ∈ s -> byte_of c ∈ chars s.
Proof.
  intros Hc. remember (length s) as n eqn:Hn. revert s Hn.
  induction n as [n IH] using lt_wf_ind. intros s -> Hin.
  assert (Hrec : forall t, (length t < length s)%nat -> c ∈ t -> byte_of c ∈ chars t)
    by (intros t Ht; by apply (IH (length t))).
  assert (Hge : forall d, (byte_of d <? 128) = false -> d <> c) by (intros d ? ->; bool_arith).
  clear IH. destruct s as [|a t]; [set_solver|]. cbn [chars]. apply elem_of_cons in Hin.
  destruct (byte_of a <? 128) eqn:Ea.
  { destruct Hin as [->|Hin]; [left|]. right. apply Hrec; [cbn; lia|done]. }
  apply Hge in Ea. destruct Hin as [?|Hin]; [congruence|].
  destruct t as [|b t]; [set_solver|]. pose proof Hin as Hin1. apply elem_of_cons in Hin1.
  destruct (byte_of b <? 128) eqn:Eb.
  { right. apply Hrec; [cbn; lia|done]. }
  apply Hge in Eb. destruct Hin1 as [?|Hin1]; [congruence|].
  case_goal. { right. apply Hrec; [cbn; lia|done]. }
  destruct t as [|d t]; [set_solver|]. pose proof Hin1 as Hin2. apply elem_of_cons in Hin2.
  destruct (byte_of d <? 128) eqn:Ed.
  { right. apply Hrec; [cbn; lia|done]. }
  apply Hge in Ed. destruct Hin2 as [?|Hin2]; [congruence|].
  case_goal. { right. apply Hrec; [cbn; lia|done]. }
  destruct t as [|e t]; [set_solver|]. pose proof Hin2 as Hin3. apply elem_of_cons in Hin3.
  destruct (byte_of e <? 128) eqn:Ee.
  { right. apply Hrec; [cbn; lia|done]. }
  apply Hge in Ee. destruct Hin3 as [?|Hin3]; [congruence|].
  right. apply Hrec; [cbn; lia|done].
Qed.

(** A character that a literal does not contain, by computation. *)
Lemma not_in_literal c s : existsb (Ascii.eqb c) s = false -> c ∉ s.
Proof.
  intros He Hin. apply list_elem_of_In in Hin.
  assert (existsb (Ascii.eqb c) s = true); [|congruence].
  apply existsb_exists. exists c. split; [done | apply Ascii.eqb_refl].
Qed.

(** ** Decimal numbers *)

Lemma not_in_literals cs s : forallb (fun c => negb (existsb (Ascii.eqb c) s)) cs = true -> Forall (fun c => (c ∉ s)) cs.
Proof.
  rewrite forallb_forall. intros H. apply Forall_forall. intros c Hc%list_elem_of_In.
  by apply not_in_literal, negb_true_iff, H.
Qed.

Lemma digit_val_digit d : 0 <= d < 10 -> digit_val (of_byte (48 + d)) = Some d.
Proof.
  intros. unfold digit_val, is_digit. rewrite byte_of_of_byte by (unfold is_u8; lia).
  replace (48 <=? 48 + d) with true by (symmetry; apply Z.leb_le; lia).
  replace (48 + d <=? 57) with true by (symmetry; apply Z.leb_le; lia).
  simpl. f_equal. lia.
Qed.

Lemma digits_dec_go mx fuel : forall n acc,
  0 <= n <= mx -> n < 10 ^ (Z.of_nat fuel + 1) ->
  digits digit_val 10 mx 0 (dec_go fuel n acc) = digits digit_val 10 mx n acc.
Proof.
  induction fuel as [|f IH]; intros n acc Hn Hf; cbn [dec_go].
  - assert (n mod 10 = n) as -> by (apply Z.mod_small; lia).
    cbn [digits]. rewrite digit_val_digit by lia.
    replace (0 * 10 + n <=? mx) with true by (symmetry; apply Z.leb_le; lia). done.
  - pose proof (Z.mod_pos_bound n 10 ltac:(lia)). pose proof (Z.div_mod n 10 ltac:(lia)).
    assert (n / 10 < 10 ^ (Z.of_nat f + 1)).
    { apply Z.div_lt_upper_bound; [lia|].
      replace (Z.of_nat (S f) + 1) with (Z.succ (Z.of_nat f + 1)) in Hf by lia.
      rewrite Z.pow_succ_r in Hf by lia. done. }
    destruct (n / 10 =? 0) eqn:E; bool_arith.
    + cbn [digits]. rewrite digit_val_digit by lia.
      replace (0 * 10 + n mod 10 <=? mx) with true by (symmetry; apply Z.leb_le; lia).
      f_equal. lia.
    + rewrite IH by lia. cbn [digits]. rewrite digit_val_digit by lia.
      replace (n / 10 * 10 + n mod 10 <=? mx) with true by (symmetry; apply Z.leb_le; lia).
      f_equal. lia.
Qed.

(** The bytes of a decimal number are digits, and there is at least one. *)
Lemma dec_go_digits fuel : forall n acc,
  0 <= n -> Forall (fun c => is_digit c = true) acc ->
  Forall (fun c => is_digit c = true) (dec_go fuel n acc) /\ dec_go fuel n acc <> [].
Proof.
  assert (Hd : forall n, 0 <= n -> is_digit (of_byte (48 + n mod 10)) = true).
  { intros n Hn. pose proof (Z.mod_pos_bound n 10 ltac:(lia)).
    unfold is_digit. rewrite byte_of_of_byte by (unfold is_u8; lia).
    apply andb_true_iff; split; apply Z.leb_le; lia. }
  induction fuel as [|f IH]; intros n acc Hn Ha; cbn [dec_go].
  - split; [constructor; auto | done].
  - case_goal; [split; [constructor; auto | done]|].
    apply IH; [apply Z.div_pos; lia | constructor; auto].
Qed.

Lemma dec_digits n : 0 <= n -> Forall (fun c => is_digit c = true) (dec n).
Proof. intros. by apply dec_go_digits. Qed.
Lemma dec_not_nil n : 0 <= n -> dec n <> [].
Proof. intros. by apply dec_go_digits. Qed.

(** Printing then parsing an unsigned integer of at most 64 bits. *)
Lemma parse_uint_dec mx n : 0 <= n <= mx -> n <= U64_MAX -> parse_uint mx (dec n) = Some n.
Proof.
  intros Hn Hmx. unfold parse_uint, parse_radix.
  pose proof (dec_digits n ltac:(lia)) as Hd. pose proof (dec_not_nil n ltac:(lia)).
  assert (digits digit_val 10 mx 0 (dec n) = Some n) as Hp.
  { unfold dec. rewrite digits_dec_go; [done | lia |]. unfold U64_MAX in Hmx. cbn. lia. }
  destruct (dec n) as [|c t] eqn:E; [done|].
  case_decide as Hc; [|done]. subst c. inversion Hd. discriminate.
Qed.

(** What parses is in range. *)
Lemma digits_bound val r mx s : forall acc n,
  (forall c d, val c = Some d -> 0 <= d) -> 0 <= r -> 0 <= acc <= mx ->
  digits val r mx acc s = Some n -> 0 <= n <= mx.
Proof.
  induction s as [|c t IH]; intros acc n Hv Hr Ha H; cbn [digits] in H; [by simplify_eq|].
  destruct (val c) as [d|] eqn:Ed; [|done].
  destruct (acc * r + d <=? mx) eqn:E; [|done]. bool_arith.
  apply (IH (acc * r + d) n); auto. apply Hv in Ed. nia.
Qed.

Lemma digit_val_nonneg c d : digit_val c = Some d -> 0 <= d.
Proof. unfold digit_val, is_digit. intros. case_match; simplify_eq. bool_arith. Qed.

Lemma parse_uint_bound mx s n : 0 <= mx -> parse_uint mx s = Some n -> 0 <= n <= mx.
Proof.
  intros Hmx H. unfold parse_uint, parse_radix in H. destruct s as [|c t]; [done|].
  case_decide; [destruct t; [done|]|];
    (eapply digits_bound; [apply digit_val_nonneg | | | exact H]; lia).
Qed.

(** ** Splitting *)

Lemma split_once_none sep s : sep ∉ s -> split_once sep s = None.
Proof.
  induction s as [|c t IH]; intros H; [done|]. cbn.
  apply not_elem_of_cons in H as [??]. rewrite decide_False by congruence.
  by rewrite IH.
Qed.

Lemma split_once_app sep a b : sep ∉ a -> split_once sep (a ++ sep :: b) = Some (a, b).
Proof.
  induction a as [|c t IH]; intros H; cbn; [by rewrite decide_True|].
  apply not_elem_of_cons in H as [??]. rewrite decide_False by congruence. by rewrite IH.
Qed.

Lemma split_once_inv sep s a b : split_once sep s = Some (a, b) -> s = a ++ sep :: b /\ sep ∉ a.
Proof.
  revert a b. induction s as [|c t IH]; intros a b; cbn; [done|].
  case_decide; [intros; simplify_eq; set_solver|].
  destruct (split_once sep t) as [[x y]|]; [|done]. intros; simplify_eq.
  destruct (IH _ _ eq_refl) as [-> ?]. set_solver.
Qed.

Lemma split_char_none sep s : sep ∉ s -> split_char sep s = [s].
Proof.
  induction s as [|c t IH]; intros H; [done|]. cbn.
  apply not_elem_of_cons in H as [??]. rewrite decide_False by congruence. by rewrite IH.
Qed.

Lemma split_char_app sep a b : sep ∉ a -> split_char sep (a ++ sep :: b) = a :: split_char sep b.
Proof.
  induction a as [|c t IH]; intros H; cbn; [by rewrite decide_True|].
  apply not_elem_of_cons in H as [??]. rewrite decide_False by congruence. by rewrite IH.
Qed.

Lemma strip_prefix_app p s : strip_prefix p (p ++ s) = Some s.
Proof. induction p; cbn; [done|]. by rewrite decide_True. Qed.

Lemma strip_prefix_inv p s t : strip_prefix p s = Some t -> s = p ++ t.
Proof.
  revert s. induction p as [|a p IH]; intros s; cbn; [by intros; simplify_eq|].
  destruct s as [|b s]; [done|]. case_decide; [|done]. intros Hp. subst.
  by rewrite <- (IH s).
Qed.

Lemma starts_with_app p s : starts_with p (p ++ s) = true.
Proof. unfold starts_with. by rewrite strip_prefix_app. Qed.

(** A character that is not a digit does not occur in a decimal number. *)
Lemma not_in_dec c n : 0 <= n -> is_digit c = false -> c ∉ dec n.
Proof.
  intros Hn Hc Hin. pose proof (dec_digits n Hn) as Hd.
  rewrite Forall_forall in Hd. apply Hd in Hin. congruence.
Qed.

(** ** Lines *)

Lemma lines_go_app_nl acc s t :
  lines_go acc (s ++ NL :: t) = lines_go acc (s ++ [NL]) ++ lines_go [] t.
Proof.
  revert acc. induction s as [|c s IH]; intros acc; cbn [app lines_go].
  - by rewrite !decide_True.
  - case_decide; [by rewrite IH | by rewrite IH].
Qed.

(** Lines of a text that ends its last line, followed by another text. *)
Lemma lines_app s t : lines ((s ++ [NL]) ++ t) = lines (s ++ [NL]) ++ lines t.
Proof. unfold lines. rewrite <- app_assoc. cbn. apply lines_go_app_nl. Qed.

Lemma lines_go_no_nl acc s : NL ∉ s -> acc ++ s <> [] -> lines_go acc s = [rev acc ++ s].
Proof.
  revert acc. induction s as [|c s IH]; intros acc Hs Hne; cbn [lines_go].
  - rewrite app_nil_r in *. by destruct acc.
  - apply not_elem_of_cons in Hs as [??]. rewrite decide_False by congruence.
    rewrite IH; [| done | by destruct s]. cbn [rev]. by rewrite <- app_assoc.
Qed.

(** A line without line breaks, ended by a newline. *)
Lemma lines_go_one acc s :
  NL ∉ s -> CR ∉ acc ++ s -> lines_go acc (s ++ [NL]) = [rev acc ++ s].
Proof.
  revert acc. induction s as [|c s IH]; intros acc Hs Hc; cbn [app lines_go].
  - rewrite decide_True by done. rewrite app_nil_r in *. f_equal. destruct acc; [done|].
    rewrite decide_False; [done|]. set_solver.
  - apply not_elem_of_cons in Hs as [??]. rewrite decide_False by congruence.
    rewrite IH; [| done | set_solver]. cbn [rev]. by rewrite <- app_assoc.
Qed.

Lemma lines_one s : NL ∉ s -> CR ∉ s -> lines (s ++ [NL]) = [s].
Proof. intros. unfold lines. by rewrite lines_go_one. Qed.

(** The same when only the last character of the line is known not to be a carriage return. *)
Lemma lines_go_last acc s :
  NL ∉ s -> last (rev acc ++ s) <> Some CR -> lines_go acc (s ++ [NL]) = [rev acc ++ s].
Proof.
  revert acc. induction s as [|c s IH]; intros acc Hs Hc; cbn [app lines_go].
  - rewrite decide_True by done. rewrite app_nil_r in *. f_equal. destruct acc as [|a acc]; [done|].
    cbn [rev] in Hc. rewrite last_snoc in Hc. rewrite decide_False; [done|]. congruence.
  - apply not_elem_of_cons in Hs as [??]. rewrite decide_False by congruence.
    rewrite IH; [| done |]; cbn [rev]; by rewrite <- app_assoc.
Qed.

(** Text made of lines is split into them. *)
Definition unlines (ls : list str) : str := concat (map (fun l : str => (l ++ [NL])) ls).

Lemma lines_unlines ls : Forall (fun l => (NL ∉ l) /\ last l <> Some CR) ls -> lines (unlines ls) = ls.
Proof.
  unfold unlines. induction 1 as [|l ls [Hn Hc] _ IH]; [done|]. cbn [map concat]. rewrite lines_app, IH.
  unfold lines. by rewrite lines_go_last.
Qed.

(** No line contains a newline. *)
Lemma lines_go_no_nl_in acc s l : NL ∉ acc -> l ∈ lines_go acc s -> NL ∉ l.
Proof.
  assert (Hrev : forall a : str, NL ∉ a -> NL ∉ rev a).
  { intros a H. by rewrite list_elem_of_In, <- in_rev, <- list_elem_of_In. }
  revert acc. induction s as [|c s IH]; intros acc Ha Hl; cbn [lines_go] in Hl.
  - destruct acc; [set_solver|]. apply list_elem_of_singleton in Hl as ->. by apply Hrev.
  - case_decide as Hc.
    + apply elem_of_cons in Hl as [->|Hl]; [|eapply IH, Hl; set_solver].
      destruct acc as [|a acc]; [set_solver|]. case_decide; apply Hrev; set_solver.
    + eapply IH, Hl. set_solver.
Qed.

Lemma lines_no_nl s l : l ∈ lines s -> NL ∉ l.
Proof. apply lines_go_no_nl_in. set_solver. Qed.

(** ** UTF-8 *)

Lemma utf8_from_app due a b : utf8_from due a = true -> utf8_from due (a ++ b) = valid_utf8 b.
Proof.
  revert due. induction a as [|c a IH]; intros due H; cbn [app utf8_from] in *; [by destruct due|].
  destruct due as [|[lo hi] due]; [destruct (utf8_rest _); [by apply IH|done]|].
  apply andb_true_iff in H as [-> H]. by apply IH.
Qed.

Lemma valid_utf8_app a b : valid_utf8 a = true -> valid_utf8 b = true -> valid_utf8 (a ++ b) = true.
Proof. intros Ha Hb. unfold valid_utf8 at 1. by rewrite utf8_from_app. Qed.

Lemma valid_utf8_concat (l : list str) : Forall (fun s => valid_utf8 s = true) l -> valid_utf8 (concat l) = true.
Proof. induction 1; [done|]. by apply valid_utf8_app. Qed.

Definition ascii_only (s : str) : bool := forallb (fun c => byte_of c <? 128) s.

Lemma utf8_rest_ascii x : x < 128 -> utf8_rest x = Some [].
Proof. intros H. unfold utf8_rest. by rewrite (proj2 (Z.ltb_lt _ _) H). Qed.

Lemma ascii_utf8 s : ascii_only s = true -> valid_utf8 s = true.
Proof.
  unfold valid_utf8. induction s as [|c s IH]; intros H; [done|]. cbn in *. apply andb_true_iff in H as [H%Z.ltb_lt Hs].
  rewrite utf8_rest_ascii by done. by apply IH.
Qed.

(** The bytes that complete a character are not ASCII. *)
Lemma utf8_rest_high x due : utf8_rest x = Some due -> Forall (fun r => 128 <= r.1) due.
Proof. unfold utf8_rest. repeat case_match; intros; simplify_eq; repeat constructor; cbn; lia. Qed.

(** Replacing ASCII characters by ASCII texts keeps a text valid. *)
Lemma utf8_from_map (f : ascii -> str) s : (forall c, byte_of c < 128 -> ascii_only (f c) = true) -> (forall c, 128 <= byte_of c -> f c = [c]) ->
  forall due, Forall (fun r => 128 <= r.1) due -> utf8_from due s = true -> utf8_from due (flat_map f s) = true.
Proof.
  intros Hlow Hhigh. induction s as [|c s IH]; intros due Hdue H; [done|]. cbn [flat_map]. destruct (Z.lt_ge_cases (byte_of c) 128) as [Hc|Hc].
  - destruct due as [|[lo hi] due]; cbn [utf8_from] in H.
    + rewrite utf8_rest_ascii in H by done. apply valid_utf8_app; [by apply ascii_utf8, Hlow|]. by apply IH.
    + apply andb_true_iff in H as [H _]. apply andb_true_iff in H as [H%Z.leb_le _]. apply Forall_inv in Hdue. cbn in Hdue. lia.
  - rewrite Hhigh by done. cbn [app utf8_from] in *. destruct due as [|[lo hi] due].
    + destruct (utf8_rest (byte_of c)) as [due|] eqn:E; [|done]. apply IH; [by eapply utf8_rest_high|done].
    + apply andb_true_iff in H as [-> H]. apply IH; [by inversion Hdue|done].
Qed.

Lemma valid_utf8_map (f : ascii -> str) s : (forall c, byte_of c < 128 -> ascii_only (f c) = true) -> (forall c, 128 <= byte_of c -> f c = [c]) ->
  valid_utf8 s = true -> valid_utf8 (flat_map f s) = true.
Proof. intros Hlow Hhigh. by apply utf8_from_map. Qed.

(** ** Replacing *)

Lemma starts_with_cons a b p s : starts_with (a :: p) (b :: s) = if decide (a = b) then starts_with p s else false.
Proof. unfold starts_with. cbn [strip_prefix]. by case_decide. Qed.

Lemma replace_go_skip p r n : forall s, replace_go p r n s = replace p r (drop n s).
Proof.
  induction n as [|n IH]; intros s; [by rewrite drop_0|]. destruct s as [|c s]; [done|]. apply IH.
Qed.

Lemma replace_here p r s : p <> [] -> replace p r (p ++ s) = r ++ replace p r s.
Proof.
  intros Hp. destruct p as [|c p]; [done|]. unfold replace at 1.
  change ((c :: p) ++ s) with (c :: (p ++ s)). cbn [replace_go].
  change (c :: p ++ s) with ((c :: p) ++ s). rewrite starts_with_app, replace_go_skip. cbn [length].
  replace (S (length p) - 1)%nat with (length p) by lia. by rewrite drop_app_length.
Qed.

Lemma replace_skip p r c s : starts_with p (c :: s) = false -> replace p r (c :: s) = c :: replace p r s.
Proof. intros H. unfold replace. cbn [replace_go]. by rewrite H. Qed.

(** Text without the first character of the pattern is copied. *)
Lemma replace_copy c p r a s : c ∉ a -> replace (c :: p) r (a ++ s) = a ++ replace (c :: p) r s.
Proof.
  induction a as [|b a IH]; [done|]. intros [Hb Ha]%not_elem_of_cons. cbn [app].
  rewrite replace_skip, IH; [done|done|]. unfold starts_with. cbn. by rewrite decide_False.
Qed.

Lemma replace_not_in c p r s : c ∉ r -> c ∉ s -> c ∉ replace p r s.
Proof.
  intros Hr. unfold replace. generalize 0%nat as n. induction s as [|b s IH]; intros n Hs; [done|].
  apply not_elem_of_cons in Hs as [Hb Hs]. cbn. destruct n; [|by apply IH].
  case_goal; [apply not_elem_of_app | apply not_elem_of_cons]; auto.
Qed.

(** ** Trimming *)

(** An ASCII character that is not white space. *)
Definition is_graph (c : ascii) : bool := (byte_of c <? 128) && negb (is_ascii_space c).

Lemma ws_len_graph c t : is_graph c = true -> ws_len (c :: t) = 0%nat.
Proof.
  unfold is_graph. intros H. apply andb_true_iff in H as [Hc Hs].
  apply negb_true_iff in Hs. bool_arith. unfold ws_len. rewrite Hs.
  destruct t as [|b t]; [done|].
  replace (byte_of c =? 194) with false by (symmetry; apply Z.eqb_neq; lia). simpl.
  destruct t as [|d t]; [done|].
  pose proof (byte_of_u8 c). pose proof (byte_of_u8 b). pose proof (byte_of_u8 d).
  unfold is_u8 in *. case_goal; [|done].
  bool_cases.
Qed.

Lemma rws_len_graph c t : is_graph c = true -> rws_len (c :: t) = 0%nat.
Proof.
  unfold is_graph. intros H. apply andb_true_iff in H as [Hc Hs].
  apply negb_true_iff in Hs. bool_arith. unfold rws_len. rewrite Hs.
  destruct t as [|b t]; [done|].
  replace (byte_of c =? 133) with false by (symmetry; apply Z.eqb_neq; lia).
  replace (byte_of c =? 160) with false by (symmetry; apply Z.eqb_neq; lia).
  rewrite andb_false_r. destruct t as [|a t]; [done|].
  case_goal; [|done]. exfalso.
  assert (ws_len [a; b; c] <> 3%nat) as Hn; [|bool_arith].
  clear -Hc. unfold ws_len. case_goal; [done|]. case_goal; [done|]. case_goal; [|done].
  pose proof (byte_of_u8 c). unfold is_u8 in *.
  bool_cases.
Qed.

(** A text that begins and ends with a graphic ASCII character is already trimmed. *)
Lemma trim_start_graph c t : is_graph c = true -> trim_start (c :: t) = c :: t.
Proof. intros H. unfold trim_start. cbn [strip_front]. by rewrite ws_len_graph. Qed.

Lemma trim_end_graph c t : is_graph c = true -> trim_end (t ++ [c]) = t ++ [c].
Proof.
  intros H. unfold trim_end. rewrite rev_app_distr. cbn [rev app strip_front].
  rewrite rws_len_graph by done. cbn [rev]. by rewrite rev_involutive.
Qed.

(** A non-empty text whose first and last characters are graphic. *)
Definition tight (s : str) : Prop :=
  exists a b t, is_graph a = true /\ is_graph b = true /\ (s = [a] /\ a = b \/ s = a :: t ++ [b]).

Lemma trim_tight s : tight s -> trim s = s.
Proof.
  intros (a & b & t & Ha & Hb & [[-> <-]| ->]); unfold trim; rewrite trim_start_graph by done.
  - by apply (trim_end_graph a []).
  - by apply (trim_end_graph b (a :: t)).
Qed.

Lemma tight_graph s : s <> [] -> Forall (fun c => is_graph c = true) s -> tight s.
Proof.
  destruct s as [|a s]; [done|]. intros _ Hs. apply Forall_cons in Hs as [Ha Hs].
  destruct s as [|c s] using rev_ind; [exists a, a, []; auto|].
  apply Forall_app in Hs as [_ Hc]. apply Forall_cons in Hc as [Hc _]. exists a, c, s. auto.
Qed.

Lemma tight_app s m t : tight s -> tight t -> tight (s ++ m ++ t).
Proof.
  intros (a & b & u & Ha & _ & Hs) (c & d & v & _ & Hd & Ht). exists a, d.
  destruct Hs as [[-> <-]| ->], Ht as [[-> <-]| ->].
  - exists m. auto.
  - exists (m ++ c :: v). split; [done|]. split; [done|]. right. cbn. by rewrite <- app_assoc.
  - exists (u ++ [b] ++ m). split; [done|]. split; [done|]. right. cbn. by rewrite <- !app_assoc.
  - exists (u ++ [b] ++ m ++ c :: v). split; [done|]. split; [done|]. right.
    cbn. by rewrite <- !app_assoc; cbn; rewrite <- !app_assoc.
Qed.

Lemma trim_start_space s : trim_start (" "%char :: s) = trim_start s.
Proof. done. Qed.

Lemma trim_end_space s : trim_end (s ++ [" "%char]) = trim_end s.
Proof. unfold trim_end. by rewrite rev_app_distr. Qed.

(** ** IPv4 addresses *)

Lemma octet_round n : is_u8 n -> parse_octet (dec n) = Some n.
Proof.
  intros Hn.
  assert (Hall : forallb (fun k => bool_decide (parse_octet (dec (Z.of_nat k)) = Some (Z.of_nat k)))
                   (seq 0 256) = true) by (vm_compute; reflexivity).
  rewrite forallb_forall in Hall. specialize (Hall (Z.to_nat n)).
  unfold is_u8 in Hn. rewrite Z2Nat.id in Hall by lia.
  eapply bool_decide_eq_true_1. apply Hall, in_seq. lia.
Qed.

(** An IPv4 address printed in dotted form parses to its octets. *)
Lemma parse_show_ipv4 a b c d :
  is_u8 a -> is_u8 b -> is_u8 c -> is_u8 d -> parse_ipv4 (show_ipv4 [a; b; c; d]) = Some [a; b; c; d].
Proof.
  intros Ha Hb Hc Hd. unfold parse_ipv4, show_ipv4. cbn [map join].
  assert (Hdot : forall n, is_u8 n -> "."%char ∉ dec n).
  { intros n Hn. apply not_in_dec; [unfold is_u8 in Hn; lia | done]. }
  change #"." with ["."%char]. cbn [app].
  rewrite !split_char_app, split_char_none by auto. by rewrite !octet_round.
Qed.

Lemma parse_octet_u8 s n : parse_octet s = Some n -> is_u8 n.
Proof.
  unfold parse_octet. destruct s as [|c t]; [done|]. case_match; [done|]. case_match; [done|].
  intros Hd. unfold is_u8. eapply digits_bound in Hd; unfold U8_MAX in *; try lia.
  apply digit_val_nonneg.
Qed.

(** What parses as an address is four bytes. *)
Lemma parse_ipv4_bytes s l : parse_ipv4 s = Some l -> length l = 4%nat /\ bytes l.
Proof.
  unfold parse_ipv4. intros Hp. repeat (case_hyp Hp; try done). simplify_eq. split; [done|].
  repeat constructor; eapply parse_octet_u8; eassumption.
Qed.

Lemma dec_graph n : 0 <= n -> Forall (fun c => is_graph c = true) (dec n).
Proof.
  intros Hn. eapply Forall_impl; [apply dec_digits, Hn|]. intros c Hc.
  unfold is_digit, is_graph, is_ascii_space in *. bool_cases.
Qed.

(** A printed address has only graphic characters. *)
Lemma show_ipv4_graph a : Forall (fun n => 0 <= n) a -> Forall (fun c => is_graph c = true) (show_ipv4 a).
Proof.
  unfold show_ipv4. induction 1 as [|n a Hn Ha IH]; [constructor|]. cbn [map join].
  destruct (map dec a) eqn:E; [by apply dec_graph|]. apply Forall_app. split; [by apply dec_graph|].
  apply Forall_app. split; [by repeat constructor | done].
Qed.

Lemma show_ipv4_no c a : Forall (fun n => 0 <= n) a -> is_graph c = false -> c ∉ show_ipv4 a.
Proof.
  intros Ha Hc Hin. pose proof (show_ipv4_graph a Ha) as Hg. rewrite Forall_forall in Hg.
  apply Hg in Hin. congruence.
Qed.

Lemma show_ipv4_not_nil a : a <> [] -> Forall (fun n => 0 <= n) a -> show_ipv4 a <> [].
Proof.
  destruct a as [|n a]; [done|]. intros _ Ha. apply Forall_cons in Ha as [Hn _]. unfold show_ipv4.
  cbn [map join]. pose proof (dec_not_nil n Hn). destruct (map dec a); [done|]. by destruct (dec n).
Qed.
