(* ===== verification/JsonText.v ===== *)
(** JSON texts as the programs exchange them: values, what the components rely on of the JSON library
    ([serde_json]: compact output, and input that takes whole texts), and a printer and parser of compact JSON
    that fulfil it, so that theorems about texts have concrete instances. *)

From S2P Require Import Prelude RustStd.

#[local] Open Scope Z_scope.

(** * Values *)

Inductive jval : Type :=
| JNull
| JBool (b : bool)
| JNum (z : Z)
| JStr (s : str)
| JArr (l : list jval)
| JObj (m : list (str * jval)).

(** Induction that reaches the elements of arrays and objects. *)
Section Induction.
Context (P : jval -> Prop) (Hnull : P JNull) (Hbool : forall b, P (JBool b)) (Hnum : forall z, P (JNum z)) (Hstr : forall s, P (JStr s)).
Context (Harr : forall l, Forall P l -> P (JArr l)) (Hobj : forall m, Forall (fun kv => P kv.2) m -> P (JObj m)).

Fixpoint jval_ind' (v : jval) : P v :=
  match v with
  | JNull => Hnull
  | JBool b => Hbool b
  | JNum z => Hnum z
  | JStr s => Hstr s
  | JArr l => Harr l ((fix go l := match l return Forall P l with
                                   | [] => Forall_nil_2 P
                                   | x :: l => Forall_cons_2 P x l (jval_ind' x) (go l)
                                   end) l)
  | JObj m => Hobj m ((fix go m := match m return Forall (fun kv => P kv.2) m with
                                   | [] => Forall_nil_2 _
                                   | kv :: m => Forall_cons_2 _ kv m (jval_ind' kv.2) (go m)
                                   end) m)
  end.
End Induction.

(** Numbers that fit the library's integers ([i64] or [u64]). *)
Definition fits_number (z : Z) : bool := (-9223372036854775808 <=? z) && (z <=? U64_MAX).
Fixpoint numbers_fit (v : jval) : bool :=
  match v with
  | JNum z => fits_number z
  | JArr l => forallb numbers_fit l
  | JObj m => forallb (fun kv => numbers_fit kv.2) m
  | _ => true
  end.

(** Such numbers, and no more than [n] levels of arrays and objects. *)
Fixpoint within (n : nat) (v : jval) : bool :=
  match v with
  | JNum z => fits_number z
  | JArr l => match n with O => false | S n => forallb (within n) l end
  | JObj m => match n with O => false | S n => forallb (fun kv => within n kv.2) m end
  | _ => true
  end.

(** The library reads 127 levels. *)
Definition readable (v : jval) : bool := within 127 v.

Lemma within_numbers v : forall n, within n v = true -> numbers_fit v = true.
Proof.
  induction v as [|b|z|s|l IH|m IH] using jval_ind'; intros [|n] H; try done; cbn in *; rewrite forallb_forall in *; rewrite Forall_forall in IH;
    intros x Hx; by eapply IH; [apply list_elem_of_In|apply H].
Qed.

Lemma readable_numbers v : readable v = true -> numbers_fit v = true.
Proof. unfold readable. apply within_numbers. Qed.

(** A string of which no character is escaped. *)
Definition plain_char (c : ascii) : bool := (32 <=? byte_of c) && negb (bool_decide (c = DQ)) && negb (bool_decide (c = "\"%char)).
Definition plain (s : str) : bool := forallb plain_char s.
Definition quote (s : str) : str := [DQ] ++ s ++ [DQ].

(** Every string in it is UTF-8, as a Rust [String] is. *)
Fixpoint jval_utf8 (v : jval) : bool :=
  match v with
  | JStr s => valid_utf8 s
  | JArr l => forallb jval_utf8 l
  | JObj m => forallb (fun kv => valid_utf8 kv.1 && jval_utf8 kv.2) m
  | _ => true
  end.

(** * What is relied on

    [to_string] and [from_str]: a printed value is read back; plain strings are printed between quotes, numbers in
    decimal, and objects without white space; numbers beyond 64 bits and values nested deeper than 127 levels are left out; a printed value has no line break and is UTF-8 if its strings are;
    and neither a text that was cut nor the empty text is read. *)
Class JsonText := {
  to_string : jval -> str;
  of_string : str -> option jval;
  of_to_string v : readable v = true -> of_string (to_string v) = Some v;
  to_string_plain s : plain s = true -> to_string (JStr s) = quote s;
  to_string_num z : fits_number z = true -> to_string (JNum z) = (if z <? 0 then "-"%char :: dec (- z) else dec z);
  to_string_obj m : to_string (JObj m) = #"{" ++ join #"," (map (fun kv => to_string (JStr kv.1) ++ #":" ++ to_string kv.2) m) ++ #"}";
  to_string_line v : NL ∉ to_string v;
  to_string_utf8 v : jval_utf8 v = true -> valid_utf8 (to_string v) = true;
  of_string_cut m q : readable (JObj m) = true -> q `prefix_of` to_string (JObj m) -> q <> to_string (JObj m) -> of_string q = None }.

(** An object's text begins and ends with a brace. *)
Lemma to_string_tight `{JsonText} m : tight (to_string (JObj m)).
Proof. rewrite to_string_obj. eexists "{"%char, "}"%char, _. split; [done|]. split; [done|]. right. reflexivity. Qed.

(** * Compact JSON *)

(** ** Printing *)

Definition hex_digit (n : Z) : ascii := of_byte (if n <? 10 then 48 + n else 87 + n).

(** The characters with an escape of one letter. *)
Definition short : list (ascii * ascii) :=
  [(DQ, DQ); ("\"%char, "\"%char); ("n"%char, NL); ("r"%char, CR); ("t"%char, of_byte 9); ("b"%char, of_byte 8); ("f"%char, of_byte 12)].

Definition escape (c : ascii) : str :=
  match List.find (fun p => bool_decide (p.2 = c)) short with
  | Some (d, _) => ["\"%char; d]
  | None =>
  if byte_of c <? 32 then #"\u00" ++ [hex_digit (byte_of c / 16); hex_digit (byte_of c mod 16)]
  else [c]
  end.

Definition print_str (s : str) : str := quote (flat_map escape s).
Definition print_num (z : Z) : str := if z <? 0 then "-"%char :: dec (- z) else dec z.

Fixpoint print (v : jval) : str :=
  match v with
  | JNull => #"null"
  | JBool b => if b then #"true" else #"false"
  | JNum z => print_num z
  | JStr s => print_str s
  | JArr l => #"[" ++ join #"," (map print l) ++ #"]"
  | JObj m => #"{" ++ join #"," (map (fun kv => print_str kv.1 ++ #":" ++ print kv.2) m) ++ #"}"
  end.

(** ** Parsing: the value and what is left *)

Fixpoint parse_str (acc : str) (s : str) : option (str * str) :=
  match s with
  | [] => None
  | c :: s =>
      if bool_decide (c = DQ) then Some (rev acc, s)
      else if bool_decide (c = "\"%char) then
        match s with
        | d :: s =>
            match List.find (fun p => bool_decide (p.1 = d)) short with
            | Some (_, c) => parse_str (c :: acc) s
            | None =>
                match s with
                | z1 :: z2 :: a :: b :: s =>
                    if bool_decide (d = "u"%char /\ z1 = "0"%char /\ z2 = "0"%char) then
                      match hex_val a, hex_val b with
                      | Some x, Some y => parse_str (of_byte (16 * x + y) :: acc) s
                      | _, _ => None
                      end
                    else None
                | _ => None
                end
            end
        | [] => None
        end
      else if byte_of c <? 32 then None
      else parse_str (c :: acc) s
  end.

(** The digits at the front. *)
Fixpoint take_digits (s : str) : str * str :=
  match s with
  | c :: t => if is_digit c then let '(d, r) := take_digits t in (c :: d, r) else ([], s)
  | [] => ([], [])
  end.

Definition parse_num (s : str) : option (Z * str) :=
  match s with
  | c :: t =>
      if bool_decide (c = "-"%char) then
        let '(d, r) := take_digits t in n ← parse_uint 9223372036854775808 d; Some (- n, r)
      else let '(d, r) := take_digits s in n ← parse_uint U64_MAX d; Some (n, r)
  | [] => None
  end.

Fixpoint parse_value (fuel : nat) (s : str) : option (jval * str) :=
  match fuel, s with
  | O, _ | _, [] => None
  | S fuel, c :: t =>
      if bool_decide (c = "n"%char) then r ← strip_prefix #"ull" t; Some (JNull, r)
      else if bool_decide (c = "t"%char) then r ← strip_prefix #"rue" t; Some (JBool true, r)
      else if bool_decide (c = "f"%char) then r ← strip_prefix #"alse" t; Some (JBool false, r)
      else if bool_decide (c = DQ) then '(x, r) ← parse_str [] t; Some (JStr x, r)
      else if bool_decide (c = "["%char) then
        if starts_with #"]" t then Some (JArr [], drop 1 t) else '(l, r) ← parse_elements fuel t; Some (JArr l, r)
      else if bool_decide (c = "{"%char) then
        if starts_with #"}" t then Some (JObj [], drop 1 t) else '(m, r) ← parse_members fuel t; Some (JObj m, r)
      else '(z, r) ← parse_num s; Some (JNum z, r)
  end
with parse_elements (fuel : nat) (s : str) : option (list jval * str) :=
  match fuel with
  | O => None
  | S fuel =>
      '(v, r) ← parse_value fuel s;
      match r with
      | c :: r =>
          if bool_decide (c = ","%char) then '(l, r) ← parse_elements fuel r; Some (v :: l, r)
          else if bool_decide (c = "]"%char) then Some ([v], r) else None
      | [] => None
      end
  end
with parse_members (fuel : nat) (s : str) : option (list (str * jval) * str) :=
  match fuel with
  | O => None
  | S fuel =>
      q ← strip_prefix [DQ] s;
      '(k, r) ← parse_str [] q;
      r ← strip_prefix #":" r;
      '(v, r) ← parse_value fuel r;
      match r with
      | c :: r =>
          if bool_decide (c = ","%char) then '(m, r) ← parse_members fuel r; Some ((k, v) :: m, r)
          else if bool_decide (c = "}"%char) then Some ([(k, v)], r) else None
      | [] => None
      end
  end.

(** A whole text. *)
Definition parse (s : str) : option jval :=
  match parse_value (length s) s with Some (v, []) => Some v | _ => None end.

(** ** What is printed is read back *)

Lemma parse_str_escape c acc r : parse_str acc (escape c ++ r) = parse_str (c :: acc) r.
Proof. destruct c as [[] [] [] [] [] [] [] []]; reflexivity. Qed.

Lemma parse_str_print s : forall acc r, parse_str acc (flat_map escape s ++ DQ :: r) = Some (rev acc ++ s, r).
Proof.
  induction s as [|c s IH]; intros acc r; cbn [flat_map]; [by rewrite app_nil_r|].
  rewrite <- app_assoc, parse_str_escape, IH. cbn [rev]. by rewrite <- app_assoc.
Qed.

Lemma parse_str_quoted s r : strip_prefix [DQ] (print_str s ++ r) = Some (flat_map escape s ++ DQ :: r).
Proof. unfold print_str, quote. cbn. by rewrite <- app_assoc. Qed.

Definition no_digit (s : str) : Prop := match s with c :: _ => is_digit c = false | [] => True end.

Lemma take_digits_app d r : Forall (fun c => is_digit c = true) d -> no_digit r -> take_digits (d ++ r) = (d, r).
Proof.
  intros Hd Hr. induction Hd as [|c d Hc Hd IH]; cbn [app take_digits].
  - destruct r as [|c r]; [done|]. cbn in Hr |- *. by rewrite Hr.
  - by rewrite Hc, IH.
Qed.

Lemma parse_print_num z r : fits_number z = true -> no_digit r -> parse_num (print_num z ++ r) = Some (z, r).
Proof.
  unfold fits_number, U64_MAX. intros Hz Hr. bool_arith. unfold print_num, parse_num. destruct (z <? 0) eqn:E; bool_arith.
  - cbn [app]. rewrite bool_decide_eq_true_2 by done. rewrite take_digits_app by (done || (apply dec_digits; lia)).
    rewrite parse_uint_dec by (unfold U64_MAX; lia). cbn. by rewrite Z.opp_involutive.
  - pose proof (dec_digits z ltac:(lia)) as Hd. pose proof (dec_not_nil z ltac:(lia)) as Hn.
    pose proof (take_digits_app (dec z) r Hd Hr) as Ht. pose proof (parse_uint_dec U64_MAX z ltac:(unfold U64_MAX; lia) ltac:(unfold U64_MAX; lia)) as Hp.
    destruct (dec z) as [|c t] eqn:Ed; [done|]. cbn [app] in *. apply Forall_cons in Hd as [Hc _].
    rewrite bool_decide_eq_false_2 by (intros ->; discriminate). rewrite Ht, Hp. done.
Qed.

(** The first character decides. *)
Lemma parse_value_num fuel c t : is_digit c = true \/ c = "-"%char ->
  parse_value (S fuel) (c :: t) = ('(z, r) ← parse_num (c :: t); Some (JNum z, r)).
Proof.
  intros Hc. cbn [parse_value]. rewrite !bool_decide_eq_false_2; [done|..]; intros ->; destruct Hc; discriminate.
Qed.

Lemma parse_value_print_num fuel z r : fits_number z = true -> no_digit r -> parse_value (S fuel) (print_num z ++ r) = Some (JNum z, r).
Proof.
  intros Hz Hr. pose proof (parse_print_num z r Hz Hr) as Hp.
  assert (Hh : exists c t, print_num z ++ r = c :: t /\ (is_digit c = true \/ c = "-"%char)).
  { unfold print_num. destruct (z <? 0) eqn:E; bool_arith; [eexists _, _; split; [reflexivity|]; by right|].
    pose proof (dec_digits z ltac:(lia)) as Hd. pose proof (dec_not_nil z ltac:(lia)). destruct (dec z) as [|c t]; [done|].
    apply Forall_cons in Hd as [Hc _]. eexists _, _. split; [reflexivity|]. by left. }
  destruct Hh as (c & t & E & Hc). rewrite E in *. by rewrite parse_value_num, Hp.
Qed.

(** Enough fuel for a value. *)
Fixpoint cost (v : jval) : nat :=
  S match v with
    | JArr l => list_sum (map (fun x => S (cost x)) l)
    | JObj m => list_sum (map (fun kv => S (cost kv.2)) m)
    | _ => 0
    end.

Definition is_num (v : jval) : bool := match v with JNum _ => true | _ => false end.

Definition reads (v : jval) : Prop := forall fuel r, (cost v <= fuel)%nat -> (is_num v = true -> no_digit r) ->
  parse_value fuel (print v ++ r) = Some (v, r).

Lemma join_cons sep x y l : join sep (x :: y :: l) = x ++ sep ++ join sep (y :: l).
Proof. done. Qed.

Lemma parse_elements_print l : l <> [] -> Forall reads l -> forall fuel r, (list_sum (map (fun x => S (cost x)) l) <= fuel)%nat ->
  parse_elements fuel (join #"," (map print l) ++ #"]" ++ r) = Some (l, r).
Proof.
  intros Hne Hl. induction Hl as [|x l Hx Hl IH]; [done|]. intros fuel r Hf. cbn [map list_sum foldr] in Hf.
  destruct fuel as [|fuel]; [lia|]. cbn [parse_elements]. destruct l as [|y l].
  - cbn [map join]. rewrite Hx by (done || lia). reflexivity.
  - cbn [map]. rewrite join_cons, <- !app_assoc. rewrite Hx by (done || (cbn in *; lia)). specialize (IH ltac:(done) fuel r ltac:(cbn in *; lia)).
    cbn -[parse_elements join] in IH |- *. by rewrite IH.
Qed.

#[local] Abbreviation member kv := (print_str kv.1 ++ #":" ++ print kv.2).

Lemma parse_members_print m : m <> [] -> Forall (fun kv => reads kv.2) m ->
  forall fuel r, (list_sum (map (fun kv => S (cost kv.2)) m) <= fuel)%nat ->
  parse_members fuel (join #"," (map (fun kv => member kv) m) ++ #"}" ++ r) = Some (m, r).
Proof.
  intros Hne Hm. induction Hm as [|[k v] m Hx Hm IH]; [done|]. intros fuel r Hf. cbn [map list_sum foldr] in Hf.
  destruct fuel as [|fuel]; [lia|]. cbn [parse_members]. cbn [snd] in *. destruct m as [|y m].
  - cbn [map join fst snd]. rewrite <- !app_assoc, parse_str_quoted. cbn [mbind option_bind]. rewrite parse_str_print.
    cbn [mbind option_bind]. rewrite strip_prefix_app. cbn -[parse_value print]. by rewrite Hx by (done || lia).
  - specialize (IH ltac:(done) fuel r ltac:(cbn in *; lia)). cbn [map fst snd] in IH |- *. rewrite join_cons.
    set (rest := join #"," _) in *. clearbody rest. rewrite <- !app_assoc, parse_str_quoted. cbn [mbind option_bind]. rewrite parse_str_print.
    cbn [mbind option_bind]. rewrite strip_prefix_app. cbn [mbind option_bind]. rewrite Hx by (done || (cbn in *; lia)).
    cbn -[parse_members]. cbn -[parse_members] in IH. by rewrite IH.
Qed.

Lemma print_not_bracket v c t : print v = c :: t -> c <> "]"%char.
Proof.
  destruct v as [|[]|z|s|l|m]; cbn; try (intros [= <- _]; discriminate).
  unfold print_num. destruct (z <? 0) eqn:E; [by intros [= <- _]|]. bool_arith. intros E2 ->.
  pose proof (dec_digits z ltac:(lia)) as Hd. rewrite E2 in Hd. by apply Forall_cons in Hd as [Hd _].
Qed.

Lemma print_not_nil v : print v <> [].
Proof.
  destruct v as [|[]|z|s|l|m]; try discriminate. cbn. unfold print_num. destruct (z <? 0) eqn:E; [done|]. bool_arith. apply dec_not_nil. lia.
Qed.

Lemma join_head sep x l c t : x = c :: t -> exists t', join sep (x :: l) = c :: t'.
Proof. intros ->. destruct l; cbn; eauto. Qed.

Lemma starts_with_head a c t : c <> a -> starts_with [a] (c :: t) = false.
Proof. intros H. rewrite starts_with_cons. by rewrite decide_False. Qed.

Lemma parse_value_array fuel s : starts_with ["]"%char] s = false ->
  parse_value (S fuel) (#"[" ++ s) = ('(l, r) ← parse_elements fuel s; Some (JArr l, r)).
Proof. intros H. cbn -[parse_elements starts_with]. by rewrite H. Qed.

Lemma parse_value_brace fuel s : parse_value (S fuel) ("{"%char :: s) =
  (if starts_with ["}"%char] s then Some (JObj [], drop 1 s) else '(m, r) ← parse_members fuel s; Some (JObj m, r)).
Proof. reflexivity. Qed.

Lemma parse_value_object fuel s : starts_with ["}"%char] s = false ->
  parse_value (S fuel) (#"{" ++ s) = ('(m, r) ← parse_members fuel s; Some (JObj m, r)).
Proof. intros H. cbn [app]. change (#"{" ++ s) with ("{"%char :: s). by rewrite parse_value_brace, H. Qed.

Lemma parse_value_print v : numbers_fit v = true -> reads v.
Proof.
  induction v as [|b|z|s|l IH|m IH] using jval_ind'; intros Hfit fuel r Hf Hr; (destruct fuel as [|fuel]; [cbn in Hf; lia|]).
  - reflexivity.
  - by destruct b.
  - by apply parse_value_print_num; [|apply Hr].
  - cbn [print parse_value]. unfold print_str, quote. cbn -[parse_str]. rewrite <- app_assoc. cbn [app]. by rewrite parse_str_print.
  - assert (Hl : Forall reads l).
    { cbn in Hfit. rewrite forallb_forall in Hfit. rewrite Forall_forall in IH |- *. intros x Hx. apply IH; [done|]. by apply Hfit, list_elem_of_In. }
    cbn [print]. rewrite <- !app_assoc. destruct l as [|x l]; [reflexivity|].
    rewrite parse_value_array.
    + rewrite parse_elements_print by (done || (cbn in Hf |- *; lia)). done.
    + destruct (print x) as [|c t] eqn:Ex; [by destruct (print_not_nil x)|]. cbn [map].
      destruct (join_head #"," (print x) (map print l) c t Ex) as [t' ->]. apply starts_with_head. by eapply print_not_bracket.
  - assert (Hm : Forall (fun kv => reads kv.2) m).
    { cbn in Hfit. rewrite forallb_forall in Hfit. rewrite Forall_forall in IH |- *. intros x Hx. apply IH; [done|]. by apply Hfit, list_elem_of_In. }
    cbn [print]. rewrite <- !app_assoc. destruct m as [|x m]; [reflexivity|].
    rewrite parse_value_object.
    + rewrite parse_members_print by (done || (cbn in Hf |- *; lia)). done.
    + cbn [map]. edestruct join_head as [t' ->]; [unfold print_str, quote; reflexivity|]. by apply starts_with_head.
Qed.

(** ** More input and more fuel change nothing of what was read *)

Lemma strip_prefix_more p s r t : strip_prefix p s = Some r -> strip_prefix p (s ++ t) = Some (r ++ t).
Proof. intros ->%strip_prefix_inv. by rewrite <- app_assoc, strip_prefix_app. Qed.

Lemma parse_str_more_n n : forall s acc x r t, (length s <= n)%nat -> parse_str acc s = Some (x, r) -> parse_str acc (s ++ t) = Some (x, r ++ t).
Proof.
  induction n as [|n IH]; intros [|c s] acc x r t Hn; try done; cbn [length] in Hn; [lia|]. cbn [parse_str app].
  case_bool_decide; [by intros [= <- <-]|]. case_bool_decide; [|destruct (byte_of c <? 32); [done|]; apply IH; lia].
  destruct s as [|d s]; [done|]. cbn [app length] in *. destruct (List.find _ short) as [[x0 y0]|]; [apply IH; lia|].
  destruct s as [|z1 [|z2 [|a [|b s]]]]; try done. cbn [app length] in *. case_bool_decide; [|done].
  destruct (hex_val a), (hex_val b); try done. apply IH. lia.
Qed.

Lemma parse_str_more s acc x r t : parse_str acc s = Some (x, r) -> parse_str acc (s ++ t) = Some (x, r ++ t).
Proof. by apply (parse_str_more_n (length s)). Qed.

Lemma take_digits_more s d r t : take_digits s = (d, r) -> r <> [] -> take_digits (s ++ t) = (d, r ++ t).
Proof.
  revert d r. induction s as [|c s IH]; intros d r; cbn [take_digits app]; [by intros [= <- <-]|].
  destruct (is_digit c); [|by intros [= <- <-]]. destruct (take_digits s) as [d' r'] eqn:E. intros [= <- <-] Hr. by erewrite IH.
Qed.

Lemma parse_num_more s z r t : parse_num s = Some (z, r) -> r <> [] -> parse_num (s ++ t) = Some (z, r ++ t).
Proof.
  destruct s as [|c s]; [done|]. unfold parse_num. intros H Hr. cbn [app]. case_bool_decide.
  - destruct (take_digits s) as [d r'] eqn:E. destruct (parse_uint _ d) as [n|] eqn:En; [|done]. injection H as <- <-.
    erewrite take_digits_more by done. by rewrite En.
  - destruct (take_digits (c :: s)) as [d r'] eqn:E. destruct (parse_uint _ d) as [n|] eqn:En; [|done]. injection H as <- <-.
    change (c :: s ++ t) with ((c :: s) ++ t). erewrite take_digits_more by done. by rewrite En.
Qed.

Definition value_more f := forall s v r, parse_value f s = Some (v, r) -> (is_num v = true -> r <> []) ->
  forall f' t, (f <= f')%nat -> parse_value f' (s ++ t) = Some (v, r ++ t).
Definition elements_more f := forall s l r, parse_elements f s = Some (l, r) ->
  forall f' t, (f <= f')%nat -> parse_elements f' (s ++ t) = Some (l, r ++ t).
Definition members_more f := forall s m r, parse_members f s = Some (m, r) ->
  forall f' t, (f <= f')%nat -> parse_members f' (s ++ t) = Some (m, r ++ t).

Lemma elements_more_step f : value_more f -> elements_more f -> elements_more (S f).
Proof.
  intros HV HE s l r H [|f'] t Hf; [lia|]. cbn [parse_elements] in H |- *.
  destruct (parse_value f s) as [[v r1]|] eqn:Ev; [|done]. cbn [mbind option_bind] in H. destruct r1 as [|c r1]; [done|].
  rewrite (HV _ _ _ Ev ltac:(done) f' t ltac:(lia)). cbn [mbind option_bind app]. case_bool_decide.
  - destruct (parse_elements f r1) as [[l' r2]|] eqn:El; [|done]. injection H as <- <-. by rewrite (HE _ _ _ El f' t ltac:(lia)).
  - case_bool_decide; [|done]. by injection H as <- <-.
Qed.

Lemma members_more_step f : value_more f -> members_more f -> members_more (S f).
Proof.
  intros HV HM s m r H [|f'] t Hf; [lia|]. cbn [parse_members] in H |- *.
  destruct (strip_prefix [DQ] s) as [q|] eqn:Eq; [|done]. cbn [mbind option_bind] in H. rewrite (strip_prefix_more _ _ _ t Eq).
  destruct (parse_str [] q) as [[k r0]|] eqn:Ek; [|done]. cbn [mbind option_bind] in H |- *. rewrite (parse_str_more _ _ _ _ t Ek).
  destruct (strip_prefix #":" r0) as [r0'|] eqn:Er; [|done]. cbn [mbind option_bind] in H |- *. rewrite (strip_prefix_more _ _ _ t Er).
  destruct (parse_value f r0') as [[v r1]|] eqn:Ev; [|done]. cbn [mbind option_bind] in H |- *. destruct r1 as [|c r1]; [done|].
  rewrite (HV _ _ _ Ev ltac:(done) f' t ltac:(lia)). cbn [mbind option_bind app]. case_bool_decide.
  - destruct (parse_members f r1) as [[m' r2]|] eqn:El; [|done]. injection H as <- <-. by rewrite (HM _ _ _ El f' t ltac:(lia)).
  - case_bool_decide; [|done]. by injection H as <- <-.
Qed.

Lemma value_more_step f : elements_more f -> members_more f -> value_more (S f).
Proof.
  intros HE HM [|c s] v r H Hr [|f'] t Hf; try (done || lia). cbn [parse_value app] in H |- *.
  repeat (case_bool_decide; [|]).
  - destruct (strip_prefix _ s) eqn:E; [|done]. injection H as <- <-. by rewrite (strip_prefix_more _ _ _ t E).
  - destruct (strip_prefix _ s) eqn:E; [|done]. injection H as <- <-. by rewrite (strip_prefix_more _ _ _ t E).
  - destruct (strip_prefix _ s) eqn:E; [|done]. injection H as <- <-. by rewrite (strip_prefix_more _ _ _ t E).
  - destruct (parse_str [] s) as [[x r']|] eqn:E; [|done]. injection H as <- <-. by rewrite (parse_str_more _ _ _ _ t E).
  - destruct s as [|d s]; [by destruct f as [|[|]]|]. cbn [app]. change #"]" with ["]"%char] in *. rewrite starts_with_cons in H |- *.
    destruct (decide _); [by injection H as <- <-|]. change (d :: s ++ t) with ((d :: s) ++ t).
    destruct (parse_elements f (d :: s)) as [[l r']|] eqn:E; [|done]. injection H as <- <-. by rewrite (HE _ _ _ E f' t ltac:(lia)).
  - destruct s as [|d s]; [by destruct f as [|[|]]|]. cbn [app]. change #"}" with ["}"%char] in *. rewrite starts_with_cons in H |- *.
    destruct (decide _); [by injection H as <- <-|]. change (d :: s ++ t) with ((d :: s) ++ t).
    destruct (parse_members f (d :: s)) as [[l r']|] eqn:E; [|done]. injection H as <- <-. by rewrite (HM _ _ _ E f' t ltac:(lia)).
  - destruct (parse_num (c :: s)) as [[z r']|] eqn:E; [|done]. injection H as <- <-.
    change (c :: s ++ t) with ((c :: s) ++ t). by rewrite (parse_num_more _ _ _ t E ltac:(by apply Hr)).
Qed.

Lemma parse_more f : value_more f /\ elements_more f /\ members_more f.
Proof.
  induction f as [|f (HV & HE & HM)]; [by split; [|split]; intros ???|].
  split; [by apply value_more_step|]. split; [by apply elements_more_step|by apply members_more_step].
Qed.

(** ** Whole texts *)

Lemma join_length c l : (list_sum (map (fun x => S (length x)) l) <= S (length (join [c] l)))%nat.
Proof.
  induction l as [|x [|y l] IH]; [cbn; lia|cbn; lia|]. rewrite join_cons, !length_app. cbn [map list_sum foldr length] in *. cbn in *. lia.
Qed.

Lemma list_sum_le {A} (f g : A -> nat) (l : list A) : Forall (fun x => f x <= g x)%nat l -> (list_sum (map f l) <= list_sum (map g l))%nat.
Proof. induction 1 as [|x l Hx Hl IH]; [done|]. cbn [map list_sum foldr]. unfold list_sum in *. lia. Qed.

Lemma print_not_empty v : (1 <= length (print v))%nat.
Proof. pose proof (print_not_nil v). destruct (print v); [done|]. cbn. lia. Qed.

Lemma cost_length v : (cost v <= length (print v))%nat.
Proof.
  induction v as [|b|z|s|l IH|m IH] using jval_ind'; try apply print_not_empty.
  - cbn [print cost]. rewrite !length_app. pose proof (join_length ","%char (map print l)) as Hj. rewrite map_map in Hj.
    pose proof (list_sum_le (fun x => S (cost x)) (fun x => S (length (print x))) l) as Hs.
    specialize (Hs ltac:(eapply Forall_impl; [exact IH|]; cbn; lia)). change #"," with [","%char]. cbn [length String.list_ascii_of_string]. lia.
  - cbn [print cost]. rewrite !length_app. pose proof (join_length ","%char (map (fun kv => member kv) m)) as Hj. rewrite map_map in Hj.
    pose proof (list_sum_le (fun kv => S (cost kv.2)) (fun kv => S (length (member kv))) m) as Hs.
    specialize (Hs ltac:(eapply Forall_impl; [exact IH|]; intros [k v]; cbn [fst snd]; rewrite !length_app; lia)).
    change #"," with [","%char]. change (length #"{") with 1%nat. change (length #"}") with 1%nat. lia.
Qed.

(** What was printed is read back. *)
Lemma parse_print v : numbers_fit v = true -> parse (print v) = Some v.
Proof.
  intros Hv. unfold parse. pose proof (parse_value_print v Hv (length (print v)) [] (cost_length v) ltac:(done)) as H.
  rewrite app_nil_r in H. by rewrite H.
Qed.

(** Only characters that stand for themselves are printed, so a text is one line. *)
Lemma in_join c x l : c ∈ join [x] l -> c = x \/ exists s, s ∈ l /\ c ∈ s.
Proof.
  induction l as [|s l IH]; [cbn; by intros ?%elem_of_nil|]. destruct l as [|s' l]; [cbn; intros H; right; exists s; set_solver|].
  rewrite join_cons, !elem_of_app, list_elem_of_singleton. intros [H|[->|H]]; [right; exists s; set_solver|by left|].
  destruct (IH H) as [->|(s0 & Hs & Hc)]; [by left|]. right. exists s0. set_solver.
Qed.

Lemma escape_no_nl c : NL ∉ escape c.
Proof.
  intros H. assert (Hb : forallb (fun d => negb (bool_decide (d = NL))) (escape c) = true) by (destruct c as [[] [] [] [] [] [] [] []]; reflexivity).
  rewrite forallb_forall in Hb. apply list_elem_of_In, Hb in H. by rewrite bool_decide_eq_true_2 in H.
Qed.

Lemma print_str_no_nl s : NL ∉ print_str s.
Proof.
  unfold print_str, quote. rewrite !elem_of_app, !list_elem_of_singleton. intros [H|[H|H]]; [done| |done].
  apply list_elem_of_In, in_flat_map in H as (c & _ & H%list_elem_of_In). by apply escape_no_nl in H.
Qed.

Lemma print_num_no_nl z : NL ∉ print_num z.
Proof.
  assert (Hd : forall n, 0 <= n -> NL ∉ dec n).
  { intros n Hn H. pose proof (dec_digits n Hn) as Hd. rewrite Forall_forall in Hd. by specialize (Hd _ H). }
  unfold print_num. destruct (z <? 0) eqn:E; bool_arith; [|apply Hd; lia]. intros [H|H]%elem_of_cons; [done|]. by apply Hd in H; [|lia].
Qed.

Lemma print_line v : NL ∉ print v.
Proof.
  induction v as [|b|z|s|l IH|m IH] using jval_ind'.
  - rewrite list_elem_of_In. cbn. naive_solver.
  - destruct b; rewrite list_elem_of_In; cbn; naive_solver.
  - apply print_num_no_nl.
  - apply print_str_no_nl.
  - cbn [print]. change #"[" with ["["%char]. change #"]" with ["]"%char]. rewrite !elem_of_app, !list_elem_of_singleton.
    intros [H|[H|H]]; [done| |done]. apply in_join in H as [H|(s & Hs & Hc)]; [done|]. apply list_elem_of_In, in_map_iff in Hs as (x & <- & Hx%list_elem_of_In).
    rewrite Forall_forall in IH. by apply IH in Hx.
  - cbn [print]. change #"{" with ["{"%char]. change #"}" with ["}"%char]. rewrite !elem_of_app, !list_elem_of_singleton.
    intros [H|[H|H]]; [done| |done]. apply in_join in H as [H|(s & Hs & Hc)]; [done|]. apply list_elem_of_In, in_map_iff in Hs as (kv & <- & Hx%list_elem_of_In).
    change #":" with [":"%char] in Hc. rewrite !elem_of_app, list_elem_of_singleton in Hc. destruct Hc as [Hc|[Hc|Hc]]; [by apply print_str_no_nl in Hc|done|].
    rewrite Forall_forall in IH. by apply IH in Hx.
Qed.

(** A text is UTF-8 if the strings of the value are. *)
Lemma join_utf8 sep l : valid_utf8 sep = true -> Forall (fun s => valid_utf8 s = true) l -> valid_utf8 (join sep l) = true.
Proof.
  intros Hsep. induction 1 as [|s l Hs Hl IH]; [done|]. destruct l as [|s' l]; [done|]. rewrite join_cons.
  by repeat apply valid_utf8_app.
Qed.

Lemma print_str_utf8 s : valid_utf8 s = true -> valid_utf8 (print_str s) = true.
Proof.
  intros Hs. unfold print_str, quote. repeat apply valid_utf8_app; try done. apply valid_utf8_map; [| |done].
  - intros c Hc. destruct c as [[] [] [] [] [] [] [] []]; first [reflexivity | by vm_compute in Hc].
  - intros c Hc. destruct c as [[] [] [] [] [] [] [] []]; first [reflexivity | by vm_compute in Hc].
Qed.

Lemma print_num_utf8 z : valid_utf8 (print_num z) = true.
Proof.
  assert (Hd : forall n, 0 <= n -> ascii_only (dec n) = true).
  { intros n Hn. pose proof (dec_digits n Hn) as Hd. unfold ascii_only. rewrite forallb_forall. intros c Hc%list_elem_of_In.
    rewrite Forall_forall in Hd. specialize (Hd c Hc). unfold is_digit in Hd. bool_arith. }
  apply ascii_utf8. unfold print_num. destruct (z <? 0) eqn:E; bool_arith; [|by apply Hd]. cbn. apply Hd. lia.
Qed.

Lemma print_utf8 v : jval_utf8 v = true -> valid_utf8 (print v) = true.
Proof.
  induction v as [|b|z|s|l IH|m IH] using jval_ind'; intros Hv; cbn [jval_utf8] in Hv; [done|by destruct b|apply print_num_utf8|by apply print_str_utf8|..];
    rewrite forallb_forall in Hv; rewrite Forall_forall in IH; cbn [print]; apply valid_utf8_app; try done; apply valid_utf8_app; try done;
    apply join_utf8; try done; apply Forall_forall; intros s (x & <- & Hx)%list_elem_of_In%in_map_iff.
  - apply IH; [by apply list_elem_of_In|by apply Hv].
  - apply list_elem_of_In in Hx as Hx'. specialize (Hv x Hx). apply andb_true_iff in Hv as [Hk Hv']. apply valid_utf8_app; [by apply print_str_utf8|].
    apply valid_utf8_app; [done|by apply IH].
Qed.

(** A proper beginning of an object's text is not read. *)
Lemma parse_cut m q : numbers_fit (JObj m) = true -> q `prefix_of` print (JObj m) -> q <> print (JObj m) -> parse q = None.
Proof.
  intros Hm [t Ht] Hne. destruct (parse q) as [v|] eqn:E; [|done]. exfalso. unfold parse in E.
  destruct (parse_value (length q) q) as [[v' [|]]|] eqn:Ev; simplify_eq.
  destruct q as [|c q]; [done|].
  assert (c = "{"%char) as -> by (cbn in Ht; congruence).
  assert (Hn : is_num v = false).
  { cbn [length] in Ev. rewrite parse_value_brace in Ev. destruct (starts_with _ q); [by simplify_eq|]. by destruct (parse_members _ q) as [[]|]; simplify_eq/=. }
  destruct (parse_more (length ("{"%char :: q))) as (HV & _ & _).
  specialize (HV _ _ _ Ev ltac:(by rewrite Hn) (length (print (JObj m))) t). rewrite <- Ht in HV.
  specialize (HV ltac:(rewrite Ht, length_app; lia)).
  pose proof (parse_value_print _ Hm (length (print (JObj m))) [] (cost_length _) ltac:(done)) as H. rewrite app_nil_r in H.
  rewrite H in HV. injection HV as _ HV. apply Hne. by rewrite Ht, <- HV, app_nil_r.
Qed.

Lemma escape_plain c : plain_char c = true -> escape c = [c].
Proof. destruct c as [[] [] [] [] [] [] [] []]; first [reflexivity | discriminate]. Qed.

Lemma print_plain s : plain s = true -> print_str s = quote s.
Proof.
  unfold plain, print_str. intros H. f_equal. induction s as [|c s IH]; [done|]. cbn in H. bool_arith. cbn [flat_map].
  by rewrite IH, escape_plain.
Qed.

(** The compact printer and its parser are an instance of the interface. *)
#[export, refine] Instance compact_json : JsonText := {| to_string := print; of_string := parse |}.
Proof.
  - intros v Hv%readable_numbers. by apply parse_print.
  - exact print_plain.
  - done.
  - done.
  - exact print_line.
  - exact print_utf8.
  - intros m q Hm%readable_numbers. by apply parse_cut.
Defined.
