(* ===== verification/Ipv6.v ===== *)
(** The textual form of IPv6 addresses in the Rust standard library: [Ipv6Addr::from_str] and
    [Display].  An address is its sixteen octets. *)

From S2P Require Import Prelude RustStd.

#[local] Open Scope Z_scope.

(** * Parsing *)

(** The standard library's address parser reads off the front of the input; each function returns
    what it read and the rest, or [None] without consuming anything. *)
Definition reads (A : Type) : Type := str -> option (A * str).

Definition read_given_char (c : ascii) : reads unit := fun s =>
  match s with
  | a :: t => if decide (a = c) then Some (tt, t) else None
  | [] => None
  end.

(** [read_separator(sep, index, inner)] *)
Definition read_separator {A} (sep : ascii) (index : nat) (inner : reads A) : reads A := fun s =>
  match index with
  | O => inner s
  | _ => match read_given_char sep s with Some (_, s) => inner s | None => None end
  end.

(** The digit loop of [read_number] with a limit on their number. *)
Fixpoint read_digits (val : ascii -> option Z) (radix : Z) (limit count : nat) (acc : Z) (s : str)
    : option (Z * nat * str) :=
  match s with
  | [] => Some (acc, count, [])
  | c :: t =>
      match val c with
      | None => Some (acc, count, s)
      | Some d =>
          if (limit <? S count)%nat then None
          else read_digits val radix limit (S count) (acc * radix + d) t
      end
  end.

(** [read_number(radix, Some(limit), allow_zero_prefix)] for a type whose largest value is [mx]. *)
Definition read_number (val : ascii -> option Z) (radix mx : Z) (limit : nat)
    (allow_zero_prefix : bool) : reads Z := fun s =>
  match read_digits val radix limit 0 0 s with
  | None => None
  | Some (n, count, rest) =>
      let leading_zero := match s with c :: _ => bool_decide (c = "0"%char) | [] => false end in
      if (count =? 0)%nat then None
      else if negb allow_zero_prefix && leading_zero && (1 <? count)%nat then None
      else if mx <? n then None
      else Some (n, rest)
  end.

(** [read_ipv4_addr] *)
Definition read_ipv4_addr : reads (list Z) := fun s =>
  let octet i := read_separator "." i (read_number digit_val 10 U8_MAX 3 false) in
  match octet 0%nat s with
  | Some (a, s) =>
      match octet 1%nat s with
      | Some (b, s) =>
          match octet 2%nat s with
          | Some (c, s) =>
              match octet 3%nat s with
              | Some (d, s) => Some ([a; b; c; d], s)
              | None => None
              end
          | None => None
          end
      | None => None
      end
  | None => None
  end.

(** [read_groups] from group [i] with [left] groups to go: the groups read, whether they end in an
    embedded IPv4 address, and the rest. *)
Fixpoint read_groups (left i : nat) (s : str) : list Z * bool * str :=
  match left with
  | O => ([], false, s)
  | S left' =>
      let embedded := if (0 <? left')%nat then read_separator ":" i read_ipv4_addr s else None in
      match embedded with
      | Some (v4, s) =>
          ([be16 (nth 0 v4 0) (nth 1 v4 0); be16 (nth 2 v4 0) (nth 3 v4 0)], true, s)
      | None =>
          match read_separator ":" i (read_number hex_val 16 U16_MAX 4 true) s with
          | Some (g, s) => let '(gs, v4, s) := read_groups left' (S i) s in (g :: gs, v4, s)
          | None => ([], false, s)
          end
      end
  end.

(** [read_ipv6_addr]: the eight groups. *)
Definition read_ipv6_addr : reads (list Z) := fun s =>
  let '(head, head_ipv4, s) := read_groups 8 0 s in
  if (length head =? 8)%nat then Some (head, s)
  else if head_ipv4 then None
  else
    match read_given_char ":" s with
    | None => None
    | Some (_, s) =>
        match read_given_char ":" s with
        | None => None
        | Some (_, s) =>
            let limit := (8 - (length head + 1))%nat in
            let '(tail, _, s) := read_groups limit 0 s in
            Some (head ++ replicate (8 - length head - length tail) 0 ++ tail, s)
        end
    end.

(** [parse::<Ipv6Addr>()], then [octets()]. *)
Definition parse_ipv6 (s : str) : option (list Z) :=
  match read_ipv6_addr s with
  | Some (groups, []) => Some (flat_map to_be16 groups)
  | _ => None
  end.

(** * Printing *)

Definition hex_digit (d : Z) : ascii := if d <? 10 then of_byte (48 + d) else of_byte (87 + d).

(** [{:x}] of a [u16] *)
Definition hex16 (n : Z) : str :=
  let ds := [n / 4096 mod 16; n / 256 mod 16; n / 16 mod 16; n mod 16] in
  match strip_front (one "0") 0 (map hex_digit ds) with [] => #"0" | s => s end.

(** The loop that finds the longest run of zero groups, the first of the longest ones: [cur] and
    [best] are start and length, [i] the index. *)
Fixpoint longest_zeros (i : nat) (cur best : nat * nat) (segs : list Z) : nat * nat :=
  match segs with
  | [] => best
  | g :: segs =>
      if g =? 0 then
        let cur := ((if (cur.2 =? 0)%nat then i else cur.1), S cur.2) in
        longest_zeros (S i) cur (if (best.2 <? cur.2)%nat then cur else best) segs
      else longest_zeros (S i) (0, 0)%nat best segs
  end.

Definition segments (a : list Z) : list Z :=
  map (fun i => be16 (nth (2 * i) a 0) (nth (2 * i + 1) a 0)) (seq 0 8).

(** [Display] of [Ipv6Addr] *)
Definition show_ipv6 (a : list Z) : str :=
  if bool_decide (take 12 a = [0; 0; 0; 0; 0; 0; 0; 0; 0; 0; 255; 255])
  then #"::ffff:" ++ show_ipv4 (drop 12 a)
  else
    let segs := segments a in
    let fmt l := join #":" (map hex16 l) in
    let '(start, len) := longest_zeros 0 (0, 0)%nat (0, 0)%nat segs in
    if (1 <? len)%nat
    then fmt (take start segs) ++ #"::" ++ fmt (drop (start + len) segs)
    else fmt segs.

(** * Lemmas *)

(** The forms the program meets. *)
Example show_link_local :
  show_ipv6 [254; 128; 0; 0; 0; 0; 0; 0; 26; 253; 116; 255; 254; 194; 97; 79]
  = #"fe80::1afd:74ff:fec2:614f".
Proof. reflexivity. Qed.

Example parse_show_forms :
  let forms := [ #"::"; #"::1"; #"fd00::1"; #"2001:db8::8a2e:370:7334"; #"2001:db8:1:0:2:3:4:5";
                #"1:0:0:2::3"; #"::ffff:192.168.105.2"] in
  map (fun s => show_ipv6 <$> parse_ipv6 s) forms = map Some forms.
Proof. vm_compute. reflexivity. Qed.

Lemma to_be16_length l : length (flat_map to_be16 l) = (2 * length l)%nat.
Proof. induction l; [done|]. cbn [flat_map]. rewrite length_app, IHl. cbn. lia. Qed.

Lemma read_groups_length left : forall i s, (length (read_groups left i s).1.1 <= left)%nat.
Proof.
  induction left as [|left IH]; intros i s; cbn [read_groups]; [done|].
  destruct (if (0 <? left)%nat then _ else _) as [[v4 s']|] eqn:E.
  - destruct left; [done|]. cbn. lia.
  - clear E. destruct (read_separator _ _ _ s) as [[g s']|]; [|cbn; apply Nat.le_0_l].
    specialize (IH (S i) s'). destruct (read_groups left (S i) s') as [[gs v4] s2]. cbn in *. lia.
Qed.

(** What parses is an array of sixteen octets. *)
Lemma parse_ipv6_array s a : parse_ipv6 s = Some a -> length a = 16%nat /\ bytes a.
Proof.
  unfold parse_ipv6, read_ipv6_addr. intros H.
  assert (Hb : forall l, bytes (flat_map to_be16 l)).
  { induction l; cbn [flat_map]; auto with bytes_db. }
  assert (Hx : exists gs, a = flat_map to_be16 gs /\ length gs = 8%nat).
  { pose proof (read_groups_length 8 0 s) as H8.
    destruct (read_groups 8 0 s) as [[head v4] s1]. cbn in H8.
    destruct (length head =? 8)%nat eqn:E8; bool_arith; [case_match; simplify_eq; eauto|].
    destruct v4; [done|]. destruct (read_given_char ":" s1) as [[_ s2]|]; [|done].
    destruct (read_given_char ":" s2) as [[_ s3]|]; [|done].
    pose proof (read_groups_length (8 - (length head + 1)) 0 s3) as H7.
    destruct (read_groups _ 0 s3) as [[tail v] s4]. cbn in H7.
    destruct s4; simplify_eq. eexists. split; [done|].
    rewrite !length_app, length_replicate. lia. }
  destruct Hx as (gs & -> & Hl). split; [|apply Hb]. by rewrite to_be16_length, Hl.
Qed.
