(* ===== verification/Wire.v ===== *)
(** The framed binary protocol of an exec session, as the guest daemon and the host client both
    implement it ([send_frame], [recv_frame], [read_guest_frames], the exit-code and window-size
    payloads).

    A connection that is read is the sequence of bytes it will deliver and the error its end
    reports; a connection that is written is the bytes it accepted and how many more it will
    accept. *)

From S2P Require Import Prelude.

#[local] Open Scope Z_scope.

(** * Streams *)

(** The [io::ErrorKind]s the clients distinguish. *)
Inductive io_error : Type := UnexpectedEof | ConnectionReset | OtherIo.

#[export] Instance io_error_eq_dec : EqDecision io_error.
Proof. solve_decision. Defined.

(** A reader: the bytes it delivers before it ends, and the error [read_exact] gives then. *)
Record reader := Reader { avail : list Z; ending : io_error }.

(** [Read::read_exact] on a buffer of [n] bytes; a failed call has consumed what there was. *)
Definition read_exact (r : reader) (n : nat) : result (list Z) io_error * reader :=
  if (n <=? length (avail r))%nat
  then (Ok (take n (avail r)), Reader (drop n (avail r)) (ending r))
  else (Err (ending r), Reader [] (ending r)).

(** A writer: the bytes it took, and how many more it takes before it fails ([None]: no limit). *)
Record writer := Writer { written : list Z; room : option nat }.

(** [Write::write_all]; a failed call has written what there was room for. *)
Definition write_all (w : writer) (d : list Z) : bool * writer :=
  match room w with
  | None => (true, Writer (written w ++ d) None)
  | Some k =>
      if (length d <=? k)%nat then (true, Writer (written w ++ d) (Some (k - length d)%nat))
      else (false, Writer (written w ++ take k d) (Some 0%nat))
  end.

(** * Frames *)

Definition FRAME_STDIN : Z := 0.
Definition FRAME_STDOUT : Z := 1.
Definition FRAME_STDERR : Z := 2.
Definition FRAME_EXIT : Z := 3.
Definition FRAME_RESIZE : Z := 4.

(** [send_frame]: the type byte, the length as a big-endian [u32] ([as u32] wraps), the data.  The
    flush of the writers used (sockets, [FdWriter]) does nothing. *)
Definition send_frame (w : writer) (frame_type : Z) (data : list Z) : bool * writer :=
  let '(ok, w) := write_all w [frame_type] in
  if negb ok then (false, w) else
  let '(ok, w) := write_all w (to_be32 (as_u32 (Z.of_nat (length data)))) in
  if negb ok then (false, w) else
  write_all w data.

(** [recv_frame] *)
Definition recv_frame (r : reader) : result (Z * list Z) io_error * reader :=
  match read_exact r 1 with
  | (Ok type_buf, r) =>
      match read_exact r 4 with
      | (Ok len_buf, r) =>
          let len := be32 (nth 0 len_buf 0) (nth 1 len_buf 0) (nth 2 len_buf 0) (nth 3 len_buf 0) in
          match read_exact r (Z.to_nat len) with
          | (Ok data, r) => (Ok (nth 0 type_buf 0, data), r)
          | (Err e, r) => (Err e, r)
          end
      | (Err e, r) => (Err e, r)
      end
  | (Err e, r) => (Err e, r)
  end.

(** [i32::from_be_bytes] *)
Definition i32_from_be (d : list Z) : Z :=
  as_i32 (be32 (nth 0 d 0) (nth 1 d 0) (nth 2 d 0) (nth 3 d 0)).

(** The payload of an exit frame: [exit_code.to_be_bytes()]. *)
Definition exit_payload (code : Z) : list Z := to_be32 (as_u32 code).

(** * The client's read loop *)

(** What the client wrote to its own standard output and error, in order. *)
Inductive chunk : Type := Stdout (d : list Z) | Stderr (d : list Z).

(** [read_guest_frames]: the exit code, what was written, what is left of the stream.  [None] is
    the fuel running out. *)
Fixpoint read_guest_frames (fuel : nat) (r : reader) (out : list chunk)
    : option (Z * list chunk * reader) :=
  match fuel with
  | O => None
  | S fuel =>
      match recv_frame r with
      | (Ok (frame_type, data), r) =>
          if frame_type =? FRAME_STDOUT then read_guest_frames fuel r (out ++ [Stdout data])
          else if frame_type =? FRAME_STDERR then read_guest_frames fuel r (out ++ [Stderr data])
          else if frame_type =? FRAME_EXIT then
            if (length data =? 4)%nat then Some (i32_from_be data, out, r) else Some (0, out, r)
          else Some (1, out, r)
      | (Err _, r) => Some (1, out, r)
      end
  end.

(** The loop with the fuel that always suffices: a frame has at least one byte. *)
Definition run_guest_frames (r : reader) : option (Z * list chunk * reader) :=
  read_guest_frames (S (length (avail r))) r [].

(** * Window sizes *)

(** [read_winsize] after a successful [TIOCGWINSZ]: rows and columns, big-endian. *)
Definition read_winsize (ws : option (Z * Z)) : option (list Z) :=
  match ws with
  | None => None
  | Some (rows, cols) => Some (to_be16 rows ++ to_be16 cols)
  end.

(** What the guest's terminal-input thread does with the frames of a TTY session, in order: a write
    to the pseudo-terminal, or a new window size. *)
Inductive tty_act : Type := MasterWrite (d : list Z) | SetWinsize (rows cols : Z).

(** The loop of that thread.  [wr_ok] says whether the n-th write to the master succeeds; a write
    may be short, and what it did not take is lost, as in the code. *)
Fixpoint tty_input (fuel : nat) (wr_ok : nat -> bool) (n : nat) (r : reader)
    : option (list tty_act * reader) :=
  match fuel with
  | O => None
  | S fuel =>
      match recv_frame r with
      | (Ok (frame_type, data), r) =>
          if frame_type =? FRAME_STDIN then
            if wr_ok n then
              match tty_input fuel wr_ok (S n) r with
              | Some (acts, r) => Some (MasterWrite data :: acts, r)
              | None => None
              end
            else Some ([MasterWrite data], r)
          else if (frame_type =? FRAME_RESIZE) && (length data =? 4)%nat then
            let rows := be16 (nth 0 data 0) (nth 1 data 0) in
            let cols := be16 (nth 2 data 0) (nth 3 data 0) in
            match tty_input fuel wr_ok n r with
            | Some (acts, r) => Some (SetWinsize rows cols :: acts, r)
            | None => None
            end
          else Some ([], r)
      | (Err _, r) => Some ([], r)
      end
  end.

Definition run_tty_input (wr_ok : nat -> bool) (r : reader) : option (list tty_act * reader) :=
  tty_input (S (length (avail r))) wr_ok 0 r.

(** * The protocol's specification *)

(** The bytes of one frame. *)
Definition encode (frame_type : Z) (data : list Z) : list Z :=
  frame_type :: to_be32 (as_u32 (Z.of_nat (length data))) ++ data.

(** A payload whose length its header can express. *)
Definition fits (data : list Z) : Prop := Z.of_nat (length data) < 4294967296.

Definition chunk_frame (c : chunk) : list Z :=
  match c with Stdout d => encode FRAME_STDOUT d | Stderr d => encode FRAME_STDERR d end.
Definition chunk_data (c : chunk) : list Z := match c with Stdout d | Stderr d => d end.

Definition tty_frame (a : tty_act) : list Z :=
  match a with
  | MasterWrite d => encode FRAME_STDIN d
  | SetWinsize rows cols => encode FRAME_RESIZE (to_be16 rows ++ to_be16 cols)
  end.
Definition tty_wf (a : tty_act) : Prop :=
  match a with MasterWrite d => fits d | SetWinsize rows cols => is_u16 rows /\ is_u16 cols end.

(** * Lemmas *)

Lemma read_exact_app r e d n :
  n = length d -> read_exact (Reader (d ++ r) e) n = (Ok d, Reader r e).
Proof.
  intros ->. unfold read_exact; cbn. rewrite (proj2 (Nat.leb_le _ _)) by (rewrite length_app; lia).
  by rewrite take_app_length, drop_app_length.
Qed.

Lemma read_exact_one t r e : read_exact (Reader (t :: r) e) 1 = (Ok [t], Reader r e).
Proof. done. Qed.

Lemma read_exact_short r n :
  (length (avail r) < n)%nat -> read_exact r n = (Err (ending r), Reader [] (ending r)).
Proof. intros. unfold read_exact. by rewrite (proj2 (Nat.leb_gt _ _)). Qed.

(** [write_all] writes the longest prefix there is room for, and says whether that is all. *)
Lemma write_all_spec w d :
  write_all w d =
    match room w with
    | None => (true, Writer (written w ++ d) None)
    | Some k => ((length d <=? k)%nat,
                 Writer (written w ++ take k d) (Some (k - length d)%nat))
    end.
Proof.
  unfold write_all. destruct (room w) as [k|]; [|done].
  case_goal; bool_arith; [by rewrite take_ge|].
  by replace (k - length d)%nat with 0%nat by lia.
Qed.

Lemma send_frame_spec w t d :
  send_frame w t d =
    match room w with
    | None => (true, Writer (written w ++ encode t d) None)
    | Some k => ((length (encode t d) <=? k)%nat,
                 Writer (written w ++ take k (encode t d)) (Some (k - length (encode t d))%nat))
    end.
Proof.
  unfold send_frame, encode. set (h := to_be32 _). assert (length h = 4%nat) as Hh by done.
  clearbody h. rewrite write_all_spec. destruct (room w) as [k|]; cbn [negb].
  2: { rewrite write_all_spec. cbn [negb room written]. rewrite write_all_spec.
       cbn [room written]. rewrite <- !app_assoc. done. }
  destruct (length [t] <=? k)%nat eqn:E1; cbn [negb]; cbn [length] in *; rewrite ?length_app, ?Hh.
  2: { bool_arith. by assert (k = 0)%nat as -> by lia. }
  rewrite write_all_spec; cbn [room written]. rewrite Hh.
  destruct k as [|k]; [done|]. cbn [take Nat.sub]. rewrite Nat.sub_0_r.
  destruct (4 <=? k)%nat eqn:E2; cbn [negb]; bool_arith.
  - rewrite write_all_spec; cbn [room written]. rewrite <- !app_assoc. cbn [app].
    rewrite take_nil, take_app, Hh, (take_ge h) by lia. cbn [app].
    replace (k - 4 - length d)%nat with (k - (4 + length d))%nat by lia. f_equal.
    apply eq_true_iff_eq. rewrite !Nat.leb_le. lia.
  - rewrite !take_app_le by lia. rewrite <- app_assoc. cbn [app].
    replace (k - (4 + length d))%nat with (k - 4)%nat by lia.
    f_equal. { symmetry. apply Nat.leb_gt. lia. } by rewrite take_nil.
Qed.

Lemma be32_header n :
  0 <= n < 4294967296 ->
  be32 (nth 0 (to_be32 (as_u32 n)) 0) (nth 1 (to_be32 (as_u32 n)) 0)
       (nth 2 (to_be32 (as_u32 n)) 0) (nth 3 (to_be32 (as_u32 n)) 0) = n.
Proof.
  intros. cbn [nth to_be32]. rewrite be32_to_be32 by apply as_u32_is_u32.
  unfold as_u32. by rewrite Z.mod_small by lia.
Qed.

Lemma recv_encode t d rest e :
  fits d -> recv_frame (Reader (encode t d ++ rest) e) = (Ok (t, d), Reader rest e).
Proof.
  intros Hd. unfold recv_frame, encode. cbn [app].
  rewrite read_exact_one. rewrite <- app_assoc.
  rewrite read_exact_app by done. rewrite be32_header by (unfold fits in Hd; lia).
  rewrite read_exact_app by lia. done.
Qed.

(** A stream that ends inside a frame gives the error of its end, and is used up. *)
Lemma recv_truncated t d k e :
  fits d -> (k < length (encode t d))%nat ->
  recv_frame (Reader (take k (encode t d)) e) = (Err e, Reader [] e).
Proof.
  intros Hd Hk. unfold recv_frame, encode in *. set (h := to_be32 _) in *.
  assert (length h = 4%nat) as Hh by done. cbn [length] in Hk. rewrite length_app in Hk.
  destruct k as [|k]; [by rewrite read_exact_short by (cbn; lia)|]. cbn [take].
  rewrite read_exact_one.
  destruct (decide (k < 4)%nat).
  { by rewrite read_exact_short by (cbn; rewrite length_take; lia). }
  rewrite take_app, Hh, (take_ge h) by lia. rewrite read_exact_app by done.
  subst h. rewrite be32_header by (unfold fits in Hd; lia).
  by rewrite read_exact_short by (cbn; rewrite length_take; lia).
Qed.

(** Receiving a frame consumes at least its type byte. *)
Lemma recv_consumes r f r' : recv_frame r = (Ok f, r') -> (length (avail r') < length (avail r))%nat.
Proof.
  unfold recv_frame, read_exact. intros H.
  repeat (case_hyp H; simplify_eq/=); bool_arith; rewrite ?length_drop in *; lia.
Qed.

Lemma read_guest_frames_total fuel r out :
  (length (avail r) < fuel)%nat -> exists res, read_guest_frames fuel r out = Some res.
Proof.
  revert r out. induction fuel as [|fuel IH]; intros r out Hf; [lia|]. cbn [read_guest_frames].
  destruct (recv_frame r) as [[[t d]|e] r'] eqn:E; [|eauto].
  apply recv_consumes in E. repeat case_goal; eauto; apply IH; lia.
Qed.

Lemma encode_pos t d : (0 < length (encode t d))%nat.
Proof. cbn. lia. Qed.

Lemma chunk_frame_pos c : (0 < length (chunk_frame c))%nat.
Proof. destruct c; apply encode_pos. Qed.

(** The loop reads any run of output frames. *)
Lemma read_guest_frames_chunks cs : forall fuel out rest e,
  Forall (fun c => fits (chunk_data c)) cs ->
  (length (flat_map chunk_frame cs ++ rest) < fuel)%nat ->
  exists fuel', (length rest < fuel')%nat /\
    read_guest_frames fuel (Reader (flat_map chunk_frame cs ++ rest) e) out
    = read_guest_frames fuel' (Reader rest e) (out ++ cs).
Proof.
  induction cs as [|c cs IH]; intros fuel out rest e Hw Hf; cbn [flat_map] in *.
  { exists fuel. by rewrite app_nil_r. }
  apply Forall_cons in Hw as [Hc Hw]. rewrite <- app_assoc, length_app in Hf.
  pose proof (chunk_frame_pos c). destruct fuel as [|fuel]; [lia|]. rewrite <- app_assoc.
  destruct (IH fuel (out ++ [c]) rest e) as (fuel' & ? & Heq); [done|lia|].
  exists fuel'. split; [done|]. rewrite <- app_assoc in Heq. cbn [app] in Heq. rewrite <- Heq.
  cbn [read_guest_frames]. destruct c as [d|d]; cbn [chunk_frame chunk_data] in *;
    by rewrite recv_encode by done.
Qed.

Lemma exit_payload_round c :
  -2147483648 <= c < 2147483648 -> i32_from_be (exit_payload c) = c.
Proof.
  intros. unfold i32_from_be, exit_payload, to_be32. cbn [nth].
  rewrite be32_to_be32 by apply as_u32_is_u32. by apply as_i32_as_u32.
Qed.

Lemma be16_pair x : is_u16 x -> be16 (nth 0 (to_be16 x) 0) (nth 1 (to_be16 x) 0) = x.
Proof. intros. cbn [nth to_be16]. by apply be16_to_be16. Qed.

(** * Properties *)

(** Frames are all or nothing.  For every type, payload below 4 GiB and connection that takes
    [k] more bytes before it fails, [send_frame] succeeds exactly when the whole frame fits, and
    the peer's [recv_frame] on the bytes that did get through returns exactly that frame when the
    send succeeded and the end-of-stream error, never a shortened frame, when it did not. *)
Theorem frame_all_or_nothing t d k e :
  fits d ->
  let '(ok, w) := send_frame (Writer [] (Some k)) t d in
  ok = (length (encode t d) <=? k)%nat /\
  recv_frame (Reader (written w) e) = (if ok then Ok (t, d) else Err e, Reader [] e).
Proof.
  intros Hd. rewrite send_frame_spec. cbn [room written app]. split; [done|].
  case_goal; bool_arith.
  - rewrite take_ge by lia. rewrite <- (app_nil_r (encode t d)). by rewrite recv_encode.
  - by rewrite recv_truncated.
Qed.

Lemma frame_all_or_nothing_witness :
  fits [104; 105] /\
  (let '(ok, w) := send_frame (Writer [] (Some 6%nat)) FRAME_STDOUT [104; 105] in
   ok = false /\
   recv_frame (Reader (written w) UnexpectedEof) = (Err UnexpectedEof, Reader [] UnexpectedEof)).
Proof.
  split; [vm_compute; reflexivity|].
  exact (frame_all_or_nothing FRAME_STDOUT [104; 105] 6 UnexpectedEof eq_refl).
Defined.

(** The loop on a whole session. *)
Lemma run_guest_frames_session cs code rest e :
  Forall (fun c => fits (chunk_data c)) cs -> -2147483648 <= code < 2147483648 ->
  run_guest_frames
    (Reader (flat_map chunk_frame cs ++ encode FRAME_EXIT (exit_payload code) ++ rest) e)
  = Some (code, cs, Reader rest e).
Proof.
  intros Hw Hc. unfold run_guest_frames. cbn [avail].
  edestruct (read_guest_frames_chunks cs) as (fuel & Hf & ->); [done | apply Nat.lt_succ_diag_r |].
  destruct fuel as [|fuel]; [lia|]. cbn [read_guest_frames].
  rewrite recv_encode by done. cbn -[i32_from_be exit_payload].
  by rewrite exit_payload_round.
Qed.

(** The client replays a session exactly.  When the guest sends any interleaving of output
    frames and then its exit frame with the [i32] code [code], the client's loop returns, with
    that code, having written exactly those payloads, each to its own stream and in order, and
    without reading past the exit frame. *)
Theorem session_replayed cs code rest e :
  Forall (fun c => fits (chunk_data c)) cs -> -2147483648 <= code < 2147483648 ->
  run_guest_frames
    (Reader (flat_map chunk_frame cs ++ encode FRAME_EXIT (exit_payload code) ++ rest) e)
  = Some (code, cs, Reader rest e).
Proof. apply run_guest_frames_session. Qed.

Lemma session_replayed_witness :
  run_guest_frames
    (Reader (flat_map chunk_frame [Stdout [104]; Stderr [33]; Stdout []]
             ++ encode FRAME_EXIT (exit_payload (-1)) ++ [9]) UnexpectedEof)
  = Some (-1, [Stdout [104]; Stderr [33]; Stdout []], Reader [9] UnexpectedEof).
Proof. apply session_replayed; [repeat constructor | lia]. Defined.

Lemma as_i32_bound x : -2147483648 <= as_i32 x < 2147483648.
Proof. unfold as_i32. pose proof (Z.mod_pos_bound (x + 2147483648) 4294967296). lia. Qed.

Lemma recv_suffix r res r' :
  recv_frame r = (res, r') -> avail r' `suffix_of` avail r /\ ending r' = ending r.
Proof.
  assert (Hs : forall n (l : list Z), drop n l `suffix_of` l).
  { intros n l. exists (take n l). by rewrite take_drop. }
  unfold recv_frame, read_exact. intros H.
  repeat (case_hyp H; simplify_eq/=); rewrite ?drop_drop;
    split; auto using suffix_nil.
Qed.

(** the client always terminates with a well-formed exit code.  Whatever bytes arrive, and
    however the stream ends, the loop returns; its code is an [i32]; what it did not read is a
    suffix of the stream; and it returned 0 or a code of the guest's only on an exit frame: a
    stream that breaks off without one, or carries a frame of another type, gives 1. *)
Theorem client_loop_returns r :
  exists code out r',
    run_guest_frames r = Some (code, out, r') /\
    -2147483648 <= code < 2147483648 /\
    avail r' `suffix_of` avail r /\
    (code <> 1 -> exists d r0, recv_frame r0 = (Ok (FRAME_EXIT, d), r') /\
                               avail r0 `suffix_of` avail r).
Proof.
  unfold run_guest_frames. generalize (Nat.lt_succ_diag_r (length (avail r))).
  generalize (S (length (avail r))) as fuel. generalize (@nil chunk) as out0.
  intros out0 fuel. revert r out0. induction fuel as [|fuel IH]; intros r out0 Hf; [lia|].
  cbn [read_guest_frames]. destruct (recv_frame r) as [[[t d]|e] r1] eqn:E.
  2: { apply recv_suffix in E as [??]. exists 1, out0, r1. repeat split; auto; lia. }
  pose proof (recv_consumes _ _ _ E). pose proof (recv_suffix _ _ _ E) as [Hs _].
  assert (Hrec : forall out1, exists code out r',
    read_guest_frames fuel r1 out1 = Some (code, out, r') /\ -2147483648 <= code < 2147483648 /\
    avail r' `suffix_of` avail r /\
    (code <> 1 -> exists d r0, recv_frame r0 = (Ok (FRAME_EXIT, d), r') /\
                               avail r0 `suffix_of` avail r)).
  { intros out1. destruct (IH r1 out1) as (c & o & r' & ? & ? & ? & Hx); [lia|].
    exists c, o, r'. repeat split; auto; try lia; [by etrans|].
    intros Hc. destruct (Hx Hc) as (d' & r0 & ? & ?). exists d', r0. split; [done|by etrans]. }
  case_goal; [apply Hrec|]. case_goal; [apply Hrec|]. case_goal; bool_arith.
  - subst t. pose proof (as_i32_bound (be32 (nth 0 d 0) (nth 1 d 0) (nth 2 d 0) (nth 3 d 0))).
    case_goal; eexists _, _, _; (split; [done|]); (split; [unfold i32_from_be; lia|]);
      (split; [done|]); intros _; exists d, r; done.
  - exists 1, out0, r1. repeat split; auto; lia.
Qed.

Lemma tty_frame_pos a : (0 < length (tty_frame a))%nat.
Proof. destruct a; apply encode_pos. Qed.

Lemma tty_input_round acts : forall fuel wr_ok n e,
  Forall tty_wf acts -> (forall k, wr_ok k = true) ->
  (length (flat_map tty_frame acts) < fuel)%nat ->
  tty_input fuel wr_ok n (Reader (flat_map tty_frame acts) e) = Some (acts, Reader [] e).
Proof.
  induction acts as [|a acts IH]; intros fuel wr_ok n e Hw Hok Hf; cbn [flat_map] in *.
  { destruct fuel; [lia|]. done. }
  apply Forall_cons in Hw as [Ha Hw]. rewrite length_app in Hf. pose proof (tty_frame_pos a).
  destruct fuel as [|fuel]; [lia|]. cbn [tty_input].
  destruct a as [d|rows cols]; cbn [tty_frame tty_wf] in *.
  - rewrite recv_encode by done. rewrite Z.eqb_refl, Hok. by rewrite IH by (auto; lia).
  - destruct Ha as [Hr Hc]. rewrite recv_encode by done.
    change (FRAME_RESIZE =? FRAME_STDIN) with false. cbn iota.
    change ((FRAME_RESIZE =? FRAME_RESIZE) && _)%bool with true. cbn iota.
    rewrite IH by (auto; lia). change (nth 0 (to_be16 rows ++ to_be16 cols) 0) with (nth 0 (to_be16 rows) 0).
    change (nth 1 (to_be16 rows ++ to_be16 cols) 0) with (nth 1 (to_be16 rows) 0).
    change (nth 2 (to_be16 rows ++ to_be16 cols) 0) with (nth 0 (to_be16 cols) 0).
    change (nth 3 (to_be16 rows ++ to_be16 cols) 0) with (nth 1 (to_be16 cols) 0).
    by rewrite !be16_pair.
Qed.

(** keystrokes and window sizes of a TTY session reach the guest's terminal unchanged and in
    order: for every sequence of input blocks and resizes, sent as the client frames them ([u16]
    rows and columns as [read_winsize] packs them), the guest's input loop performs exactly those
    terminal operations, when the pseudo-terminal accepts the writes. *)
Theorem tty_session_round acts wr_ok e :
  Forall tty_wf acts -> (forall k, wr_ok k = true) ->
  run_tty_input wr_ok (Reader (flat_map tty_frame acts) e) = Some (acts, Reader [] e).
Proof. intros. apply tty_input_round; auto. Qed.

Lemma tty_session_round_witness :
  run_tty_input (fun _ => true)
    (Reader (flat_map tty_frame [MasterWrite [108; 115]; SetWinsize 50 300; MasterWrite [13]])
       ConnectionReset)
  = Some ([MasterWrite [108; 115]; SetWinsize 50 300; MasterWrite [13]], Reader [] ConnectionReset).
Proof.
  apply tty_session_round; [|done].
  repeat constructor; vm_compute; congruence.
Defined.
