(* ===== verification/SocketVmnet.v ===== *)
(** The socket_vmnet relay ([pelagos-vz/src/socket_vmnet.rs]): two threads that translate between
    the datagram socket of the virtual machine and the length-prefixed stream of the vmnet daemon,
    with the read and write loops they use. *)

From S2P Require Import Prelude.

#[local] Open Scope Z_scope.

(** * Sockets *)

(** A stream socket that is read, as the sequence of segments successive [read] calls meet: a call
    returns bytes of one segment only, so every way of cutting a byte stream into short reads is a
    list of segments.  The end of the list, or an empty segment, is the end of the stream or an
    error ([r <= 0]). *)
Definition stream := list (list Z).

(** [libc::read(fd, buf, n)] for [n > 0]. *)
Definition sys_read (n : nat) (s : stream) : option (list Z) * stream :=
  match s with
  | [] => (None, [])
  | seg :: s' =>
      match take n seg, drop n seg with
      | [], _ => (None, s')
      | d, [] => (Some d, s')
      | d, rest => (Some d, rest :: s')
      end
  end.

(** A stream socket that is written: the bytes it took, and how many bytes each of the next [write]
    calls takes at most, the last one of the list being followed by a failing call. *)
Record sink := Sink { taken : list Z; grants : list nat }.

(** [libc::write(fd, buf, n)] for [n > 0]. *)
Definition sys_write (d : list Z) (w : sink) : nat * sink :=
  match grants w with
  | [] => (0%nat, w)
  | g :: gs => (Nat.min g (length d), Sink (taken w ++ take g d) gs)
  end.

(** The [while] loop of [read_exact], with [need] bytes to go; a read that returns brings at least
    one byte, so [need] iterations are enough. *)
Fixpoint read_loop (fuel need : nat) (acc : list Z) (s : stream) : option (list Z) * stream :=
  match need with
  | O => (Some acc, s)
  | _ =>
      match fuel with
      | O => (None, s)
      | S fuel =>
          match sys_read need s with
          | (None, s) => (None, s)
          | (Some d, s) => read_loop fuel (need - length d) (acc ++ d) s
          end
      end
  end.
Definition read_exact (n : nat) (s : stream) : option (list Z) * stream := read_loop n n [] s.

(** The [while] loop of [write_all], on the bytes still to write. *)
Fixpoint write_loop (fuel : nat) (d : list Z) (w : sink) : bool * sink :=
  match d with
  | [] => (true, w)
  | _ =>
      match fuel with
      | O => (false, w)
      | S fuel =>
          match sys_write d w with
          | (O, w) => (false, w)
          | (r, w) => write_loop fuel (drop r d) w
          end
      end
  end.
Definition write_all (d : list Z) (w : sink) : bool * sink := write_loop (length d) d w.

(** * The relay threads *)

(** The size of [frame_buf]. *)
Definition FRAME_BUF : Z := 64 * 1024.

Definition u32_from_be (b : list Z) : Z :=
  be32 (nth 0 b 0) (nth 1 b 0) (nth 2 b 0) (nth 3 b 0).

(** The loop of [relay_vmnet_to_avf]: the datagrams sent to the virtual machine.  [send_ok] says
    whether the next [send] succeeds, from the datagrams sent before.  The outer [option] is the
    fuel; an iteration that goes on has read at least five bytes. *)
Fixpoint relay_vmnet_to_avf (fuel : nat) (send_ok : list (list Z) -> bool) (sent : list (list Z))
    (s : stream) : option (list (list Z)) :=
  match fuel with
  | O => None
  | S fuel =>
      match read_exact 4 s with
      | (None, _) => Some sent
      | (Some len_buf, s) =>
          let frame_len := u32_from_be len_buf in
          if (frame_len =? 0) || (FRAME_BUF <? frame_len) then Some sent
          else
            match read_exact (Z.to_nat frame_len) s with
            | (None, _) => Some sent
            | (Some frame, s) =>
                if send_ok sent then relay_vmnet_to_avf fuel send_ok (sent ++ [frame]) s
                else Some sent
            end
      end
  end.

(** The loop of [relay_avf_to_vmnet], over the datagrams [recv] delivers until it reports an error
    or the end: the state of the stream socket when it stops.  [recv] keeps the first bytes of a
    datagram that is longer than the buffer. *)
Fixpoint relay_avf_to_vmnet (incoming : list (list Z)) (w : sink) : sink :=
  match incoming with
  | [] => w
  | dgram :: incoming =>
      let frame := take (Z.to_nat FRAME_BUF) dgram in
      match frame with
      | [] => w
      | _ =>
          match write_all (to_be32 (as_u32 (Z.of_nat (length frame)))) w with
          | (false, w) => w
          | (true, w) =>
              match write_all frame w with
              | (false, w) => w
              | (true, w) => relay_avf_to_vmnet incoming w
              end
          end
      end
  end.

(** * Specification *)

(** The bytes of a frame on the stream. *)
Definition prefixed (frame : list Z) : list Z := to_be32 (as_u32 (Z.of_nat (length frame))) ++ frame.

(** A frame the relay forwards. *)
Definition frame_ok (frame : list Z) : Prop := 0 < Z.of_nat (length frame) <= FRAME_BUF.

(** The frames at the front of a byte stream, up to the first header that is not a length between 1
    and the buffer size, or the end. *)
Fixpoint deframe (fuel : nat) (b : list Z) : list (list Z) :=
  match fuel with
  | O => []
  | S fuel =>
      let n := u32_from_be (take 4 b) in
      if (length b <? 4)%nat || (n =? 0) || (FRAME_BUF <? n)
         || (length (drop 4 b) <? Z.to_nat n)%nat then []
      else take (Z.to_nat n) (drop 4 b) :: deframe fuel (drop (Z.to_nat n) (drop 4 b))
  end.

(** A cut of a byte stream into segments, all of them non-empty. *)
Definition cuts (b : list Z) (s : stream) : Prop := concat s = b /\ Forall (fun seg => seg <> []) s.

(** * Lemmas *)

Lemma cuts_nil s : cuts [] s -> s = [].
Proof. intros [Hc Hne]. destruct s as [|[|x d] s]; [done | inversion Hne; done | done]. Qed.

(** A read of a non-empty stream returns between one byte and the bytes asked for, off its front. *)
Lemma sys_read_cuts n b s :
  cuts b s -> b <> [] -> (0 < n)%nat ->
  exists d b' s', sys_read n s = (Some d, s') /\ d <> [] /\ (length d <= n)%nat /\
                  b = d ++ b' /\ cuts b' s'.
Proof.
  intros [<- Hne] Hb Hn. destruct s as [|seg s]; [done|].
  apply Forall_cons in Hne as [Hseg Hne]. unfold sys_read.
  destruct (take n seg) as [|x d] eqn:E; [destruct seg, n; done || lia|].
  assert (Hl : (length (x :: d) <= n)%nat) by (rewrite <- E, length_take; lia).
  pose proof (take_drop n seg) as Htd. rewrite E in Htd.
  destruct (drop n seg) as [|y r] eqn:Er.
  - rewrite app_nil_r in Htd. exists (x :: d), (concat s), s. subst seg. repeat split; auto.
  - exists (x :: d), ((y :: r) ++ concat s), ((y :: r) :: s). repeat split; auto.
    cbn [concat]. by rewrite <- Htd, <- app_assoc.
Qed.

(** [read_exact] does not depend on how the stream is cut. *)
Lemma read_loop_cuts fuel : forall need acc b s,
  cuts b s -> (need <= fuel)%nat ->
  if (need <=? length b)%nat
  then exists s', read_loop fuel need acc s = (Some (acc ++ take need b), s') /\ cuts (drop need b) s'
  else exists s', read_loop fuel need acc s = (None, s').
Proof.
  induction fuel as [|fuel IH]; intros need acc b s Hc Hf.
  { destruct need; [|lia]. cbn. exists s. by rewrite app_nil_r. }
  destruct need as [|need]; [cbn; exists s; by rewrite app_nil_r|].
  cbn [read_loop]. destruct (decide (b = [])) as [->|Hb].
  { apply cuts_nil in Hc as ->. cbn. eauto. }
  destruct (sys_read_cuts (S need) b s) as (d & b' & s' & -> & Hd & Hl & -> & Hc'); [done..|lia|].
  assert (0 < length d)%nat by (destruct d; [done|cbn; lia]).
  specialize (IH (S need - length d)%nat (acc ++ d) b' s' Hc' ltac:(lia)). rewrite length_app.
  destruct (S need <=? length d + length b')%nat eqn:E; bool_arith.
  - rewrite (proj2 (Nat.leb_le _ _)) in IH by lia. destruct IH as (s2 & -> & ?). exists s2.
    rewrite take_app, (take_ge d) by lia. rewrite drop_app, (drop_ge d) by lia.
    rewrite app_assoc. done.
  - by rewrite (proj2 (Nat.leb_gt _ _)) in IH by lia.
Qed.

Lemma read_exact_cuts n b s :
  cuts b s ->
  if (n <=? length b)%nat
  then exists s', read_exact n s = (Some (take n b), s') /\ cuts (drop n b) s'
  else exists s', read_exact n s = (None, s').
Proof. intros. by apply (read_loop_cuts n n []). Qed.

Lemma relay_deframe fuel : forall fuel' sent b s,
  cuts b s -> (length b < fuel)%nat -> (length b < fuel')%nat ->
  relay_vmnet_to_avf fuel (fun _ => true) sent s = Some (sent ++ deframe fuel' b).
Proof.
  induction fuel as [|fuel IH]; intros fuel' sent b s Hc Hf Hf'; [lia|].
  destruct fuel' as [|fuel']; [lia|]. cbn [relay_vmnet_to_avf deframe].
  pose proof (read_exact_cuts 4 b s Hc) as H4. destruct (4 <=? length b)%nat eqn:E; bool_arith.
  2: { destruct H4 as [s' ->]. rewrite (proj2 (Nat.ltb_lt _ _)) by lia. by rewrite app_nil_r. }
  destruct H4 as (s' & -> & Hc'). rewrite (proj2 (Nat.ltb_ge _ _)) by lia. cbn [orb].
  destruct ((_ =? 0) || _)%bool eqn:Ei; [by rewrite app_nil_r|]. cbn [orb].
  pose proof (read_exact_cuts (Z.to_nat (u32_from_be (take 4 b))) _ _ Hc') as Hn.
  destruct (_ <=? _)%nat eqn:En in Hn; bool_arith.
  2: { destruct Hn as [s2 ->]. rewrite (proj2 (Nat.ltb_lt _ _)) by lia. by rewrite app_nil_r. }
  destruct Hn as (s2 & -> & Hc2). rewrite (proj2 (Nat.ltb_ge _ _)) by lia.
  rewrite (IH fuel') with (b := drop (Z.to_nat (u32_from_be (take 4 b))) (drop 4 b));
    [| done | rewrite !length_drop; lia ..].
  by rewrite <- app_assoc.
Qed.

Lemma u32_header n :
  0 <= n < 4294967296 -> u32_from_be (to_be32 (as_u32 n)) = n.
Proof.
  intros. unfold u32_from_be, to_be32. cbn [nth]. rewrite be32_to_be32 by apply as_u32_is_u32.
  unfold as_u32. by apply Z.mod_small.
Qed.

Lemma length_prefixed f : length (prefixed f) = (4 + length f)%nat.
Proof. unfold prefixed. by rewrite length_app. Qed.

Lemma deframe_frame fuel f b :
  frame_ok f -> deframe (S fuel) (prefixed f ++ b) = f :: deframe fuel b.
Proof.
  intros Hok. unfold frame_ok, FRAME_BUF in Hok. unfold prefixed. cbn [deframe].
  set (hd := to_be32 _). assert (length hd = 4%nat) as Hh by done.
  assert (u32_from_be hd = Z.of_nat (length f)) as Hu by (apply u32_header; lia). clearbody hd.
  rewrite <- app_assoc. replace 4%nat with (length hd). rewrite take_app_length, drop_app_length.
  rewrite Hu. rewrite !length_app.
  rewrite (proj2 (Nat.ltb_ge _ _)) by lia. rewrite (proj2 (Z.eqb_neq _ _)) by lia.
  rewrite (proj2 (Z.ltb_ge _ _)) by (unfold FRAME_BUF; lia).
  rewrite (proj2 (Nat.ltb_ge _ _)) by lia. cbn [orb]. rewrite Nat2Z.id.
  by rewrite take_app_length, drop_app_length.
Qed.

Lemma deframe_short fuel f k :
  frame_ok f -> (k < length (prefixed f))%nat -> deframe fuel (take k (prefixed f)) = [].
Proof.
  intros Hok Hk. rewrite length_prefixed in Hk. destruct fuel as [|fuel]; [done|].
  unfold frame_ok, FRAME_BUF in Hok. unfold prefixed. cbn [deframe].
  set (hd := to_be32 _). assert (length hd = 4%nat) as Hh by done.
  assert (u32_from_be hd = Z.of_nat (length f)) as Hu by (apply u32_header; lia). clearbody hd.
  destruct (decide (k < 4)%nat).
  { by rewrite (proj2 (Nat.ltb_lt _ _)) by (rewrite length_take; lia). }
  rewrite take_app, Hh, (take_ge hd) by lia.
  replace 4%nat with (length hd). rewrite take_app_length, drop_app_length.
  rewrite Hu.
  rewrite (proj2 (Nat.ltb_lt (length (take _ f)) _)) by (rewrite length_take; lia).
  by rewrite orb_true_r.
Qed.

(** Any prefix of a sequence of prefixed frames holds a prefix of the frames. *)
Lemma deframe_prefix frames : forall k fuel,
  Forall frame_ok frames -> (k <= length (flat_map prefixed frames))%nat -> (k < fuel)%nat ->
  exists m, deframe fuel (take k (flat_map prefixed frames)) = take m frames /\
    (k = length (flat_map prefixed frames) -> m = length frames).
Proof.
  induction frames as [|f frames IH]; intros k fuel Hw Hk Hf; cbn [flat_map] in *.
  { exists 0%nat. rewrite take_nil. destruct fuel; done. }
  apply Forall_cons in Hw as [Hok Hw]. rewrite length_app in *. pose proof (length_prefixed f).
  destruct (decide (k < length (prefixed f))%nat).
  { exists 0%nat. rewrite take_app_le by lia. rewrite deframe_short by done. split; [done|lia]. }
  destruct fuel as [|fuel]; [lia|]. rewrite take_app_ge by lia. rewrite deframe_frame by done.
  destruct (IH (k - length (prefixed f))%nat fuel) as (m & -> & Hm); [done|lia..|].
  exists (S m). split; [done|]. intros. cbn [length]. rewrite Hm by lia. done.
Qed.

(** [write_all] gets a prefix of its bytes through, all of them when it succeeds. *)
Lemma write_loop_prefix fuel : forall d w ok w',
  write_loop fuel d w = (ok, w') ->
  exists k, taken w' = taken w ++ take k d /\ (k <= length d)%nat /\ (ok = true -> k = length d).
Proof.
  induction fuel as [|fuel IH]; intros d w ok w' H; destruct d as [|x d]; cbn [write_loop] in H.
  1,2,3: simplify_eq; exists 0%nat; rewrite app_nil_r; (split; [done|]); split; [cbn; lia|done].
  unfold sys_write in H. destruct (grants w) as [|g gs].
  { simplify_eq. exists 0%nat. rewrite app_nil_r. split; [done|]. split; [cbn; lia|done]. }
  destruct (Nat.min g (length (x :: d))) as [|r] eqn:Er.
  { simplify_eq. assert (g = 0)%nat as -> by (cbn in Er; lia). exists 0%nat. cbn [taken].
    split; [done|]. split; [cbn; lia|done]. }
  apply IH in H as (k & Ht & Hk & Hok). cbn [taken] in Ht. rewrite length_drop in *.
  assert (take g (x :: d) = take (S r) (x :: d)) as Hg.
  { destruct (decide (g <= length (x :: d))%nat); [f_equal; lia|]. rewrite !take_ge by lia. done. }
  exists (S r + k)%nat. rewrite Ht, Hg, <- app_assoc, take_take_drop. split; [done|].
  split; [lia|]. intros. rewrite Hok by done. lia.
Qed.

Lemma relay_avf_prefix frames : forall w,
  Forall frame_ok frames ->
  exists k, taken (relay_avf_to_vmnet frames w) = taken w ++ take k (flat_map prefixed frames) /\
            (k <= length (flat_map prefixed frames))%nat.
Proof.
  induction frames as [|f frames IH]; intros w Hw; cbn [relay_avf_to_vmnet flat_map].
  { exists 0%nat. rewrite app_nil_r. split; [done|lia]. }
  apply Forall_cons in Hw as [Hok Hw]. unfold frame_ok in Hok.
  rewrite (take_ge f) by lia. destruct f as [|x f]; [cbn in Hok; lia|].
  set (f' := x :: f) in *. change (prefixed f') with (to_be32 (as_u32 (Z.of_nat (length f'))) ++ f').
  set (hd := to_be32 _). rewrite !length_app. clearbody f' hd.
  destruct (write_all hd w) as [ok1 w1] eqn:E1. apply write_loop_prefix in E1 as (k1 & H1 & ? & Hk1).
  destruct ok1.
  2: { exists k1. rewrite <- app_assoc, take_app_le by lia. split; [done|lia]. }
  destruct (write_all f' w1) as [ok2 w2] eqn:E2. apply write_loop_prefix in E2 as (k2 & H2 & ? & Hk2).
  rewrite Hk1, firstn_all in H1 by done.
  destruct ok2.
  2: { exists (length hd + k2)%nat. rewrite H2, H1, <- !app_assoc, take_app_add, take_app_le by lia.
       split; [done|lia]. }
  rewrite Hk2, firstn_all in H2 by done. destruct (IH w2 Hw) as (k & -> & ?).
  exists (length hd + (length f' + k))%nat. rewrite H2, H1, <- !app_assoc, !take_app_add.
  split; [done|lia].
Qed.

(** What a successful read loop returns is exactly the bytes asked for, off the front. *)
Lemma read_loop_inv fuel : forall need acc s d s',
  read_loop fuel need acc s = (Some d, s') ->
  exists d', d = acc ++ d' /\ length d' = need /\ concat s = d' ++ concat s'.
Proof.
  induction fuel as [|fuel IH]; intros need acc s d s' H; destruct need as [|need];
    cbn [read_loop] in H; simplify_eq; try (exists []; by rewrite app_nil_r).
  unfold sys_read in H. destruct s as [|seg s]; [done|].
  pose proof (take_drop (S need) seg) as Htd.
  pose proof (firstn_le_length (S need) seg) as Hle.
  destruct (take (S need) seg) as [|x t] eqn:E; [done|].
  destruct (drop (S need) seg) as [|y r] eqn:Er; apply IH in H as (d' & -> & Hl & Hc);
    exists ((x :: t) ++ d'); rewrite length_app, Hl, <- app_assoc; (split; [done|]); (split; [lia|]);
    rewrite <- app_assoc, <- Hc, <- Htd; cbn [concat]; [by rewrite app_nil_r | by rewrite <- app_assoc].
Qed.

(** The relay thread with the fuel that always suffices. *)
Definition run_vmnet_to_avf (send_ok : list (list Z) -> bool) (s : stream) : option (list (list Z)) :=
  relay_vmnet_to_avf (S (length (concat s))) send_ok [] s.

Lemma u32_from_be_nonneg b : bytes b -> 0 <= u32_from_be b.
Proof.
  intros Hb. unfold u32_from_be.
  assert (Hn : forall k, is_u8 (nth k b 0)).
  { intros k. destruct (nth_in_or_default k b 0) as [Hin| ->]; [|unfold is_u8; lia].
    apply list_elem_of_In in Hin. unfold bytes in Hb. rewrite Forall_forall in Hb. by apply Hb. }
  apply be32_bound; apply Hn.
Qed.

Lemma relay_bounds fuel : forall send_ok sent s,
  bytes (concat s) -> Forall frame_ok sent -> (length (concat s) < fuel)%nat ->
  exists out, relay_vmnet_to_avf fuel send_ok sent s = Some out /\ Forall frame_ok out.
Proof.
  induction fuel as [|fuel IH]; intros send_ok sent s Hb Hs Hf; [lia|]. cbn [relay_vmnet_to_avf].
  destruct (read_exact 4 s) as [[h|] s1] eqn:E1; [|eauto].
  apply read_loop_inv in E1 as (h' & -> & Hh & Hc1). cbn [app].
  destruct (_ || _)%bool eqn:Ei; [eauto|]. bool_arith.
  destruct (read_exact _ s1) as [[f|] s2] eqn:E2; [|eauto].
  apply read_loop_inv in E2 as (f' & -> & Hl & Hc2). cbn [app]. case_goal; [|eauto].
  rewrite Hc1, Hc2 in Hb. apply Forall_app in Hb as [Hbh Hb]. apply Forall_app in Hb as [_ Hb].
  pose proof (u32_from_be_nonneg _ Hbh).
  apply IH; [done | | rewrite Hc1, Hc2, !length_app in Hf; lia].
  apply Forall_app. split; [done|]. constructor; [|constructor]. unfold frame_ok. lia.
Qed.

(** * Properties *)

(** The thread from vmnet to the virtual machine is safe on every stream: for all bytes, however
    the kernel cuts them into short reads and whichever [send] fails, it stops, and every datagram
    it sent has between 1 and 65536 bytes, so the fixed frame buffer is never overrun. *)
Theorem vmnet_relay_safe send_ok s :
  bytes (concat s) ->
  exists out, run_vmnet_to_avf send_ok s = Some out /\ Forall frame_ok out.
Proof. intros. apply relay_bounds; auto with lia. Qed.

Lemma vmnet_relay_safe_witness :
  bytes (concat [[0; 0]; [0; 2; 7]; [8; 0; 0; 0; 0]]) /\
  exists out, run_vmnet_to_avf (fun _ => true) [[0; 0]; [0; 2; 7]; [8; 0; 0; 0; 0]] = Some out /\
              Forall frame_ok out.
Proof.
  assert (bytes (concat [[0; 0]; [0; 2; 7]; [8; 0; 0; 0; 0]])) as H
    by (repeat constructor; unfold is_u8; lia).
  split; [exact H | exact (vmnet_relay_safe (fun _ => true) _ H)].
Defined.

(** short reads are invisible.  However a byte stream is cut into reads, the thread sends exactly
    the frames of the stream up to the first invalid header or incomplete frame. *)
Theorem vmnet_relay_cut_independent b s :
  cuts b s -> run_vmnet_to_avf (fun _ => true) s = Some (deframe (S (length b)) b).
Proof.
  intros Hc. unfold run_vmnet_to_avf. rewrite (proj1 Hc).
  by rewrite (relay_deframe _ (S (length b)) [] b) by (auto with lia).
Qed.

Lemma vmnet_relay_cut_independent_witness :
  cuts [0; 0; 0; 2; 7; 8; 1] [[0; 0; 0]; [2; 7]; [8; 1]] /\
  run_vmnet_to_avf (fun _ => true) [[0; 0; 0]; [2; 7]; [8; 1]] = Some [[7; 8]].
Proof.
  assert (cuts [0; 0; 0; 2; 7; 8; 1] [[0; 0; 0]; [2; 7]; [8; 1]]) as H
    by (split; [reflexivity | repeat constructor; discriminate]).
  split; [exact H | exact (vmnet_relay_cut_independent _ _ H)].
Defined.

(** C7: the two relay threads are inverse to each other.  Frames of 1 to 65536 bytes that one thread
    writes to the stream, through any sequence of short writes and even if the stream fails in the
    middle, come out of the other thread, through any sequence of short reads, as a prefix of the
    frames, unchanged and in order; all of them come out when all the bytes were written. *)
Theorem vmnet_relay_round frames gs s :
  Forall frame_ok frames ->
  cuts (taken (relay_avf_to_vmnet frames (Sink [] gs))) s ->
  exists m, run_vmnet_to_avf (fun _ => true) s = Some (take m frames) /\
    (length (concat s) = length (flat_map prefixed frames) -> m = length frames).
Proof.
  intros Hw Hc. destruct (relay_avf_prefix frames (Sink [] gs) Hw) as (k & Ht & Hk).
  cbn [taken app] in Ht. rewrite Ht in Hc. pose proof (proj1 Hc) as Hcc.
  assert (length (concat s) = k) as Hl by (rewrite Hcc, length_take; lia).
  destruct (deframe_prefix frames k (S k) Hw Hk) as (m & Hd & Hm); [lia|].
  exists m. rewrite Hl. split; [|done]. unfold run_vmnet_to_avf. rewrite Hl.
  rewrite (relay_deframe _ (S k) [] _ _ Hc) by (rewrite <- ?Hcc, ?Hl; lia).
  by rewrite Hd.
Qed.

Lemma vmnet_relay_round_witness :
  exists m, run_vmnet_to_avf (fun _ => true) [[0; 0]; [0; 2; 7; 8; 0]; [0]] = Some (take m [[7; 8]; [9]]) /\
    (length (concat [[0; 0]; [0; 2; 7; 8; 0]; [0]]) = length (flat_map prefixed [[7; 8]; [9]]) -> m = 2%nat).
Proof.
  apply (vmnet_relay_round [[7; 8]; [9]] [3; 1; 5; 2; 0]%nat [[0; 0]; [0; 2; 7; 8; 0]; [0]]).
  - repeat constructor; vm_compute; congruence.
  - split; [reflexivity | repeat constructor; discriminate].
Defined.
