(* ===== verification/Packets.v ===== *)
(** The link-layer packets the program synthesises, byte for byte: ARP replies, router and neighbour
    advertisements of the utun relay ([pelagos-vz/src/tun_relay.rs]), neighbour solicitations and
    gratuitous advertisements of the privileged helper ([pelagos-pfctl/src/main.rs]), and the two
    implementations of the ICMPv6 checksum. *)

From S2P Require Import Prelude.

#[local] Open Scope Z_scope.

(** A Rust array [[u8; n]]. *)
Definition arr (n : nat) (l : list Z) : Prop := length l = n /\ bytes l.

(** * Addresses *)

Definition GATEWAY_MAC : list Z := [2; 0; 0; 0; 0; 1].
Definition GATEWAY_IP6_LL : list Z := [254; 128; 0; 0; 0; 0; 0; 0; 0; 0; 0; 0; 0; 0; 0; 1].
Definition GATEWAY_IP6_ULA : list Z := [253; 0; 0; 0; 0; 0; 0; 0; 0; 0; 0; 0; 0; 0; 0; 1].
Definition ALL_NODES_MAC : list Z := [51; 51; 0; 0; 0; 1].
Definition ALL_NODES_IP6 : list Z := [255; 2; 0; 0; 0; 0; 0; 0; 0; 0; 0; 0; 0; 0; 0; 1].

(** * Checksums *)

(** [x + y] on [u32], which wraps in a release build. *)
Definition u32_add (x y : Z) : Z := as_u32 (x + y).

(** The loops over the big-endian 16-bit words of a buffer; an odd last byte is the high byte of a
    word. *)
Fixpoint add_words (sum : Z) (l : list Z) : Z :=
  match l with
  | a :: b :: t => add_words (u32_add sum (be16 a b)) t
  | [a] => u32_add sum (Z.shiftl a 8)
  | [] => sum
  end.

(** [while sum >> 16 != 0 { sum = (sum & 0xffff) + (sum >> 16) }] *)
Fixpoint fold_carry (fuel : nat) (sum : Z) : option Z :=
  if Z.shiftr sum 16 =? 0 then Some sum
  else match fuel with
       | O => None
       | S fuel => fold_carry fuel (u32_add (Z.land sum 65535) (Z.shiftr sum 16))
       end.

(** Two rounds are enough for a [u32]. *)
Definition FOLD_ROUNDS : nat := 2.

(** [!(sum as u16)] *)
Definition not_u16 (sum : Z) : Z := 65535 - as_u16 sum.

(** [icmpv6_checksum] of the relay.  The [for] loops over the addresses take their 16-bit words. *)
Definition icmpv6_checksum_vz (src dst payload : list Z) : option Z :=
  let sum := add_words 0 src in
  let sum := add_words sum dst in
  let len := as_u32 (Z.of_nat (length payload)) in
  let sum := u32_add sum (Z.shiftr len 16) in
  let sum := u32_add sum (Z.land len 65535) in
  let sum := u32_add sum 58 in
  let sum := add_words sum payload in
  not_u16 <$> fold_carry FOLD_ROUNDS sum.

(** [icmpv6_checksum] of the helper, which lays the pseudo-header out as 40 bytes first. *)
Definition icmpv6_checksum_pfctl (src dst payload : list Z) : option Z :=
  let ulen := as_u32 (Z.of_nat (length payload)) in
  let p := replicate 40 0 in
  let p := splice 0 src p in
  let p := splice 16 dst p in
  let p := splice 32 (to_be32 ulen) p in
  let p := splice 39 [58] p in
  let sum := add_words 0 p in
  let sum := add_words sum payload in
  not_u16 <$> fold_carry FOLD_ROUNDS sum.

(** [icmp[2] = (cksum >> 8) as u8; icmp[3] = (cksum & 0xff) as u8] *)
Definition set_cksum_vz (cksum : Z) (icmp : list Z) : list Z :=
  splice 3 [as_u8 (Z.land cksum 255)] (splice 2 [as_u8 (Z.shiftr cksum 8)] icmp).

(** * The relay's packets *)

(** [build_ra] *)
Definition build_ra (gua_prefix : list Z) : option (list Z) :=
  let icmp := replicate 56 0 in
  let icmp := splice 0 [134] icmp in
  let icmp := splice 4 [64] icmp in
  let icmp := splice 6 (to_be16 1800) icmp in
  let icmp := splice 16 [3] icmp in
  let icmp := splice 17 [4] icmp in
  let icmp := splice 18 [64] icmp in
  let icmp := splice 19 [192] icmp in
  let icmp := splice 20 (to_be32 86400) icmp in
  let icmp := splice 24 (to_be32 14400) icmp in
  let icmp := splice 32 gua_prefix icmp in
  let icmp := splice 48 [1] icmp in
  let icmp := splice 49 [1] icmp in
  let icmp := splice 50 GATEWAY_MAC icmp in
  cksum ← icmpv6_checksum_vz GATEWAY_IP6_LL ALL_NODES_IP6 icmp;
  let icmp := set_cksum_vz cksum icmp in
  Some (ALL_NODES_MAC ++ GATEWAY_MAC ++ [134; 221] ++ [96; 0; 0; 0] ++ to_be16 56 ++ [58] ++ [255]
        ++ GATEWAY_IP6_LL ++ ALL_NODES_IP6 ++ icmp).

(** [build_arp_reply] *)
Definition build_arp_reply (vm_mac vm_ip4 gateway_ip4 : list Z) : list Z :=
  let f := replicate 42 0 in
  let f := splice 0 vm_mac f in
  let f := splice 6 GATEWAY_MAC f in
  let f := splice 13 [6] (splice 12 [8] f) in
  let f := splice 15 [1] (splice 14 [0] f) in
  let f := splice 17 [0] (splice 16 [8] f) in
  let f := splice 18 [6] f in
  let f := splice 19 [4] f in
  let f := splice 21 [2] (splice 20 [0] f) in
  let f := splice 22 GATEWAY_MAC f in
  let f := splice 28 gateway_ip4 f in
  let f := splice 32 vm_mac f in
  splice 38 vm_ip4 f.

(** [build_ndp_na] *)
Definition build_ndp_na (vm_mac target_ip6 dst_ip6 : list Z) : option (list Z) :=
  let src_ip6 := target_ip6 in
  let icmp := replicate 32 0 in
  let icmp := splice 0 [136] icmp in
  let icmp := splice 1 [0] icmp in
  let icmp := splice 4 [96] icmp in
  let icmp := splice 8 target_ip6 icmp in
  let icmp := splice 24 [2] icmp in
  let icmp := splice 25 [1] icmp in
  let icmp := splice 26 GATEWAY_MAC icmp in
  cksum ← icmpv6_checksum_vz src_ip6 dst_ip6 icmp;
  let icmp := set_cksum_vz cksum icmp in
  Some (vm_mac ++ GATEWAY_MAC ++ [134] ++ [221] ++ [96; 0; 0; 0] ++ to_be16 32 ++ [58] ++ [255]
        ++ src_ip6 ++ dst_ip6 ++ icmp).

(** * The helper's packets *)

(** The Ethernet and IPv6 headers both senders fill into an 86-byte frame before the payload. *)
Definition fill_frame (eth_dst eth_src ip_src ip_dst icmp : list Z) : list Z :=
  let frame := replicate 86 0 in
  let frame := splice 0 eth_dst frame in
  let frame := splice 6 eth_src frame in
  let frame := splice 12 [134; 221] frame in
  let frame := splice 14 [96] frame in
  let frame := splice 18 (to_be16 32) frame in
  let frame := splice 20 [58] frame in
  let frame := splice 21 [255] frame in
  let frame := splice 22 ip_src frame in
  let frame := splice 38 ip_dst frame in
  splice 54 icmp frame.

(** The frame of [send_ndp_probe_ns] *)
Definition ndp_probe_ns (en0_mac router_mac vm_gua router : list Z) : option (list Z) :=
  let icmp := replicate 32 0 in
  let icmp := splice 0 [135] icmp in
  let icmp := splice 8 router icmp in
  let icmp := splice 24 [1] icmp in
  let icmp := splice 25 [1] icmp in
  let icmp := splice 26 en0_mac icmp in
  csum ← icmpv6_checksum_pfctl vm_gua router icmp;
  let icmp := splice 2 (to_be16 csum) icmp in
  Some (fill_frame router_mac en0_mac vm_gua router icmp).

(** The frame of [send_gratuitous_na] *)
Definition gratuitous_na (en0_mac vm_gua : list Z) : option (list Z) :=
  let icmp := replicate 32 0 in
  let icmp := splice 0 [136] icmp in
  let icmp := splice 1 [0] icmp in
  let icmp := splice 4 [32] icmp in
  let icmp := splice 8 vm_gua icmp in
  let icmp := splice 24 [2] icmp in
  let icmp := splice 25 [1] icmp in
  let icmp := splice 26 en0_mac icmp in
  csum ← icmpv6_checksum_pfctl vm_gua ALL_NODES_IP6 icmp;
  let icmp := splice 2 (to_be16 csum) icmp in
  Some (fill_frame ALL_NODES_MAC en0_mac vm_gua ALL_NODES_IP6 icmp).

(** * Specification *)

(** The unbounded sum of the 16-bit words. *)
Fixpoint wsum (l : list Z) : Z :=
  match l with
  | a :: b :: t => be16 a b + wsum t
  | [a] => a * 256
  | [] => 0
  end.

(** The sum a receiver computes over the pseudo-header and the payload, checksum included. *)
Definition pseudo_sum (src dst payload : list Z) : Z :=
  wsum src + wsum dst + wsum (to_be32 (as_u32 (Z.of_nat (length payload)))) + 58 + wsum payload.

(** The one's-complement sum: the residue modulo 65535, represented by 1 .. 65535 unless all the
    words are zero. *)
Definition ones_complement (s : Z) : Z :=
  if s =? 0 then 0 else (s - 1) mod 65535 + 1.

(** What RFC 4861 requires of a neighbour-discovery packet in an Ethernet frame before it is
    processed: an IPv6 header with hop limit 255 whose payload length is what follows, and a
    checksum that adds up to all ones. *)
Definition ndp_valid (f : list Z) : Prop :=
  let payload := drop 54 f in
  slice 12 14 f = [134; 221] /\ nth 14 f 0 = 96 /\
  be16 (nth 18 f 0) (nth 19 f 0) = Z.of_nat (length payload) /\
  nth 20 f 0 = 58 /\ nth 21 f 0 = 255 /\
  ones_complement (pseudo_sum (slice 22 38 f) (slice 38 54 f) payload) = 65535.

(** * Lemmas *)

(** Induction two elements at a time. *)
Lemma pairs_ind {A} (P : list A -> Prop) :
  P [] -> (forall a, P [a]) -> (forall a b t, P t -> P (a :: b :: t)) -> forall l, P l.
Proof.
  intros H0 H1 H2. assert (forall l, P l /\ forall a, P (a :: l)) as H; [|apply H].
  induction l as [|x l [IH1 IH2]]; [auto|]. split; [apply IH2|]. intros a. by apply H2.
Qed.

Lemma as_u32_id x : is_u32 x -> as_u32 x = x.
Proof. apply Z.mod_small. Qed.

Lemma as_u32_add_l x y : as_u32 (as_u32 x + y) = as_u32 (x + y).
Proof. unfold as_u32. apply Z.add_mod_idemp_l. lia. Qed.

Lemma add_words_wsum l s : add_words (as_u32 s) l = as_u32 (s + wsum l).
Proof.
  revert s. induction l as [|a|a b t IH] using pairs_ind; intros s; cbn [add_words wsum].
  - f_equal. lia.
  - unfold u32_add. by rewrite as_u32_add_l, Z.shiftl_mul_pow2 by lia.
  - unfold u32_add. rewrite as_u32_add_l, IH. f_equal. lia.
Qed.

Lemma wsum_bound l : bytes l -> 0 <= wsum l <= 32768 * (Z.of_nat (length l) + 1).
Proof.
  induction l as [|a|a b t IH] using pairs_ind; intros Hb; cbn [wsum length].
  - lia.
  - apply Forall_cons in Hb as [Ha _]. unfold is_u8 in Ha. lia.
  - apply Forall_cons in Hb as [Ha Hb]. apply Forall_cons in Hb as [Hb Ht].
    specialize (IH Ht). unfold is_u8, be16 in *. lia.
Qed.

Lemma wsum_nonneg l : bytes l -> 0 <= wsum l.
Proof. intros. by apply wsum_bound. Qed.

(** Writing a word over a zero word adds it to the sum. *)
Lemma wsum_word_2 a b x y t : wsum (a :: b :: x :: y :: t) = be16 x y + wsum (a :: b :: 0 :: 0 :: t).
Proof. cbn [wsum]. unfold be16. lia. Qed.

Lemma fold_step s : is_u32 s -> s >= 65536 ->
  let s' := u32_add (Z.land s 65535) (Z.shiftr s 16) in
  0 < s' < s /\ s' <= 131070 /\ exists k, s = s' + k * 65535.
Proof.
  intros Hs Hb s'. unfold is_u32 in Hs. change 65535 with (Z.ones 16) in s'. subst s'.
  rewrite Z.land_ones, Z.shiftr_div_pow2 by lia. change (2 ^ 16) with 65536.
  pose proof (Z.div_mod s 65536). pose proof (Z.mod_pos_bound s 65536).
  assert (s / 65536 < 65536) by (apply Z.div_lt_upper_bound; lia).
  unfold u32_add. rewrite as_u32_id by (unfold is_u32; lia).
  repeat split; try lia. exists (s / 65536). lia.
Qed.

Lemma fold_done n s : 0 <= s < 65536 -> fold_carry n s = Some s.
Proof.
  intros. assert (Z.shiftr s 16 = 0) as Hz.
  { rewrite Z.shiftr_div_pow2 by lia. by apply Z.div_small. }
  destruct n; cbn [fold_carry]; by rewrite Hz.
Qed.

Lemma fold_more n s : is_u32 s -> s >= 65536 ->
  fold_carry (S n) s = fold_carry n (u32_add (Z.land s 65535) (Z.shiftr s 16)).
Proof.
  intros Hs Hb. cbn [fold_carry]. rewrite Z.shiftr_div_pow2 by lia. change (2 ^ 16) with 65536.
  assert (1 <= s / 65536) by (apply Z.div_le_lower_bound; unfold is_u32 in Hs; lia).
  by rewrite (proj2 (Z.eqb_neq _ _)) by lia.
Qed.

(** The folding loop stops within its rounds, at the one's-complement sum. *)
Lemma fold_carry_spec s : is_u32 s -> fold_carry FOLD_ROUNDS s = Some (ones_complement s).
Proof.
  assert (Hc : forall r k, 0 < r <= 65535 -> r + k * 65535 > 0 -> ones_complement (r + k * 65535) = r).
  { intros r k Hr Hp. unfold ones_complement. rewrite (proj2 (Z.eqb_neq _ _)) by lia.
    replace (r + k * 65535 - 1) with (r - 1 + k * 65535) by lia.
    rewrite Z.mod_add, Z.mod_small by lia. lia. }
  intros Hs. unfold FOLD_ROUNDS. destruct (decide (s < 65536)).
  { rewrite fold_done by (unfold is_u32 in Hs; lia). f_equal. destruct (decide (s = 0)) as [->|]; [done|].
    rewrite <- (Hc s 0) at 1 by (unfold is_u32 in Hs; lia). f_equal. lia. }
  destruct (fold_step s) as ([??] & ? & k & Hk); [done|lia|]. rewrite fold_more by (done || lia).
  set (s1 := u32_add _ _) in *. clearbody s1. destruct (decide (s1 < 65536)).
  { rewrite fold_done by lia. rewrite Hk, Hc by lia. done. }
  destruct (fold_step s1) as ([??] & ? & k1 & Hk1); [unfold is_u32 in *; lia|lia|].
  rewrite fold_more by (unfold is_u32 in *; lia).
  set (s2 := u32_add _ _) in *. clearbody s2.
  rewrite fold_done by lia. rewrite Hk, Hk1.
  replace (s2 + k1 * 65535 + k * 65535) with (s2 + (k1 + k) * 65535) by lia.
  rewrite Hc by lia. done.
Qed.

Lemma ones_complement_range s : 0 <= s -> 0 <= ones_complement s <= 65535.
Proof.
  intros. unfold ones_complement. case_goal; [lia|].
  pose proof (Z.mod_pos_bound (s - 1) 65535). lia.
Qed.

Lemma fold_not_u16 s :
  not_u16 <$> fold_carry FOLD_ROUNDS (as_u32 s) = Some (65535 - ones_complement (as_u32 s)).
Proof.
  rewrite fold_carry_spec by apply as_u32_is_u32. cbn. f_equal. unfold not_u16, as_u16.
  pose proof (ones_complement_range (as_u32 s)). pose proof (as_u32_is_u32 s) as Hu.
  unfold is_u32 in Hu. by rewrite Z.mod_small by lia.
Qed.

Lemma len_words u : is_u32 u -> wsum (to_be32 u) = Z.shiftr u 16 + Z.land u 65535.
Proof.
  intros Hu. unfold is_u32 in Hu. change 65535 with (Z.ones 16).
  rewrite Z.land_ones, Z.shiftr_div_pow2 by lia. change (2 ^ 16) with 65536.
  pose proof (be32_to_be32 u Hu). unfold be32 in *. cbn [wsum to_be32]. unfold be16.
  pose proof (Z.mod_pos_bound (u / 256) 256). pose proof (Z.mod_pos_bound u 256).
  set (x := u / 16777216 mod 256 * 256 + u / 65536 mod 256) in *.
  set (y := u / 256 mod 256 * 256 + u mod 256) in *.
  assert (u / 65536 = x) as ->. { symmetry. apply (Z.div_unique u 65536 x y); lia. }
  assert (u mod 65536 = y) as ->. { symmetry. apply (Z.mod_unique u 65536 x y); lia. }
  lia.
Qed.

(** The relay's checksum is the complement of the folded sum, modulo the wrap-around of [u32]. *)
Lemma checksum_vz_spec src dst p :
  icmpv6_checksum_vz src dst p = Some (65535 - ones_complement (as_u32 (pseudo_sum src dst p))).
Proof.
  unfold icmpv6_checksum_vz. change (add_words 0) with (add_words (as_u32 0)). rewrite !add_words_wsum.
  unfold u32_add. rewrite !as_u32_add_l, add_words_wsum, fold_not_u16.
  unfold pseudo_sum. rewrite len_words by apply as_u32_is_u32. 
  rewrite <- !Z.add_assoc, !as_u32_add_l. do 4 f_equal. lia.
Qed.

Lemma splice_0 (src dst : list Z) : splice 0 src dst = src ++ drop (length src) dst.
Proof. done. Qed.

Lemma arr16 l : arr 16 l ->
  exists a b c d e f g h i j k m n o p q, l = [a; b; c; d; e; f; g; h; i; j; k; m; n; o; p; q].
Proof. intros [H _]. explode_list l H. repeat eexists. Qed.

Lemma arr6 l : arr 6 l -> exists a b c d e f, l = [a; b; c; d; e; f].
Proof. intros [H _]. explode_list l H. repeat eexists. Qed.

Lemma arr4 l : arr 4 l -> exists a b c d, l = [a; b; c; d].
Proof. intros [H _]. explode_list l H. repeat eexists. Qed.

Lemma checksum_pfctl_spec src dst p :
  arr 16 src -> arr 16 dst ->
  icmpv6_checksum_pfctl src dst p = Some (65535 - ones_complement (as_u32 (pseudo_sum src dst p))).
Proof.
  intros Hs Hd. unfold icmpv6_checksum_pfctl. set (u := as_u32 _).
  change (add_words 0) with (add_words (as_u32 0)). rewrite !add_words_wsum, fold_not_u16.
  do 4 f_equal. rewrite Z.add_0_l. unfold pseudo_sum. fold u. f_equal. clearbody u.
  destruct (arr16 _ Hs) as (?&?&?&?&?&?&?&?&?&?&?&?&?&?&?&?&->).
  destruct (arr16 _ Hd) as (?&?&?&?&?&?&?&?&?&?&?&?&?&?&?&?&->).
  unfold splice, to_be32. cbn [replicate take drop app length Nat.add wsum].
  unfold be16. lia.
Qed.

Lemma pseudo_sum_bound src dst p :
  arr 16 src -> arr 16 dst -> bytes p -> Z.of_nat (length p) <= 65535 ->
  0 < pseudo_sum src dst p < 4294967296 - 65536.
Proof.
  intros [Hs Bs] [Hd Bd] Bp Hl. unfold pseudo_sum.
  pose proof (wsum_bound _ Bs). pose proof (wsum_bound _ Bd). pose proof (wsum_bound _ Bp).
  pose proof (wsum_bound _ (to_be32_bytes (as_u32 (Z.of_nat (length p))))) as Hh.
  change (length (to_be32 _)) with 4%nat in Hh. rewrite Hs, Hd in *. lia.
Qed.

(** Filling the complement of the sum into the zeroed checksum word makes the sum all ones. *)
Lemma checksum_fills src dst a b t c :
  arr 16 src -> arr 16 dst -> bytes (a :: b :: 0 :: 0 :: t) -> Z.of_nat (length t) <= 65000 ->
  c = 65535 - ones_complement (as_u32 (pseudo_sum src dst (a :: b :: 0 :: 0 :: t))) ->
  ones_complement (pseudo_sum src dst (a :: b :: to_be16 c ++ t)) = 65535.
Proof.
  intros Hs Hd Hb Hl ->.
  assert (0 < pseudo_sum src dst (a :: b :: 0 :: 0 :: t) < 4294967296 - 65536) as Hp
    by (apply pseudo_sum_bound; auto; cbn [length]; lia).
  set (s := pseudo_sum _ _ _) in *. rewrite as_u32_id by (unfold is_u32; lia).
  pose proof (ones_complement_range s ltac:(lia)).
  set (c := 65535 - ones_complement s).
  assert (pseudo_sum src dst (a :: b :: to_be16 c ++ t) = s + c) as ->.
  { subst s. unfold pseudo_sum, to_be16. cbn [app]. rewrite wsum_word_2.
    rewrite be16_to_be16 by (unfold is_u16; lia). cbn [length]. lia. }
  subst c. assert (s + (65535 - ones_complement s) <> 0) as Hn by lia.
  revert Hn. unfold ones_complement. rewrite (proj2 (Z.eqb_neq s 0)) by lia. intros Hn.
  rewrite (proj2 (Z.eqb_neq _ 0) Hn).
  replace (s + (65535 - ((s - 1) mod 65535 + 1)) - 1) with (65534 + (s - 1) / 65535 * 65535)
    by (pose proof (Z.div_mod (s - 1) 65535); lia).
  rewrite Z.mod_add by lia. done.
Qed.

Lemma set_cksum_vz_word c a b x y t :
  is_u16 c -> set_cksum_vz c (a :: b :: x :: y :: t) = a :: b :: to_be16 c ++ t.
Proof.
  intros Hc. unfold set_cksum_vz, splice, to_be16, as_u8. cbn [take drop app length Nat.add].
  change 255 with (Z.ones 8). rewrite Z.land_ones, Z.shiftr_div_pow2 by lia.
  change (2 ^ 8) with 256. by rewrite Z.mod_mod by lia.
Qed.

Lemma splice_2_word c a b x y t :
  splice 2 (to_be16 c) (a :: b :: x :: y :: t) = a :: b :: to_be16 c ++ t.
Proof. done. Qed.

Lemma complement_u16 s : 0 <= s -> is_u16 (65535 - ones_complement s).
Proof. intros. pose proof (ones_complement_range s). unfold is_u16. lia. Qed.

(** Explicit bytes for every array of the context. *)
Ltac explode_arrays :=
  repeat match goal with
         | H : arr 16 ?l |- _ =>
             let E := fresh "E" in let B := fresh "B" in pose proof (proj2 H) as B; destruct (arr16 l H) as (?&?&?&?&?&?&?&?&?&?&?&?&?&?&?&?&E);
             clear H; subst l
         | H : arr 6 ?l |- _ =>
             let E := fresh "E" in let B := fresh "B" in pose proof (proj2 H) as B; destruct (arr6 l H) as (?&?&?&?&?&?&E); clear H; subst l
         | H : arr 4 ?l |- _ =>
             let E := fresh "E" in let B := fresh "B" in pose proof (proj2 H) as B; destruct (arr4 l H) as (?&?&?&?&E); clear H; subst l
         end.

(** An explicit list of bytes is one. *)
Ltac solve_bytes :=
  repeat match goal with
         | H : bytes (_ :: _) |- _ => apply bytes_cons_inv in H as [? H]
         end;
  repeat (apply bytes_cons; [first [assumption | unfold is_u8; lia]|]); apply bytes_nil.

Ltac solve_arr := split; [reflexivity | solve_bytes].

(** The validity of a frame with explicit headers around a filled-in checksum. *)
Ltac solve_ndp :=
  repeat split; try reflexivity;
  match goal with
  | |- ones_complement (pseudo_sum ?s ?d _) = _ =>
      let s' := eval vm_compute in s in let d' := eval vm_compute in d in
      change s with s'; change d with d'
  end;
  apply checksum_fills;
  [ solve_arr | solve_arr | solve_bytes | (cbn [length]; lia) | reflexivity ].

Lemma build_ra_valid p : arr 16 p -> exists f, build_ra p = Some f /\ ndp_valid f /\ length f = 110%nat.
Proof.
  intros Hp. explode_arrays. unfold build_ra.
  set (icmp := splice 50 GATEWAY_MAC _). vm_compute in icmp. subst icmp.
  rewrite checksum_vz_spec. cbn [mbind option_bind].
  rewrite set_cksum_vz_word by (apply complement_u16, as_u32_is_u32).
  eexists. split; [reflexivity|]. split; [|reflexivity].
  set (c := 65535 - _). unfold ndp_valid. solve_ndp.
Qed.

Lemma build_ndp_na_valid mac target dst :
  arr 6 mac -> arr 16 target -> arr 16 dst ->
  exists f, build_ndp_na mac target dst = Some f /\ ndp_valid f /\ length f = 86%nat.
Proof.
  intros. explode_arrays. unfold build_ndp_na.
  set (icmp := splice 26 GATEWAY_MAC _). vm_compute in icmp. subst icmp.
  rewrite checksum_vz_spec. cbn [mbind option_bind].
  rewrite set_cksum_vz_word by (apply complement_u16, as_u32_is_u32).
  eexists. split; [reflexivity|]. split; [|reflexivity].
  set (c := 65535 - _). unfold ndp_valid. solve_ndp.
Qed.

Lemma fill_frame_spec d s ip_s ip_d icmp :
  arr 6 d -> arr 6 s -> arr 16 ip_s -> arr 16 ip_d -> length icmp = 32%nat ->
  fill_frame d s ip_s ip_d icmp
  = d ++ s ++ [134; 221; 96; 0; 0; 0; 0; 32; 58; 255] ++ ip_s ++ ip_d ++ icmp.
Proof.
  intros. explode_arrays.
  match goal with H : length icmp = _ |- _ => explode_list icmp H end. reflexivity.
Qed.

Lemma ndp_probe_ns_valid mac rmac gua router :
  arr 6 mac -> arr 6 rmac -> arr 16 gua -> arr 16 router ->
  exists f, ndp_probe_ns mac rmac gua router = Some f /\ ndp_valid f /\ length f = 86%nat.
Proof.
  intros ? ? Hg Hr. unfold ndp_probe_ns. rewrite checksum_pfctl_spec by done.
  cbn [mbind option_bind]. explode_arrays.
  set (icmp := splice 26 _ _). vm_compute in icmp. subst icmp. rewrite splice_2_word.
  eexists. split; [reflexivity|]. rewrite fill_frame_spec by first [solve_arr | reflexivity]. split; [|reflexivity].
  set (c := 65535 - _). unfold ndp_valid. solve_ndp.
Qed.

Lemma gratuitous_na_valid mac gua :
  arr 6 mac -> arr 16 gua ->
  exists f, gratuitous_na mac gua = Some f /\ ndp_valid f /\ length f = 86%nat.
Proof.
  intros ? Hg. unfold gratuitous_na.
  rewrite checksum_pfctl_spec by first [done | (split; [reflexivity|]; repeat constructor; lia)].
  cbn [mbind option_bind]. explode_arrays.
  set (icmp := splice 26 _ _). vm_compute in icmp. subst icmp. rewrite splice_2_word.
  eexists. split; [reflexivity|]. rewrite fill_frame_spec by first [solve_arr | reflexivity]. split; [|reflexivity].
  set (c := 65535 - _). unfold ndp_valid. solve_ndp.
Qed.

(** * Properties *)

(** the two checksum implementations are the same function.  For all addresses and every payload
    (of any length, even where the 32-bit sum wraps), both return the same value, a [u16], and
    both folding loops stop within two rounds. *)
Theorem checksums_agree src dst p :
  arr 16 src -> arr 16 dst ->
  exists c, icmpv6_checksum_vz src dst p = Some c /\ icmpv6_checksum_pfctl src dst p = Some c /\
            is_u16 c.
Proof.
  intros. exists (65535 - ones_complement (as_u32 (pseudo_sum src dst p))).
  rewrite checksum_vz_spec, checksum_pfctl_spec by done.
  split; [done|]. split; [done|]. apply complement_u16, as_u32_is_u32.
Qed.

Lemma checksums_agree_witness :
  exists c, icmpv6_checksum_vz GATEWAY_IP6_LL ALL_NODES_IP6 [136; 0; 0; 0; 7] = Some c /\
            icmpv6_checksum_pfctl GATEWAY_IP6_LL ALL_NODES_IP6 [136; 0; 0; 0; 7] = Some c /\ is_u16 c.
Proof. apply checksums_agree; (split; [reflexivity | repeat constructor; lia]). Defined.

(** C8: every neighbour-discovery packet the program sends is valid.  For all addresses, the router
    advertisement, the neighbour advertisement, the unicast solicitation and the gratuitous
    advertisement are built (the checksum loop stops), and a receiver's checks pass on them: the
    IPv6 header describes what follows, the hop limit is 255, and the sum over the pseudo-header
    read back from the frame and the payload with its checksum is all ones. *)
Theorem ndp_packets_valid mac rmac gua router :
  arr 6 mac -> arr 6 rmac -> arr 16 gua -> arr 16 router ->
  exists ra na ns gna,
    build_ra gua = Some ra /\ ndp_valid ra /\ length ra = 110%nat /\
    build_ndp_na mac gua router = Some na /\ ndp_valid na /\ length na = 86%nat /\
    ndp_probe_ns mac rmac gua router = Some ns /\ ndp_valid ns /\ length ns = 86%nat /\
    gratuitous_na mac gua = Some gna /\ ndp_valid gna /\ length gna = 86%nat.
Proof.
  intros. destruct (build_ra_valid gua) as (f1 & ?); [done|].
  destruct (build_ndp_na_valid mac gua router) as (f2 & ?); [done..|].
  destruct (ndp_probe_ns_valid mac rmac gua router) as (f3 & ?); [done..|].
  destruct (gratuitous_na_valid mac gua) as (f4 & ?); [done..|].
  exists f1, f2, f3, f4. tauto.
Qed.

Lemma ndp_packets_valid_witness :
  exists ra na ns gna,
    build_ra GATEWAY_IP6_ULA = Some ra /\ ndp_valid ra /\ length ra = 110%nat /\
    build_ndp_na GATEWAY_MAC GATEWAY_IP6_ULA GATEWAY_IP6_LL = Some na /\ ndp_valid na /\
    length na = 86%nat /\
    ndp_probe_ns GATEWAY_MAC ALL_NODES_MAC GATEWAY_IP6_ULA GATEWAY_IP6_LL = Some ns /\
    ndp_valid ns /\ length ns = 86%nat /\
    gratuitous_na GATEWAY_MAC GATEWAY_IP6_ULA = Some gna /\ ndp_valid gna /\ length gna = 86%nat.
Proof. apply ndp_packets_valid; (split; [reflexivity | repeat constructor; lia]). Defined.
