(* ===== verification/TunRelay.v ===== *)
(** The utun relay ([pelagos-vz/src/tun_relay.rs]): the thread between the virtual machine's
    Ethernet socket and the host's utun interface, which answers ARP, neighbour and router
    solicitations itself, learns the machine's MAC address, and claims its IPv6 address on the
    host once. *)

From S2P Require Import Prelude RustStd Ipv6 Packets.

#[local] Open Scope Z_scope.

(** * Subnets *)

Record VmSubnet := mkVmSubnet { host_ip4 : list Z; guest_ip4 : list Z; cidr : str }.

(** [VmSubnet::from_guest_ip] *)
Definition from_guest_ip (guest : list Z) : VmSubnet :=
  let g i := nth i guest 0 in
  mkVmSubnet [g 0%nat; g 1%nat; g 2%nat; 1] guest
    (dec (g 0%nat) ++ #"." ++ dec (g 1%nat) ++ #"." ++ dec (g 2%nat) ++ #".0/24").

Definition TUN_HDR_IPV4 : list Z := [0; 0; 0; 2].
Definition TUN_HDR_IPV6 : list Z := [0; 0; 0; 30].

(** * State and outside *)

Record RelayState := mkRelay {
  vm_mac : option (list Z);
  gateway_ip4 : list Z;
  gua_prefix : option (list Z);
  utun_iface : str;
  vm_gua : option (list Z) }.

Definition with_mac (m : list Z) (s : RelayState) : RelayState :=
  mkRelay (Some m) (gateway_ip4 s) (gua_prefix s) (utun_iface s) (vm_gua s).
Definition with_gua (a : list Z) (s : RelayState) : RelayState :=
  mkRelay (vm_mac s) (gateway_ip4 s) (gua_prefix s) (utun_iface s) (Some a).

(** The bits of [revents] the loop looks at. *)
Record revents := mkRevents { pollin : bool; hup_or_err : bool }.

Inductive poll_result : Type :=
| PollFailed (interrupted : bool)
| Polled (avf utun : revents).

(** What the relay asks of the outside: polling, receiving a frame or a packet, the clock (in nano-
    seconds), sending a frame to the machine, writing to the utun, and the helper's
    [assign_utun_alias] request. *)
Inductive ev : Type :=
| Poll
| RecvAvf
| ReadUtun
| Now
| SendAvf (frame : list Z)
| WriteUtun (packet : list Z)
| AssignAlias (iface addr : str).

(** The replies: [None] where a receive returned -1; a send or write whose outcome is only logged
    replies nothing; the helper's request says whether it succeeded. *)
Definition reply (e : ev) : Type :=
  match e with
  | Poll => poll_result
  | RecvAvf | ReadUtun => option (list Z)
  | Now => Z
  | SendAvf _ | WriteUtun _ => unit
  | AssignAlias _ _ => bool
  end.

Definition M (A : Type) : Type := Sys ev reply RelayState A.

(** * Frames from the virtual machine *)

Definition send_to_avf (frame : list Z) : M unit := call (SendAvf frame).

(** Sends a frame that was built; the builders always build one ([Packets]). *)
Definition send_built (frame : option (list Z)) : M unit :=
  match frame with Some f => send_to_avf f | None => ret tt end.

Definition forward_to_utun (ip_packet tun_hdr : list Z) : M unit :=
  call (WriteUtun (tun_hdr ++ ip_packet)).

Definition is_icmpv6_rs (frame : list Z) : bool :=
  (54 <? length frame)%nat && (nth 20 frame 0 =? 58) && (nth 54 frame 0 =? 133).

Definition is_ndp_ns (frame : list Z) : bool :=
  (54 <? length frame)%nat && (nth 20 frame 0 =? 58) && (nth 54 frame 0 =? 135).

Definition handle_arp (frame : list Z) : M unit :=
  state <- get_st ;;
  if (length frame <? 42)%nat then ret tt else
  let op := be16 (nth 20 frame 0) (nth 21 frame 0) in
  if negb (op =? 1) then ret tt else
  let target_ip := slice 38 42 frame in
  if negb (bool_decide (target_ip = gateway_ip4 state)) then ret tt else
  let vm_mac := match vm_mac state with Some m => m | None => slice 22 28 frame end in
  let sender_ip := slice 28 32 frame in
  send_to_avf (build_arp_reply vm_mac sender_ip (gateway_ip4 state)).

(** [handle_ndp_ns]: whether the solicitation was consumed. *)
Definition handle_ndp_ns (frame : list Z) : M bool :=
  state <- get_st ;;
  if (length frame <? 78)%nat then ret false else
  let target := slice 62 78 frame in
  if bool_decide (target <> GATEWAY_IP6_LL) && bool_decide (target <> GATEWAY_IP6_ULA)
  then ret false else
  match vm_mac state with
  | None => ret false
  | Some vm_mac =>
      let ns_src_ip := slice 22 38 frame in
      send_built (build_ndp_na vm_mac target ns_src_ip) ;;
      ret true
  end.

Definition handle_rs : M unit :=
  state <- get_st ;;
  match gua_prefix state with
  | None => ret tt
  | Some p => send_built (build_ra p)
  end.

Definition maybe_assign_gua_alias (frame : list Z) : M unit :=
  state <- get_st ;;
  match vm_gua state with
  | Some _ => ret tt
  | None =>
      match gua_prefix state with
      | None => ret tt
      | Some gua_prefix =>
          if (length frame <? 38)%nat then ret tt else
          let src := slice 22 38 frame in
          if bool_decide (src = replicate 16 0) || bool_decide (take 8 src <> take 8 gua_prefix)
          then ret tt else
          ok <- call (AssignAlias (utun_iface state) (show_ipv6 src)) ;;
          if (ok : bool) then put_st (with_gua src state) else ret tt
      end
  end.

(** The MAC address is learned from the source field of the first frame. *)
Definition learn_mac (frame : list Z) : M unit :=
  state <- get_st ;;
  match vm_mac state with
  | None => put_st (with_mac (slice 6 12 frame) state)
  | Some _ => ret tt
  end.

(** The [match] on the ethertype. *)
Definition dispatch (frame : list Z) : M unit :=
  let ethertype := be16 (nth 12 frame 0) (nth 13 frame 0) in
  if ethertype =? 2054 then handle_arp frame
  else if ethertype =? 2048 then forward_to_utun (drop 14 frame) TUN_HDR_IPV4
  else if ethertype =? 34525 then
    if is_icmpv6_rs frame then handle_rs
    else
      consumed <- (if is_ndp_ns frame then handle_ndp_ns frame else ret false) ;;
      if (consumed : bool) then ret tt
      else
        maybe_assign_gua_alias frame ;;
        forward_to_utun (drop 14 frame) TUN_HDR_IPV6
  else ret tt.

Definition process_avf_frame (frame : list Z) : M unit :=
  if (length frame <? 14)%nat then ret tt else
  learn_mac frame ;;
  dispatch frame.

(** * Packets from the host *)

(** The frame [process_utun_packet] builds, if any. *)
Definition frame_for (mac packet : list Z) : option (list Z) :=
  let af := be32 (nth 0 packet 0) (nth 1 packet 0) (nth 2 packet 0) (nth 3 packet 0) in
  let ip_payload := drop 4 packet in
  let ethertype :=
    if af =? 2 then Some [8; 0] else if af =? 30 then Some [134; 221] else None in
  match ethertype with
  | None => None
  | Some ethertype => Some (mac ++ GATEWAY_MAC ++ ethertype ++ ip_payload)
  end.

Definition process_utun_packet (packet : list Z) : M unit :=
  if (length packet <? 5)%nat then ret tt else
  state <- get_st ;;
  match vm_mac state with
  | None => ret tt
  | Some vm_mac =>
      match frame_for vm_mac packet with None => ret tt | Some frame => send_to_avf frame end
  end.

(** * The loop *)

(** [const RA_INTERVAL: Duration = Duration::from_secs(200)] *)
Definition RA_INTERVAL : Z := 200 * 1000000000.

(** The inner loops that empty a descriptor: until a receive returns 0 or -1, at most [fuel] times. *)
Fixpoint drain (fuel : nat) (recv : M (option (list Z))) (body : list Z -> M unit) : M unit :=
  match fuel with
  | O => ret tt
  | S fuel =>
      n <- recv ;;
      match n with
      | None | Some [] => ret tt
      | Some buf => body buf ;; drain fuel recv body
      end
  end.

(** The unsolicited router advertisement. *)
Definition periodic_ra : M unit :=
  state <- get_st ;;
  match gua_prefix state with
  | Some p => send_built (build_ra p)
  | None => ret tt
  end.

(** One iteration of the outer loop, [last_ra] being the time of the last unsolicited router
    advertisement: [None] when it breaks out, else the new [last_ra]. *)
Definition relay_iter (fuel : nat) (last_ra : Z) : M (option Z) :=
  r <- call Poll ;;
  match (r : poll_result) with
  | PollFailed true => ret (Some last_ra)
  | PollFailed false => ret None
  | Polled avf utun =>
      (if pollin avf then drain fuel (call RecvAvf) process_avf_frame else ret tt) ;;
      if hup_or_err avf then ret None else
      (if pollin utun then drain fuel (call ReadUtun) process_utun_packet else ret tt) ;;
      if hup_or_err utun then ret None else
      now <- call Now ;;
      if RA_INTERVAL <=? now - last_ra then
        periodic_ra ;;
        now <- call Now ;;
        ret (Some now)
      else ret (Some last_ra)
  end.

Fixpoint relay_iters (fuel n : nat) (last_ra : Z) : M unit :=
  match n with
  | O => ret tt
  | S n =>
      r <- relay_iter fuel last_ra ;;
      match r with None => ret tt | Some last_ra => relay_iters fuel n last_ra end
  end.

(** [run_relay], cut off after [n] iterations of the outer loop and [fuel] of each inner one: the
    relay runs until the machine stops, and what is proved holds at every such point. *)
Definition run_relay (fuel n : nat) : M unit := last_ra <- call Now ;; relay_iters fuel n last_ra.

Definition initial (iface : str) (gateway : list Z) (prefix : option (list Z)) : RelayState :=
  mkRelay None gateway prefix iface None.

(** * Host configuration *)

(** [detect_egress_iface], on the output of [route -n get default] ([None]: it did not run). *)
Definition detect_egress_iface (stdout : option str) : option str :=
  match stdout with
  | None => None
  | Some out =>
      let fix find_map (ls : list str) :=
        match ls with
        | [] => None
        | line :: ls =>
            match strip_prefix #"interface:" (trim line) with
            | Some s => Some (trim s)
            | None => find_map ls
            end
        end in
      find_map (lines out)
  end.

(** [detect_host_gua_prefix], on the output of [ifconfig <egress>].  The [?] of a line without an
    address ends the whole search. *)
Fixpoint scan_gua (ls : list str) : option (list Z) :=
  match ls with
  | [] => None
  | line :: ls =>
      match strip_prefix #"inet6 " (trim line) with
      | None => scan_gua ls
      | Some rest =>
          match split_whitespace (hd [] (split_char "%" rest)) with
          | [] => None
          | addr_str :: _ =>
              match parse_ipv6 addr_str with
              | Some bytes =>
                  if (32 <=? nth 0 bytes 0) && (nth 0 bytes 0 <=? 63)
                  then Some (take 8 bytes ++ replicate (length bytes - 8) 0)
                  else scan_gua ls
              | None => scan_gua ls
              end
          end
      end
  end.
Definition detect_host_gua_prefix (stdout : option str) : option (list Z) :=
  match stdout with None => None | Some out => scan_gua (lines out) end.

(** * Specification *)

(** Whether the event [e] after the history [h] was an alias request that succeeded. *)
Definition alias_granted (env : Env ev reply) (h : list ev) (e : ev) : bool :=
  match e as e return reply e -> bool with
  | AssignAlias _ _ => fun ok => ok
  | _ => fun _ => false
  end (env h e).

Fixpoint aliases_granted (env : Env ev reply) (h : list ev) : nat :=
  match h with
  | [] => 0
  | e :: h => (if alias_granted env h e then 1 else 0) + aliases_granted env h
  end.

(** An address that may be claimed: in the advertised prefix and not the unspecified address. *)
Definition claimable (prefix src : list Z) : Prop :=
  length src = 16%nat /\ take 8 src = take 8 prefix /\ src <> replicate 16 0.

(** The aliases of a run: every request is for a claimable address, and the address the relay holds
    was the one request granted. *)
Definition alias_inv (iface : str) (prefix : option (list Z)) (env : Env ev reply) (s : RelayState)
    (h : list ev) : Prop :=
  utun_iface s = iface /\ gua_prefix s = prefix /\
  (forall i a, AssignAlias i a ∈ h ->
     i = iface /\ exists p src, prefix = Some p /\ claimable p src /\ a = show_ipv6 src) /\
  match vm_gua s with
  | None => aliases_granted env h = 0%nat
  | Some g => aliases_granted env h = 1%nat /\ AssignAlias iface (show_ipv6 g) ∈ h
  end.

(** A frame the relay may inject: from the gateway, to the machine or to all nodes. *)
Definition injectable (mac : option (list Z)) (f : list Z) : Prop :=
  (14 <= length f)%nat /\ slice 6 12 f = GATEWAY_MAC /\
  (take 6 f = ALL_NODES_MAC \/ mac = Some (take 6 f)).

Definition mac_inv (s : RelayState) (h : list ev) : Prop :=
  length (gateway_ip4 s) = 4%nat /\
  (forall m, vm_mac s = Some m -> length m = 6%nat) /\
  (forall f, SendAvf f ∈ h -> injectable (vm_mac s) f).

(** * Lemmas *)

Lemma alias_inv_other iface prefix env s h e :
  (forall i a, e <> AssignAlias i a) ->
  alias_inv iface prefix env s h -> alias_inv iface prefix env s (e :: h).
Proof.
  intros Hne (H1 & H2 & H3 & H4). repeat split; auto.
  - intros. apply (H3 i a). set_solver.
  - apply (H3 i a). set_solver.
  - assert (alias_granted env h e = false) as Hg by (destruct e; try done; by destruct (Hne iface0 addr)).
    destruct (vm_gua s); cbn [aliases_granted]; rewrite Hg; [|done]. destruct H4. split; [done|set_solver].
Qed.

Section AliasInv.
Context (iface : str) (prefix : option (list Z)).
#[local] Abbreviation keeps_alias := (keeps (alias_inv iface prefix)).

Lemma alias_call e : (forall i a, e <> AssignAlias i a) -> keeps_alias (call e).
Proof. intros. apply keeps_call. intros. by apply alias_inv_other. Qed.

Lemma alias_send_built o : keeps_alias (send_built o).
Proof. destruct o; [by apply alias_call | apply keeps_ret]. Qed.

Lemma alias_forward p hdr : keeps_alias (forward_to_utun p hdr).
Proof. by apply alias_call. Qed.

Lemma alias_learn frame : keeps_alias (learn_mac frame).
Proof. intros env s h H. unfold learn_mac. cbn [bind get_st]. by destruct (vm_mac s). Qed.

Lemma alias_maybe frame : keeps_alias (maybe_assign_gua_alias frame).
Proof.
  intros env s h H. unfold maybe_assign_gua_alias. cbn [bind get_st].
  destruct (vm_gua s) as [g|] eqn:Eg; [done|]. destruct (gua_prefix s) as [p|] eqn:Ep; [|done].
  case_goal; [done|]. case_goal; [done|]. bool_arith.
  destruct H as (Hi & Hp & Hr & Hg). rewrite Eg in Hg.
  assert (Hc : claimable p (slice 22 38 frame)).
  { split; [rewrite length_slice; lia|]. rewrite bool_decide_eq_false in *. split; [|done].
    by apply dec_stable. }
  cbn [bind call]. set (e := AssignAlias _ _).
  assert (Hreq : forall i a, AssignAlias i a ∈ e :: h ->
    i = iface /\ exists p src, prefix = Some p /\ claimable p src /\ a = show_ipv6 src).
  { intros i a Hin. apply elem_of_cons in Hin as [Heq|Hin]; [|eauto]. injection Heq as -> ->.
    split; [done|]. exists p, (slice 22 38 frame). repeat split; (congruence || apply Hc). }
  assert (Hcount : aliases_granted env (e :: h) = if env h e then 1%nat else 0%nat).
  { cbn [aliases_granted]. unfold alias_granted at 1. subst e. rewrite Hg. by destruct (env h _). }
  destruct (env h e); cbn [put_st ret fst snd]; unfold alias_inv; split_and!; try done.
  - cbn [vm_gua with_gua]. split; [done|]. subst e. rewrite <- Hi. set_solver.
  - by rewrite Eg.
Qed.

Lemma alias_arp frame : keeps_alias (handle_arp frame).
Proof. unfold handle_arp. keeps_go; by apply alias_call. Qed.

Lemma alias_ndp frame : keeps_alias (handle_ndp_ns frame).
Proof. unfold handle_ndp_ns. keeps_go. apply alias_send_built. Qed.

Lemma alias_rs : keeps_alias handle_rs.
Proof. unfold handle_rs. keeps_go. apply alias_send_built. Qed.

Lemma alias_process frame : keeps_alias (process_avf_frame frame).
Proof.
  unfold process_avf_frame, dispatch.
  keeps_go; auto using alias_learn, alias_arp, alias_rs, alias_ndp, alias_maybe, alias_forward.
Qed.

Lemma alias_utun packet : keeps_alias (process_utun_packet packet).
Proof. unfold process_utun_packet. keeps_go. by apply alias_call. Qed.
End AliasInv.

(** A property of the machine's frames and the host's packets, and of polling and the clock, is one
    of the whole relay. *)
Section Loop.
Context (P : Env ev reply -> RelayState -> list ev -> Prop).
Context (P_frame : forall f, keeps P (process_avf_frame f)).
Context (P_packet : forall p, keeps P (process_utun_packet p)).
Context (P_ra : forall env s h p f, P env s h -> gua_prefix s = Some p -> build_ra p = Some f ->
                  P env s (SendAvf f :: h)).
Context (P_other : forall env s h e, e ∈ [Poll; RecvAvf; ReadUtun; Now] -> P env s h -> P env s (e :: h)).

Lemma keeps_other e : e ∈ [Poll; RecvAvf; ReadUtun; Now] -> keeps P (call e).
Proof. intros. apply keeps_call. auto. Qed.

Lemma keeps_drain fuel recv body :
  keeps P recv -> (forall b, keeps P (body b)) -> keeps P (drain fuel recv body).
Proof.
  intros Hr Hb. induction fuel as [|fuel IH]; cbn [drain]; [apply keeps_ret|].
  apply keeps_bind; [done|]. intros [[|x b]|]; try apply keeps_ret. by apply keeps_bind.
Qed.

Lemma keeps_periodic : keeps P periodic_ra.
Proof.
  intros env s h H. unfold periodic_ra. cbn [bind get_st].
  destruct (gua_prefix s) as [p|] eqn:E; [|done].
  destruct (build_ra p) as [f|] eqn:Ef; [|done]. by eapply P_ra.
Qed.

Lemma keeps_iter fuel last_ra : keeps P (relay_iter fuel last_ra).
Proof.
  unfold relay_iter. keeps_go; try apply keeps_drain; auto using keeps_periodic;
    apply keeps_other; set_solver.
Qed.

Lemma keeps_run fuel n : keeps P (run_relay fuel n).
Proof.
  unfold run_relay. apply keeps_bind; [apply keeps_other; set_solver|].
  induction n as [|n IH]; intros last_ra; cbn [relay_iters]; keeps_go; auto using keeps_iter.
Qed.
End Loop.

Section MacInv.
#[local] Abbreviation keeps_mac := (keeps (fun (_ : Env ev reply) => mac_inv)).

Lemma mac_inv_other s h e : (forall f, e <> SendAvf f) -> mac_inv s h -> mac_inv s (e :: h).
Proof.
  intros Hne (H0 & H1 & H2). split; [done|]. split; [done|]. intros f Hf. apply elem_of_cons in Hf as [<-|?]; [|auto].
  by destruct (Hne f).
Qed.

Lemma mac_call e : (forall f, e <> SendAvf f) -> keeps_mac (call e).
Proof. intros. apply keeps_call. intros. by apply mac_inv_other. Qed.

Lemma mac_inv_send s h f : mac_inv s h -> injectable (vm_mac s) f -> mac_inv s (SendAvf f :: h).
Proof.
  intros (H0 & H1 & H2) Hf. split; [done|]. split; [done|]. intros g Hg.
  apply elem_of_cons in Hg as [|]; [by simplify_eq|auto].
Qed.

(** A frame put together from its Ethernet header. *)
Lemma injectable_header mac dst rest :
  length dst = 6%nat -> (2 <= length rest)%nat -> dst = ALL_NODES_MAC \/ mac = Some dst ->
  injectable mac (dst ++ GATEWAY_MAC ++ rest).
Proof.
  intros Hd Hr Hm. explode_list dst Hd. unfold injectable. rewrite !length_app. cbn [length].
  split; [cbn; lia|]. split; [done|]. exact Hm.
Qed.

Lemma injectable_ra p f mac : build_ra p = Some f -> injectable mac f.
Proof.
  unfold build_ra. rewrite checksum_vz_spec. cbn [mbind option_bind].
  intros Hf. apply (inj Some) in Hf as <-.
  apply injectable_header; [done | cbn; lia | by left].
Qed.

Lemma injectable_na m t d f : length m = 6%nat -> build_ndp_na m t d = Some f -> injectable (Some m) f.
Proof.
  intros Hm. unfold build_ndp_na. rewrite checksum_vz_spec. cbn [mbind option_bind].
  intros Hf. apply (inj Some) in Hf as <-.
  apply injectable_header; [done | cbn; lia | by right].
Qed.

Lemma injectable_arp m a g :
  length m = 6%nat -> length a = 4%nat -> length g = 4%nat -> injectable (Some m) (build_arp_reply m a g).
Proof.
  intros Hm Ha Hg. explode_list m Hm. explode_list a Ha. explode_list g Hg.
  split; [cbn; lia|]. split; [done | by right].
Qed.

Lemma mac_ra env s h p f :
  mac_inv s h -> gua_prefix s = Some p -> build_ra p = Some f -> (fun _ : Env ev reply => mac_inv) env s (SendAvf f :: h).
Proof. intros H _ Hf. apply mac_inv_send; [done|]. by eapply injectable_ra. Qed.

Lemma mac_utun packet : keeps_mac (process_utun_packet packet).
Proof.
  intros env s h H. unfold process_utun_packet. case_goal; [done|]. cbn [bind get_st].
  destruct (vm_mac s) as [m|] eqn:Em; [|done]. unfold frame_for.
  destruct (if _ =? 2 then _ else _) as [t|] eqn:E; [|done]. cbn.
  apply mac_inv_send; [done|]. rewrite Em. apply injectable_header; [by apply H | | by right].
  rewrite length_app. repeat case_hyp E; simplify_eq; cbn; lia.
Qed.

(** The same with the machine's address known, as it is when a frame is dispatched. *)
Definition known (_ : Env ev reply) (s : RelayState) (h : list ev) : Prop :=
  mac_inv s h /\ is_Some (vm_mac s).

Lemma known_call e : (forall f, e <> SendAvf f) -> keeps known (call e).
Proof. intros. apply keeps_call. intros env s h [??]. split; [by apply mac_inv_other | done]. Qed.

Lemma known_arp frame : keeps known (handle_arp frame).
Proof.
  intros env s h [H [m Em]]. unfold handle_arp. cbn [bind get_st]. rewrite Em.
  case_goal; [done|]. cbv zeta. case_goal; [done|]. case_goal; [done|]. bool_arith.
  unfold send_to_avf. cbn [call fst snd]. split; [|done]. apply mac_inv_send; [done|].
  rewrite Em. destruct H as (? & H1 & _).
  apply injectable_arp; [auto |  rewrite length_slice; lia | done].
Qed.

Lemma known_ndp frame : keeps known (handle_ndp_ns frame).
Proof.
  intros env s h [H [m Em]]. unfold handle_ndp_ns. cbn [bind get_st]. rewrite Em.
  case_goal; [done|]. cbv zeta. case_goal; [done|].
  destruct (build_ndp_na _ _ _) as [f|] eqn:Ef; [|done]. cbn. split; [|done].
  apply mac_inv_send; [done|]. rewrite Em. eapply injectable_na; [by apply H | done].
Qed.

Lemma known_rs : keeps known handle_rs.
Proof.
  intros env s h [H [m Em]]. unfold handle_rs. cbn [bind get_st].
  destruct (gua_prefix s) as [p|]; [|done]. destruct (build_ra p) as [f|] eqn:Ef; [|done].
  cbn. split; [|done]. apply mac_inv_send; [done|]. by eapply injectable_ra.
Qed.

Lemma known_maybe frame : keeps known (maybe_assign_gua_alias frame).
Proof.
  intros env s h [H Hm]. unfold maybe_assign_gua_alias. cbn [bind get_st].
  repeat (case_goal; try done); cbn [bind call]; case_goal; cbn [put_st ret fst snd];
    (split; [by apply (mac_inv_other s) | exact Hm]).
Qed.

Lemma mac_process frame : keeps_mac (process_avf_frame frame).
Proof.
  unfold process_avf_frame. case_goal; [apply keeps_ret|]. bool_arith. intros env s h H.
  assert (Hd : keeps known (dispatch frame)).
  { unfold dispatch. keeps_go; auto using known_arp, known_ndp, known_rs, known_maybe;
      by apply known_call. }
  assert (Hl : known env (fst (snd (learn_mac frame env s h))) (snd (snd (learn_mac frame env s h)))).
  { destruct H as (H0 & H1 & H2). unfold learn_mac. cbn [bind get_st].
    destruct (vm_mac s) as [m|] eqn:E; cbn [put_st ret fst snd]; (split; [|by rewrite ?E]).
    - unfold mac_inv. by rewrite E.
    - split; [done|]. cbn [vm_mac with_mac]. split.
      + intros m [= <-]. rewrite length_slice; lia.
      + intros f Hf. destruct (H2 f Hf) as (? & ? & [?|?]); [|congruence]. repeat split; auto. }
  unfold bind. destruct (learn_mac frame env s h) as [u [s' h']]. by apply Hd.
Qed.
End MacInv.

(** The dispatch of a frame with a known header when the machine's address is known. *)
Lemma process_known f env s h m :
  (14 <= length f)%nat -> vm_mac s = Some m -> process_avf_frame f env s h = dispatch f env s h.
Proof.
  intros Hl Hm. unfold process_avf_frame. rewrite (proj2 (Nat.ltb_ge _ _)) by lia.
  unfold learn_mac. cbn [bind get_st]. by rewrite Hm.
Qed.

Lemma nth_header (dst src rest : list Z) k :
  length dst = 6%nat -> length src = 6%nat -> nth (12 + k) (dst ++ src ++ rest) 0 = nth k rest 0.
Proof. intros Hd Hs. explode_list dst Hd. explode_list src Hs. done. Qed.

Lemma drop_header (dst src rest : list Z) :
  length dst = 6%nat -> length src = 6%nat -> drop 14 (dst ++ src ++ rest) = drop 2 rest.
Proof. intros Hd Hs. explode_list dst Hd. explode_list src Hs. done. Qed.

Lemma utun_packet_v4 m ip env s h :
  vm_mac s = Some m -> ip <> [] ->
  snd (process_utun_packet (TUN_HDR_IPV4 ++ ip) env s h)
  = (s, SendAvf (m ++ GATEWAY_MAC ++ [8; 0] ++ ip) :: h).
Proof.
  intros Hm Hip. destruct ip as [|x ip]; [done|]. unfold process_utun_packet. rewrite (proj2 (Nat.ltb_ge _ _)) by (cbn; lia).
  cbn [bind get_st]. by rewrite Hm.
Qed.

Lemma utun_packet_v6 m ip env s h :
  vm_mac s = Some m -> ip <> [] ->
  snd (process_utun_packet (TUN_HDR_IPV6 ++ ip) env s h)
  = (s, SendAvf (m ++ GATEWAY_MAC ++ [134; 221] ++ ip) :: h).
Proof.
  intros Hm Hip. destruct ip as [|x ip]; [done|]. unfold process_utun_packet. rewrite (proj2 (Nat.ltb_ge _ _)) by (cbn; lia).
  cbn [bind get_st]. by rewrite Hm.
Qed.

(** The alias request leaves at most one event and the addressing of the state alone. *)
Lemma maybe_assign_effect f env s h :
  exists s' a, maybe_assign_gua_alias f env s h = (tt, (s', a ++ h)) /\
    (a = [] \/ exists i x, a = [AssignAlias i x]) /\ vm_mac s' = vm_mac s.
Proof.
  unfold maybe_assign_gua_alias. cbn [bind get_st].
  assert (Hn : exists s' a, (tt, (s, h)) = (tt, (s', a ++ h)) /\
    (a = [] \/ exists i x, a = [AssignAlias i x]) /\ vm_mac s' = vm_mac s) by (exists s, []; auto).
  destruct (vm_gua s); [done|]. destruct (gua_prefix s) as [p|]; [|done].
  case_goal; [done|]. cbv zeta. case_goal; [done|]. clear Hn. unfold bind, call.
  set (e := AssignAlias _ _).
  destruct (env h e); [exists (with_gua (slice 22 38 f) s), [e] | exists s, [e]];
    (split; [done|]); (split; [|done]); right; by do 2 eexists.
Qed.

Lemma nth_byte f k : bytes f -> is_u8 (nth k f 0).
Proof.
  intros Hb. destruct (nth_in_or_default k f 0) as [Hin| ->]; [|unfold is_u8; lia].
  apply list_elem_of_In in Hin. unfold bytes in Hb. rewrite Forall_forall in Hb. by apply Hb.
Qed.

Lemma arr_slice i n f : bytes f -> (i + n <= length f)%nat -> arr n (slice i (i + n) f).
Proof. intros. split; [rewrite length_slice; lia | auto with bytes_db]. Qed.

(** The fields of an advertisement for one of the gateway's addresses. *)
Lemma build_ndp_na_fields mac target dst f :
  arr 6 mac -> arr 16 target -> arr 16 dst -> build_ndp_na mac target dst = Some f ->
  ndp_valid f /\ take 6 f = mac /\ slice 38 54 f = dst /\ nth 54 f 0 = 136 /\
  slice 62 78 f = target /\ slice 80 86 f = GATEWAY_MAC.
Proof.
  intros Hm Ht Hd Hf. destruct (build_ndp_na_valid mac target dst) as (f' & Hf' & Hv & _); [done..|].
  rewrite Hf in Hf'. simplify_eq. split; [done|]. clear Hv. revert Hf. unfold build_ndp_na.
  rewrite checksum_vz_spec. cbn [mbind option_bind]. intros Hf. apply (inj Some) in Hf as <-.
  set (c := 65535 - _). clearbody c. explode_arrays. done.
Qed.

(** * Properties *)

(** C10: IP packets cross the relay unchanged in both directions.  Once the machine's address is known,
    an IPv4 frame, and an IPv6 frame that is not a router or neighbour solicitation, puts exactly
    its IP packet behind the address-family prefix on the utun (for IPv6 after at most one alias
    request), and the same buffer read from the utun puts the same IP packet, with the same
    ethertype, into a frame for that address. *)
Theorem ip_packets_unchanged env s h m dst src ip :
  vm_mac s = Some m -> length dst = 6%nat -> length src = 6%nat -> ip <> [] ->
  snd (process_avf_frame (dst ++ src ++ [8; 0] ++ ip) env s h) = (s, WriteUtun (TUN_HDR_IPV4 ++ ip) :: h) /\
  snd (process_utun_packet (TUN_HDR_IPV4 ++ ip) env s h)
    = (s, SendAvf (m ++ GATEWAY_MAC ++ [8; 0] ++ ip) :: h) /\
  (let f := dst ++ src ++ [134; 221] ++ ip in
   is_icmpv6_rs f = false -> is_ndp_ns f = false ->
   exists s' a, snd (process_avf_frame f env s h) = (s', WriteUtun (TUN_HDR_IPV6 ++ ip) :: a ++ h) /\
     (a = [] \/ exists i x, a = [AssignAlias i x]) /\ vm_mac s' = Some m) /\
  snd (process_utun_packet (TUN_HDR_IPV6 ++ ip) env s h)
    = (s, SendAvf (m ++ GATEWAY_MAC ++ [134; 221] ++ ip) :: h).
Proof.
  intros Hm Hd Hs Hip.
  assert (Hl : forall rest, (2 <= length rest)%nat -> (14 <= length (dst ++ src ++ rest))%nat)
    by (intros; rewrite !length_app; lia).
  split; [|split; [by apply utun_packet_v4 | split; [|by apply utun_packet_v6]]].
  - erewrite process_known by (eauto; apply Hl; cbn; lia). unfold dispatch.
    rewrite (nth_header dst src _ 0), (nth_header dst src _ 1), drop_header by done. done.
  - intros f Hrs Hns. subst f. erewrite process_known by (eauto; apply Hl; cbn; lia). unfold dispatch.
    rewrite (nth_header dst src _ 0), (nth_header dst src _ 1), drop_header by done.
    cbn [nth app]. change (be16 134 221) with 34525. cbn [Z.eqb Pos.eqb].
    cbn [app] in Hrs, Hns. rewrite Hrs, Hns. unfold bind. cbn [ret].
    destruct (maybe_assign_effect (dst ++ src ++ 134 :: 221 :: ip) env s h) as (s' & a & -> & Ha & Hm').
    exists s', a. cbn. split; [done|]. split; [done|]. congruence.
Qed.

Lemma ip_packets_unchanged_witness :
  let s := mkRelay (Some [2; 0; 0; 0; 0; 9]) [192; 168; 105; 1] None #"utun4" None in
  let env : Env ev reply := fun _ e => match e with Poll => PollFailed true | RecvAvf | ReadUtun => None
    | Now => 0 | SendAvf _ | WriteUtun _ => tt | AssignAlias _ _ => true end in
  snd (process_avf_frame (GATEWAY_MAC ++ [2; 0; 0; 0; 0; 9] ++ [8; 0] ++ [69; 7]) env s [])
  = (s, [WriteUtun (TUN_HDR_IPV4 ++ [69; 7])]).
Proof.
  intros s env.
  exact (proj1 (ip_packets_unchanged env s [] [2; 0; 0; 0; 0; 9] GATEWAY_MAC [2; 0; 0; 0; 0; 9] [69; 7]
    eq_refl eq_refl eq_refl ltac:(discriminate))).
Defined.

(** C9: the relay claims the machine's address once and only an address it may claim.  In every run,
    for every behaviour of the kernel, the machine, the host and the helper, every alias request is
    for this relay's interface and for an address inside the advertised prefix that is not the
    unspecified address (so never for a duplicate-address probe); at most one request is granted;
    and the address the relay holds is the one that was granted. *)
Theorem alias_claimed_once env iface gateway prefix fuel n :
  let '(_, (s, h)) := run_relay fuel n env (initial iface gateway prefix) [] in
  (forall i a, AssignAlias i a ∈ h ->
     i = iface /\ exists p src, prefix = Some p /\ claimable p src /\ a = show_ipv6 src) /\
  match vm_gua s with
  | None => aliases_granted env h = 0%nat
  | Some g => aliases_granted env h = 1%nat /\ AssignAlias iface (show_ipv6 g) ∈ h
  end.
Proof.
  pose proof (keeps_run (alias_inv iface prefix) (alias_process iface prefix) (alias_utun iface prefix)
    ltac:(intros; by apply alias_inv_other)
    ltac:(intros env0 s h e He ?; apply alias_inv_other; [intros ? ? ->; set_solver | done])
    fuel n env (initial iface gateway prefix) []) as H.
  destruct (run_relay _ _ _ _ _) as [u [s h]]. destruct H as (_ & _ & Hr & Hg).
  { unfold alias_inv. split_and!; [done | done | set_solver | done]. }
  done.
Qed.

(** frames reach only the machine.  In every run with an IPv4 gateway of four octets, every frame
    the relay injects comes from the gateway's MAC address and goes to all nodes or to the address
    the relay has learned, so all the unicast frames of a run go to one address. *)
Theorem frames_addressed env iface gateway prefix fuel n :
  length gateway = 4%nat ->
  let '(_, (s, h)) := run_relay fuel n env (initial iface gateway prefix) [] in
  forall f, SendAvf f ∈ h -> injectable (vm_mac s) f.
Proof.
  intros Hg.
  pose proof (keeps_run (fun _ => mac_inv) mac_process mac_utun mac_ra
    ltac:(intros env0 s h e He ?; apply mac_inv_other; [intros ? ->; set_solver | done])
    fuel n env (initial iface gateway prefix) []) as H.
  destruct (run_relay _ _ _ _ _) as [u [s h]]. destruct H as (_ & _ & H); [|exact H].
  unfold mac_inv. split_and!; [done | done | set_solver].
Qed.

(** An environment in which the machine sends one ARP request. *)
Definition arp_env : Env ev reply := fun h e =>
  match e with
  | Poll => if (length h <? 2)%nat then Polled (mkRevents true false) (mkRevents false false)
            else PollFailed false
  | RecvAvf => if (length h <? 3)%nat
               then Some (replicate 6 255 ++ [2; 0; 0; 0; 0; 9] ++ [8; 6; 0; 1; 8; 0; 6; 4; 0; 1]
                          ++ [2; 0; 0; 0; 0; 9] ++ [192; 168; 105; 2] ++ replicate 6 0 ++ [192; 168; 105; 1])
               else None
  | ReadUtun => None
  | Now => 0
  | SendAvf _ | WriteUtun _ => tt
  | AssignAlias _ _ => true
  end.

Lemma frames_addressed_witness :
  let r := run_relay 10 10 arp_env (initial #"utun4" [192; 168; 105; 1] None) [] in
  (exists f, SendAvf f ∈ snd (snd r)) /\
  forall f, SendAvf f ∈ snd (snd r) -> injectable (vm_mac (fst (snd r))) f.
Proof.
  intros r. split.
  - eexists. vm_compute. do 2 constructor 2. constructor 2. constructor 1.
  - exact (frames_addressed arp_env #"utun4" [192; 168; 105; 1] None 10 10 eq_refl).
Defined.

(** the gateway answers for itself.  Once the machine's address is known, an ARP request for the
    gateway's IPv4 address is answered with exactly one frame, a reply that binds that address to
    the gateway's MAC and is addressed to the requester; a neighbour solicitation for one of the
    gateway's IPv6 addresses is answered with exactly one frame, a valid advertisement of that
    address and the gateway's MAC to the solicitation's source; and neither is forwarded. *)
Theorem gateway_resolves env s h m f :
  vm_mac s = Some m -> arr 6 m -> arr 4 (gateway_ip4 s) -> bytes f -> (78 <= length f)%nat ->
  (be16 (nth 12 f 0) (nth 13 f 0) = 2054 -> be16 (nth 20 f 0) (nth 21 f 0) = 1 ->
   slice 38 42 f = gateway_ip4 s ->
   exists r, snd (process_avf_frame f env s h) = (s, SendAvf r :: h) /\
     slice 12 14 r = [8; 6] /\ slice 20 22 r = [0; 2] /\
     slice 22 28 r = GATEWAY_MAC /\ slice 28 32 r = gateway_ip4 s /\
     slice 32 38 r = m /\ slice 38 42 r = slice 28 32 f) /\
  (be16 (nth 12 f 0) (nth 13 f 0) = 34525 -> is_icmpv6_rs f = false -> is_ndp_ns f = true ->
   slice 62 78 f ∈ [GATEWAY_IP6_LL; GATEWAY_IP6_ULA] ->
   exists r, snd (process_avf_frame f env s h) = (s, SendAvf r :: h) /\
     ndp_valid r /\ take 6 r = m /\ slice 38 54 r = slice 22 38 f /\ nth 54 r 0 = 136 /\
     slice 62 78 r = slice 62 78 f /\ slice 80 86 r = GATEWAY_MAC).
Proof.
  intros Hm Am Ag Hb Hl. split.
  - intros Ht Hop Htgt. erewrite process_known by (eauto; lia). unfold dispatch, handle_arp.
    rewrite Ht. cbn [Z.eqb Pos.eqb bind get_st]. rewrite (proj2 (Nat.ltb_ge _ _)) by lia.
    rewrite Hop, Htgt, bool_decide_eq_true_2, Hm by done. cbn [Z.eqb Pos.eqb negb].
    eexists. split; [reflexivity|].
    pose proof (arr_slice 28 4 f Hb ltac:(lia)) as Hs. cbn [Nat.add] in Hs.
    set (sip := slice 28 32 f) in *. set (g := gateway_ip4 s) in *. clearbody sip g.
    explode_arrays.
    match goal with E : slice 38 42 f = _ |- _ => rewrite E end. done.
  - intros Ht Hrs Hns Htgt. erewrite process_known by (eauto; lia). unfold dispatch.
    rewrite Ht, Hrs, Hns. cbn [Z.eqb Pos.eqb]. unfold handle_ndp_ns. cbn [bind get_st].
    rewrite (proj2 (Nat.ltb_ge _ _)) by lia. rewrite Hm.
    assert (bool_decide (slice 62 78 f <> GATEWAY_IP6_LL) && bool_decide (slice 62 78 f <> GATEWAY_IP6_ULA)
            = false)%bool as ->.
    { apply andb_false_iff. rewrite !bool_decide_eq_false.
      apply elem_of_cons in Htgt as [|Htgt]; [left; tauto|]. apply list_elem_of_singleton in Htgt. tauto. }
    pose proof (arr_slice 62 16 f Hb ltac:(lia)). pose proof (arr_slice 22 16 f Hb ltac:(lia)).
    destruct (build_ndp_na_valid m (slice 62 78 f) (slice 22 38 f)) as (r & Hr & _); [done..|].
    rewrite Hr. eexists. split; [reflexivity|]. by apply (build_ndp_na_fields m).
Qed.

(** A solicitation for fe80::1, and an ARP request for the gateway padded to the same length. *)
Definition ns_frame : list Z :=
  replicate 6 51 ++ [2; 0; 0; 0; 0; 9] ++ [134; 221; 96; 0; 0; 0; 0; 32; 58; 255]
  ++ replicate 16 7 ++ replicate 16 8 ++ [135; 0; 0; 0; 0; 0; 0; 0] ++ GATEWAY_IP6_LL ++ replicate 8 1.

Lemma gateway_resolves_witness :
  exists r, snd (process_avf_frame ns_frame arp_env
                   (mkRelay (Some [2; 0; 0; 0; 0; 9]) [192; 168; 105; 1] None #"utun4" None) [])
            = (mkRelay (Some [2; 0; 0; 0; 0; 9]) [192; 168; 105; 1] None #"utun4" None, [SendAvf r]) /\
    ndp_valid r /\ take 6 r = [2; 0; 0; 0; 0; 9] /\ slice 38 54 r = slice 22 38 ns_frame /\
    nth 54 r 0 = 136 /\ slice 62 78 r = slice 62 78 ns_frame /\ slice 80 86 r = GATEWAY_MAC.
Proof.
  apply (gateway_resolves arp_env (mkRelay (Some [2; 0; 0; 0; 0; 9]) [192; 168; 105; 1] None #"utun4" None)
           [] [2; 0; 0; 0; 0; 9] ns_frame);
    try reflexivity; try (split; [reflexivity|]); try (repeat constructor; lia).
Defined.
