(* ===== verification/Vm.v ===== *)
(** The virtual machine ([pelagos-vz/src/vm.rs]): its configuration and the builder, the sequence that
    starts it, the connection to the guest daemon with its retries, and the shutdown.  The objects of the
    virtualization framework are calls to the outside; what is set on the machine's configuration is a record
    that is handed to the framework when it is validated. *)

From S2P Require Import Prelude RustStd TunRelay.

#[local] Open Scope Z_scope.

(** * Configuration *)

Record VmConfig := mkVmConfig {
  kernel : str; initrd : option str; cmdline : str; disk : str; extra_disks : list str;
  cpus : Z; memory_mib : Z; vsock_port : Z; virtiofs_shares : list (str * str * bool); rosetta : bool; guest_ip : list Z }.

Record VmConfigBuilder := mkBuilder {
  b_kernel : option str; b_initrd : option str; b_cmdline : option str; b_disk : option str; b_extra_disks : list str;
  b_cpus : option Z; b_memory_mib : option Z; b_vsock_port : option Z; b_virtiofs_shares : list (str * str * bool);
  b_rosetta : bool; b_guest_ip : option (list Z) }.

Definition builder : VmConfigBuilder := mkBuilder None None None None [] None None None [] false None.

Definition set_kernel (p : str) (b : VmConfigBuilder) : VmConfigBuilder :=
  mkBuilder (Some p) (b_initrd b) (b_cmdline b) (b_disk b) (b_extra_disks b) (b_cpus b) (b_memory_mib b) (b_vsock_port b)
    (b_virtiofs_shares b) (b_rosetta b) (b_guest_ip b).
Definition set_initrd (p : str) (b : VmConfigBuilder) : VmConfigBuilder :=
  mkBuilder (b_kernel b) (Some p) (b_cmdline b) (b_disk b) (b_extra_disks b) (b_cpus b) (b_memory_mib b) (b_vsock_port b)
    (b_virtiofs_shares b) (b_rosetta b) (b_guest_ip b).
Definition set_cmdline (s : str) (b : VmConfigBuilder) : VmConfigBuilder :=
  mkBuilder (b_kernel b) (b_initrd b) (Some s) (b_disk b) (b_extra_disks b) (b_cpus b) (b_memory_mib b) (b_vsock_port b)
    (b_virtiofs_shares b) (b_rosetta b) (b_guest_ip b).
Definition set_disk (p : str) (b : VmConfigBuilder) : VmConfigBuilder :=
  mkBuilder (b_kernel b) (b_initrd b) (b_cmdline b) (Some p) (b_extra_disks b) (b_cpus b) (b_memory_mib b) (b_vsock_port b)
    (b_virtiofs_shares b) (b_rosetta b) (b_guest_ip b).
Definition extra_disk (p : str) (b : VmConfigBuilder) : VmConfigBuilder :=
  mkBuilder (b_kernel b) (b_initrd b) (b_cmdline b) (b_disk b) (b_extra_disks b ++ [p]) (b_cpus b) (b_memory_mib b) (b_vsock_port b)
    (b_virtiofs_shares b) (b_rosetta b) (b_guest_ip b).
Definition set_cpus (n : Z) (b : VmConfigBuilder) : VmConfigBuilder :=
  mkBuilder (b_kernel b) (b_initrd b) (b_cmdline b) (b_disk b) (b_extra_disks b) (Some n) (b_memory_mib b) (b_vsock_port b)
    (b_virtiofs_shares b) (b_rosetta b) (b_guest_ip b).
Definition set_memory_mib (n : Z) (b : VmConfigBuilder) : VmConfigBuilder :=
  mkBuilder (b_kernel b) (b_initrd b) (b_cmdline b) (b_disk b) (b_extra_disks b) (b_cpus b) (Some n) (b_vsock_port b)
    (b_virtiofs_shares b) (b_rosetta b) (b_guest_ip b).
Definition virtiofs (host tag : str) (read_only : bool) (b : VmConfigBuilder) : VmConfigBuilder :=
  mkBuilder (b_kernel b) (b_initrd b) (b_cmdline b) (b_disk b) (b_extra_disks b) (b_cpus b) (b_memory_mib b) (b_vsock_port b)
    (b_virtiofs_shares b ++ [(host, tag, read_only)]) (b_rosetta b) (b_guest_ip b).
Definition set_guest_ip (ip : list Z) (b : VmConfigBuilder) : VmConfigBuilder :=
  mkBuilder (b_kernel b) (b_initrd b) (b_cmdline b) (b_disk b) (b_extra_disks b) (b_cpus b) (b_memory_mib b) (b_vsock_port b)
    (b_virtiofs_shares b) (b_rosetta b) (Some ip).

Definition set_vsock_port (p : Z) (b : VmConfigBuilder) : VmConfigBuilder :=
  mkBuilder (b_kernel b) (b_initrd b) (b_cmdline b) (b_disk b) (b_extra_disks b) (b_cpus b) (b_memory_mib b) (Some p)
    (b_virtiofs_shares b) (b_rosetta b) (b_guest_ip b).
Definition set_rosetta (enabled : bool) (b : VmConfigBuilder) : VmConfigBuilder :=
  mkBuilder (b_kernel b) (b_initrd b) (b_cmdline b) (b_disk b) (b_extra_disks b) (b_cpus b) (b_memory_mib b) (b_vsock_port b)
    (b_virtiofs_shares b) enabled (b_guest_ip b).

Definition DEFAULT_GUEST_IP4 : list Z := [192; 168; 105; 2].

Definition build (b : VmConfigBuilder) : result VmConfig str :=
  match b_kernel b with
  | None => Err #"kernel required"
  | Some k =>
      match b_disk b with
      | None => Err #"disk required"
      | Some d =>
          Ok (mkVmConfig k (b_initrd b) (default #"console=hvc0 root=/dev/vda rw" (b_cmdline b)) d (b_extra_disks b)
                (default 2 (b_cpus b)) (default 1024 (b_memory_mib b)) (default 1024 (b_vsock_port b)) (b_virtiofs_shares b)
                (b_rosetta b) (default DEFAULT_GUEST_IP4 (b_guest_ip b)))
      end
  end.

(** * Calls to the outside *)

(** What [start_vm] has set on the configuration when the framework validates it: disks and shares with
    their read-only flags, the descriptors of the network and of the serial port. *)
Record machine := mkMachine {
  m_kernel : str; m_cmdline : str; m_initrd : option str; m_cpus : Z; m_memory : Z;
  m_disks : list (str * bool); m_net_fd : Z; m_shares : list (str * str * bool); m_serial : Z * Z }.

Inductive vm_state : Type := Stopped | Running | ErrorState | OtherState.

(** What the completion handler of a connection is called with: an error, the descriptor of a connection
    or none, and what [dup] of it gives. *)
Record completion := mkCompletion { c_err : option str; c_conn : option Z; c_dup : Z }.

Inductive ev : Type :=
| AttachDisk (path : str) | StartRelay (subnet : VmSubnet) | DropRelay
| Socketpair | Dup (fd : Z) | CloseFd (fd : Z)
| Validate (m : machine) | StartMachine | DropMachine | SocketDevice
| ConnectToPort (port : Z)
| Completed                        (* whether the handler was called by now *)
| WaitFor (nanos : Z) | Now | SleepMillis (n : Z)
| StopMachine | GetState.

Definition reply (e : ev) : Type :=
  match e with
  | AttachDisk _ | Validate _ | StartMachine | StopMachine => result unit str
  | StartRelay _ => result Z str
  | Socketpair => result (Z * Z) str
  | Dup _ | Now => Z
  | SocketDevice => bool
  | Completed => option completion
  | GetState => vm_state
  | DropRelay | CloseFd _ | DropMachine | ConnectToPort _ | WaitFor _ | SleepMillis _ => unit
  end.

Abbreviation ask e := (call (R := reply) (S := unit) e).
Definition IO (A : Type) : Type := Sys ev reply unit (result A str).

(** * Starting *)

Fixpoint attach_disks (paths : list str) : IO unit :=
  match paths with
  | [] => ret (Ok tt)
  | p :: paths => ask (AttachDisk p) ;;? attach_disks paths
  end.

Definition U64 : Z := 18446744073709551616.

(** Giving up once the relay runs: what is in scope is dropped.  The descriptor of the network is held by a
    file handle that does not close it. *)
Definition abandon {A} (fds : list Z) (e : str) : IO A :=
  for_each fds (fun fd => ask (CloseFd fd)) ;; ask DropRelay ;; ret (Err e).

Record Vm := mkVm { v_config : VmConfig; v_guest_ip : list Z }.

(** Validation, creation and start of the machine, and its socket device. *)
Definition boot (config : VmConfig) (fds : list Z) (vm_config : machine) (relay_console_fd : Z) : IO (Vm * Z) :=
  valid <- ask (Validate vm_config) ;;
  match valid with
  | Err e => abandon fds e
  | Ok _ =>
      started <- ask StartMachine ;;
      match started with
      | Err e => ask DropMachine ;; abandon fds e
      | Ok _ =>
          sock <- ask SocketDevice ;;
          if (sock : bool) then ret (Ok (mkVm config (guest_ip config), relay_console_fd))
          else ask DropMachine ;; abandon fds #"failed to obtain vsock device"
      end
  end.

Definition start_vm (config : VmConfig) : IO (Vm * Z) :=
  attach_disks (disk config :: extra_disks config) ;;?
  vmnet_fd <-? ask (StartRelay (from_guest_ip (guest_ip config))) ;;
  sp <- ask Socketpair ;;
  match sp with
  | Err e => abandon [] e
  | Ok (vm_fd, relay_console_fd) =>
      read_dup <- ask (Dup vm_fd) ;;
      write_dup <- ask (Dup vm_fd) ;;
      ask (CloseFd vm_fd) ;;
      let vm_config := mkMachine (kernel config) (cmdline config) (initrd config) (cpus config)
        ((memory_mib config * 1024 * 1024) mod U64)
        (map (fun p => (p, false)) (disk config :: extra_disks config)) vmnet_fd (virtiofs_shares config) (read_dup, write_dup) in
      boot config [read_dup; write_dup; relay_console_fd] vm_config relay_console_fd
  end.

(** * Connecting to the guest daemon *)

(** The completion handler; the texts leave out the numbers. *)
Definition on_connected (c : completion) : result Z str :=
  match c_err c with
  | Some desc => Err desc
  | None =>
      match c_conn c with
      | None => Err #"null connection"
      | Some fd => if fd <? 0 then Err #"invalid fileDescriptor" else if c_dup c <? 0 then Err #"dup failed" else Ok (c_dup c)
      end
  end.

Definition TIMED_OUT : str := #"vsock connect timed out (guest not listening yet)".
Definition CONNECT_NANOS : Z := 5 * 1000000000.

(** The wait for the handler, at most until the deadline; [None] is the fuel running out. *)
Fixpoint wait_handler (fuel : nat) (deadline : Z) : Sys ev reply unit (option (result Z str)) :=
  match fuel with
  | O => ret None
  | S fuel =>
      g <- ask Completed ;;
      match g with
      | Some c => ret (Some (on_connected c))
      | None =>
          now <- ask Now ;;
          let remaining := Z.max 0 (deadline - now) in
          if remaining =? 0 then ret (Some (Err TIMED_OUT)) else (ask (WaitFor remaining) ;; wait_handler fuel deadline)
      end
  end.

Definition try_connect_vsock (fuel : nat) (port : Z) : Sys ev reply unit (option (result Z str)) :=
  ask (ConnectToPort port) ;;
  now <- ask Now ;;
  wait_handler fuel (now + CONNECT_NANOS).

Definition MAX_ATTEMPTS : nat := 60.

(** The attempts that are left. *)
Fixpoint connect_attempts (fuel : nat) (port : Z) (more : nat) (last_err : str) : Sys ev reply unit (option (result Z str)) :=
  match more with
  | O => ret (Some (Err last_err))
  | S more =>
      r <- try_connect_vsock fuel port ;;
      match r with
      | None => ret None
      | Some (Ok fd) => ret (Some (Ok fd))
      | Some (Err e) =>
          if (0 <? more)%nat then (ask (SleepMillis 1000) ;; connect_attempts fuel port more e)
          else connect_attempts fuel port more e
      end
  end.

Definition connect_vsock (fuel : nat) (vm : Vm) : Sys ev reply unit (option (result Z str)) :=
  connect_attempts fuel (vsock_port (v_config vm)) MAX_ATTEMPTS [].

(** * Stopping *)

Fixpoint wait_stopped (fuel : nat) : Sys ev reply unit (option (result unit str)) :=
  match fuel with
  | O => ret None
  | S fuel =>
      state <- ask GetState ;;
      match state with
      | Stopped | ErrorState => ret (Some (Ok tt))
      | _ => ask (SleepMillis 50) ;; wait_stopped fuel
      end
  end.

(** [stop]; also what dropping a [Vm] does. *)
Definition stop (fuel : nat) : Sys ev reply unit (option (result unit str)) :=
  r <- ask StopMachine ;;
  match r with
  | Err e => ret (Some (Err e))
  | Ok _ => wait_stopped fuel
  end.

(** * What is seen *)

Inductive op : Type :=
| Attached (path : str) | RelayUp (subnet : VmSubnet) (fd : Z) | RelayDown
| Opened (fds : list Z) | Closed (fd : Z) | Validated (m : machine) | Started.

Definition see_start (e : ev) : reply e -> list op :=
  match e return reply e -> list op with
  | AttachDisk p => fun r => if is_ok (r : result unit str) then [Attached p] else []
  | StartRelay s => fun r => match (r : result Z str) with Ok fd => [RelayUp s fd] | Err _ => [] end
  | DropRelay => fun _ => [RelayDown]
  | Socketpair => fun r => match (r : result (Z * Z) str) with Ok (a, b) => [Opened [a; b]] | Err _ => [] end
  | Dup _ => fun fd => [Opened [fd]]
  | CloseFd fd => fun _ => [Closed fd]
  | Validate m => fun r => if is_ok (r : result unit str) then [Validated m] else []
  | StartMachine => fun r => if is_ok (r : result unit str) then [Started] else []
  | _ => fun _ => []
  end.

(** What is held: the relay, its descriptor for the machine, and open descriptors. *)
Record held := mkHeld { relays : Z; net_fds : list Z; fds : list Z }.
Fixpoint remove_one (x : Z) (l : list Z) : list Z :=
  match l with [] => [] | y :: l => if x =? y then l else y :: remove_one x l end.
Definition hold (h : held) (o : op) : held :=
  match o with
  | RelayUp _ fd => mkHeld (relays h + 1) (fd :: net_fds h) (fds h)
  | RelayDown => mkHeld (relays h - 1) (net_fds h) (fds h)
  | Opened l => mkHeld (relays h) (net_fds h) (l ++ fds h)
  | Closed fd => mkHeld (relays h) (net_fds h) (remove_one fd (fds h))
  | _ => h
  end.
Definition held_after (os : list op) : held := fold_left hold os (mkHeld 0 [] []).

(** The machine of a configuration. *)
Definition machine_of (c : VmConfig) (net_fd : Z) (serial : Z * Z) : machine :=
  mkMachine (kernel c) (cmdline c) (initrd c) (cpus c) ((memory_mib c * 1024 * 1024) mod U64)
    (map (fun p => (p, false)) (disk c :: extra_disks c)) net_fd (virtiofs_shares c) serial.

Definition start_outcome (c : VmConfig) (r : result (Vm * Z) str) (os : list op) : Prop :=
  match r with
  | Ok (vm, console) => exists net a rd wd,
      os = map Attached (disk c :: extra_disks c) ++
        [RelayUp (from_guest_ip (guest_ip c)) net; Opened [a; console]; Opened [rd]; Opened [wd]; Closed a;
         Validated (machine_of c net (rd, wd)); Started] /\
      v_config vm = c /\ v_guest_ip vm = guest_ip c
  | Err _ => relays (held_after os) = 0 /\ fds (held_after os) = [] /\ (length (net_fds (held_after os)) <= 1)%nat
  end.

(** * Lemmas *)

Lemma remove_one_perm x l l' : l ≡ₚ x :: l' -> remove_one x l ≡ₚ l'.
Proof.
  intros H. assert (Hx : x ∈ l) by (rewrite H; constructor). revert l' H.
  induction l as [|y l IH]; intros l' H; [by apply elem_of_nil in Hx|]. cbn [remove_one].
  destruct (Z.eqb_spec x y) as [-> |Hn]; [by apply Permutation_cons_inv in H|].
  apply elem_of_cons in Hx as [?|Hx]; [done|].
  assert (Hy : y ∈ l') by (assert (y ∈ x :: l') as [?|?]%elem_of_cons by (rewrite <- H; constructor); congruence).
  apply elem_of_Permutation in Hy as [l'' Hl]. rewrite Hl. constructor. apply IH; [done|].
  apply (Permutation_cons_inv (a := y)). rewrite H, Hl. constructor.
Qed.

Lemma held_app os os' h : fold_left hold (os ++ os') h = fold_left hold os' (fold_left hold os h).
Proof. apply fold_left_app. Qed.

Lemma held_closes l h : fold_left hold (map Closed l) h
  = mkHeld (relays h) (net_fds h) (fold_left (fun fs fd => remove_one fd fs) l (fds h)).
Proof. revert h. induction l as [|fd l IH]; intros h; [by destruct h|]. cbn [map fold_left]. by rewrite IH. Qed.

Lemma held_attached paths : held_after (map Attached paths) = mkHeld 0 [] [].
Proof. unfold held_after. induction paths; done. Qed.

Lemma attach_disks_adds paths : adds see_start (attach_disks paths) (fun r os =>
  match r with Ok _ => os = map Attached paths | Err _ => exists n, os = map Attached (take n paths) end).
Proof.
  induction paths as [|p paths IH]; cbn [attach_disks]; [by apply adds_ret|]. eapply adds_bind_known.
  - refine (adds_call see_start (AttachDisk p) (fun r os => os = if is_ok (r : result unit str) then [Attached p] else []) _). done.
  - intros [[]|e] os ->; cbn [is_ok].
    + eapply adds_weaken; [apply IH|]. intros [[]|e] os; [by intros ->|]. intros [n ->]. by exists (S n).
    + apply adds_ret. by exists 0%nat.
Qed.

Lemma close_adds l : adds see_start (for_each l (fun fd => ask (CloseFd fd))) (fun _ os => os = map Closed l).
Proof.
  induction l as [|fd l IH]; cbn [for_each]; [by apply adds_ret|].
  eapply adds_bind_known; [refine (adds_call see_start (CloseFd fd) (fun _ os => os = [Closed fd]) _); done|].
  intros u os ->. eapply adds_weaken; [apply IH|]. by intros u' os ->.
Qed.

Lemma abandon_adds {A} l e : adds see_start (abandon (A := A) l e) (fun r os => r = Err e /\ os = map Closed l ++ [RelayDown]).
Proof.
  unfold abandon. eapply adds_bind_known; [apply close_adds|]. intros u os ->.
  eapply adds_bind_known; [refine (adds_call see_start DropRelay (fun _ os => os = [RelayDown]) _); done|].
  intros u' os ->. apply adds_ret. by rewrite app_nil_r.
Qed.

(** Giving up with the descriptors of the serial port open. *)
Lemma abandoned c net a console rd wd tail e : (forall h, fold_left hold tail h = h) ->
  start_outcome c (Err e) (map Attached (disk c :: extra_disks c) ++ [RelayUp (from_guest_ip (guest_ip c)) net] ++
    [Opened [a; console]] ++ [Opened [rd]] ++ [Opened [wd]] ++ [Closed a] ++ tail ++ map Closed [rd; wd; console] ++ [RelayDown]).
Proof.
  intros Ht. unfold start_outcome, held_after. rewrite held_app. fold (held_after (map Attached (disk c :: extra_disks c))).
  rewrite held_attached, !held_app, held_closes, Ht. cbn -[remove_one]. split; [done|]. split; [|done].
  apply Permutation_nil_r. do 4 (apply remove_one_perm). solve_Permutation.
Qed.

Lemma start_vm_adds c : adds see_start (start_vm c) (start_outcome c).
Proof.
  unfold start_vm. eapply adds_bind_known; [apply attach_disks_adds|]. intros [[]|e] os Hos.
  2: { destruct Hos as [n ->]. apply adds_ret. unfold start_outcome. rewrite app_nil_r, held_attached. cbn. auto. }
  subst os. eapply adds_bind_known.
  { refine (adds_call see_start (StartRelay _) (fun r os => os = match (r : result Z str) with Ok fd => [RelayUp (from_guest_ip (guest_ip c)) fd] | Err _ => [] end) _). done. }
  intros [net|e] os ->; [|apply adds_ret; unfold start_outcome; rewrite !app_nil_r, held_attached; cbn; auto].
  eapply adds_bind_known.
  { refine (adds_call see_start Socketpair (fun r os => os = match (r : result (Z * Z) str) with Ok (a, b) => [Opened [a; b]] | Err _ => [] end) _). done. }
  intros [[a console]|e] os ->.
  2: { eapply adds_weaken; [apply (abandon_adds [])|]. intros r os [-> ->]. unfold start_outcome, held_after.
       rewrite held_app. fold (held_after (map Attached (disk c :: extra_disks c))). rewrite held_attached. cbn. auto. }
  eapply adds_bind_known; [refine (adds_call see_start (Dup a) (fun fd os => os = [Opened [fd]]) _); done|]. intros rd os ->.
  eapply adds_bind_known; [refine (adds_call see_start (Dup a) (fun fd os => os = [Opened [fd]]) _); done|]. intros wd os ->.
  eapply adds_bind_known; [refine (adds_call see_start (CloseFd a) (fun _ os => os = [Closed a]) _); done|]. intros u os ->.
  cbv zeta. fold (machine_of c net (rd, wd)). unfold boot. eapply adds_bind_known.
  { refine (adds_call see_start (Validate _) (fun r os => os = if is_ok (r : result unit str) then [Validated (machine_of c net (rd, wd))] else []) _). done. }
  intros [[]|e] os ->; cbn [is_ok].
  2: { eapply adds_weaken; [apply abandon_adds|]. intros r os [-> ->]. exact (abandoned c net a console rd wd [] e (fun h => eq_refl)). }
  eapply adds_bind_known.
  { refine (adds_call see_start StartMachine (fun r os => os = if is_ok (r : result unit str) then [Started] else []) _). done. }
  intros [[]|e] os ->; cbn [is_ok].
  2: { apply adds_silent; [silent_go|]. intros u'. eapply adds_weaken; [apply abandon_adds|]. intros r os [-> ->].
       exact (abandoned c net a console rd wd [Validated (machine_of c net (rd, wd))] e (fun h => eq_refl)). }
  apply adds_silent; [silent_go|]. intros sock. destruct (sock : bool).
  - apply adds_ret. exists net, a, rd, wd. rewrite app_nil_r. split; [|done]. done.
  - apply adds_silent; [silent_go|]. intros u'. eapply adds_weaken; [apply abandon_adds|]. intros r os [-> ->].
    exact (abandoned c net a console rd wd [Validated (machine_of c net (rd, wd)); Started] _ (fun h => eq_refl)).
Qed.

(** ** Connecting *)

Inductive attempt : Type := Tried (port : Z) | Paused (millis : Z).
Definition see_attempts (e : ev) : reply e -> list attempt :=
  match e return reply e -> list attempt with
  | ConnectToPort p => fun _ => [Tried p]
  | SleepMillis n => fun _ => [Paused n]
  | _ => fun _ => []
  end.

(** [n] attempts with a pause of a second between each and the next. *)
Fixpoint tries (port : Z) (n : nat) : list attempt :=
  match n with
  | O => []
  | S O => [Tried port]
  | S n => Tried port :: Paused 1000 :: tries port n
  end.

Lemma wait_handler_silent fuel : forall deadline, silent see_attempts (wait_handler fuel deadline).
Proof. induction fuel as [|fuel IH]; intros deadline; cbn [wait_handler]; silent_go. Qed.

Lemma on_connected_fd c fd : on_connected c = Ok fd -> 0 <= fd /\ fd = c_dup c.
Proof.
  unfold on_connected. destruct (c_err c); [done|]. destruct (c_conn c) as [x|]; [|done].
  destruct (x <? 0); [done|]. destruct (c_dup c <? 0) eqn:E; [done|]. intros [= <-]. by bool_arith.
Qed.

Lemma wait_handler_fd fuel deadline env s h fd : fst (wait_handler fuel deadline env s h) = Some (Ok fd) -> 0 <= fd.
Proof.
  revert h. induction fuel as [|fuel IH]; intros h; cbn [wait_handler]; [done|]. unfold bind at 1, call at 1.
  destruct (env h Completed) as [c|]; [cbn -[on_connected]; intros [= Hc]; by apply on_connected_fd in Hc as [? _]|].
  unfold bind at 1, call at 1. cbv zeta. destruct (Z.max 0 _ =? 0); [done|]. unfold bind at 1, call at 1. apply IH.
Qed.

Lemma try_adds_attempt fuel port : adds see_attempts (try_connect_vsock fuel port) (fun r os => os = [Tried port] /\ forall fd, r = Some (Ok fd) -> 0 <= fd).
Proof.
  unfold try_connect_vsock. eapply adds_bind_known; [refine (adds_call see_attempts (ConnectToPort port) (fun _ os => os = [Tried port]) _); done|].
  intros u os ->. apply adds_silent; [silent_go|]. intros now env s h.
  destruct (wait_handler_silent fuel (now + CONNECT_NANOS) env s h) as (os & H1 & ->). exists []. split; [done|].
  split; [done|]. intros fd. apply wait_handler_fd.
Qed.

(** What the attempts left may do; [m]: how many were made. *)
Definition attempted (port : Z) (limit : nat) (r : option (result Z str)) (os : list attempt) : Prop :=
  match r with
  | Some (Ok fd) => 0 <= fd /\ exists m, (1 <= m <= limit)%nat /\ os = tries port m
  | Some (Err _) => os = tries port limit
  | None => True
  end.

Lemma tries_S port n : (0 < n)%nat -> tries port (S n) = Tried port :: Paused 1000 :: tries port n.
Proof. destruct n; [lia|done]. Qed.

Lemma connect_attempts_adds fuel port n : forall e, adds see_attempts (connect_attempts fuel port n e) (attempted port n).
Proof.
  induction n as [|n IH]; intros e; cbn [connect_attempts]; [by apply adds_ret|].
  eapply adds_bind_known; [apply try_adds_attempt|]. intros [[fd|e']|] os [-> Hfd].
  - apply adds_ret. split; [by apply Hfd|]. exists 1%nat. split; [lia|done].
  - destruct n as [|n]; [cbn; by apply adds_ret|]. cbn [Nat.ltb Nat.leb].
    eapply adds_bind_known; [refine (adds_call see_attempts (SleepMillis 1000) (fun _ os => os = [Paused 1000]) _); done|].
    intros u os ->. eapply adds_weaken; [apply IH|]. intros [[fd|e2]|] os; [|intros -> |done].
    + intros (Hpos & m & Hm & ->). split; [done|]. exists (S m). split; [lia|]. by rewrite (tries_S port m) by lia.
    + cbn [attempted]. by rewrite (tries_S port (S n)) by lia.
  - by apply adds_ret.
Qed.

(** ** Waiting *)

(** The clock, a wait, and that the handler was found called. *)
Inductive tick : Type := Clock (t : Z) | Wait (nanos : Z) | Called (c : completion).
Definition see_time (e : ev) : reply e -> list tick :=
  match e return reply e -> list tick with
  | Now => fun t => [Clock t]
  | WaitFor n => fun _ => [Wait n]
  | Completed => fun r => match (r : option completion) with Some c => [Called c] | None => [] end
  | _ => fun _ => []
  end.

(** Waits begin before the deadline and end at it; the result is that of the handler, or the timeout when the clock has
    shown the deadline, or there is none yet. *)
Inductive waited (deadline : Z) : list tick -> option (result Z str) -> Prop :=
| Waiting : waited deadline [] None
| Waited_called c : waited deadline [Called c] (Some (on_connected c))
| Waited_over t : deadline <= t -> waited deadline [Clock t] (Some (Err TIMED_OUT))
| Waited_more t os r : t < deadline -> waited deadline os r -> waited deadline (Clock t :: Wait (deadline - t) :: os) r.

Lemma wait_handler_waits fuel deadline : adds see_time (wait_handler fuel deadline) (fun r os => waited deadline os r).
Proof.
  induction fuel as [|fuel IH]; cbn [wait_handler]; [apply adds_ret; constructor|].
  eapply adds_bind_known; [refine (adds_call see_time Completed (fun r os => os = match (r : option completion) with Some c => [Called c] | None => [] end) _); done|].
  intros [c|] os ->; [apply adds_ret; constructor|]. cbn [app].
  eapply adds_bind_known; [refine (adds_call see_time Now (fun t os => os = [Clock t]) _); done|]. intros t os ->. cbv zeta.
  destruct (Z.max 0 (deadline - t) =? 0) eqn:E; bool_arith.
  - apply adds_ret. apply Waited_over. lia.
  - rewrite Z.max_r by lia. eapply adds_bind_known; [refine (adds_call see_time (WaitFor _) (fun _ os => os = [Wait (deadline - t)]) _); done|].
    intros u os ->. eapply adds_weaken; [apply IH|]. intros r os Hw. apply Waited_more; [lia|done].
Qed.

Lemma try_waits fuel port : adds see_time (try_connect_vsock fuel port) (fun r os => exists t os', os = Clock t :: os' /\ waited (t + CONNECT_NANOS) os' r).
Proof.
  unfold try_connect_vsock. apply adds_silent; [silent_go|]. intros u.
  eapply adds_bind_known; [refine (adds_call see_time Now (fun t os => os = [Clock t]) _); done|]. intros t os ->.
  eapply adds_weaken; [apply wait_handler_waits|]. intros r os Hw. by exists t, os.
Qed.

Definition see_state (e : ev) : reply e -> list vm_state :=
  match e return reply e -> list vm_state with
  | GetState => fun s => [s]
  | _ => fun _ => []
  end.
#[export] Instance vm_state_eq_dec : EqDecision vm_state.
Proof. solve_decision. Defined.

Definition halted (s : vm_state) : Prop := s = Stopped \/ s = ErrorState.

(** The states that were asked for, with [fuel] rounds. *)
Definition stop_seen (fuel : nat) (r : option (result unit str)) (os : list vm_state) : Prop :=
  match r with
  | Some (Ok _) => exists l s, os = l ++ [s] /\ Forall (fun s => ~ halted s) l /\ halted s
  | Some (Err _) => os = []
  | None => length os = fuel /\ Forall (fun s => ~ halted s) os
  end.

Lemma stop_seen_more fuel r s os : ~ halted s -> (forall e, r <> Some (Err e)) -> stop_seen fuel r os -> stop_seen (S fuel) r (s :: os).
Proof.
  intros Hs Hr. destruct r as [[u|e]|]; cbn; [|destruct (Hr e eq_refl)|].
  - intros (l & s' & -> & Hl & Hs'). exists (s :: l), s'. split; [done|]. split; [by constructor|done].
  - intros [<- Hf]. split; [done|by constructor].
Qed.

Lemma wait_stopped_adds fuel : adds see_state (wait_stopped fuel) (fun r os => (forall e, r <> Some (Err e)) /\ stop_seen fuel r os).
Proof.
  induction fuel as [|fuel IH]; cbn [wait_stopped]; [by apply adds_ret|].
  eapply adds_bind_known; [refine (adds_call see_state GetState (fun s os => os = [s]) _); done|]. intros s os ->.
  destruct (decide (s = Stopped \/ s = ErrorState)) as [Hs|Hs].
  - assert (Hend : halted s -> stop_seen (S fuel) (Some (Ok tt)) [s]) by (intros ?; by exists [], s).
    specialize (Hend Hs). destruct Hs as [-> | ->]; apply adds_ret; done.
  - assert (Hgo : adds see_state (ask (SleepMillis 50) ;; wait_stopped fuel) (fun r os => (forall e, r <> Some (Err e)) /\ stop_seen (S fuel) r ([s] ++ os))).
    { apply adds_silent; [silent_go|]. intros u. eapply adds_weaken; [apply IH|]. intros r os [Hr Hos]. split; [done|]. by apply stop_seen_more. }
    destruct s; [destruct Hs; by left|exact Hgo|destruct Hs; by right|exact Hgo].
Qed.

(** * Properties *)

(** C33: starting a machine.  Whatever the framework and the helper do: if [start_vm] succeeds, the disks were
    attached in order, the root disk first, the relay was started for the machine's subnet, the machine that was
    validated and started is the one the configuration describes (memory in bytes, every disk writable, the
    shares with their flags, the relay's descriptor as the network, the serial port on the other end of
    the socket pair), and the console's end is returned.  If it fails, at any step, the relay was stopped if it
    was started and every descriptor of the serial port was closed; only the network's descriptor may be left. *)
Theorem start_vm_effect c env h :
  exists os, seen see_start env (snd (snd (start_vm c env tt h))) = seen see_start env h ++ os /\
    start_outcome c (fst (start_vm c env tt h)) os.
Proof. exact (start_vm_adds c env tt h). Qed.

(** C34: connecting is bounded.  [connect_vsock] makes at most 60 attempts on the configured port with a pause of
    a second between them, exactly 60 when it gives up, and stops at the first that succeeds, with a valid
    descriptor.  Within an attempt every wait ends at a deadline five seconds after its start; its result is that of
    the framework's handler when the handler was called, and it times out only after the clock has shown the deadline
    and the handler was not found called before. *)
Theorem connect_bounded fuel vm port env h :
  (exists os, seen see_attempts env (snd (snd (connect_vsock fuel vm env tt h))) = seen see_attempts env h ++ os /\
     attempted (vsock_port (v_config vm)) 60 (fst (connect_vsock fuel vm env tt h)) os) /\
  (forall deadline, exists os, seen see_time env (snd (snd (wait_handler fuel deadline env tt h))) = seen see_time env h ++ os /\
     waited deadline os (fst (wait_handler fuel deadline env tt h))) /\
  (exists t os, seen see_time env (snd (snd (try_connect_vsock fuel port env tt h))) = seen see_time env h ++ Clock t :: os /\
     waited (t + CONNECT_NANOS) os (fst (try_connect_vsock fuel port env tt h))).
Proof.
  split; [apply connect_attempts_adds|]. split; [intros deadline; apply wait_handler_waits|].
  destruct (try_waits fuel port env tt h) as (os & H1 & t & os' & -> & H2). by exists t, os'.
Qed.

(** Stopping waits.  [stop] returns success only after the last state it asked for was stopped or an error, and
    all before were neither; if the request is refused it asks for no state; and it never gives up before. *)
Theorem stop_waits fuel env h :
  exists os, seen see_state env (snd (snd (stop fuel env tt h))) = seen see_state env h ++ os /\
    stop_seen fuel (fst (stop fuel env tt h)) os.
Proof.
  refine ((_ : adds see_state (stop fuel) (stop_seen fuel)) env tt h).
  unfold stop. apply adds_silent; [silent_go|]. intros [[]|e]; [|by apply adds_ret].
  eapply adds_weaken; [apply wait_stopped_adds|]. by intros r os [_ ?].
Qed.

(** A guest that never answers: the clock shows the time waited. *)
Fixpoint passed (h : list ev) : Z :=
  match h with
  | [] => 0
  | WaitFor n :: h => n + passed h
  | SleepMillis n :: h => n * 1000000 + passed h
  | _ :: h => passed h
  end.
Definition deaf_guest : Env ev reply := fun h e =>
  match e return reply e with
  | AttachDisk _ | Validate _ | StartMachine | StopMachine => Ok tt
  | StartRelay _ => Ok 3
  | Socketpair => Ok (4, 5)
  | Dup _ => 6
  | Now => passed h
  | SocketDevice => true
  | Completed => None
  | GetState => Stopped
  | DropRelay | CloseFd _ | DropMachine | ConnectToPort _ | WaitFor _ | SleepMillis _ => tt
  end.

Definition demo_config : VmConfig := mkVmConfig #"k" None #"quiet" #"d" [ #"e" ] 2 1024 1024 [] false [192; 168; 105; 2].

(** The attempts take 359 seconds together, not the 60 of the comment. *)
Example deaf_guest_wait :
  let r := connect_vsock 3 (mkVm demo_config [192; 168; 105; 2]) deaf_guest tt [] in
  fst r = Some (Err TIMED_OUT) /\ passed (snd (snd r)) = 359 * 1000000000.
Proof. split; vm_compute; reflexivity. Qed.

(** With 2^44 MiB the memory size wraps to zero. *)
Example memory_wraps : m_memory (machine_of (mkVmConfig [] None [] [] [] 1 17592186044416 0 [] false []) 0 (0, 0)) = 0.
Proof. reflexivity. Qed.
