(* ===== verification/Pfctl.v ===== *)
(** The privileged helper ([pelagos-pfctl/src/main.rs]): its state (active utun relays, port
    redirections, IPv6 aliases), its request handlers, the packet-filter anchor it renders, and the
    parsers of the system tools' output it relies on. *)

From S2P Require Import Prelude RustStd Ipv6 Packets.

#[local] Open Scope Z_scope.

(** * Data *)

Definition ANCHOR_NAT : str := #"com.apple/pelagos-nat".
Definition ANCHOR_FILE_NAT : str := #"/etc/pf.anchors/pelagos-nat".

Record UtunSetup := mkUtun { egress_iface : str; ipv4_cidr : str }.
Record RdrRule := mkRdr { proto : str; host_port : Z; vm_ip : str; vm_port : Z }.

Record DaemonState := mkDaemon {
  active_utuns : gmap str UtunSetup;
  rdr_rules : list RdrRule;
  ipv6_aliases : list (str * str) }.

(** [DaemonState::new] *)
Definition new_state : DaemonState := mkDaemon ∅ [] [].

Inductive Request : Type :=
| SetupUtun (iface ipv4_addr ipv4_peer ipv4_cidr egress_iface : str)
| TeardownUtun (iface : str)
| AddRdr (proto : str) (host_port : Z) (vm_ip : str) (vm_port : Z)
| RemoveRdr (proto : str) (host_port : Z)
| CreateUtun
| AssignUtunAlias (iface addr : str).

Record Response := mkResp { ok : bool; error : option str }.
Definition ok_resp : Response := mkResp true None.
Definition err_resp (msg : str) : Response := mkResp false (Some msg).

(** * Outside *)

(** What a finished process leaves: its success, standard output and standard error. *)
Record output := mkOut { success : bool; stdout : str; stderr : str }.

Inductive ev : Type :=
| Exec (program : str) (args : list str)
| WriteFile (path contents : str)
| OpenDev (path : str)
| BindBpf (fd : Z) (iface : str)
| WriteFd (fd : Z) (data : list Z)
| CloseFd (fd : Z)
| ReadLine
| KernelUtun
| SendFd (json : str)
| Reply (text : str).

(** An [Err] carries the text of the error. *)
Definition reply (e : ev) : Type :=
  match e with
  | Exec _ _ => result output str
  | WriteFile _ _ | BindBpf _ _ | WriteFd _ _ => result unit str
  | OpenDev _ => option Z
  | ReadLine | KernelUtun => result str str
  | CloseFd _ | SendFd _ | Reply _ => unit
  end.

Definition M (A : Type) : Type := Sys ev reply DaemonState A.

(** [run_pfctl] and [run_ifconfig] *)
Definition run_tool (program : str) (args : list str) : M (result unit str) :=
  out <- call (Exec program args) ;;
  ret match (out : result output str) with
      | Err e => Err (#"exec " ++ program ++ #": " ++ e)
      | Ok out => if success out then Ok tt else Err (stderr out)
      end.
Definition run_pfctl : list str -> M (result unit str) := run_tool #"/sbin/pfctl".
Definition run_ifconfig : list str -> M (result unit str) := run_tool #"/sbin/ifconfig".

Definition run_sysctl_set (key val : str) : M (result unit str) :=
  run_tool #"/usr/sbin/sysctl" [ #"-w"; key ++ #"=" ++ val].

(** [run_route]: any text on standard error is a failure. *)
Definition run_route (args : list str) : M (result unit str) :=
  out <- call (Exec #"/sbin/route" args) ;;
  ret match (out : result output str) with
      | Err e => Err (#"exec /sbin/route: " ++ e)
      | Ok out =>
          if negb (success out) || negb (bool_decide (trim (stderr out) = []))
          then Err (stderr out ++ stdout out)
          else Ok tt
      end.

(** * Parsers of the tools' output *)

(** The address of an [ether] line. *)
Definition ether_mac (line : str) : option (list Z) :=
  match strip_prefix #"ether " (trim line) with
  | None => None
  | Some rest =>
      let mac_str := hd [] (split_whitespace rest) in
      let parts := omap (parse_hex U8_MAX) (split_char ":" mac_str) in
      if (length parts =? 6)%nat then Some parts else None
  end.

Fixpoint find_map {A B} (f : A -> option B) (l : list A) : option B :=
  match l with
  | [] => None
  | x :: l => match f x with Some b => Some b | None => find_map f l end
  end.

Definition get_iface_mac (iface : str) : M (result (list Z) str) :=
  out <- call (Exec #"/sbin/ifconfig" [iface]) ;;
  ret match (out : result output str) with
      | Err e => Err (#"ifconfig " ++ iface ++ #": " ++ e)
      | Ok out =>
          match find_map ether_mac (lines (stdout out)) with
          | Some mac => Ok mac
          | None => Err (#"no MAC address found for " ++ iface)
          end
      end.

(** The gateway of a line of the routing table, when it is the default route of [egress]. *)
Definition gateway_line (egress line : str) : option (list Z) :=
  match split_whitespace line with
  | dest :: gw_raw :: _ :: iface :: _ =>
      if bool_decide (dest = #"default") && bool_decide (iface = egress)
      then parse_ipv6 (hd gw_raw (split_char "%" gw_raw))
      else None
  | _ => None
  end.

Definition detect_ipv6_gateway (egress : str) : M (option (list Z)) :=
  out <- call (Exec #"/usr/sbin/netstat" [ #"-rn"; #"-f"; #"inet6"]) ;;
  ret match (out : result output str) with
      | Err _ => None
      | Ok out => find_map (gateway_line egress) (lines (stdout out))
      end.

(** The search for a neighbour entry; a component that is not a byte ends it without a result. *)
Fixpoint ndp_search (target : str) (ls : list str) : option (list Z) :=
  match ls with
  | [] => None
  | line :: ls =>
      match split_whitespace line with
      | entry_raw :: mac_str :: _ =>
          if bool_decide (hd entry_raw (split_char "%" entry_raw) <> target) then ndp_search target ls
          else if negb (contains_char ":" mac_str) then ndp_search target ls
          else
            let parts := split_char ":" mac_str in
            if negb (length parts =? 6)%nat then ndp_search target ls
            else mapM (parse_hex U8_MAX) parts
      | _ => ndp_search target ls
      end
  end.

Definition get_ndp_mac (addr : list Z) : M (option (list Z)) :=
  out <- call (Exec #"/usr/sbin/ndp" [ #"-an"]) ;;
  ret match (out : result output str) with
      | Err _ => None
      | Ok out => ndp_search (show_ipv6 addr) (lines (stdout out))
      end.

(** * Neighbour-discovery injection *)

(** [open_bpf] from device number [i], with [tries] devices to try. *)
Fixpoint open_bpf_from (tries : nat) (i : Z) (iface : str) : M (result Z str) :=
  match tries with
  | O => ret (Err (#"no available /dev/bpf device for " ++ iface))
  | S tries =>
      let path := #"/dev/bpf" ++ dec i in
      fd <- call (OpenDev path) ;;
      match (fd : option Z) with
      | None => open_bpf_from tries (i + 1) iface
      | Some fd =>
          r <- call (BindBpf fd (take 15 iface)) ;;
          match (r : result unit str) with
          | Err e =>
              call (CloseFd fd) ;;
              ret (Err (#"BIOCSETIF " ++ path ++ #" " ++ iface ++ #": " ++ e))
          | Ok _ => ret (Ok fd)
          end
      end
  end.
Definition open_bpf : str -> M (result Z str) := open_bpf_from 10 0.

(** Writes a frame that was built; the builders always build one ([Packets]). *)
Definition send_frame (fd : Z) (frame : option (list Z)) : M unit :=
  match frame with
  | None => ret tt
  | Some f => call (WriteFd fd f) ;; ret tt
  end.

(** The announcement of an assigned address on the egress interface; every failure is only logged. *)
Definition announce (egress : str) (gua_bytes : list Z) : M unit :=
  mac <- get_iface_mac egress ;;
  match mac with
  | Err _ => ret tt
  | Ok mac =>
      bpf <- open_bpf egress ;;
      match bpf with
      | Err _ => ret tt
      | Ok bpf_fd =>
          send_frame bpf_fd (gratuitous_na mac gua_bytes) ;;
          router <- detect_ipv6_gateway egress ;;
          match router with
          | None => ret tt
          | Some router =>
              router_mac <- get_ndp_mac router ;;
              match router_mac with
              | None => ret tt
              | Some router_mac => send_frame bpf_fd (ndp_probe_ns mac router_mac gua_bytes router)
              end
          end ;;
          call (CloseFd bpf_fd)
      end
  end.

Section Daemon.
(** The iteration order of [HashMap::values], the Unicode table of [char::is_alphanumeric], the
    [Debug] form of a string, and the JSON codec (serde). *)
Context (values : gmap str UtunSetup -> list UtunSetup).
Context (is_alphanumeric : Z -> bool).
Context (debug : str -> str).
Context (from_json : str -> result Request str) (to_json : Response -> option str).

Definition is_safe_iface (s : str) : bool :=
  negb (bool_decide (s = []))
  && forallb (fun c => is_alphanumeric c || (c =? 45) || (c =? 95)) (chars s).

(** * The anchor *)

Definition nat_rule (s : UtunSetup) : str :=
  #"nat on " ++ egress_iface s ++ #" inet from " ++ ipv4_cidr s ++ #" to any -> (" ++ egress_iface s ++ #")".

Definition rdr_lo_rule (r : RdrRule) : str :=
  #"rdr pass on lo0 proto " ++ proto r ++ #" from any to 127.0.0.1 port " ++ dec (host_port r)
  ++ #" -> " ++ vm_ip r ++ #" port " ++ dec (vm_port r).

Definition rdr_egress_rule (egress : str) (r : RdrRule) : str :=
  #"rdr pass on " ++ egress ++ #" proto " ++ proto r ++ #" from any to any port " ++ dec (host_port r)
  ++ #" -> " ++ vm_ip r ++ #" port " ++ dec (vm_port r).

Definition pass_rule (s : UtunSetup) : str :=
  #"pass quick inet from " ++ ipv4_cidr s ++ #" to " ++ ipv4_cidr s.

(** The text [reload_nat_anchor] builds. *)
Definition anchor_text (st : DaemonState) : str :=
  let setups := values (active_utuns st) in
  let any_egress := egress_iface <$> head setups in
  flat_map (fun s => nat_rule s ++ [NL]) setups
  ++ flat_map (fun r => (rdr_lo_rule r ++ [NL])
       ++ match any_egress with Some e => rdr_egress_rule e r ++ [NL] | None => [] end) (rdr_rules st)
  ++ flat_map (fun s => pass_rule s ++ [NL]) setups.

Definition flush_anchor : M (result unit str) := run_pfctl [ #"-a"; ANCHOR_NAT; #"-F"; #"all"].

Definition reload_nat_anchor : M Response :=
  state <- get_st ;;
  let rules := anchor_text state in
  if bool_decide (rules = []) then flush_anchor ;; ret ok_resp
  else
    w <- call (WriteFile ANCHOR_FILE_NAT rules) ;;
    match (w : result unit str) with
    | Err e => ret (err_resp (#"write " ++ ANCHOR_FILE_NAT ++ #": " ++ e))
    | Ok _ =>
        r <- run_pfctl [ #"-a"; ANCHOR_NAT; #"-f"; ANCHOR_FILE_NAT] ;;
        match (r : result unit str) with
        | Err e => ret (err_resp (#"pfctl nat anchor: " ++ e))
        | Ok _ => ret ok_resp
        end
    end.

(** * Handlers *)

Definition mod_utuns (f : gmap str UtunSetup -> gmap str UtunSetup) : M unit :=
  modify (fun st => mkDaemon (f (active_utuns st)) (rdr_rules st) (ipv6_aliases st)).
Definition mod_rdr (f : list RdrRule -> list RdrRule) : M unit :=
  modify (fun st => mkDaemon (active_utuns st) (f (rdr_rules st)) (ipv6_aliases st)).
Definition mod_aliases (f : list (str * str) -> list (str * str)) : M unit :=
  modify (fun st => mkDaemon (active_utuns st) (rdr_rules st) (f (ipv6_aliases st))).

Definition handle_setup_utun (iface ipv4_addr ipv4_peer ipv4_cidr egress_iface : str) : M Response :=
  if negb (is_safe_iface iface) || negb (is_safe_iface egress_iface)
  then ret (err_resp #"invalid interface name") else
  run_route [ #"delete"; #"-host"; ipv4_peer] ;;
  r <- run_ifconfig [iface; #"inet"; ipv4_addr; ipv4_peer; #"up"] ;;
  match (r : result unit str) with Err e => ret (err_resp (#"ifconfig inet: " ++ e)) | Ok _ =>
  run_ifconfig [iface; #"inet6"; #"fd00::1"; #"prefixlen"; #"128"; #"alias"] ;;
  r <- run_sysctl_set #"net.inet.ip.forwarding" #"1" ;;
  match (r : result unit str) with
  | Err e => ret (err_resp (#"sysctl net.inet.ip.forwarding: " ++ e)) | Ok _ =>
  r <- run_sysctl_set #"net.inet6.ip6.forwarding" #"1" ;;
  match (r : result unit str) with
  | Err e => ret (err_resp (#"sysctl net.inet6.ip6.forwarding: " ++ e)) | Ok _ =>
  run_pfctl [ #"-a"; #"com.apple.internet-sharing/network_isolation"; #"-t";
              #"network_isolation_table_v4"; #"-T"; #"delete"; ipv4_cidr] ;;
  mod_utuns (insert iface (mkUtun egress_iface ipv4_cidr)) ;;
  call (Exec #"/sbin/pfctl" [ #"-e"]) ;;
  resp <- reload_nat_anchor ;;
  if negb (ok resp) then ret resp else ret ok_resp
  end end end.

(** The [retain] over the aliases, whose closure removes the route of each alias it drops. *)
Fixpoint drop_aliases (iface : str) (l : list (str * str)) : M (list (str * str)) :=
  match l with
  | [] => ret []
  | (alias_iface, addr) :: l =>
      if bool_decide (alias_iface = iface) then
        run_route [ #"delete"; #"-inet6"; #"-host"; addr] ;;
        drop_aliases iface l
      else
        rest <- drop_aliases iface l ;;
        ret ((alias_iface, addr) :: rest)
  end.

Definition handle_teardown_utun (iface : str) : M Response :=
  mod_utuns (delete iface) ;;
  st <- get_st ;;
  let last_relay := bool_decide (active_utuns st = ∅) in
  (if last_relay then
     flush_anchor ;;
     run_sysctl_set #"net.inet.ip.forwarding" #"0" ;;
     run_sysctl_set #"net.inet6.ip6.forwarding" #"0" ;;
     mod_rdr (fun _ => [])
   else reload_nat_anchor ;; ret tt) ;;
  st <- get_st ;;
  kept <- drop_aliases iface (ipv6_aliases st) ;;
  mod_aliases (fun _ => kept) ;;
  run_ifconfig [iface; #"inet6"; #"fd00::1"; #"-alias"] ;;
  run_ifconfig [iface; #"down"] ;;
  ret ok_resp.

Definition handle_assign_utun_alias (iface addr : str) : M Response :=
  if negb (is_safe_iface iface) then ret (err_resp #"invalid interface name") else
  match parse_ipv6 addr with
  | None => ret (err_resp (#"invalid IPv6 address: " ++ debug addr))
  | Some gua =>
      r <- run_route [ #"add"; #"-inet6"; #"-host"; addr; #"-interface"; iface] ;;
      match (r : result unit str) with
      | Err e => ret (err_resp (#"route add -inet6 -host: " ++ e))
      | Ok _ =>
          mod_aliases (fun l => l ++ [(iface, addr)]) ;;
          st <- get_st ;;
          match active_utuns st !! iface with
          | Some setup => announce (egress_iface setup) gua
          | None => ret tt
          end ;;
          ret ok_resp
      end
  end.

(** The rules for another protocol or port. *)
Definition other_rules (p : str) (hp : Z) : list RdrRule -> list RdrRule :=
  filter (fun r => ~ (proto r = p /\ host_port r = hp)).

Definition handle_add_rdr (p : str) (hp : Z) (ip : str) (vp : Z) : M Response :=
  if bool_decide (p <> #"tcp") && bool_decide (p <> #"udp")
  then ret (err_resp (#"invalid proto: " ++ debug p)) else
  mod_rdr (other_rules p hp) ;;
  mod_rdr (fun l => l ++ [mkRdr p hp ip vp]) ;;
  reload_nat_anchor.

Definition handle_remove_rdr (p : str) (hp : Z) : M Response :=
  mod_rdr (other_rules p hp) ;;
  reload_nat_anchor.

(** [handle_create_utun_with_fd]; [KernelUtun] stands for the system calls of
    [create_utun_privileged]. *)
Definition json_field (name text : str) : str := [DQ] ++ name ++ [DQ] ++ #":" ++ text.
Definition create_utun_reply (r : result str str) : ev :=
  match r with
  | Err e => Reply (#"{" ++ json_field #"ok" #"false" ++ #"," ++ json_field #"error" ([DQ] ++ e ++ [DQ]) ++ #"}" ++ [NL])
  | Ok iface => SendFd (#"{" ++ json_field #"ok" #"true" ++ #"," ++ json_field #"iface" ([DQ] ++ iface ++ [DQ]) ++ #"}" ++ [NL])
  end.
Definition handle_create_utun_with_fd : M unit :=
  r <- call KernelUtun ;;
  call (create_utun_reply r) ;;
  ret tt.

(** The [match] of [handle_connection] on the requests other than [CreateUtun]. *)
Definition handle_request (req : Request) : M Response :=
  match req with
  | SetupUtun iface addr peer cidr egress => handle_setup_utun iface addr peer cidr egress
  | TeardownUtun iface => handle_teardown_utun iface
  | AddRdr p hp ip vp => handle_add_rdr p hp ip vp
  | RemoveRdr p hp => handle_remove_rdr p hp
  | AssignUtunAlias iface addr => handle_assign_utun_alias iface addr
  | CreateUtun => ret ok_resp
  end.

Definition send_response (resp : Response) : M unit :=
  match to_json resp with
  | Some out => call (Reply (out ++ [NL]))
  | None => ret tt
  end.

Definition handle_connection : M unit :=
  line <- call ReadLine ;;
  match (line : result str str) with
  | Err _ => ret tt
  | Ok line =>
      match from_json (trim line) with
      | Err e => send_response (err_resp (#"parse error: " ++ e))
      | Ok CreateUtun => handle_create_utun_with_fd
      | Ok req =>
          resp <- handle_request req ;;
          send_response resp
      end
  end.

(** The accept loop of [main], over the first [n] connections; they are handled one at a time. *)
Fixpoint serve (n : nat) : M unit :=
  match n with
  | O => ret tt
  | S n => handle_connection ;; serve n
  end.

(** * Specification *)

(** ASCII characters are alphanumeric exactly when they are letters or digits. *)
Definition ascii_table : Prop :=
  forall c, byte_of c < 128 -> is_alphanumeric (byte_of c) = is_ascii_alphanumeric c.

Definition rdr_key (r : RdrRule) : str * Z := (proto r, host_port r).

(** The invariant of the helper's state: at most one redirection per protocol and host port, only
    for TCP and UDP; safe interface names; aliases that are IPv6 addresses. *)
Definition wf (st : DaemonState) : Prop :=
  NoDup (rdr_key <$> rdr_rules st) /\
  Forall (fun r => proto r = #"tcp" \/ proto r = #"udp") (rdr_rules st) /\
  map_Forall (fun iface s => is_safe_iface iface = true /\ is_safe_iface (egress_iface s) = true)
    (active_utuns st) /\
  Forall (fun a => is_safe_iface a.1 = true /\ is_Some (parse_ipv6 a.2)) (ipv6_aliases st).

(** A text without line breaks. *)
Definition plain (s : str) : Prop := (NL ∉ s) /\ (CR ∉ s).

#[global] Instance plain_decidable s : Decision (plain s).
Proof. unfold plain. apply _. Defined.

(** The rules of the anchor in the section order the packet filter requires. *)
Definition anchor_rules (st : DaemonState) : list str :=
  let setups := values (active_utuns st) in
  map nat_rule setups
  ++ flat_map (fun r => [rdr_lo_rule r] ++
       match head setups with Some s => [rdr_egress_rule (egress_iface s) r] | None => [] end) (rdr_rules st)
  ++ map pass_rule setups.

(** What a teardown asks for beyond the anchor. *)
Definition delete_route (addr : str) : ev :=
  Exec #"/sbin/route" [ #"delete"; #"-inet6"; #"-host"; addr].
Definition forwarding_off : ev := Exec #"/usr/sbin/sysctl" [ #"-w"; #"net.inet.ip.forwarding=0"].

(** * Lemmas *)

Lemma steady_tool p a : steady (run_tool p a).
Proof. unfold run_tool. steady_go. Qed.
Lemma steady_route a : steady (run_route a).
Proof. unfold run_route. steady_go. Qed.
#[local] Hint Resolve steady_tool steady_route : sys_db.

Lemma steady_pfctl a : steady (run_pfctl a).
Proof. apply steady_tool. Qed.
Lemma steady_ifconfig a : steady (run_ifconfig a).
Proof. apply steady_tool. Qed.
Lemma steady_sysctl k v : steady (run_sysctl_set k v).
Proof. apply steady_tool. Qed.
Lemma steady_flush : steady flush_anchor.
Proof. apply steady_tool. Qed.
#[local] Hint Resolve steady_pfctl steady_ifconfig steady_sysctl steady_flush : sys_db.

Lemma steady_reload : steady reload_nat_anchor.
Proof. unfold reload_nat_anchor. steady_go. Qed.

Lemma steady_open_bpf iface : steady (open_bpf iface).
Proof.
  unfold open_bpf. generalize 10%nat, 0. intros n. induction n as [|n IH]; intros i; cbn [open_bpf_from];
    steady_go.
Qed.

Lemma steady_send fd f : steady (send_frame fd f).
Proof. unfold send_frame. steady_go. Qed.
#[local] Hint Resolve steady_reload steady_open_bpf steady_send : sys_db.

Lemma steady_announce e g : steady (announce e g).
Proof. unfold announce, get_iface_mac, detect_ipv6_gateway, get_ndp_mac. steady_go. Qed.

Lemma steady_drop iface l : steady (drop_aliases iface l).
Proof. induction l as [|[i a] l IH]; cbn [drop_aliases]; steady_go. Qed.

Lemma steady_respond r : steady (send_response r).
Proof. unfold send_response. steady_go. Qed.
#[local] Hint Resolve steady_announce steady_drop steady_respond : sys_db.

(** What [drop_aliases] keeps. *)
Lemma drop_aliases_result iface l env s h :
  fst (drop_aliases iface l env s h) = filter (fun a => a.1 <> iface) l.
Proof.
  revert s h. induction l as [|[i a] l IH]; intros s h; cbn [drop_aliases]; [done|].
  case_bool_decide as Hi.
  - destruct (bind_steady (run_route [ #"delete"; #"-inet6"; #"-host"; a])
      (fun _ => drop_aliases iface l) env s h) as (x & h' & _ & ->); [auto with sys_db|].
    rewrite IH. by rewrite filter_cons_False by (cbn; tauto).
  - destruct (bind_steady (drop_aliases iface l) (fun rest => ret ((i, a) :: rest)) env s h)
      as (x & h' & Hx & ->); [auto with sys_db|].
    rewrite filter_cons_True by done. specialize (IH s h). rewrite Hx in IH. cbn in IH. by subst.
Qed.

(** ** The invariant *)

#[local] Abbreviation keeps_wf := (keeps (fun (_ : Env ev reply) s (_ : list ev) => wf s)).

Lemma steady_wf {A} (m : M A) : steady m -> keeps_wf m.
Proof. apply steady_keeps. Qed.

Lemma wf_new : wf new_state.
Proof. split_and!; [constructor | constructor | apply map_Forall_empty | constructor]. Qed.

Lemma other_rules_keys p hp l : (p, hp) ∉ rdr_key <$> other_rules p hp l.
Proof.
  intros (r & Hk & Hr)%list_elem_of_fmap. apply list_elem_of_filter in Hr as [Hn _].
  unfold rdr_key in Hk. simplify_eq. tauto.
Qed.

Lemma other_rules_nodup p hp l : NoDup (rdr_key <$> l) -> NoDup (rdr_key <$> other_rules p hp l).
Proof.
  intros H. apply (sublist_NoDup _ (rdr_key <$> l)); [done|]. unfold other_rules. clear H.
  induction l as [|r l IH]; [done|]. rewrite filter_cons. case_decide; cbn; by constructor.
Qed.

(** One section of the state at a time. *)
Lemma keeps_mod_utuns f :
  (forall u, map_Forall (fun i s => is_safe_iface i = true /\ is_safe_iface (egress_iface s) = true) u ->
     map_Forall (fun i s => is_safe_iface i = true /\ is_safe_iface (egress_iface s) = true) (f u)) ->
  keeps_wf (mod_utuns f).
Proof. intros Hf. apply keeps_modify. intros _ s _ (? & ? & ? & ?). split_and!; cbn; auto. Qed.

Lemma keeps_mod_aliases f :
  (forall l, Forall (fun a => is_safe_iface a.1 = true /\ is_Some (parse_ipv6 a.2)) l ->
     Forall (fun a => is_safe_iface a.1 = true /\ is_Some (parse_ipv6 a.2)) (f l)) ->
  keeps_wf (mod_aliases f).
Proof. intros Hf. apply keeps_modify. intros _ s _ (? & ? & ? & ?). split_and!; cbn; auto. Qed.

Lemma keeps_clear_rdr : keeps_wf (mod_rdr (fun _ => [])).
Proof. apply keeps_modify. intros _ s _ (? & ? & ? & ?). split_and!; [constructor | constructor | done | done]. Qed.

Lemma keeps_remove_rdr p hp : keeps_wf (mod_rdr (other_rules p hp)).
Proof.
  apply keeps_modify. intros _ s _ (? & ? & ? & ?). split_and!; cbn; try done.
  - by apply other_rules_nodup.
  - by apply Forall_retain.
Qed.

Lemma keeps_setup i a p c e : keeps_wf (handle_setup_utun i a p c e).
Proof.
  unfold handle_setup_utun. destruct (negb _ || _)%bool eqn:Es; [apply keeps_ret|].
  apply orb_false_iff in Es as [Hi He]. apply negb_false_iff in Hi, He.
  keeps_go; try (apply steady_wf; solve [steady_go]).
  apply keeps_mod_utuns. intros u Hu. by apply map_Forall_insert_2.
Qed.

Lemma keeps_add p hp ip vp : keeps_wf (handle_add_rdr p hp ip vp).
Proof.
  unfold handle_add_rdr. case_goal; [apply keeps_ret|].
  assert (Hp : p = #"tcp" \/ p = #"udp").
  { apply andb_false_iff in Heqb. rewrite !bool_decide_eq_false in Heqb.
    destruct Heqb as [H|H]; [left|right]; by apply dec_stable. }
  intros env s h Hw. pose proof (keeps_remove_rdr p hp env s h Hw) as (H1 & H2 & H3 & H4).
  apply (steady_wf reload_nat_anchor steady_reload). split_and!; cbn in *; try done.
  - rewrite fmap_app. apply NoDup_app. split; [done|]. split; [|apply NoDup_singleton].
    intros k Hk. cbn. rewrite list_elem_of_singleton. intros ->. by apply other_rules_keys in Hk.
  - apply Forall_app. split; [done|]. by constructor.
Qed.

(** The state after a teardown. *)
Definition torn_down (iface : str) (s : DaemonState) : DaemonState :=
  let rest := delete iface (active_utuns s) in
  mkDaemon rest (if bool_decide (rest = ∅) then [] else rdr_rules s)
    (filter (fun a => a.1 <> iface) (ipv6_aliases s)).

Lemma teardown_goes iface s : goes (handle_teardown_utun iface) s (torn_down iface s).
Proof.
  unfold handle_teardown_utun, torn_down, mod_utuns, mod_rdr, mod_aliases.
  apply goes_bind_modify, goes_bind_get. cbn [active_utuns]. cbv zeta.
  set (rest := delete iface (active_utuns s)).
  apply (goes_bind _ _ _ (mkDaemon rest (if bool_decide (rest = ∅) then [] else rdr_rules s)
    (ipv6_aliases s))).
  { case_bool_decide.
    - repeat (eapply goes_bind; [apply goes_steady; solve [auto with sys_db] | intros _]).
      by intros env h.
    - apply goes_steady. steady_go. }
  intros _. apply goes_bind_get. cbn [ipv6_aliases].
  eapply goes_bind_result; [auto with sys_db | intros; apply drop_aliases_result |].
  apply goes_bind_modify. cbn. apply goes_steady. steady_go.
Qed.

Lemma torn_down_wf iface s : wf s -> wf (torn_down iface s).
Proof.
  intros (H1 & H2 & H3 & H4). split_and!; cbn.
  - case_bool_decide; [constructor|done].
  - case_bool_decide; [constructor|done].
  - by apply map_Forall_delete.
  - by apply Forall_retain.
Qed.

Lemma keeps_assign i a : keeps_wf (handle_assign_utun_alias i a).
Proof.
  unfold handle_assign_utun_alias. destruct (is_safe_iface i) eqn:Ei; cbn [negb]; [|apply keeps_ret].
  destruct (parse_ipv6 a) as [g|] eqn:Ea; [|apply keeps_ret].
  keeps_go; try (apply steady_wf; solve [steady_go]).
  apply keeps_mod_aliases. intros l Hl. apply Forall_app. split; [done|]. constructor; [|constructor].
  cbn. rewrite Ea. eauto.
Qed.

Lemma keeps_handle req : keeps_wf (handle_request req).
Proof.
  destruct req; cbn [handle_request].
  - apply keeps_setup.
  - intros env s h H. rewrite teardown_goes. by apply torn_down_wf.
  - apply keeps_add.
  - unfold handle_remove_rdr. keeps_go; [apply keeps_remove_rdr | apply steady_wf; steady_go].
  - apply keeps_ret.
  - apply keeps_assign.
Qed.

Lemma keeps_connection : keeps_wf handle_connection.
Proof.
  unfold handle_connection. keeps_go; try apply keeps_handle; apply steady_wf;
    unfold handle_create_utun_with_fd; steady_go.
Qed.

(** ** The anchor *)

Lemma plain_app a b : plain a -> plain b -> plain (a ++ b).
Proof. unfold plain. set_solver. Qed.

(** A literal is plain by computation. *)
Lemma plain_literal s : forallb (fun c => negb (Ascii.eqb c NL) && negb (Ascii.eqb c CR)) s = true -> plain s.
Proof.
  rewrite forallb_forall. intros Hs.
  split; intros Hin; apply list_elem_of_In, Hs in Hin; vm_compute in Hin; done.
Qed.

Lemma plain_dec n : 0 <= n -> plain (dec n).
Proof. intros. split; by apply not_in_dec. Qed.

Lemma plain_safe i : ascii_table -> is_safe_iface i = true -> plain i.
Proof.
  intros Ht Hs. unfold is_safe_iface in Hs. apply andb_true_iff in Hs as [_ Hs].
  rewrite forallb_forall in Hs.
  assert (Hc : forall c, byte_of c < 32 -> c ∉ i).
  { intros c Hc Hin. pose proof (byte_of_u8 c) as Hu. apply chars_ascii, list_elem_of_In, Hs in Hin; [|lia].
    rewrite Ht in Hin by lia. unfold is_ascii_alphanumeric, is_digit, is_upper, is_lower in Hin.
    bool_cases. }
  split; by apply Hc.
Qed.

(** The lines of a text that is a sequence of plain lines. *)
Lemma lines_plain l : Forall plain l -> lines (flat_map (fun s => s ++ [NL]) l) = l.
Proof.
  induction 1 as [|s l [Hn Hc] _ IH]; [done|]. cbn [flat_map].
  by rewrite lines_app, IH, lines_one.
Qed.

Lemma flat_map_map {A B C} (f : A -> B) (g : B -> list C) l : flat_map g (map f l) = flat_map (fun x => g (f x)) l.
Proof. induction l; cbn; congruence. Qed.

Lemma flat_map_flat_map {A B C} (f : A -> list B) (g : B -> list C) l :
  flat_map g (flat_map f l) = flat_map (fun x => flat_map g (f x)) l.
Proof. induction l; cbn; [done|]. rewrite flat_map_app. congruence. Qed.

Lemma anchor_text_rules st : anchor_text st = flat_map (fun s => s ++ [NL]) (anchor_rules st).
Proof.
  unfold anchor_text, anchor_rules. rewrite !flat_map_app, !flat_map_map, flat_map_flat_map.
  f_equal. f_equal. apply flat_map_ext. intros r. cbn [app flat_map].
  f_equal. by destruct (values (active_utuns st)); cbn; rewrite ?app_nil_r.
Qed.

(** The texts of the rules are plain when the unchecked fields of the state are. *)
Definition plain_fields (st : DaemonState) : Prop :=
  map_Forall (fun _ s => plain (ipv4_cidr s)) (active_utuns st) /\
  Forall (fun r => plain (vm_ip r) /\ 0 <= host_port r /\ 0 <= vm_port r) (rdr_rules st).

#[global] Instance plain_fields_decidable st : Decision (plain_fields st).
Proof. unfold plain_fields. apply _. Defined.

Ltac plain_go :=
  repeat apply plain_app; try assumption; try (apply plain_dec; assumption);
  try (apply plain_literal; reflexivity).

Lemma anchor_rules_plain st :
  ascii_table -> (forall m, values m ≡ₚ (map_to_list m).*2) -> wf st -> plain_fields st ->
  Forall plain (anchor_rules st).
Proof.
  intros Ht Hv (_ & Hp & Hs & _) [Hc Hr].
  assert (Hset : Forall (fun s => plain (egress_iface s) /\ plain (ipv4_cidr s)) (values (active_utuns st))).
  { rewrite Hv. apply Forall_forall. intros s ([i s'] & -> & Hin)%list_elem_of_fmap. cbn.
    apply elem_of_map_to_list in Hin. split; [|by apply (Hc i)].
    apply plain_safe; [done|]. by apply (Hs i). }
  unfold anchor_rules. apply Forall_app. split; [|apply Forall_app; split].
  - apply Forall_map. eapply Forall_impl; [exact Hset|]. intros s [??]. unfold nat_rule. plain_go.
  - apply Forall_flat_map. apply Forall_forall. intros r Hin.
    rewrite Forall_forall in Hr, Hp. destruct (Hr r Hin) as (? & ? & ?).
    assert (plain (proto r)) by (destruct (Hp r Hin) as [-> | ->]; plain_go).
    apply Forall_app. split.
    + constructor; [|constructor]. unfold rdr_lo_rule. plain_go.
    + destruct (values (active_utuns st)) as [|s l]; cbn [head]; [constructor|].
      apply Forall_cons in Hset as [[??] _]. constructor; [|constructor]. unfold rdr_egress_rule. plain_go.
  - apply Forall_map. eapply Forall_impl; [exact Hset|]. intros s [??]. unfold pass_rule. plain_go.
Qed.

Lemma serve_wf n env : wf (fst (snd (serve n env new_state []))).
Proof.
  assert (Hk : keeps_wf (serve n)).
  { induction n as [|n IH]; cbn [serve]; keeps_go; auto using keeps_connection. }
  apply (Hk env new_state []), wf_new.
Qed.

(** The events of the anchor reload. *)
Lemma reload_events env s h :
  exists new, snd (snd (reload_nat_anchor env s h)) = new ++ h /\ forwarding_off ∉ new.
Proof.
  assert (Hw : forall p c, forwarding_off <> WriteFile p c) by discriminate.
  assert (He : forall a, forwarding_off <> Exec #"/sbin/pfctl" a) by discriminate.
  unfold reload_nat_anchor, flush_anchor, run_pfctl, run_tool. cbn [bind get_st]. cbv zeta.
  case_bool_decide; cbn [bind call ret snd].
  - eexists [_]. split; [done|]. set_solver.
  - destruct (env _ _) as [u|e]; cbn [bind call ret snd].
    + eexists [_; _]. split; [repeat case_goal; reflexivity | set_solver].
    + eexists [_]. split; [done|]. set_solver.
Qed.

Lemma drop_aliases_events iface l env s h :
  snd (snd (drop_aliases iface l env s h))
  = rev (map (fun a => delete_route a.2) (filter (fun a => a.1 = iface) l)) ++ h.
Proof.
  revert s h. induction l as [|[i a] l IH]; intros s h; cbn [drop_aliases]; [done|].
  rewrite filter_cons. case_bool_decide as Hi.
  - rewrite decide_True by done. cbn [map rev snd]. unfold bind at 1.
    unfold run_route. cbn [bind call ret]. rewrite IH. by rewrite <- app_assoc.
  - rewrite decide_False by done. unfold bind. specialize (IH s h).
    destruct (drop_aliases iface l env s h) as [x [s' h']]. done.
Qed.

Lemma teardown_ok iface env s h : fst (handle_teardown_utun iface env s h) = ok_resp.
Proof.
  unfold handle_teardown_utun. revert env s h.
  repeat (apply bind_returns; intros ?). done.
Qed.

Lemma teardown_events iface env s h :
  exists mid,
    snd (snd (handle_teardown_utun iface env s h))
    = Exec #"/sbin/ifconfig" [iface; #"down"] :: Exec #"/sbin/ifconfig" [iface; #"inet6"; #"fd00::1"; #"-alias"]
      :: rev (map (fun a => delete_route a.2) (filter (fun a => a.1 = iface) (ipv6_aliases s))) ++ mid ++ h /\
    (forwarding_off ∈ mid <-> delete iface (active_utuns s) = ∅).
Proof.
  unfold handle_teardown_utun, mod_utuns. cbn [bind modify get_st active_utuns]. cbv zeta.
  set (s1 := mkDaemon _ _ _).
  assert (Hstep : exists s2 mid,
    snd ((if bool_decide (delete iface (active_utuns s) = ∅)
          then flush_anchor ;; run_sysctl_set #"net.inet.ip.forwarding" #"0" ;;
               run_sysctl_set #"net.inet6.ip6.forwarding" #"0" ;; mod_rdr (fun _ => [])
          else reload_nat_anchor ;; ret tt) env s1 h) = (s2, mid ++ h) /\
    ipv6_aliases s2 = ipv6_aliases s /\
    (forwarding_off ∈ mid <-> delete iface (active_utuns s) = ∅)).
  { case_bool_decide as Hl.
    - eexists _, [_; _; _]. split; [reflexivity|]. split; [done|]. split; [done|].
      intros _. right. left.
    - destruct (reload_events env s1 h) as (new & Hn & Hf). pose proof (steady_reload env s1 h) as Hs.
      unfold bind. destruct (reload_nat_anchor env s1 h) as [r [s2 h2]]. cbn in Hn, Hs. subst.
      exists s1, new. split; [done|]. split; [done|]. split; [intros ?; done | intros ?; done]. }
  destruct Hstep as (s2 & mid & Hst & Ha & Hf). exists mid. split; [|done].
  match type of Hst with snd ?m = _ => destruct m as [u [s2' h2']] end. cbn [snd] in Hst. simplify_eq.
  rewrite <- Ha. pose proof (drop_aliases_events iface (ipv6_aliases s2) env s2 (mid ++ h)) as Hd.
  destruct (drop_aliases iface (ipv6_aliases s2) env s2 (mid ++ h)) as [k [s3 h3]].
  cbn [snd] in Hd. by subst h3.
Qed.

(** The state with a redirection put in place of the one for its protocol and port. *)
Definition redirected (r : RdrRule) (s : DaemonState) : DaemonState :=
  mkDaemon (active_utuns s) (other_rules (proto r) (host_port r) (rdr_rules s) ++ [r]) (ipv6_aliases s).

Definition load_anchor : ev := Exec #"/sbin/pfctl" [ #"-a"; ANCHOR_NAT; #"-f"; ANCHOR_FILE_NAT].

(** Whether a process ran and succeeded. *)
Definition ran (r : result output str) : bool := match r with Ok o => success o | Err _ => false end.

Lemma redirected_rule r s : rdr_lo_rule r ∈ anchor_rules (redirected r s).
Proof.
  unfold anchor_rules. rewrite !elem_of_app. right. left. apply list_elem_of_In, in_flat_map.
  exists r. split; [|by left]. cbn. apply in_app_iff. right. by left.
Qed.

(** A state with a redirection has a non-empty anchor. *)
Lemma anchor_text_not_nil r s : anchor_text (redirected r s) <> [].
Proof.
  rewrite anchor_text_rules. pose proof (redirected_rule r s) as Hr.
  destruct (anchor_rules (redirected r s)) as [|x l]; [set_solver|]. cbn [flat_map]. by destruct x.
Qed.

(** The reload of a non-empty anchor writes the file and loads it. *)
Lemma reload_writes env s h :
  anchor_text s <> [] ->
  let w := WriteFile ANCHOR_FILE_NAT (anchor_text s) in
  let r := reload_nat_anchor env s h in
  ok (fst r) = is_ok (env h w) && ran (env (w :: h) load_anchor) /\
  snd r = (s, if is_ok (env h w) then load_anchor :: w :: h else w :: h).
Proof.
  intros Hne w r. subst r. unfold reload_nat_anchor. cbn [bind get_st]. cbv zeta.
  rewrite bool_decide_eq_false_2 by done. fold w. cbn [bind call].
  destruct (env h w) as [u|e]; [|done]. unfold run_pfctl, run_tool. cbn [bind call ret is_ok andb].
  fold load_anchor. by destruct (env (w :: h) load_anchor) as [[[] ? ?]|].
Qed.

(** * Properties *)

(** C12: the helper's state is always well formed.  Whatever requests arrive, from any clients in any
    order, and however the system's tools, files and devices behave, after every connection there
    is at most one redirection for a protocol and host port, redirections are only for TCP and
    UDP, every interface name that will be pasted into a rule passed the check, and every alias is
    an IPv6 address. *)
Theorem helper_state_wf n env :
  let st := fst (snd (serve n env new_state [])) in
  NoDup (rdr_key <$> rdr_rules st) /\
  Forall (fun r => proto r = #"tcp" \/ proto r = #"udp") (rdr_rules st) /\
  map_Forall (fun i s => is_safe_iface i = true /\ is_safe_iface (egress_iface s) = true)
    (active_utuns st) /\
  Forall (fun a => is_safe_iface a.1 = true /\ is_Some (parse_ipv6 a.2)) (ipv6_aliases st).
Proof. apply serve_wf. Qed.

(** C11: the packet filter is given exactly the helper's rules.  In every reachable state in which the
    fields the helper does not check (the subnet and the machine's address) contain no line break,
    the text written to the anchor file has exactly the lines of the state's rules: the address
    translation rule of every active relay, then the redirections, on the loopback and, if a relay is
    active, on its egress interface, then the pass rule of every relay, and nothing else. *)
Theorem anchor_is_rules n env :
  ascii_table -> (forall m, values m ≡ₚ (map_to_list m).*2) ->
  let st := fst (snd (serve n env new_state [])) in
  plain_fields st ->
  lines (anchor_text st) = anchor_rules st /\
  (forall s, s ∈ (map_to_list (active_utuns st)).*2 ->
     nat_rule s ∈ anchor_rules st /\ pass_rule s ∈ anchor_rules st) /\
  (forall r, r ∈ rdr_rules st -> rdr_lo_rule r ∈ anchor_rules st).
Proof.
  intros Ht Hv st Hf. split; [|split].
  - rewrite anchor_text_rules. apply lines_plain, anchor_rules_plain; auto. apply serve_wf.
  - intros s Hs. rewrite <- Hv in Hs. unfold anchor_rules. rewrite !elem_of_app.
    split; [left | right; right]; apply list_elem_of_In, in_map; by apply list_elem_of_In.
  - intros r Hr. unfold anchor_rules. rewrite !elem_of_app. right. left.
    apply list_elem_of_In, in_flat_map. exists r. split; [by apply list_elem_of_In | by left].
Qed.

(** teardown leaves nothing of a relay behind and nothing else changes.  Whatever the tools do, the
    request is answered positively; the relay and all its aliases are gone from the state, the other
    relays and their aliases are untouched; redirections are kept while another relay is active and
    dropped with the last one; the route of every dropped alias was deleted; and IP forwarding was
    switched off if and only if this was the last relay. *)
Theorem teardown_effect iface env s h :
  let '(r, (s', h')) := handle_teardown_utun iface env s h in
  ok r = true /\
  active_utuns s' = delete iface (active_utuns s) /\
  ipv6_aliases s' = filter (fun a => a.1 <> iface) (ipv6_aliases s) /\
  rdr_rules s' = (if bool_decide (delete iface (active_utuns s) = ∅) then [] else rdr_rules s) /\
  exists new, h' = new ++ h /\
    (forall a, (iface, a) ∈ ipv6_aliases s -> delete_route a ∈ new) /\
    (forwarding_off ∈ new <-> delete iface (active_utuns s) = ∅).
Proof.
  pose proof (teardown_goes iface s env h) as Hg. pose proof (teardown_events iface env s h) as He.
  pose proof (teardown_ok iface env s h) as Hok.
  destruct (handle_teardown_utun iface env s h) as [r [s' h']]. cbn [fst snd] in *. subst s'.
  subst r. split; [done|]. do 3 (split; [done|]). destruct He as (mid & -> & Hm).
  set (dels := map _ _). eexists (_ :: _ :: rev dels ++ mid). split; [cbn [app]; by rewrite <- app_assoc|].
  assert (Hd : forall a, (iface, a) ∈ ipv6_aliases s -> delete_route a ∈ rev dels).
  { intros a Ha. apply list_elem_of_In. rewrite <- in_rev. apply in_map_iff. exists (iface, a).
    split; [done|]. apply list_elem_of_In, list_elem_of_filter. done. }
  assert (Hn : forwarding_off ∉ rev dels).
  { rewrite list_elem_of_In, <- in_rev. intros (x & Hx & _)%in_map_iff. discriminate Hx. }
  split; [intros; set_solver|]. rewrite <- Hm. rewrite !elem_of_cons, elem_of_app.
  split; [|auto]. intros [Hx|[Hx|[Hx|Hx]]]; [discriminate Hx | discriminate Hx | done | done].
Qed.

(** An accepted redirection is in the loaded anchor.  For TCP and UDP the request replaces the rule
    of that protocol and port; it is answered positively exactly when the anchor file could be
    written and loaded, and then the file that was loaded holds the rules of the new state, the
    loopback redirection of this rule among them.  The state keeps the rule in either case, so a
    redirection whose load failed is installed by the next successful reload. *)
Theorem redirection_loaded p hp ip vp env s h :
  p = #"tcp" \/ p = #"udp" ->
  let rule := mkRdr p hp ip vp in
  let w := WriteFile ANCHOR_FILE_NAT (anchor_text (redirected rule s)) in
  let '(r, (s', h')) := handle_add_rdr p hp ip vp env s h in
  s' = redirected rule s /\
  (ok r = true <-> is_ok (env h w) = true /\ ran (env (w :: h) load_anchor) = true) /\
  (ok r = true -> h' = load_anchor :: w :: h /\
     anchor_text s' = flat_map (fun l => l ++ [NL]) (anchor_rules s') /\
     rdr_lo_rule rule ∈ anchor_rules s').
Proof.
  intros Hp rule w. pose proof (reload_writes env (redirected rule s) h (anchor_text_not_nil rule s)) as Hr.
  fold w in Hr. cbv zeta in Hr. unfold handle_add_rdr.
  assert (bool_decide (p <> #"tcp") && bool_decide (p <> #"udp") = false)%bool as ->.
  { apply andb_false_iff. rewrite !bool_decide_eq_false. tauto. }
  unfold mod_rdr. cbn [bind modify]. change (mkDaemon _ _ _) with (redirected rule s).
  destruct (reload_nat_anchor env (redirected rule s) h) as [r [s' h']]. cbn [fst snd] in Hr.
  destruct Hr as [Hok Hs]. simplify_eq. split; [done|]. rewrite Hok, andb_true_iff. split; [done|].
  intros [-> _]. split; [done|]. split; [apply anchor_text_rules | apply redirected_rule].
Qed.
End Daemon.

(** * Concrete runs *)

Definition values_of (m : gmap str UtunSetup) : list UtunSetup := (map_to_list m).*2.
Definition ascii_alnum (x : Z) : bool := (0 <=? x) && (x <? 128) && is_ascii_alphanumeric (of_byte x).

Lemma ascii_alnum_table : ascii_table ascii_alnum.
Proof.
  intros c Hc. unfold ascii_alnum. pose proof (byte_of_u8 c) as Hu. unfold is_u8 in Hu.
  rewrite of_byte_byte_of, (proj2 (Z.leb_le _ _)), (proj2 (Z.ltb_lt _ _)) by lia. done.
Qed.

(** A host on which every tool succeeds, and a client that sets a relay up and then asks for a
    redirection. *)
Definition good_env : Env ev reply := fun h e =>
  match e with
  | Exec _ _ => Ok (mkOut true [] [])
  | WriteFile _ _ | BindBpf _ _ | WriteFd _ _ => Ok tt
  | OpenDev _ => Some 7
  | ReadLine => Ok (match h with [] => #"setup" | _ => #"redirect" end)
  | KernelUtun => Ok #"utun4"
  | CloseFd _ | SendFd _ | Reply _ => tt
  end.
Definition good_json (line : str) : result Request str :=
  if bool_decide (line = #"setup")
  then Ok (SetupUtun #"utun4" #"192.168.105.1" #"192.168.105.2" #"192.168.105.0/24" #"en0")
  else Ok (AddRdr #"tcp" 2222 #"192.168.105.2" 22).
Definition good_state : DaemonState :=
  fst (snd (serve values_of ascii_alnum (fun s => s) good_json (fun _ => None) 2 good_env new_state [])).

Lemma anchor_is_rules_witness :
  plain_fields good_state /\
  lines (anchor_text values_of good_state) = anchor_rules values_of good_state.
Proof.
  assert (Hf : plain_fields good_state) by (eapply bool_decide_eq_true_1; vm_compute; reflexivity).
  split; [exact Hf|].
  exact (proj1 (anchor_is_rules values_of ascii_alnum (fun s => s) good_json (fun _ => None) 2 good_env
    ascii_alnum_table ltac:(reflexivity) Hf)).
Defined.

Lemma redirection_loaded_witness :
  ok (fst (handle_add_rdr values_of (fun s => s) #"tcp" 2222 #"192.168.105.2" 22 good_env new_state [])) = true /\
  rdr_lo_rule (mkRdr #"tcp" 2222 #"192.168.105.2" 22)
    ∈ anchor_rules values_of (fst (snd (handle_add_rdr values_of (fun s => s) #"tcp" 2222 #"192.168.105.2" 22
        good_env new_state []))).
Proof.
  pose proof (redirection_loaded values_of ascii_alnum (fun s => s) good_json #"tcp" 2222 #"192.168.105.2" 22 good_env new_state []
    (or_introl eq_refl)) as (_ & Hok & Hin).
  assert (Hr : ok (fst (handle_add_rdr values_of (fun s => s) #"tcp" 2222 #"192.168.105.2" 22 good_env new_state []))
               = true) by (vm_compute; reflexivity).
  split; [exact Hr | exact (proj2 (proj2 (Hin Hr)))].
Defined.

(** The subnet of a request is pasted into the anchor unchecked: one that contains a line break adds
    a rule of the client's choice to the packet filter. *)
Example subnet_injects_rule :
  let req := SetupUtun #"utun4" #"10.0.0.1" #"10.0.0.2" (#"any to any" ++ [NL] ++ #"pass quick all" ++ [NL] ++ #"#") #"en0" in
  let st := fst (snd (handle_request values_of ascii_alnum (fun s => s) req good_env new_state [])) in
  existsb (fun l => bool_decide (l = #"pass quick all")) (lines (anchor_text values_of st)) = true.
Proof. vm_compute. reflexivity. Qed.
