(* ===== verification/PfctlMain.v ===== *)
(** What the privileged helper ([pelagos-pfctl/src/main.rs]) asks of the kernel: the start of [main] with the
    permissions of its socket, and the creation of a utun interface ([create_utun_privileged]). *)

From S2P Require Import Prelude RustStd.

#[local] Open Scope Z_scope.

(** * Constants *)

Definition PF_SYSTEM : Z := 32.
Definition AF_SYS_CONTROL : Z := 2.
Definition SYSPROTO_CONTROL : Z := 2.
Definition UTUN_CONTROL_NAME : str := #"com.apple.net.utun_control" ++ [Ascii.zero].
Definition UTUN_OPT_IFNAME : Z := 2.
Definition CTLIOCGINFO : Z := 3227799043.          (* 0xc064_4e03 *)
Definition BIOCSETIF : Z := 2149597804.            (* 0x8020_426c *)
Definition MAX_KCTL_NAME : nat := 96.
Definition IFNAMSIZ : nat := 16.
Definition SOCK_PATH : str := #"/var/run/pelagos-pfctl.sock".

(** [struct ctl_info] and [struct sockaddr_ctl]. *)
Record CtlInfo := mkCtl { ctl_id : Z; ctl_name : list Z }.
Record SockaddrCtl := mkAddr {
  sc_len : Z; sc_family : Z; ss_sysaddr : Z; sc_id : Z; sc_unit : Z; sc_reserved : list Z }.

(** The bytes of a [SockaddrCtl], with the little-endian byte order of the machine. *)
Definition le (n : nat) (x : Z) : list Z := map (fun i => x / 256 ^ Z.of_nat i mod 256) (seq 0 n).
Definition sockaddr_bytes (a : SockaddrCtl) : list Z :=
  le 1 (sc_len a) ++ le 1 (sc_family a) ++ le 2 (ss_sysaddr a) ++ le 4 (sc_id a) ++ le 4 (sc_unit a) ++ flat_map (le 4) (sc_reserved a).
Definition SOCKADDR_CTL_SIZE : Z := 32.

(** * Calls to the kernel *)

Inductive ev : Type :=
| Socket (domain type protocol : Z)
| GetInfo (fd request : Z) (ci : CtlInfo)      (* the ioctl: its result and the identifier it stores *)
| Connect (fd : Z) (sc : SockaddrCtl) (len : Z)
| GetSockOpt (fd level name : Z) (optlen : Z)  (* its result, the buffer and the length it stores *)
| LastError
| CloseFd (fd : Z)
| GetUid | RemoveFile (path : str) | BindUnix (path : str) | Chmod (path : str) (mode : Z) | GetGroup (name : str)
| Chown (path : str) (uid gid : Z) | Eprint (s : str).

Definition reply (e : ev) : Type :=
  match e with
  | Socket _ _ _ | Connect _ _ _ | GetUid | Chmod _ _ | Chown _ _ _ => Z
  | GetInfo _ _ _ => (Z * Z)%type
  | GetSockOpt _ _ _ _ => (Z * list Z * Z)%type
  | LastError => str
  | BindUnix _ => result Z str
  | GetGroup _ => option Z
  | CloseFd _ | RemoveFile _ | Eprint _ => unit
  end.

Abbreviation ask e := (call (R := reply) (S := unit) e).
Definition K (A : Type) : Type := Sys ev reply unit A.

(** * [create_utun_privileged] *)

Section Utun.
(** [String::from_utf8_lossy] *)
Context (lossy : list Z -> str).

(** [io_err] *)
Definition io_err (msg : str) : K str := e <- ask LastError ;; ret (msg ++ #": " ++ e).

(** An error return after the socket was opened: the message is made, then [owned] is dropped. *)
Definition abandon {A} (owned : Z) (msg : str) : K (option (result A str)) :=
  m <- io_err msg ;; ask (CloseFd owned) ;; ret (Some (Err m)).

Definition name_of (ifname : list Z) (optlen : Z) : option str :=
  let name_len := match list_find (eq 0) ifname with Some (i, _) => i | None => Z.to_nat optlen end in
  if (name_len <=? length ifname)%nat then Some (lossy (take name_len ifname)) else None.

(** [None] is a panic. *)
Definition create_utun_privileged : K (option (result (Z * str) str)) :=
  raw_fd <- ask (Socket PF_SYSTEM 2 SYSPROTO_CONTROL) ;;
  if raw_fd <? 0 then m <- io_err #"socket(PF_SYSTEM)" ;; ret (Some (Err m))
  else
    let ci := mkCtl 0 (splice 0 (map byte_of UTUN_CONTROL_NAME) (replicate MAX_KCTL_NAME 0)) in
    info <- ask (GetInfo raw_fd CTLIOCGINFO ci) ;;
    if fst info <? 0 then abandon raw_fd #"ioctl(CTLIOCGINFO)"
    else
      let sc := mkAddr (as_u8 SOCKADDR_CTL_SIZE) (as_u8 PF_SYSTEM) AF_SYS_CONTROL (snd info) 0 (replicate 5 0) in
      rc <- ask (Connect raw_fd sc SOCKADDR_CTL_SIZE) ;;
      if rc <? 0 then abandon raw_fd #"connect(utun)"
      else
        opt <- ask (GetSockOpt raw_fd SYSPROTO_CONTROL UTUN_OPT_IFNAME (Z.of_nat IFNAMSIZ)) ;;
        let '(rc, ifname, optlen) := opt in
        if rc <? 0 then abandon raw_fd #"getsockopt(UTUN_OPT_IFNAME)"
        else
          match name_of ifname optlen with
          | Some iface => ret (Some (Ok (raw_fd, iface)))
          | None => ask (CloseFd raw_fd) ;; ret None
          end.

(** What is seen of descriptors. *)
Inductive op : Type := Opened (fd : Z) | Joined (fd id : Z) | Closed (fd : Z).
Definition see (e : ev) : reply e -> list op :=
  match e return reply e -> list op with
  | Socket _ _ _ => fun fd => if (fd : Z) <? 0 then [] else [Opened fd]
  | Connect fd sc _ => fun rc => if (rc : Z) <? 0 then [] else [Joined fd (sc_id sc)]
  | CloseFd fd => fun _ => [Closed fd]
  | _ => fun _ => []
  end.

(** The socket of an interface that was made stays open and has joined a control; every other is closed. *)
Definition utun_life (r : option (result (Z * str) str)) (os : list op) : Prop :=
  match r with
  | Some (Ok (fd, _)) => exists id, os = [Opened fd; Joined fd id]
  | _ => os = [] \/ exists fd joined, os = Opened fd :: joined ++ [Closed fd] /\ (joined = [] \/ exists id, joined = [Joined fd id])
  end.

Lemma abandon_closes {A} fd msg : adds see (@abandon A fd msg) (fun r os => (exists m, r = Some (Err m)) /\ os = [Closed fd]).
Proof.
  unfold abandon, io_err. apply adds_silent; [silent_go|]. intros m.
  eapply adds_bind_known; [refine (adds_call see (CloseFd fd) (fun _ os => os = [Closed fd]) _); done|].
  intros u os ->. apply adds_ret. split; [by eexists|done].
Qed.

(** A utun interface is made or nothing is left.  Whatever the kernel answers, the socket is returned, joined to
    the control whose identifier the kernel gave, or it is closed, once, before the error or the panic. *)
Theorem utun_owned env s h :
  exists os, seen see env (snd (snd (create_utun_privileged env s h))) = seen see env h ++ os /\
    utun_life (fst (create_utun_privileged env s h)) os.
Proof.
  cut (adds see create_utun_privileged utun_life); [intros H; apply H|]. unfold create_utun_privileged.
  assert (Hab : forall fd joined msg, joined = [] \/ (exists id, joined = [Joined fd id]) ->
    adds see (abandon (A := Z * str) fd msg) (fun r os => utun_life r (Opened fd :: joined ++ os))).
  { intros fd joined msg Hj. eapply adds_weaken; [apply abandon_closes|]. intros r os [[m ->] ->]. right. by exists fd, joined. }
  eapply adds_bind_known; [refine (adds_call see (Socket PF_SYSTEM 2 SYSPROTO_CONTROL) (fun fd os => os = if fd <? 0 then [] else [Opened fd]) _); done|].
  intros fd os ->. destruct (fd <? 0); [unfold io_err; apply adds_silent; [silent_go|]; intros m; apply adds_ret; by left|].
  cbv zeta. apply adds_silent; [silent_go|]. intros info. destruct (fst info <? 0); [apply (Hab fd []); by left|].
  eapply adds_bind_known; [refine (adds_call see (Connect fd _ _) (fun rc os => os = if rc <? 0 then [] else [Joined fd (snd info)]) _); done|].
  intros rc os ->. destruct (rc <? 0); [apply (Hab fd []); by left|]. apply adds_silent; [silent_go|]. intros [[rc' ifname] optlen].
  destruct (rc' <? 0); [apply (Hab fd [Joined fd (snd info)]); right; by eexists|].
  destruct (name_of ifname optlen) as [iface|]; [apply adds_ret; by exists (snd info)|].
  eapply adds_bind_known; [refine (adds_call see (CloseFd fd) (fun _ os => os = [Closed fd]) _); done|]. intros u os ->. apply adds_ret.
  right. exists fd, [Joined fd (snd info)]. split; [done|]. right. by eexists.
Qed.
End Utun.

(** * The start of [main] *)

Definition ADMIN : str := #"admin".

Definition set_socket_permissions : K unit :=
  ask (Chmod SOCK_PATH 432) ;;                                    (* 0o660 *)
  grp <- ask (GetGroup ADMIN) ;;
  match grp with
  | Some gr_gid => ask (Chown SOCK_PATH 4294967295 gr_gid) ;; ret tt
  | None => ret tt
  end.

(** The listener, or the code of the exit. *)
Definition start_main : K (result Z Z) :=
  uid <- ask GetUid ;;
  if negb (uid =? 0) then ask (Eprint (#"pelagos-pfctl: must run as root (uid 0)" ++ [NL])) ;; ret (Err 1)
  else
    ask (RemoveFile SOCK_PATH) ;;
    listener <- ask (BindUnix SOCK_PATH) ;;
    match listener with
    | Err e => ask (Eprint (#"pelagos-pfctl: bind " ++ SOCK_PATH ++ #": " ++ e ++ [NL])) ;; ret (Err 1)
    | Ok l => set_socket_permissions ;; ret (Ok l)
    end.

(** The macros [_IOWR] and [_IOW] of the system's headers. *)
Definition ioc (dir group num len : Z) : Z := Z.lor dir (Z.lor (Z.shiftl (Z.land len 8191) 16) (Z.lor (Z.shiftl group 8) num)).

(** The numbers written out are those of the macros that the comments name, and the structures have the sizes
    that they and [sc_len] say. *)
Theorem kernel_constants : CTLIOCGINFO = ioc 3221225472 78 3 (4 + Z.of_nat MAX_KCTL_NAME) /\ BIOCSETIF = ioc 2147483648 66 108 32 /\
  (length UTUN_CONTROL_NAME <= MAX_KCTL_NAME)%nat /\
  (forall a, length (sc_reserved a) = 5%nat -> Z.of_nat (length (sockaddr_bytes a)) = SOCKADDR_CTL_SIZE).
Proof.
  split; [reflexivity|]. split; [reflexivity|]. split; [apply Nat.leb_le; vm_compute; reflexivity|]. intros a Ha. unfold sockaddr_bytes.
  destruct (sc_reserved a) as [|? [|? [|? [|? [|? [|? ?]]]]]]; try discriminate. reflexivity.
Qed.

(** The group has no entry: only root can use the socket. *)
Example no_admin_group :
  let env : Env ev reply := fun h e => match e return reply e with
    | Socket _ _ _ | Connect _ _ _ | GetUid | Chmod _ _ | Chown _ _ _ => 0 | GetInfo _ _ _ => (0, 7)
    | GetSockOpt _ _ _ _ => (0, map byte_of #"utun5" ++ replicate 11 0, 6) | LastError => [] | BindUnix _ => Ok 3 | GetGroup _ => None
    | CloseFd _ | RemoveFile _ | Eprint _ => tt end in
  fst (start_main env tt []) = Ok 3 /\ fst (create_utun_privileged (map of_byte) env tt []) = Some (Ok (0, #"utun5")).
Proof. vm_compute. auto. Qed.
