(* ===== verification/RelayStart.v ===== *)
(** The start of the network relays: [start], its handle and the client of the privileged helper in
    [pelagos-vz/src/tun_relay.rs], and [connect] of [pelagos-vz/src/socket_vmnet.rs]; with the helper itself
    ([Pfctl]) at the other end of the requests. *)

From S2P Require Import Prelude RustStd TunRelay Pfctl.

#[local] Open Scope Z_scope.

(** * Calls to the outside *)

(** The control part of a received message: none, one of another kind, or a descriptor. *)
Inductive rights : Type := NoControl | OtherControl | Rights (fd : Z).

Inductive ev : Type :=
(** sockets and descriptors *)
| Exists (path : str) | StreamSocket | ConnectFd (fd : Z) (path : str)
| Socketpair | SetBufs (fd : Z) (snd rcv : Z) | Dup (fd : Z) | CloseFd (fd : Z) | SetNonblocking (fd : Z)
(** threads: the descriptors they take *)
| SpawnTunRelay (relay_fd utun_fd : Z) (iface : str) (gateway_ip4 : list Z) (gua_prefix : option (list Z))
| SpawnVmnetToAvf (vmnet_fd relay_fd : Z) | SpawnAvfToVmnet (relay_fd vmnet_fd : Z)
(** a connection to the helper; its standard tools *)
| Connect | WriteLine (line : str) | ReadLine | RecvMsg
| RouteGetDefault | Ifconfig (iface : str).

Definition reply (e : ev) : Type :=
  match e with
  | Exists _ => bool
  | StreamSocket => result Z str
  | Socketpair => result (Z * Z) str
  | ConnectFd _ _ | Connect | WriteLine _ => result unit str
  | ReadLine => result str str
  | RecvMsg => result (str * rights) str
  | Dup _ => Z
  | RouteGetDefault | Ifconfig _ => option str
  | SetBufs _ _ _ | CloseFd _ | SetNonblocking _ | SpawnTunRelay _ _ _ _ _ | SpawnVmnetToAvf _ _ | SpawnAvfToVmnet _ _ => unit
  end.

Abbreviation ask e := (call (R := reply) (S := unit) e).
Definition IO (A : Type) : Type := Sys ev reply unit (result A str).

Section Client.
(** The JSON codec (serde) of the requests and of the responses: [ok], [error] and [iface]; [from_utf8]. *)
Context (request_json : Request -> str) (response_of_json : str -> result (bool * option str * option str) str).
Context (from_utf8 : str -> option str).

(** * The client of the helper *)

Definition pfctl_send (json : str) : IO unit :=
  ask Connect ;;?
  ask (WriteLine (json ++ [NL])) ;;?
  resp <-? ask ReadLine ;;
  match response_of_json (trim resp) with
  | Err e => ret (Err (#"pfctl parse: " ++ e))
  | Ok (ok, error, _) => if (ok : bool) then ret (Ok tt) else ret (Err (#"pfctl: " ++ default [] error))
  end.

Definition setup_request (iface egress : str) (subnet : VmSubnet) : Request :=
  SetupUtun iface (show_ipv4 (host_ip4 subnet)) (show_ipv4 (guest_ip4 subnet)) (cidr subnet) egress.
Definition pfctl_setup_utun (iface egress : str) (subnet : VmSubnet) : IO unit :=
  pfctl_send (request_json (setup_request iface egress subnet)).
Definition pfctl_teardown_utun (iface : str) : IO unit := pfctl_send (request_json (TeardownUtun iface)).
Definition pfctl_assign_utun_alias (iface addr : str) : IO unit := pfctl_send (request_json (AssignUtunAlias iface addr)).

Definition CREATE_UTUN : str := #"{" ++ [DQ] ++ #"action" ++ [DQ] ++ #":" ++ [DQ] ++ #"create_utun" ++ [DQ] ++ #"}" ++ [NL].

(** Trimming of line breaks and spaces only. *)
Definition is_edge (c : ascii) : bool := bool_decide (c = NL) || bool_decide (c = CR) || bool_decide (c = " "%char).
Fixpoint drop_edges (s : str) : str := match s with [] => [] | c :: s' => if is_edge c then drop_edges s' else s end.
Definition trim_edges (s : str) : str := rev (drop_edges (rev (drop_edges s))).

Definition pfctl_create_utun : IO (Z * str) :=
  ask Connect ;;?
  ask (WriteLine CREATE_UTUN) ;;?
  msg <-? ask RecvMsg ;;
  let '(json_buf, control) := msg in
  match from_utf8 (take 256 json_buf) with
  | None => ret (Err #"pfctl: invalid UTF-8 in create_utun response")
  | Some json_str =>
      match response_of_json (trim_edges json_str) with
      | Err e => ret (Err (#"pfctl parse: " ++ e))
      | Ok (ok, error, iface) =>
          if negb ok then ret (Err (#"pfctl create_utun: " ++ default [] error)) else
          match iface with
          | None => ret (Err #"pfctl: create_utun response missing iface")
          | Some iface =>
              match control with
              | NoControl => ret (Err #"pfctl: no SCM_RIGHTS fd in create_utun response")
              | OtherControl => ret (Err #"pfctl: unexpected cmsg in create_utun response")
              | Rights fd => ret (Ok (fd, iface))
              end
          end
      end
  end.

(** * The utun relay *)

Record TunRelayHandle := mkHandle { h_utun : Z; h_iface : str }.

Definition create_socketpair : IO (Z * Z) := ask Socketpair.

(** [start]; the descriptor of the interface is owned and closed when an error leaves the function. *)
Definition start (subnet : VmSubnet) : IO (Z * TunRelayHandle) :=
  sp <-? create_socketpair ;;
  let '(avf_fd, relay_fd) := sp in
  ask (SetBufs avf_fd 131072 524288) ;;
  ask (SetBufs relay_fd 131072 524288) ;;
  utun <-? pfctl_create_utun ;;
  let '(utun_fd, iface) := utun in
  route <- ask RouteGetDefault ;;
  match detect_egress_iface route with
  | None => ask (CloseFd utun_fd) ;; ret (Err #"could not detect default route interface")
  | Some egress =>
      r <- pfctl_setup_utun iface egress subnet ;;
      match r with
      | Err e => ask (CloseFd utun_fd) ;; ret (Err e)
      | Ok _ =>
          out <- ask (Ifconfig egress) ;;
          let gua_prefix := detect_host_gua_prefix out in
          ask (SetNonblocking relay_fd) ;;
          ask (SetNonblocking utun_fd) ;;
          ask (SpawnTunRelay relay_fd utun_fd iface (host_ip4 subnet) gua_prefix) ;;
          ret (Ok (avf_fd, mkHandle utun_fd iface))
      end
  end.

Definition add_rdr (p : str) (hp : Z) (ip : str) (vp : Z) : IO unit := pfctl_send (request_json (AddRdr p hp ip vp)).
Definition remove_rdr (p : str) (hp : Z) : IO unit := pfctl_send (request_json (RemoveRdr p hp)).

(** Dropping the handle: the teardown is asked for, whatever comes of it, then the interface is closed. *)
Definition drop_handle (h : TunRelayHandle) : Sys ev reply unit unit :=
  pfctl_teardown_utun (h_iface h) ;; ask (CloseFd (h_utun h)).

(** * The vmnet relay *)

Definition CANDIDATE_PATHS : list str :=
  [ #"/opt/homebrew/var/run/socket_vmnet"; #"/opt/homebrew/var/run/socket_vmnet.shared"; #"/usr/local/var/run/socket_vmnet";
    #"/usr/local/var/run/socket_vmnet.shared"; #"/var/run/socket_vmnet"; #"/var/run/socket_vmnet.shared"].

Fixpoint first_existing (paths : list str) : Sys ev reply unit (option str) :=
  match paths with
  | [] => ret None
  | p :: paths => b <- ask (Exists p) ;; if (b : bool) then ret (Some p) else first_existing paths
  end.
Definition find_socket_path : Sys ev reply unit (option str) := first_existing CANDIDATE_PATHS.

(** The path is cut to what [sun_path] holds. *)
Definition connect_unix_stream (path : str) : IO Z :=
  fd <-? ask StreamSocket ;;
  r <- ask (ConnectFd fd (take 103 path)) ;;
  match r with
  | Err e => ask (CloseFd fd) ;; ret (Err (#"socket_vmnet connect(" ++ path ++ #"): " ++ e))
  | Ok _ => ret (Ok fd)
  end.

Definition connect : IO Z :=
  p <- find_socket_path ;;
  match p with
  | None => ret (Err #"socket_vmnet socket not found.")
  | Some path =>
      vmnet_fd <-? connect_unix_stream path ;;
      sp <-? create_socketpair ;;
      let '(avf_fd, relay_fd) := sp in
      ask (SetBufs avf_fd 131072 524288) ;;
      ask (SetBufs relay_fd 131072 524288) ;;
      vmnet_read_fd <- ask (Dup vmnet_fd) ;;
      relay_write_fd <- ask (Dup relay_fd) ;;
      if (vmnet_read_fd <? 0) || (relay_write_fd <? 0) then ret (Err #"dup") else
      ask (SpawnVmnetToAvf vmnet_read_fd relay_write_fd) ;;
      ask (SpawnAvfToVmnet relay_fd vmnet_fd) ;;
      ret (Ok avf_fd)
  end.

(** * What is seen *)

Inductive op : Type :=
| Pair (a b : Z) | Requested (line : str) | Received (fd : Z) | Closed (fd : Z)
| Spawned (relay_fd utun_fd : Z) (iface : str) (gateway : list Z) (prefix : option (list Z)).

Definition see (e : ev) : reply e -> list op :=
  match e return reply e -> list op with
  | Socketpair => fun r => match (r : result (Z * Z) str) with Ok (a, b) => [Pair a b] | Err _ => [] end
  | WriteLine l => fun _ => [Requested l]
  | RecvMsg => fun r => match (r : result (str * rights) str) with Ok (_, Rights fd) => [Received fd] | _ => [] end
  | CloseFd fd => fun _ => [Closed fd]
  | SpawnTunRelay a b i g p => fun _ => [Spawned a b i g p]
  | _ => fun _ => []
  end.

Definition line_of (r : Request) : str := request_json r ++ [NL].

(** The starts of a relay: complete, or given up at some point. *)
Inductive started (subnet : VmSubnet) : result (Z * TunRelayHandle) str -> list op -> Prop :=
| No_pair e : started subnet (Err e) []
| No_helper e a b : started subnet (Err e) [Pair a b]
| No_utun e a b got : got = [] \/ (exists fd, got = [Received fd]) -> started subnet (Err e) ([Pair a b; Requested CREATE_UTUN] ++ got)
| No_route e a b fd : started subnet (Err e) [Pair a b; Requested CREATE_UTUN; Received fd; Closed fd]
| No_setup e a b fd iface egress asked : asked = [] \/ asked = [Requested (line_of (setup_request iface egress subnet))] ->
    started subnet (Err e) ([Pair a b; Requested CREATE_UTUN; Received fd] ++ asked ++ [Closed fd])
| Complete a b fd iface egress prefix :
    started subnet (Ok (a, mkHandle fd iface)) [Pair a b; Requested CREATE_UTUN; Received fd;
      Requested (line_of (setup_request iface egress subnet)); Spawned b fd iface (host_ip4 subnet) prefix].

(** * Lemmas *)

Lemma pfctl_send_adds req : adds see (pfctl_send (request_json req)) (fun r os =>
  os = [Requested (line_of req)] \/ os = [] /\ is_ok r = false).
Proof.
  unfold pfctl_send. eapply adds_bind_known; [refine (adds_call see Connect (fun _ os => os = []) _); done|].
  intros [[]|e] os ->; [|apply adds_ret; by right].
  eapply adds_bind_known; [refine (adds_call see (WriteLine _) (fun _ os => os = [Requested (line_of req)]) _); done|].
  intros [[]|e] os ->; [|apply adds_ret; by left].
  eapply adds_bind_known; [refine (adds_call see ReadLine (fun _ os => os = []) _); done|].
  intros [resp|e] os ->; [|apply adds_ret; by left].
  destruct (response_of_json (trim resp)) as [[[ok error] i]|e]; [destruct ok|]; apply adds_ret; by left.
Qed.

Lemma create_utun_adds : adds see pfctl_create_utun (fun r os =>
  match r with
  | Ok (fd, _) => os = [Requested CREATE_UTUN; Received fd]
  | Err _ => os = [] \/ exists got, os = Requested CREATE_UTUN :: got /\ (got = [] \/ exists fd, got = [Received fd])
  end).
Proof.
  unfold pfctl_create_utun. eapply adds_bind_known; [refine (adds_call see Connect (fun _ os => os = []) _); done|].
  intros [[]|e] os ->; [|apply adds_ret; by left].
  eapply adds_bind_known; [refine (adds_call see (WriteLine _) (fun _ os => os = [Requested CREATE_UTUN]) _); done|].
  intros [[]|e] os ->; [|apply adds_ret; right; by exists []; auto].
  eapply adds_bind_known; [refine (adds_call see RecvMsg (fun r os => os = see RecvMsg r) _); done|].
  intros [[buf control]|e] os ->; [|apply adds_ret; right; by exists []; auto].
  assert (Hgot : see RecvMsg (Ok (buf, control)) = [] \/ exists fd, see RecvMsg (Ok (buf, control)) = [Received fd])
    by (destruct control; cbn; eauto).
  assert (Herr : forall e : str, adds see (ret (S := unit) (Err e)) (fun (r : result (Z * str) str) os =>
    match r with
    | Ok (fd, _) => ([] ++ [Requested CREATE_UTUN] ++ see RecvMsg (Ok (buf, control)) ++ os) = [Requested CREATE_UTUN; Received fd]
    | Err _ => ([] ++ [Requested CREATE_UTUN] ++ see RecvMsg (Ok (buf, control)) ++ os) = [] \/
        exists got, ([] ++ [Requested CREATE_UTUN] ++ see RecvMsg (Ok (buf, control)) ++ os) = Requested CREATE_UTUN :: got /\ (got = [] \/ exists fd, got = [Received fd])
    end)).
  { intros e. apply adds_ret. right. exists (see RecvMsg (Ok (buf, control))). by rewrite app_nil_r. }
  destruct (from_utf8 _) as [json_str|]; [|apply Herr].
  destruct (response_of_json _) as [[[ok error] iface]|e]; [|apply Herr].
  destruct ok; cbn [negb]; [|apply Herr]. destruct iface as [iface|]; [|apply Herr].
  destruct control as [| |fd]; [apply Herr..|]. by apply adds_ret.
Qed.

Lemma relay_start_adds subnet : adds see (start subnet) (started subnet).
Proof.
  unfold start, create_socketpair.
  eapply adds_bind_known; [refine (adds_call see Socketpair (fun r os => os = see Socketpair r) _); done|].
  intros [[a b]|e] os ->; [|apply adds_ret; constructor]. cbn [see].
  apply adds_silent; [silent_go|]. intros u1. apply adds_silent; [silent_go|]. intros u2.
  eapply adds_bind_known; [apply create_utun_adds|]. intros [[fd iface]|e] os Hos.
  2: { apply adds_ret. rewrite app_nil_r. destruct Hos as [-> |(got & -> & Hg)]; [apply No_helper|by apply (No_utun subnet e a b got)]. }
  subst os. apply adds_silent; [silent_go|]. intros route. destruct (detect_egress_iface route) as [egress|].
  2: { eapply adds_bind_known; [refine (adds_call see (CloseFd fd) (fun _ os => os = [Closed fd]) _); done|].
       intros u os ->. apply adds_ret. apply No_route. }
  eapply adds_bind_known; [apply pfctl_send_adds|]. intros [[]|e] os Hos.
  - destruct Hos as [-> |[_ [=]]]. apply adds_silent; [silent_go|]. intros out. apply adds_silent; [silent_go|]. intros u3.
    apply adds_silent; [silent_go|]. intros u4.
    eapply adds_bind_known; [refine (adds_call see (SpawnTunRelay _ _ _ _ _) (fun _ os => os = [Spawned b fd iface (host_ip4 subnet) _]) _); done|].
    intros u5 os ->. apply adds_ret. apply (Complete subnet a b fd iface egress).
  - eapply adds_bind_known; [refine (adds_call see (CloseFd fd) (fun _ os => os = [Closed fd]) _); done|].
    intros u os2 ->. apply adds_ret. rewrite app_nil_r. apply (No_setup subnet e a b fd iface egress os). destruct Hos as [-> |[-> _]]; auto.
Qed.

(** What dropping a handle asks for and closes. *)
Lemma drop_handle_adds h : adds see (drop_handle h) (fun _ os =>
  os = [Requested (line_of (TeardownUtun (h_iface h))); Closed (h_utun h)] \/ os = [Closed (h_utun h)]).
Proof.
  unfold drop_handle. eapply adds_bind_known; [apply pfctl_send_adds|]. intros r os Hos.
  refine (adds_call see (CloseFd (h_utun h)) (fun _ os' => _) _). intros u. cbn [see].
  destruct Hos as [-> |[-> _]]; [by left|by right].
Qed.
End Client.

(** * The helper at the other end *)

(** A request of the relay on the interface [iface]. *)
Definition from_relay (iface : str) (r : Request) : Prop :=
  match r with
  | SetupUtun i _ _ _ _ | TeardownUtun i | AssignUtunAlias i _ => i = iface
  | AddRdr _ _ _ _ | RemoveRdr _ _ | CreateUtun => True
  end.

Section Helper.
Context (values : gmap str UtunSetup -> list UtunSetup) (is_alphanumeric : Z -> bool) (debug : str -> str).
#[local] Abbreviation handle := (handle_request values is_alphanumeric debug).

(** The helper serves requests one after the other. *)
Definition serve_all (reqs : list Request) : M unit := for_each reqs (fun r => handle r ;; Prelude.ret tt).

(** The other relays with their aliases are as in [st]. *)
Definition others_as (iface : str) (st s : DaemonState) : Prop :=
  delete iface (active_utuns s) = delete iface (active_utuns st) /\
  filter (fun a => a.1 <> iface) (ipv6_aliases s) = filter (fun a => a.1 <> iface) (ipv6_aliases st).

#[local] Hint Resolve steady_tool steady_route steady_pfctl steady_ifconfig steady_sysctl steady_flush steady_reload steady_open_bpf steady_send steady_announce steady_drop : sys_db.

#[local] Abbreviation keeps_others i st := (keeps (fun (_ : Env Pfctl.ev Pfctl.reply) s (_ : list Pfctl.ev) => others_as i st s)).

Lemma keeps_others_steady {A} i st (m : M A) : steady m -> keeps_others i st m.
Proof. intros Hm. by apply (steady_keeps (others_as i st)). Qed.

Lemma keeps_others_rdr i st f : keeps_others i st (mod_rdr f).
Proof. apply keeps_modify. done. Qed.

Lemma keeps_others_setup i st a p c e : keeps_others i st (handle_setup_utun values is_alphanumeric i a p c e).
Proof.
  unfold handle_setup_utun. keeps_go; try (apply keeps_others_steady; solve [steady_go]).
  apply keeps_modify. intros env s h [Hu Ha]. split; [|done]. cbn. by rewrite delete_insert_eq.
Qed.

Lemma torn_down_others i st s : others_as i st s -> others_as i st (torn_down i s).
Proof.
  intros [Hu Ha]. split; cbn; [by rewrite delete_delete_eq|]. rewrite <- Ha. rewrite list_filter_filter.
  apply list_filter_iff. naive_solver.
Qed.

Lemma keeps_others_alias i st a : keeps_others i st (handle_assign_utun_alias is_alphanumeric debug i a).
Proof.
  unfold handle_assign_utun_alias. keeps_go; try (apply keeps_others_steady; solve [steady_go]).
  apply keeps_modify. intros env s h [Hu Ha]. split; [done|]. cbn. rewrite filter_app, filter_cons_False by (cbn; naive_solver).
  by rewrite filter_nil, app_nil_r.
Qed.

Lemma keeps_others_handle i st r : from_relay i r -> keeps_others i st (handle r).
Proof.
  destruct r as [iface a p c e|iface|p hp ip vp|p hp| |iface a]; cbn [from_relay handle_request]; intros Hr; subst.
  - apply keeps_others_setup.
  - intros env s h H. rewrite (teardown_goes values debug (fun _ => Err [])). by apply torn_down_others.
  - unfold handle_add_rdr. keeps_go; try (apply keeps_others_steady; solve [steady_go]); apply keeps_others_rdr.
  - unfold handle_remove_rdr. keeps_go; try (apply keeps_others_steady; solve [steady_go]); apply keeps_others_rdr.
  - apply keeps_ret.
  - apply keeps_others_alias.
Qed.

Lemma serve_all_others i st reqs : Forall (from_relay i) reqs -> keeps_others i st (serve_all reqs).
Proof.
  intros Hr. unfold serve_all. induction Hr as [|r reqs Hr _ IH]; cbn [for_each]; [apply keeps_ret|].
  apply keeps_bind; [apply keeps_bind; [by apply keeps_others_handle|intros ?; apply keeps_ret]|]. intros _. exact IH.
Qed.
Lemma serve_all_app reqs reqs' env s h : serve_all (reqs ++ reqs') env s h
  = serve_all reqs' env (fst (snd (serve_all reqs env s h))) (snd (snd (serve_all reqs env s h))).
Proof.
  revert s h. unfold serve_all. induction reqs as [|r reqs IH]; intros s h; [done|]. cbn [app for_each]. unfold bind.
  destruct (handle r env s h) as [x [s1 h1]]. cbn -[for_each]. apply IH.
Qed.

(** * Properties *)

(** A relay leaves no trace.  Whatever requests of one relay the helper served, in whatever order, with
    whatever success and whatever its tools did: once the teardown that the handle asks for when it is dropped
    has been served, the helper's state has exactly the other relays and their aliases that it had before, and no
    redirections if there are no others. *)
Theorem relay_traceless i reqs env st h : Forall (from_relay i) reqs ->
  let s := fst (snd (serve_all (reqs ++ [TeardownUtun i]) env st h)) in
  active_utuns s = delete i (active_utuns st) /\
  ipv6_aliases s = filter (fun a => a.1 <> i) (ipv6_aliases st) /\
  (active_utuns s = ∅ -> rdr_rules s = []).
Proof.
  intros Hr. cbv zeta. rewrite serve_all_app.
  pose proof (serve_all_others i st reqs Hr env st h (conj eq_refl eq_refl)) as [Hu Ha].
  destruct (serve_all reqs env st h) as [x [s1 h1]]. cbn [fst snd] in *. unfold serve_all. cbn [for_each].
  unfold bind. pose proof (teardown_goes values debug (fun _ => Err []) i s1 env h1) as Ht. cbn [handle_request].
  destruct (handle_teardown_utun values i env s1 h1) as [y [s2 h2]]. cbn in *. subst s2. cbn.
  rewrite Hu, Ha. do 2 (split; [done|]). intros ->. by rewrite bool_decide_eq_true_2.
Qed.
End Helper.

(** The start of a relay.  Whatever the helper, the tools and the system do, [start] goes through its
    steps in order: the pair of sockets, the request for the interface, its descriptor, the request that sets it
    up for the machine's subnet, and only then the relay's thread, with that descriptor and the subnet's
    gateway address; when it fails later than that it has closed the interface, and no thread runs. *)
Theorem relay_start_effect request_json response_of_json from_utf8 subnet env h :
  exists os, seen see env (snd (snd (start request_json response_of_json from_utf8 subnet env tt h))) = seen see env h ++ os /\
    started request_json subnet (fst (start request_json response_of_json from_utf8 subnet env tt h)) os.
Proof. exact (relay_start_adds request_json response_of_json from_utf8 subnet env tt h). Qed.

(** ** A concrete helper *)

(** Tools that succeed, but the anchor cannot be written. *)
Definition full_disk : Env Pfctl.ev Pfctl.reply := fun h e =>
  match e return Pfctl.reply e with
  | Exec _ _ => Ok (mkOut true [] [])
  | WriteFile _ _ => Err #"no space"
  | BindBpf _ _ | WriteFd _ _ => Ok tt
  | OpenDev _ => None
  | Pfctl.ReadLine | KernelUtun => Err []
  | Pfctl.CloseFd _ | SendFd _ | Reply _ => tt
  end.

Definition demo_setup : Request := SetupUtun #"utun4" #"192.168.105.1" #"192.168.105.2" #"192.168.105.0/24" #"en0".
Definition demo_requests : list Request := [CreateUtun; demo_setup; AddRdr #"tcp" 80 #"192.168.105.2" 80].

Lemma relay_traceless_witness : Forall (from_relay #"utun4") demo_requests /\
  let s := fst (snd (serve_all values_of ascii_alnum (fun s => s) (demo_requests ++ [TeardownUtun #"utun4"]) full_disk new_state [])) in
  active_utuns s = delete #"utun4" (active_utuns new_state) /\
  ipv6_aliases s = filter (fun a => a.1 <> #"utun4") (ipv6_aliases new_state) /\
  (active_utuns s = ∅ -> rdr_rules s = []).
Proof.
  assert (Hr : Forall (from_relay #"utun4") demo_requests) by (repeat constructor).
  split; [exact Hr|].
  exact (relay_traceless values_of ascii_alnum (fun s => s) #"utun4" demo_requests full_disk new_state [] Hr).
Defined.

(** A setup that is answered with an error leaves the relay in the helper's state; [start] then gives up without a
    teardown, so it stays there. *)
Example failed_setup_stays :
  let r := handle_request values_of ascii_alnum (fun s => s) demo_setup full_disk new_state [] in
  ok (fst r) = false /\ is_Some (active_utuns (fst (snd r)) !! #"utun4").
Proof. split; [vm_compute; reflexivity|]. vm_compute. by eexists. Qed.
