(* ===== verification/ConsoleRing.v ===== *)
(** The serial console ([ConsoleRingBuffer], [console_relay_loop] and [proxy_console] of
    [pelagos-mac/src/daemon.rs]): a circular buffer of recent output, the loop that drains the
    console while nobody is connected and replays the buffer to each client, and the two-way copy of
    a session. *)

From S2P Require Import Prelude.

(** * The ring buffer *)

Record ring := mkRing { buf : list Z; head : nat; len : nat }.

Definition new (capacity : nat) : ring := mkRing (replicate capacity 0%Z) 0 0.

(** One round of the loop of [push_slice]. *)
Definition push_byte (r : ring) (b : Z) : ring :=
  let cap := length (buf r) in
  let tail := (head r + len r) mod cap in
  let buf' := <[tail := b]> (buf r) in
  if len r <? cap then mkRing buf' (head r) (S (len r))
  else mkRing buf' ((head r + 1) mod cap) (len r).

Definition push_slice (r : ring) (data : list Z) : ring :=
  let cap := length (buf r) in
  let data := if cap <? length data then drop (length data - cap) data else data in
  fold_left push_byte data r.

(** The writes of [replay_to_fd], in order. *)
Definition replay_to_fd (r : ring) : list (list Z) :=
  if len r =? 0 then []
  else
    let cap := length (buf r) in
    let first_end := head r + len r in
    if first_end <=? cap then [slice (head r) first_end (buf r)]
    else
      let first_len := cap - head r in
      let second_len := len r - first_len in
      [drop (head r) (buf r); slice 0 second_len (buf r)].

(** The bytes stored, oldest first. *)
Definition contents (r : ring) : list Z :=
  map (fun i => nth ((head r + i) mod length (buf r)) (buf r) 0%Z) (seq 0 (len r)).

(** * The console loop *)

(** The bits of [revents] the loops look at. *)
Record revents := mkRevents { pollin : bool; hup_or_err : bool }.

Inductive poll_result : Type :=
| PollFailed (interrupted : bool)
| Polled (first second : revents).

(** [PollMain] waits for a client or console output, [PollSession] for either end of a session. *)
Inductive ev : Type :=
| PollMain
| PollSession
| Accept
| DupRelay
| Drain
| ReadClient
| ReadRelay
| WriteClient (d : list Z)
| WriteRelay (d : list Z).

(** Replies: whether accepting, duplicating and writing worked; what a read returned ([None]: -1). *)
Definition reply (e : ev) : Type :=
  match e with
  | PollMain | PollSession => poll_result
  | Accept | DupRelay | WriteClient _ => bool
  | WriteRelay _ => unit
  | Drain | ReadClient | ReadRelay => option (list Z)
  end.

(** The state is the ring buffer. *)
Definition M (A : Type) : Type := Sys ev reply ring A.

(** One round of [proxy_console]: whether the session goes on. *)
Definition proxy_round : M bool :=
  p <- call PollSession ;;
  match (p : poll_result) with
  | PollFailed _ => ret false
  | Polled client relay =>
      go <- (if pollin client then
               d <- call ReadClient ;;
               match (d : option (list Z)) with
               | None | Some [] => ret false
               | Some d => call (WriteRelay d) ;; ret true
               end
             else ret true) ;;
      if negb go then ret false else
      if hup_or_err client then ret false else
      go <- (if pollin relay then
               d <- call ReadRelay ;;
               match (d : option (list Z)) with
               | None | Some [] => ret false
               | Some d => call (WriteClient d)
               end
             else ret true) ;;
      if negb go then ret false else ret (negb (hup_or_err relay))
  end.

Fixpoint proxy_rounds (fuel : nat) : M unit :=
  match fuel with
  | O => ret tt
  | S fuel =>
      go <- proxy_round ;;
      if (go : bool) then proxy_rounds fuel else ret tt
  end.

(** [proxy_console], cut off after [fuel] rounds. *)
Definition proxy_console (fuel : nat) : M unit :=
  dup <- call DupRelay ;;
  if (dup : bool) then proxy_rounds fuel else ret tt.

(** Console output with no client connected goes into the ring. *)
Definition drain_console : M unit :=
  d <- call Drain ;;
  match (d : option (list Z)) with
  | Some d => modify (fun r => push_slice r d)
  | None => ret tt
  end.

(** One round of [console_relay_loop]: whether it goes on. *)
Definition console_round (fuel : nat) : M bool :=
  p <- call PollMain ;;
  match (p : poll_result) with
  | PollFailed interrupted => ret interrupted
  | Polled listener relay =>
      if pollin listener then
        accepted <- call Accept ;;
        (if (accepted : bool) then
           r <- get_st ;;
           for_each (replay_to_fd r) (fun d => call (WriteClient d) ;; ret tt) ;;
           proxy_console fuel
         else ret tt) ;;
        ret true
      else
        (if pollin relay then drain_console else ret tt) ;;
        ret true
  end.

(** [console_relay_loop], cut off after [n] rounds. *)
Fixpoint console_relay_loop (n fuel : nat) : M unit :=
  match n with
  | O => ret tt
  | S n =>
      go <- console_round fuel ;;
      if (go : bool) then console_relay_loop n fuel else ret tt
  end.

(** The buffer of the program has 256 KiB; what is proved holds for every capacity. *)
Definition CONSOLE_CAPACITY : nat := 256 * 1024.

(** * Specification *)

(** The last [n] elements. *)
Definition lastn {A} (n : nat) (l : list A) : list A := drop (length l - n) l.

Definition wf (r : ring) : Prop :=
  len r <= length (buf r) /\ (head r < length (buf r) \/ length (buf r) = 0).

(** The console output drained in a run, oldest first. *)
Fixpoint drained (env : Env ev reply) (h : list ev) : list Z :=
  match h with
  | [] => []
  | e :: h =>
      drained env h
      ++ match e as e return reply e -> list Z with
         | Drain => fun d => match d with Some d => d | None => [] end
         | _ => fun _ => []
         end (env h e)
  end.

(** * Lemmas *)

Lemma length_lastn {A} n (l : list A) : length (lastn n l) = Nat.min n (length l).
Proof. unfold lastn. rewrite length_drop. lia. Qed.

Lemma lastn_all {A} n (l : list A) : length l <= n -> lastn n l = l.
Proof. intros. unfold lastn. by replace (length l - n) with 0 by lia. Qed.

Lemma lastn_app_r {A} n (l k : list A) : n <= length k -> lastn n (l ++ k) = lastn n k.
Proof.
  intros. unfold lastn. rewrite length_app, drop_app_ge by lia. f_equal. lia.
Qed.

(** Truncating early does not change what is kept. *)
Lemma lastn_lastn_app {A} n (l k : list A) : lastn n (lastn n l ++ k) = lastn n (l ++ k).
Proof.
  destruct (decide (n <= length k)); [by rewrite !lastn_app_r|].
  unfold lastn at 1 3. rewrite !length_app, length_lastn, !drop_app_le by (rewrite ?length_lastn; lia).
  f_equal. unfold lastn. rewrite drop_drop. f_equal. lia.
Qed.

Lemma length_contents r : length (contents r) = len r.
Proof. unfold contents. by rewrite length_map, length_seq. Qed.

Lemma length_buf_push r b : length (buf (push_byte r b)) = length (buf r).
Proof. unfold push_byte. case_goal; cbn; by rewrite length_insert. Qed.

(** Two indices less than the capacity apart address different cells. *)
Lemma mod_apart cap a i j : i < j -> j < i + cap -> (a + i) mod cap <> (a + j) mod cap.
Proof.
  intros. pose proof (Nat.div_mod (a + i) cap). pose proof (Nat.div_mod (a + j) cap).
  pose proof (Nat.mod_upper_bound (a + i) cap). pose proof (Nat.mod_upper_bound (a + j) cap).
  intros Heq. assert (cap * ((a + j) / cap - (a + i) / cap) = j - i) by nia.
  destruct ((a + j) / cap - (a + i) / cap); nia.
Qed.

Lemma nth_insert_eq (l : list Z) i x : i < length l -> nth i (<[i := x]> l) 0%Z = x.
Proof. intros. apply nth_lookup_Some. by apply list_lookup_insert_eq. Qed.

Lemma nth_insert_ne (l : list Z) i j x : i <> j -> nth j (<[i := x]> l) 0%Z = nth j l 0%Z.
Proof. intros. rewrite !nth_lookup. by rewrite list_lookup_insert_ne. Qed.

Lemma push_byte_wf r b : wf r -> 0 < length (buf r) -> wf (push_byte r b).
Proof.
  intros [Hl [Hh|?]] Hc; [|lia]. unfold wf. rewrite length_buf_push. unfold push_byte.
  pose proof (Nat.mod_upper_bound (head r + 1) (length (buf r))).
  case_goal; bool_arith; cbn [len head]; lia.
Qed.

(** Pushing a byte keeps the last bytes. *)
Lemma contents_push r b :
  wf r -> 0 < length (buf r) -> contents (push_byte r b) = lastn (length (buf r)) (contents r ++ [b]).
Proof.
  intros [Hl [Hh|?]] Hc; [|lia]. unfold contents at 1. rewrite length_buf_push. unfold push_byte.
  set (cap := length (buf r)) in *. set (tail := (head r + len r) mod cap).
  assert (Ht : tail < length (buf r)) by (apply Nat.mod_upper_bound; lia).
  destruct (len r <? cap) eqn:E; bool_arith; cbn [len head buf].
  - rewrite lastn_all by (rewrite length_app, length_contents; cbn; lia).
    rewrite seq_S, map_app. cbn [map Nat.add]. f_equal; [|f_equal; by apply nth_insert_eq].
    apply map_ext_in. intros i Hi%in_seq. apply nth_insert_ne. unfold tail.
    intros Heq. symmetry in Heq. revert Heq. apply mod_apart; lia.
  - assert (len r = cap) as Hfull by lia. unfold lastn.
    rewrite length_app, length_contents, Hfull. cbn [length].
    replace (cap + 1 - cap) with 1 by lia.
    apply (list_eq_same_length _ _ cap).
    + rewrite length_drop, length_app, length_contents, Hfull. cbn. lia.
    + by rewrite length_map, length_seq.
    + intros i x y Hi Hx Hy. rewrite lookup_drop in Hy.
      rewrite list_lookup_fmap, lookup_seq_lt in Hx by lia. cbn in Hx. injection Hx as <-.
      rewrite Nat.Div0.add_mod_idemp_l.
      destruct (decide (i = cap - 1)) as [->|].
      * rewrite lookup_app_r in Hy by (rewrite length_contents; lia).
        rewrite length_contents, Hfull in Hy. replace (1 + (cap - 1) - cap) with 0 in Hy by lia.
        injection Hy as <-. replace (head r + 1 + (cap - 1)) with (head r + len r) by lia.
        by apply nth_insert_eq.
      * rewrite lookup_app_l in Hy by (rewrite length_contents; lia). unfold contents in Hy.
        rewrite list_lookup_fmap, lookup_seq_lt in Hy by lia. cbn in Hy. injection Hy as <-.
        replace (head r + S i) with (head r + 1 + i) by lia. apply nth_insert_ne. unfold tail.
        fold cap. rewrite Hfull. intros Heq. symmetry in Heq. revert Heq.
        rewrite <- Nat.add_assoc. apply mod_apart; lia.
Qed.

Lemma push_bytes_spec data r :
  wf r -> 0 < length (buf r) ->
  let r' := fold_left push_byte data r in
  wf r' /\ length (buf r') = length (buf r) /\
  contents r' = lastn (length (buf r)) (contents r ++ data).
Proof.
  revert r. induction data as [|b data IH]; intros r Hw Hc r'; subst r'; cbn [fold_left].
  { rewrite app_nil_r, lastn_all by (rewrite length_contents; apply Hw). done. }
  pose proof (length_buf_push r b) as Hb.
  destruct (IH (push_byte r b)) as (H1 & H2 & H3); [by apply push_byte_wf | lia |].
  split; [done|]. split; [lia|]. rewrite H3, contents_push, Hb, lastn_lastn_app by done.
  by rewrite <- app_assoc.
Qed.

Lemma push_slice_spec r data :
  wf r ->
  wf (push_slice r data) /\ length (buf (push_slice r data)) = length (buf r) /\
  contents (push_slice r data) = lastn (length (buf r)) (contents r ++ data).
Proof.
  intros Hw. unfold push_slice. destruct (decide (length (buf r) = 0)) as [H0|].
  - assert ((if length (buf r) <? length data then drop (length data - length (buf r)) data else data) = []) as ->.
    { rewrite H0. destruct data; [done|]. cbn [length Nat.ltb Nat.leb]. rewrite Nat.sub_0_r. apply drop_all. }
    cbn [fold_left]. split; [done|]. split; [done|].
    destruct Hw as [Hl _]. assert (contents r = []) as ->.
    { apply length_zero_iff_nil. rewrite length_contents. lia. }
    rewrite H0. unfold lastn. by rewrite Nat.sub_0_r, drop_all.
  - case_goal; bool_arith; [|by apply push_bytes_spec; [|lia]].
    destruct (push_bytes_spec (drop (length data - length (buf r)) data) r) as (H1 & H2 & H3); [done|lia|].
    split; [done|]. split; [done|]. rewrite H3.
    change (drop (length data - length (buf r)) data) with (lastn (length (buf r)) data).
    rewrite !lastn_app_r by (rewrite ?length_lastn; lia). apply lastn_all. rewrite length_lastn. lia.
Qed.

(** The replay writes the contents. *)
Lemma replay_contents r : wf r -> concat (replay_to_fd r) = contents r.
Proof.
  intros [Hl Hh]. unfold replay_to_fd. destruct (len r =? 0) eqn:E0; bool_arith.
  { symmetry. apply length_zero_iff_nil. by rewrite length_contents. }
  destruct Hh as [Hh|?]; [|lia]. set (cap := length (buf r)) in *.
  assert (Hseg : forall a n, a + n <= cap ->
    map (fun i => nth ((a + i) mod cap) (buf r) 0%Z) (seq 0 n) = slice a (a + n) (buf r)).
  { intros a n Han. apply (list_eq_same_length _ _ n).
    - unfold slice. rewrite length_take, length_drop. fold cap. lia.
    - by rewrite length_map, length_seq.
    - intros i x y Hi Hx Hy. unfold slice in Hy. rewrite lookup_take_lt, lookup_drop in Hy by lia.
      rewrite list_lookup_fmap, lookup_seq_lt in Hx by lia. cbn in Hx. injection Hx as <-.
      rewrite Nat.mod_small by lia. by apply nth_lookup_Some. }
  unfold contents. fold cap. destruct (head r + len r <=? cap) eqn:E; bool_arith; cbn [concat].
  - by rewrite app_nil_r, Hseg.
  - rewrite app_nil_r. replace (len r) with ((cap - head r) + (len r - (cap - head r))) at 2 by lia.
    rewrite seq_app, map_app, Hseg by lia. f_equal.
    + unfold slice. rewrite take_ge; [done|]. rewrite length_drop. fold cap. lia.
    + pose proof (Hseg 0 (len r - (cap - head r)) ltac:(lia)) as Hs. cbn [Nat.add] in Hs |- *.
      rewrite <- Hs.
      replace (seq (cap - head r) (len r - (cap - head r)))
        with (map (Nat.add (cap - head r)) (seq 0 (len r - (cap - head r)))).
      2: { etrans; [apply fmap_add_seq|]. f_equal. lia. }
      rewrite map_map. apply map_ext_in. intros i Hi. f_equal.
      replace (head r + (cap - head r + i)) with (i + 1 * cap) by lia. symmetry. apply Nat.Div0.mod_add.
Qed.

(** ** The loop *)

(** The ring holds the last bytes drained. *)
Definition ring_inv (cap : nat) (env : Env ev reply) (r : ring) (h : list ev) : Prop :=
  wf r /\ length (buf r) = cap /\ contents r = lastn cap (drained env h).

Lemma ring_call cap e : e <> Drain -> keeps (ring_inv cap) (call e).
Proof.
  intros He. apply keeps_call. intros env r h (H1 & H2 & H3). split_and!; [done..|].
  rewrite H3. f_equal. cbn [drained]. by destruct e; rewrite ?app_nil_r.
Qed.

Lemma ring_proxy cap fuel : keeps (ring_inv cap) (proxy_console fuel).
Proof.
  assert (Hr : keeps (ring_inv cap) proxy_round)
    by (unfold proxy_round; keeps_go; by apply ring_call).
  unfold proxy_console. keeps_go; [by apply ring_call|].
  induction fuel as [|fuel IH]; cbn [proxy_rounds]; keeps_go; done.
Qed.

Lemma ring_drain cap : keeps (ring_inv cap) drain_console.
Proof.
  intros env r h (H1 & H2 & H3). unfold drain_console. cbn [bind call].
  destruct (env h Drain) as [d|] eqn:Ed; cbn [modify ret fst snd].
  - destruct (push_slice_spec r d H1) as (H4 & H5 & H6). split_and!; [done | congruence |].
    cbn [drained]. by rewrite Ed, H6, H3, H2, lastn_lastn_app.
  - split_and!; [done..|]. cbn [drained]. by rewrite Ed, app_nil_r.
Qed.

Lemma ring_round cap fuel : keeps (ring_inv cap) (console_round fuel).
Proof. unfold console_round. keeps_go; auto using ring_drain, ring_proxy; by apply ring_call. Qed.

Lemma ring_loop cap n fuel : keeps (ring_inv cap) (console_relay_loop n fuel).
Proof. induction n; cbn [console_relay_loop]; keeps_go; auto using ring_round. Qed.

Lemma new_inv cap env : ring_inv cap env (new cap) [].
Proof.
  unfold ring_inv, wf, new, contents. cbn. rewrite length_replicate.
  split_and!; [lia | | done | by unfold lastn]. destruct cap; [by right | left; lia].
Qed.

(** * Properties *)

(** C13: the ring buffer keeps the most recent output.  From any well-formed state, of any capacity,
    pushing a slice of any length keeps it well formed and of the same capacity and leaves exactly
    the last [capacity] bytes of what it held followed by the slice; the writes of the replay, put
    together, are exactly the bytes held, in order. *)
Theorem ring_keeps_last r data :
  wf r ->
  let r' := push_slice r data in
  wf r' /\ length (buf r') = length (buf r) /\
  contents r' = lastn (length (buf r)) (contents r ++ data) /\
  concat (replay_to_fd r') = contents r'.
Proof.
  intros Hw r'. destruct (push_slice_spec r data Hw) as (H1 & H2 & H3).
  split_and!; auto using replay_contents.
Qed.

Lemma ring_keeps_last_witness :
  wf (mkRing [3; 4; 1; 2]%Z 2 4) /\
  contents (push_slice (mkRing [3; 4; 1; 2]%Z 2 4) [5; 6; 7]%Z) = [4; 5; 6; 7]%Z.
Proof.
  assert (Hw : wf (mkRing [3; 4; 1; 2]%Z 2 4)) by (split; [cbn; lia | left; cbn; lia]).
  split; [exact Hw|].
  exact (proj1 (proj2 (proj2 (ring_keeps_last (mkRing [3; 4; 1; 2]%Z 2 4) [5; 6; 7]%Z Hw)))).
Defined.

(** a client that connects is replayed exactly the recent output.  After any number of rounds of the
    console loop, whatever clients and the machine do, the writes a new client would get are the last
    [capacity] bytes of all the output drained while nobody was connected, complete and in order. *)
Theorem console_replay_recent env cap n fuel :
  let '(_, (r, h)) := console_relay_loop n fuel env (new cap) [] in
  concat (replay_to_fd r) = lastn cap (drained env h).
Proof.
  pose proof (ring_loop cap n fuel env (new cap) [] (new_inv cap env)) as (Hw & _ & Hc).
  destruct (console_relay_loop n fuel env (new cap) []) as [u [r h]]. cbn [fst snd] in *.
  by rewrite replay_contents.
Qed.
