(* ===== verification/PortDaemon.v ===== *)
(** Port forwarding in the host daemon ([pelagos-mac/src/daemon.rs]): port specifications, the commands
    clients send, the proxy listeners with their threads, the watcher that removes forwards when
    containers exit, and the relaying of connections that are not commands to the guest. *)

From S2P Require Import Prelude RustStd.

#[local] Open Scope Z_scope.

(** * Port specifications *)

Record PortForward := mkForward { host_port : Z; container_port : Z }.

(** [parse_port_spec] *)
Definition parse_port_spec (spec : str) : option PortForward :=
  match splitn 2 ":" spec with
  | [a; b] =>
      match parse_u16 a, parse_u16 b with
      | Some h, Some c => Some (mkForward h c)
      | _, _ => None
      end
  | _ => match parse_u16 spec with Some p => Some (mkForward p p) | None => None end
  end.

(** The form [daemon_subprocess_args] prints a forward in. *)
Definition show_port_spec (f : PortForward) : str := dec (host_port f) ++ #":" ++ dec (container_port f).

(** * Commands *)

Inductive DaemonCmd : Type :=
| RegisterPort (host_port container_port : Z)
| UnregisterPort (host_port : Z)
| TrackComposeProject (project : str) (host_ports : list Z)
| UnregisterComposePorts (project : str).

Inductive DaemonResponse : Type := RespOk | RespErr (message : str).

(** Both can be listed, so that they have a textual form to run examples with. *)
#[export] Instance DaemonCmd_eq_dec : EqDecision DaemonCmd.
Proof. solve_decision. Defined.
#[export] Instance DaemonCmd_countable : Countable DaemonCmd.
Proof.
  refine (inj_countable'
    (fun c => match c with
              | RegisterPort hp cp => inl (inl (hp, cp))
              | UnregisterPort hp => inl (inr hp)
              | TrackComposeProject p hps => inr (inl (p, hps))
              | UnregisterComposePorts p => inr (inr p)
              end)
    (fun x => match x with
              | inl (inl (hp, cp)) => RegisterPort hp cp
              | inl (inr hp) => UnregisterPort hp
              | inr (inl (p, hps)) => TrackComposeProject p hps
              | inr (inr p) => UnregisterComposePorts p
              end) _).
  by intros [].
Defined.

#[export] Instance DaemonResponse_eq_dec : EqDecision DaemonResponse.
Proof. solve_decision. Defined.
#[export] Instance DaemonResponse_countable : Countable DaemonResponse.
Proof.
  refine (inj_countable' (fun r => match r with RespOk => None | RespErr m => Some m end)
    (fun o => match o with None => RespOk | Some m => RespErr m end) _).
  by intros [].
Defined.

(** * Proxy listeners *)

(** The life of a [port_proxy_loop] thread: not yet bound, accepting, or over (its bind failed, or it
    saw the shutdown flag). *)
Inductive phase : Type := Starting | Listening | Over.

#[export] Instance phase_eq_dec : EqDecision phase.
Proof. solve_decision. Defined.

(** A proxy thread: its port, the container port it relays to, the flag [PortProxy::drop] sets, and
    its phase. *)
Record thread := mkThread { port : Z; target : Z; shutdown : bool; at_phase : phase }.

(** [PortState], with the proxy threads started so far; a [PortProxy] handle is the index of its
    thread. *)
Record PortState := mkPorts {
  active : gmap Z Z;
  compose_projects : gmap str (list Z);
  proxies : gmap Z nat;
  threads : list thread }.

(** [PortState::new] *)
Definition new_ports : PortState := mkPorts ∅ ∅ ∅ [].

(** Dropping a [PortProxy] sets its thread's flag (the wake-up connection makes the thread look). *)
Definition stop (t : thread) : thread := mkThread (port t) (target t) true (at_phase t).
Definition drop_handle (o : option nat) (ts : list thread) : list thread :=
  match o with Some i => alter stop i ts | None => ts end.

(** [router.add], then [proxies.insert] (which drops the handle it replaces), then
    [active.insert]. *)
Definition forward (hp cp : Z) (ps : PortState) : PortState :=
  mkPorts (<[hp := cp]> (active ps)) (compose_projects ps) (<[hp := length (threads ps)]> (proxies ps))
    (drop_handle (proxies ps !! hp) (threads ps) ++ [mkThread hp cp false Starting]).

(** Removing an active port without its proxy, as [UnregisterComposePorts] and the watcher do:
    [PortRouter::remove] does nothing. *)
Definition unregister_active (hp : Z) (ps : PortState) : PortState :=
  match active ps !! hp with
  | Some _ => mkPorts (delete hp (active ps)) (compose_projects ps) (proxies ps) (threads ps)
  | None => ps
  end.

(** The [match] of [handle_daemon_cmd]. *)
Definition handle_daemon_cmd (cmd : DaemonCmd) (ps : PortState) : DaemonResponse * PortState :=
  match cmd with
  | RegisterPort hp cp =>
      match active ps !! hp with
      | None => (RespOk, forward hp cp ps)
      | Some existing =>
          if existing =? cp then (RespOk, ps)
          else (RespErr (#"port " ++ dec hp ++ #" is already registered to container port " ++ dec existing), ps)
      end
  | UnregisterPort hp =>
      match active ps !! hp with
      | Some _ =>
          (RespOk, mkPorts (delete hp (active ps)) (compose_projects ps) (delete hp (proxies ps))
                     (drop_handle (proxies ps !! hp) (threads ps)))
      | None => (RespOk, ps)
      end
  | TrackComposeProject project host_ports =>
      (RespOk, mkPorts (active ps) (<[project := host_ports]> (compose_projects ps)) (proxies ps) (threads ps))
  | UnregisterComposePorts project =>
      match compose_projects ps !! project with
      | Some ports =>
          (RespOk, fold_left (fun ps hp => unregister_active hp ps) ports
             (mkPorts (active ps) (delete project (compose_projects ps)) (proxies ps) (threads ps)))
      | None => (RespOk, ps)
      end
  end.

(** The forwards of [vm start -p], registered by [run] before the first connection. *)
Definition pre_register (fs : list PortForward) (ps : PortState) : PortState :=
  fold_left (fun ps f => forward (host_port f) (container_port f) ps) fs ps.

(** * The watcher *)

Inductive WatchEvent : Type :=
| Snapshot (containers : list (str * list str))
| ContainerStarted (name : str) (ports : list str)
| ContainerExited (name : str)
| Unknown.

(** The ports of the containers that have some. *)
Definition insert_ports (m : gmap str (list str)) (c : str * list str) : gmap str (list str) :=
  match c.2 with [] => m | _ => <[c.1 := c.2]> m end.

(** The handling of one event in [subscription_watcher_loop], on the loop's own map and the ports. *)
Definition watch (e : WatchEvent) (m : gmap str (list str)) (ps : PortState)
    : gmap str (list str) * PortState :=
  match e with
  | Snapshot cs => (fold_left insert_ports cs ∅, ps)
  | ContainerStarted name ports => (insert_ports m (name, ports), ps)
  | ContainerExited name =>
      match m !! name with
      | None => (m, ps)
      | Some ports =>
          (delete name m,
           fold_left (fun ps spec => match parse_port_spec spec with
                                     | Some f => unregister_active (host_port f) ps
                                     | None => ps
                                     end) ports ps)
      end
  | Unknown => (m, ps)
  end.

(** * The system *)

Record world := mkWorld { ps : PortState; container_ports : gmap str (list str) }.

Definition set_phase (p : phase) (t : thread) : thread := mkThread (port t) (target t) (shutdown t) p.
Definition set_thread (i : nat) (f : thread -> thread) (w : world) : world :=
  let s := ps w in
  mkWorld (mkPorts (active s) (compose_projects s) (proxies s) (alter f i (threads s))) (container_ports w).

(** A port is taken while a thread of this process listens on it. *)
Definition taken (p : Z) (s : PortState) : Prop :=
  exists i t, threads s !! i = Some t /\ port t = p /\ at_phase t = Listening.

(** Commands and watcher events are handled under the lock, one at a time, in any order; proxy
    threads bind, fail to bind and stop at any time in between. *)
Inductive step : world -> world -> Prop :=
| step_cmd cmd w :
    step w (mkWorld (snd (handle_daemon_cmd cmd (ps w))) (container_ports w))
| step_watch e w :
    step w (let '(m, s) := watch e (container_ports w) (ps w) in mkWorld s m)
| step_bind i t w :
    threads (ps w) !! i = Some t -> at_phase t = Starting -> ~ taken (port t) (ps w) ->
    step w (set_thread i (set_phase Listening) w)
| step_bind_fails i t w :
    threads (ps w) !! i = Some t -> at_phase t = Starting ->
    step w (set_thread i (set_phase Over) w)
| step_stop i t w :
    threads (ps w) !! i = Some t -> at_phase t = Listening -> shutdown t = true ->
    step w (set_thread i (set_phase Over) w).

(** The states reachable from a start with some pre-registered forwards. *)
Definition reachable (w : world) : Prop :=
  exists fs, rtc step (mkWorld (pre_register fs new_ports) ∅) w.

(** * Connections *)

Section Connection.
(** [String::from_utf8_lossy] and the JSON parser (serde). *)
Context (lossy : str -> str) (parse_cmd : str -> option DaemonCmd).

(** The byte-by-byte read of the first line: the line with its newline and what follows it, or
    nothing when the stream ends before or the line is longer than 64 KiB. *)
Fixpoint read_first_line (acc : str) (s : str) : option (str * str) :=
  match s with
  | [] => None
  | b :: s =>
      let acc := acc ++ [b] in
      if decide (b = NL) then Some (acc, s)
      else if 64 * 1024 <? Z.of_nat (length acc) then None
      else read_first_line acc s
  end.

Inductive outcome : Type :=
| Dropped
| Local (cmd : DaemonCmd)
| VsockError
| ReplayFailed
| Proxied (to_guest : str).

(** [handle_connection] on what the client sends, for each outcome of connecting to the guest and of
    the write that replays the first line: the bytes the guest receives are the replayed line and
    what the proxy then copies. *)
Definition handle_connection (connect_ok replay_ok : bool) (s : str) : outcome :=
  match read_first_line [] s with
  | None => Dropped
  | Some (first_line, rest) =>
      match parse_cmd (trim_end (lossy first_line)) with
      | Some cmd => Local cmd
      | None =>
          if negb connect_ok then VsockError
          else if negb replay_ok then ReplayFailed
          else Proxied (first_line ++ rest)
      end
  end.
End Connection.

(** * Invariant *)

(** Handles and threads match: every handle is for a thread of its port that has not been told to
    stop, every such thread has its handle, active ports have a handle to a thread with their
    target, and no port has two listeners. *)
Definition inv (s : PortState) : Prop :=
  (forall p i, proxies s !! p = Some i ->
     exists t, threads s !! i = Some t /\ port t = p /\ shutdown t = false) /\
  (forall i t, threads s !! i = Some t -> shutdown t = false -> proxies s !! port t = Some i) /\
  (forall p c, active s !! p = Some c ->
     exists i t, proxies s !! p = Some i /\ threads s !! i = Some t /\ target t = c) /\
  (forall i j t u, threads s !! i = Some t -> threads s !! j = Some u ->
     at_phase t = Listening -> at_phase u = Listening -> port t = port u -> i = j).

(** * Lemmas *)

Lemma read_first_line_app s : forall acc l r, read_first_line acc s = Some (l, r) -> l ++ r = acc ++ s.
Proof.
  induction s as [|b s IH]; intros acc l r; cbn [read_first_line]; [done|].
  case_decide; [intros; simplify_eq; by rewrite <- app_assoc|]. case_goal; [done|].
  intros Hr. apply IH in Hr. by rewrite Hr, <- app_assoc.
Qed.

Lemma drop_handle_lookup o ts i t' :
  drop_handle o ts !! i = Some t' <->
  exists t, ts !! i = Some t /\ t' = (if decide (o = Some i) then stop t else t).
Proof.
  assert (Hl : drop_handle o ts !! i = (fun t => if decide (o = Some i) then stop t else t) <$> ts !! i).
  { destruct o as [j|]; cbn [drop_handle].
    - destruct (decide (j = i)) as [->|].
      + rewrite list_lookup_alter_eq. destruct (ts !! i); cbn; [by rewrite decide_True|done].
      + rewrite list_lookup_alter_ne by done.
        destruct (ts !! i); cbn; [rewrite decide_False by congruence|]; done.
    - by destruct (ts !! i). }
  rewrite Hl, fmap_Some. naive_solver.
Qed.

Lemma forward_lookup hp cp s i t' :
  threads (forward hp cp s) !! i = Some t' <->
  (exists t, threads s !! i = Some t /\ t' = (if decide (proxies s !! hp = Some i) then stop t else t)) \/
  (i = length (threads s) /\ t' = mkThread hp cp false Starting).
Proof.
  cbn [threads forward].
  assert (Hl : length (drop_handle (proxies s !! hp) (threads s)) = length (threads s))
    by (destruct (proxies s !! hp); cbn; [apply length_alter | done]).
  rewrite lookup_app_Some, drop_handle_lookup, Hl, list_lookup_singleton_Some. split.
  - intros [?|(? & ? & <-)]; [auto|]. right. split; [lia|done].
  - intros [?|[-> ->]]; [auto|]. right. split; [lia|]. split; [lia|done].
Qed.

Lemma forward_inv hp cp s : inv s -> inv (forward hp cp s).
Proof.
  intros (HB & HC & HA & HD). set (n := length (threads s)).
  assert (Hlt : forall i t, threads s !! i = Some t -> i <> n)
    by (intros i t Hi%lookup_lt_Some; unfold n; lia).
  split; [|split; [|split]].
  - intros p i Hp. cbn [proxies forward] in Hp. setoid_rewrite forward_lookup.
    apply lookup_insert_Some in Hp as [[-> <-]|[Hne Hp]].
    + eexists. split; [by right | done].
    + destruct (HB p i Hp) as (t & Ht & Hpt & Hs). exists t. split; [|done]. left. exists t.
      split; [done|]. rewrite decide_False; [done|]. intros Hq.
      destruct (HB hp i Hq) as (t' & Ht' & ? & _). congruence.
  - intros i t Ht Hs. apply forward_lookup in Ht as [(u & Hu & ->)|[-> ->]]; cbn [proxies forward].
    + case_decide as Hd; [done|]. pose proof (HC i u Hu Hs) as Hq.
      rewrite lookup_insert_ne; [done|]. congruence.
    + cbn. by rewrite lookup_insert_eq.
  - intros p c Hp. cbn [active forward] in Hp. cbn [proxies forward]. setoid_rewrite forward_lookup.
    apply lookup_insert_Some in Hp as [[<- <-]|[Hne Hp]].
    + exists n, (mkThread hp cp false Starting). rewrite lookup_insert_eq.
      split; [done|]. split; [by right|done].
    + destruct (HA p c Hp) as (i & t & Hi & Ht & Hc). exists i, t. rewrite lookup_insert_ne by done.
      split; [done|]. split; [|done]. left. exists t. split; [done|]. rewrite decide_False; [done|].
      intros Hq. destruct (HB hp i Hq) as (? & ? & ? & _). destruct (HB p i Hi) as (? & ? & ? & _).
      congruence.
  - intros i j t u Ht Hu Lt Lu Hp.
    apply forward_lookup in Ht as [(t0 & Ht & ->)|[-> ->]]; [|done].
    apply forward_lookup in Hu as [(u0 & Hu & ->)|[-> ->]]; [|done].
    apply (HD i j t0 u0); auto; repeat case_decide; done.
Qed.

(** Removing a handle and its active port. *)
Lemma unregister_inv hp s :
  inv s ->
  inv (mkPorts (delete hp (active s)) (compose_projects s) (delete hp (proxies s))
         (drop_handle (proxies s !! hp) (threads s))).
Proof.
  intros (HB & HC & HA & HD). unfold inv. cbn. setoid_rewrite drop_handle_lookup. split_and!.
  - intros p i Hp. apply lookup_delete_Some in Hp as [Hne Hp]. destruct (HB p i Hp) as (t & Ht & Hpt & Hs).
    exists t. split; [|done]. exists t. split; [done|]. rewrite decide_False; [done|]. intros Hq.
    destruct (HB hp i Hq) as (u & Hu & ? & _). congruence.
  - intros i t (u & Hu & ->) Hs. case_decide as Hd; [done|]. pose proof (HC i u Hu Hs) as Hq.
    rewrite lookup_delete_ne; [done|]. congruence.
  - intros p c Hp. apply lookup_delete_Some in Hp as [Hne Hp]. destruct (HA p c Hp) as (i & t & Hi & Ht & Hc).
    exists i, t. rewrite lookup_delete_ne by done. split; [done|]. split; [|done]. exists t.
    split; [done|]. rewrite decide_False; [done|]. intros Hq.
    destruct (HB hp i Hq) as (? & ? & ? & _), (HB p i Hi) as (? & ? & ? & _). congruence.
  - intros i j t u (t0 & Ht & ->) (u0 & Hu & ->) Lt Lu Hp.
    apply (HD i j t0 u0); auto; repeat case_decide; done.
Qed.

Lemma unregister_active_inv hp s : inv s -> inv (unregister_active hp s).
Proof.
  intros (HB & HC & HA & HD). unfold unregister_active. destruct (active s !! hp); [|done].
  split_and!; cbn; try done. intros p c Hp. apply lookup_delete_Some in Hp as [_ Hp]. by apply HA.
Qed.

(** The invariant does not depend on the compose projects. *)
Lemma projects_inv cp s : inv s -> inv (mkPorts (active s) cp (proxies s) (threads s)).
Proof. done. Qed.

Lemma fold_inv {A} (f : PortState -> A -> PortState) (l : list A) s :
  (forall x s, inv s -> inv (f s x)) -> inv s -> inv (fold_left f l s).
Proof. intros Hf. revert s. induction l as [|x l IH]; cbn; auto. Qed.

Lemma cmd_inv cmd s : inv s -> inv (snd (handle_daemon_cmd cmd s)).
Proof.
  intros H. destruct cmd as [hp cp|hp|pr hps|pr]; cbn [handle_daemon_cmd].
  - destruct (active s !! hp); [case_goal; done|]. by apply forward_inv.
  - destruct (active s !! hp); [|done]. by apply unregister_inv.
  - by apply projects_inv.
  - destruct (compose_projects s !! pr); [|done]. cbn [snd].
    apply fold_inv; [intros; by apply unregister_active_inv | by apply projects_inv].
Qed.

Lemma watch_inv e m s : inv s -> inv (watch e m s).2.
Proof.
  intros H. destruct e; cbn [watch]; try done. destruct (m !! name); [|done]. cbn [snd].
  apply fold_inv; [|done]. intros spec s0 Hs. destruct (parse_port_spec spec); [|done].
  by apply unregister_active_inv.
Qed.

(** A phase change of a thread, when a new listener's port is free. *)
Lemma phase_inv i p w t :
  threads (ps w) !! i = Some t -> inv (ps w) -> (p = Listening -> ~ taken (port t) (ps w)) ->
  inv (ps (set_thread i (set_phase p) w)).
Proof.
  intros Hi (HB & HC & HA & HD) Hp. cbn.
  assert (Hl : forall j u, alter (set_phase p) i (threads (ps w)) !! j = Some u <->
    exists u0, threads (ps w) !! j = Some u0 /\ u = if decide (i = j) then set_phase p u0 else u0).
  { intros j u. destruct (decide (i = j)) as [->|].
    - rewrite list_lookup_alter_eq, fmap_Some. naive_solver.
    - rewrite list_lookup_alter_ne by done. naive_solver. }
  unfold inv. cbn. setoid_rewrite Hl. split_and!.
  - intros q j Hq. destruct (HB q j Hq) as (u & Hu & ? & ?).
    eexists. split; [by exists u|]. by case_decide.
  - intros j u (u0 & Hu & ->) Hs. specialize (HC j u0 Hu). case_decide; by apply HC.
  - intros q c Hq. destruct (HA q c Hq) as (j & u & ? & Hu & ?). exists j. eexists.
    split; [done|]. split; [by exists u|]. by case_decide.
  - intros j k u v (u0 & Hu & ->) (v0 & Hv & ->) Lu Lv Heq.
    case_decide as Hj; case_decide as Hk; subst; cbn in *; try done.
    + exfalso. apply Hp; [done|]. exists k, v0. by simplify_eq.
    + exfalso. apply Hp; [done|]. exists j, u0. by simplify_eq.
    + by apply (HD j k u0 v0).
Qed.

Lemma step_inv w w' : step w w' -> inv (ps w) -> inv (ps w').
Proof.
  destruct 1 as [cmd w|e w|i t w Hi Ht Hf|i t w Hi Ht|i t w Hi Ht Hs]; intros H.
  - by apply cmd_inv.
  - pose proof (watch_inv e (container_ports w) (ps w) H) as Hw. by destruct (watch e _ _).
  - by eapply phase_inv.
  - by eapply phase_inv.
  - by eapply phase_inv.
Qed.

Lemma new_ports_inv : inv new_ports.
Proof. unfold inv. cbn. split_and!; intros; set_solver. Qed.

Lemma reachable_inv w : reachable w -> inv (ps w).
Proof.
  intros (fs & Hr). assert (H0 : inv (pre_register fs new_ports)).
  { apply fold_inv; [intros; by apply forward_inv | apply new_ports_inv]. }
  remember (mkWorld _ _) as w0 eqn:E. assert (inv (ps w0)) by by subst. clear E.
  induction Hr as [|x y z Hs _ IH]; [done|]. apply IH. by eapply step_inv.
Qed.

(** A forward printed for the daemon subprocess is parsed back. *)
Lemma parse_show_port_spec f :
  0 <= host_port f <= U16_MAX -> 0 <= container_port f <= U16_MAX ->
  parse_port_spec (show_port_spec f) = Some f.
Proof.
  intros Hh Hc. unfold parse_port_spec, show_port_spec, U16_MAX in *. cbn [splitn].
  change #":" with [":"%char]. cbn [app]. rewrite split_once_app by (apply not_in_dec; [lia|done]).
  unfold parse_u16. rewrite !parse_uint_dec by (unfold U16_MAX, U64_MAX; lia). by destruct f.
Qed.

(** * Properties *)

(** C14: traffic to an active port goes where the port is registered.  In every reachable state, for
    every interleaving of commands, watcher events and proxy threads, a thread that listens on an
    active port and has not been told to stop relays to exactly the container port that is
    registered for it, and no port has two listeners. *)
Theorem forwards_agree w p c i t :
  reachable w -> active (ps w) !! p = Some c ->
  threads (ps w) !! i = Some t -> port t = p -> shutdown t = false -> at_phase t = Listening ->
  target t = c /\
  forall j u, threads (ps w) !! j = Some u -> port u = p -> at_phase u = Listening -> j = i.
Proof.
  intros Hr Hp Hi Ht Hs Hl. destruct (reachable_inv w Hr) as (HB & HC & HA & HD). split.
  - destruct (HA p c Hp) as (j & u & Hj & Hu & <-). pose proof (HC i t Hi Hs). congruence.
  - intros j u Hu Hpu Hlu. apply (HD j i u t); congruence.
Qed.

(** unregistering a port stops its proxy.  After [UnregisterPort] on an active port of a reachable
    state, the answer is positive, the port is not active, every thread for it has been told to
    stop, and the other ports keep their registration and their handle. *)
Theorem unregister_stops w p :
  reachable w -> active (ps w) !! p <> None ->
  let '(r, s) := handle_daemon_cmd (UnregisterPort p) (ps w) in
  r = RespOk /\ active s !! p = None /\
  (forall i t, threads s !! i = Some t -> port t = p -> shutdown t = true) /\
  (forall q, q <> p -> active s !! q = active (ps w) !! q /\ proxies s !! q = proxies (ps w) !! q).
Proof.
  intros Hr Hp. pose proof (cmd_inv (UnregisterPort p) _ (reachable_inv w Hr)) as (_ & HC & _).
  revert HC. cbn [handle_daemon_cmd]. destruct (active (ps w) !! p); [|done]. cbn [snd]. intros HC.
  split; [done|]. split; [apply lookup_delete_eq|]. split.
  - intros i t Ht Hpt. destruct (shutdown t) eqn:Hs; [done|]. specialize (HC i t Ht Hs). cbn in HC.
    rewrite Hpt, lookup_delete_eq in HC. done.
  - intros q Hq. cbn. by rewrite !lookup_delete_ne by done.
Qed.

(** the daemon is transparent to guest connections.  A connection whose first line is not a daemon
    command and that reaches the guest delivers exactly the bytes the client sent, from the first
    one: the line read ahead is neither lost nor repeated.  A connection is dropped before that only
    if its first line does not end or exceeds 64 KiB. *)
Theorem proxied_bytes_exact lossy parse_cmd connect_ok replay_ok s :
  match handle_connection lossy parse_cmd connect_ok replay_ok s with
  | Proxied to_guest => to_guest = s
  | Dropped => read_first_line [] s = None
  | Local cmd => exists l r, s = l ++ r /\ parse_cmd (trim_end (lossy l)) = Some cmd
  | VsockError => connect_ok = false
  | ReplayFailed => replay_ok = false
  end.
Proof.
  unfold handle_connection. destruct (read_first_line [] s) as [[l r]|] eqn:E; [|done].
  apply read_first_line_app in E. cbn [app] in E.
  destruct (parse_cmd (trim_end (lossy l))) as [cmd|] eqn:Ec; [by exists l, r|].
  destruct connect_ok, replay_ok; done.
Qed.

(** * Concrete runs *)

Definition start_world : world := mkWorld new_ports ∅.

(** A registered port whose listener is up. *)
Definition up_world : world :=
  set_thread 0 (set_phase Listening) (mkWorld (forward 8080 80 new_ports) ∅).

Lemma up_reachable : reachable up_world.
Proof.
  exists []. eapply rtc_l; [apply (step_cmd (RegisterPort 8080 80))|].
  eapply rtc_l; [|apply rtc_refl]. eapply (step_bind 0); [reflexivity | reflexivity |].
  intros (i & t & Ht & _ & Hl). cbn in Ht. apply list_lookup_singleton_Some in Ht as [_ <-]. done.
Qed.

Lemma forwards_agree_witness :
  active (ps up_world) !! 8080 = Some 80 /\
  target (mkThread 8080 80 false Listening) = 80 /\
  forall j u, threads (ps up_world) !! j = Some u -> port u = 8080 -> at_phase u = Listening -> j = 0%nat.
Proof.
  split; [reflexivity|].
  exact (forwards_agree up_world 8080 80 0 _ up_reachable eq_refl eq_refl eq_refl eq_refl eq_refl).
Defined.

Lemma unregister_stops_witness :
  let '(r, s) := handle_daemon_cmd (UnregisterPort 8080) (ps up_world) in
  r = RespOk /\ active s !! 8080 = None /\
  (forall i t, threads s !! i = Some t -> port t = 8080 -> shutdown t = true) /\
  (forall q, q <> 8080 -> active s !! q = active (ps up_world) !! q /\ proxies s !! q = proxies (ps up_world) !! q).
Proof. apply (unregister_stops up_world 8080 up_reachable). cbn. discriminate. Defined.

(** Unregistering the ports of a compose project, or the exit of a container, takes the port out of
    the registration but leaves its proxy listening. *)
Example compose_leaves_listener :
  let s0 := snd (handle_daemon_cmd (TrackComposeProject #"web" [8080]) (ps up_world)) in
  let '(r, s) := handle_daemon_cmd (UnregisterComposePorts #"web") s0 in
  r = RespOk /\ active s !! 8080 = None /\ threads s !! 0%nat = Some (mkThread 8080 80 false Listening).
Proof. vm_compute. auto. Qed.

(** Registering the port again then tells the working listener to stop, while the new one cannot bind
    as long as the old one is up: the answer is positive and nothing will listen. *)
Example reregistered_port_dead :
  exists w, reachable w /\ active (ps w) !! 8080 = Some 80 /\
    forall t, t ∈ threads (ps w) -> at_phase t <> Listening /\ at_phase t <> Starting.
Proof.
  set (w1 := mkWorld (snd (handle_daemon_cmd (TrackComposeProject #"web" [8080]) (ps up_world))) ∅).
  set (w2 := mkWorld (snd (handle_daemon_cmd (UnregisterComposePorts #"web") (ps w1))) ∅).
  set (w3 := mkWorld (snd (handle_daemon_cmd (RegisterPort 8080 80) (ps w2))) ∅).
  set (w4 := set_thread 1 (set_phase Over) w3). set (w5 := set_thread 0 (set_phase Over) w4).
  exists w5. split.
  - destruct up_reachable as (fs & Hr). exists fs. etrans; [exact Hr|].
    eapply rtc_l; [apply (step_cmd (TrackComposeProject #"web" [8080]))|].
    eapply rtc_l; [apply (step_cmd (UnregisterComposePorts #"web"))|].
    eapply rtc_l; [apply (step_cmd (RegisterPort 8080 80))|].
    eapply rtc_l; [apply (step_bind_fails 1 (mkThread 8080 80 false Starting)); reflexivity|].
    eapply rtc_l; [apply (step_stop 0 (mkThread 8080 80 true Listening)); reflexivity|]. apply rtc_refl.
  - split; [reflexivity|].
    assert (Ht : threads (ps w5) = [mkThread 8080 80 true Over; mkThread 8080 80 false Over]) by reflexivity.
    rewrite Ht. intros t Hin. repeat (apply elem_of_cons in Hin as [->|Hin]; [done|]). set_solver.
Qed.
