(* ===== verification/Relays.v ===== *)
(** The relays that copy between two connections with two threads: [relay_tcp] and [proxy] of the daemon
    ([pelagos-mac/src/daemon.rs]) and [ssh_relay_proxy] of the host ([pelagos-mac/src/main.rs]).

    All three run one copy loop per direction, wait for both, and return, which closes both connections.
    They differ in what happens when one loop is over: only the ssh relay passes on the end of its input at
    once.  The peers send, end their sending or break a connection at any time. *)

From S2P Require Import Prelude.

(** * State *)

(** One direction: all that its source sent, what was given to its destination, what waits, whether the
    source has ended its sending, whether the copy loop runs, whether it failed, and whether the destination
    was told that nothing more comes. *)
Record flow := mkFlow {
  total : list Z; given : list Z; waiting : list Z; ended : bool; copying : bool; failed : bool; told : bool }.

Inductive relay_kind : Type := RelayTcp | Proxy | SshRelayProxy.

(** [up] is from the client (the standard input of the ssh relay) to the server (the guest), [down] back. *)
Record relay := mkRelay { up : flow; down : flow; returned : bool }.

Definition fresh : flow := mkFlow [] [] [] false true false false.

(** What a relay opens before it copies: a connection to the server and a second handle of each
    connection; without one of them it returns and closes what it has. *)
Definition open_relay (connected client_cloned server_cloned : bool) : relay :=
  let r := mkRelay fresh fresh false in
  let closed := mkRelay (mkFlow [] [] [] false false true true) (mkFlow [] [] [] false false true true) true in
  if negb connected then closed else if negb client_cloned then closed else if negb server_cloned then closed else r.

(** * Operations *)

Definition send (d : list Z) (f : flow) : flow :=
  mkFlow (total f ++ d) (given f) (waiting f ++ d) (ended f) (copying f) (failed f) (told f).
Definition end_sending (f : flow) : flow :=
  mkFlow (total f) (given f) (waiting f) true (copying f) (failed f) (told f).

(** One round of the loop: [n] bytes are read and written. *)
Definition copy_round (n : nat) (f : flow) : flow :=
  mkFlow (total f) (given f ++ take n (waiting f)) (drop n (waiting f)) (ended f) true (failed f) (told f).
(** The loop reads the end of its source; [shutdown]: it then shuts the destination's side down. *)
Definition copy_ends (shutdown : bool) (f : flow) : flow :=
  mkFlow (total f) (given f) (waiting f) (ended f) false (failed f) (told f || shutdown).
(** Reading or writing fails; [n] bytes of those read were still written. *)
Definition copy_fails (shutdown : bool) (n : nat) (f : flow) : flow :=
  mkFlow (total f) (given f ++ take n (waiting f)) (drop n (waiting f)) (ended f) false true (told f || shutdown).

Definition close (f : flow) : flow := mkFlow (total f) (given f) (waiting f) (ended f) (copying f) (failed f) true.
(** Both threads were joined: the relay returns and every handle of both connections is dropped. *)
Definition return_relay (r : relay) : relay := mkRelay (close (up r)) (close (down r)) true.

Definition set_up (f : flow) (r : relay) : relay := mkRelay f (down r) (returned r).
Definition set_down (f : flow) (r : relay) : relay := mkRelay (up r) f (returned r).

(** Whether the loop from the client ends with [shutdown(Write)] of the server's connection. *)
Definition shuts_down (k : relay_kind) : bool := match k with SshRelayProxy => true | _ => false end.

(** A step of a copy loop, of either direction. *)
Inductive loop_step (shutdown : bool) : flow -> flow -> Prop :=
| Loop_copies f n : copying f = true -> (0 < n <= length (waiting f))%nat -> loop_step shutdown f (copy_round n f)
| Loop_ends f : copying f = true -> waiting f = [] -> ended f = true -> loop_step shutdown f (copy_ends shutdown f)
| Loop_fails f n : copying f = true -> loop_step shutdown f (copy_fails shutdown n f).

(** A step of a source. *)
Inductive source_step : flow -> flow -> Prop :=
| Source_sends f d : ended f = false -> source_step f (send d f)
| Source_ends f : source_step f (end_sending f).

Inductive relay_step (k : relay_kind) : relay -> relay -> Prop :=
| Up_step r f : loop_step (shuts_down k) (up r) f -> relay_step k r (set_up f r)
| Down_step r f : loop_step false (down r) f -> relay_step k r (set_down f r)
| Returns r : copying (up r) = false -> copying (down r) = false -> returned r = false -> relay_step k r (return_relay r).

Inductive peer_step : relay -> relay -> Prop :=
| Client_step r f : source_step (up r) f -> peer_step r (set_up f r)
| Server_step r f : source_step (down r) f -> peer_step r (set_down f r).

(** A run with the number of steps the relay itself made. *)
Inductive runs (k : relay_kind) : nat -> relay -> relay -> Prop :=
| Runs_refl r : runs k 0 r r
| Runs_relay n r1 r2 r3 : runs k n r1 r2 -> relay_step k r2 r3 -> runs k (S n) r1 r3
| Runs_peer n r1 r2 r3 : runs k n r1 r2 -> peer_step r2 r3 -> runs k n r1 r3.

Definition reachable (k : relay_kind) (r : relay) : Prop := exists n, runs k n (open_relay true true true) r.

(** * Lemmas *)

(** Nothing is lost, added or reordered in a direction that did not fail, and its loop only stops by itself
    after the end of its source. *)
Definition flow_inv (f : flow) : Prop :=
  given f `prefix_of` total f /\
  (failed f = false -> given f ++ waiting f = total f) /\
  (copying f = false -> failed f = false -> waiting f = [] /\ ended f = true) /\
  (told f = true -> copying f = false).

Lemma fresh_inv : flow_inv fresh.
Proof. by repeat split. Qed.

Lemma prefix_add (g w t : list Z) n : g ++ w = t -> g ++ take n w `prefix_of` t.
Proof. intros <-. exists (drop n w). by rewrite <- app_assoc, take_drop. Qed.

Lemma source_step_inv f f' : source_step f f' -> flow_inv f -> flow_inv f'.
Proof.
  destruct 1 as [f d He|f]; intros (Hp & Ht & Hc & Hd).
  - split; [by apply prefix_app_r|]. split; [intros Hf; cbn; by rewrite app_assoc, Ht|].
    split; [|done]. cbn. intros Hco Hf. destruct (Hc Hco Hf). congruence.
  - split; [done|]. split; [done|]. split; [|done]. cbn. intros Hco Hf. by destruct (Hc Hco Hf).
Qed.

(** The loops of a direction that failed are over. *)
Definition stopped_if_failed (f : flow) : Prop := failed f = true -> copying f = false.

Lemma loop_step_inv b f f' : loop_step b f f' -> stopped_if_failed f -> flow_inv f -> flow_inv f'.
Proof.
  intros H Hs (Hp & Ht & Hc & Hd). assert (Hf : copying f = true -> failed f = false).
  { intros Hco. destruct (failed f) eqn:E; [|done]. specialize (Hs E). congruence. }
  destruct H as [f n Hco Hn|f Hco Hw He|f n Hco]; specialize (Hf Hco); specialize (Ht Hf).
  - split; [by apply prefix_add|]. split; [intros _; cbn; by rewrite <- app_assoc, take_drop|].
    split; [done|]. cbn. intros Hto%Hd. congruence.
  - split; [done|]. split; [done|]. by split.
  - split; [by apply prefix_add|]. by split.
Qed.

Lemma loop_step_stopped b f f' : loop_step b f f' -> stopped_if_failed f -> stopped_if_failed f'.
Proof. destruct 1 as [f n Hco|f Hco|f n Hco]; intros Hs; unfold stopped_if_failed; cbn; [|done..]. intros Hf%Hs. congruence. Qed.

Lemma source_step_stopped f f' : source_step f f' -> stopped_if_failed f -> stopped_if_failed f'.
Proof. by destruct 1. Qed.

Definition relay_inv (k : relay_kind) (r : relay) : Prop :=
  flow_inv (up r) /\ flow_inv (down r) /\ stopped_if_failed (up r) /\ stopped_if_failed (down r) /\
  (returned r = true -> copying (up r) = false /\ copying (down r) = false) /\
  (told (down r) = true -> returned r = true) /\
  (shuts_down k = false -> told (up r) = true -> returned r = true).

Lemma loop_step_told f f' : loop_step false f f' -> told f' = told f.
Proof. destruct 1; cbn; by rewrite ?orb_false_r. Qed.
Lemma source_step_told f f' : source_step f f' -> told f' = told f /\ copying f' = copying f.
Proof. by destruct 1. Qed.
Lemma loop_step_runs b f f' : loop_step b f f' -> copying f = true.
Proof. by destruct 1. Qed.

Lemma relay_step_inv k r r' : relay_step k r r' -> relay_inv k r -> relay_inv k r'.
Proof.
  intros H (Hu & Hd & Su & Sd & Hr & Td & Tu). destruct H as [r f H|r f H|r Cu Cd Hn].
  - pose proof (loop_step_runs _ _ _ H) as Hc.
    split; [by eapply loop_step_inv|]. split; [done|]. split; [by eapply loop_step_stopped|]. split; [done|].
    split; [intros [? _]%Hr; congruence|]. split; [done|]. cbn. intros Hk. rewrite Hk in H.
    rewrite (loop_step_told _ _ H). auto.
  - pose proof (loop_step_runs _ _ _ H) as Hc.
    split; [done|]. split; [by eapply loop_step_inv|]. split; [done|]. split; [by eapply loop_step_stopped|].
    split; [intros [_ ?]%Hr; congruence|]. split; [|done]. cbn. rewrite (loop_step_told _ _ H). auto.
  - unfold return_relay, close. destruct Hu as (? & ? & ? & _), Hd as (? & ? & ? & _).
    do 4 (split; [done|]). by repeat split.
Qed.

Lemma peer_step_inv k r r' : peer_step r r' -> relay_inv k r -> relay_inv k r'.
Proof.
  intros H (Hu & Hd & Su & Sd & Hr & Td & Tu).
  destruct H as [r f H|r f H]; destruct (source_step_told _ _ H) as [Ht Hc];
    pose proof (source_step_stopped _ _ H); pose proof (source_step_inv _ _ H);
    unfold relay_inv; cbn; rewrite ?Ht, ?Hc; auto 10.
Qed.

Lemma relay_reachable_inv k r : reachable k r -> relay_inv k r.
Proof.
  intros [n H]. remember (open_relay true true true) as r0 eqn:E.
  induction H; subst; eauto using relay_step_inv, peer_step_inv.
  by repeat split.
Qed.

(** What the relay can still do when both sources are over. *)
Definition flow_work (f : flow) : nat := length (waiting f) + Nat.b2n (copying f).
Definition work (r : relay) : nat := flow_work (up r) + flow_work (down r) + Nat.b2n (negb (returned r)).
Definition sources_over (r : relay) : Prop := ended (up r) = true /\ ended (down r) = true.

Lemma loop_step_work b f f' : loop_step b f f' -> ended f' = ended f /\ (flow_work f' < flow_work f)%nat.
Proof. destruct 1 as [f n Hc Hn|f Hc _ _|f n Hc]; unfold flow_work; cbn; rewrite ?length_drop, Hc; cbn; split; (done || lia). Qed.

Lemma relay_step_work k r r' : relay_step k r r' -> sources_over r -> sources_over r' /\ (work r' < work r)%nat.
Proof.
  intros H [Hu Hd]. destruct H as [r f H|r f H|r Cu Cd Hn].
  - apply loop_step_work in H as [He Hw]. unfold sources_over, work. cbn. rewrite He. split; [done|]. lia.
  - apply loop_step_work in H as [He Hw]. unfold sources_over, work. cbn. rewrite He. split; [done|]. lia.
  - unfold sources_over, work, return_relay, flow_work. cbn. rewrite Hn. split; [done|]. cbn. lia.
Qed.

Lemma peer_step_work r r' : peer_step r r' -> sources_over r -> sources_over r' /\ work r' = work r.
Proof. intros H [Hu Hd]. destruct H as [r f H|r f H]; inversion H; subst; (congruence || done). Qed.

Lemma flow_progress b f : ended f = true -> copying f = false \/ exists f', loop_step b f f'.
Proof.
  intros He. destruct (copying f) eqn:Hc; [right|by left]. destruct (waiting f) eqn:Hw; [by eexists; apply Loop_ends|].
  exists (copy_round 1 f). apply Loop_copies; [done|]. rewrite Hw. cbn. lia.
Qed.

(** * Properties *)

(** C31: a relay is exact.  In every reachable state of each of the three relays, whatever the peers do,
    each side has been given an initial part of what the other sent, all of it when it was told that nothing
    more comes, unless that direction failed; and no relay returns while one of its loops runs. *)
Theorem relay_exact k r : reachable k r ->
  (forall f, f = up r \/ f = down r ->
     given f `prefix_of` total f /\ (told f = true -> given f = total f /\ ended f = true \/ failed f = true)) /\
  (returned r = true -> copying (up r) = false /\ copying (down r) = false).
Proof.
  intros (Hu & Hd & _ & _ & Hr & _)%relay_reachable_inv. split; [|done].
  assert (Hf : forall f, flow_inv f -> given f `prefix_of` total f /\ (told f = true -> given f = total f /\ ended f = true \/ failed f = true)).
  { intros f (Hp & Ht & Hc & Hto). split; [done|]. intros Hx%Hto. destruct (failed f) eqn:E; [by right|left].
    destruct (Hc Hx eq_refl) as [Hw He]. split; [|done]. rewrite <- Ht, Hw by done. by rewrite app_nil_r. }
  intros f [-> | ->]; auto.
Qed.

(** An end is passed on late.  The two relays of the daemon tell a side that the other has ended its
    sending only after this side has itself ended its sending, or its direction failed.  A client that
    waits for the end of the answer before it closes therefore never sees it. *)
Theorem end_needs_both k r : shuts_down k = false -> reachable k r ->
  (told (down r) = true -> ended (up r) = true \/ failed (up r) = true) /\
  (told (up r) = true -> ended (down r) = true \/ failed (down r) = true).
Proof.
  intros Hk (Hu & Hd & _ & _ & Hr & Td & Tu)%relay_reachable_inv.
  assert (Hf : forall f, flow_inv f -> copying f = false -> ended f = true \/ failed f = true).
  { intros f (_ & _ & Hc & _) Hco. destruct (failed f) eqn:E; [by right|left]. by apply Hc. }
  split; [intros Ht%Td|intros Ht%(Tu Hk)]; destruct (Hr Ht); auto.
Qed.

(** A relay ends.  Once both sources have ended their sending the relay makes at most as many more steps
    as there are bytes to copy and threads to end, however they take turns, and until it has returned one
    of them can go on. *)
Theorem relay_ends k r n r' : sources_over r -> runs k n r r' ->
  (n + work r' <= work r)%nat /\ (returned r' = true \/ exists r'', relay_step k r' r'').
Proof.
  intros Hs H. assert (sources_over r' /\ (n + work r' <= work r)%nat) as [[Hu Hd] Hw].
  { induction H as [|n r1 r2 r3 _ IH H|n r1 r2 r3 _ IH H]; [done| |]; destruct (IH Hs) as [Hs2 ?];
      [apply relay_step_work in H|apply peer_step_work in H]; try done; destruct H; (split; [done|]); lia. }
  split; [done|]. destruct (returned r') eqn:E; [by left|right].
  destruct (flow_progress (shuts_down k) (up r') Hu) as [Cu|[f Hf]]; [|by eexists; apply Up_step].
  destruct (flow_progress false (down r') Hd) as [Cd|[f Hf]]; [|by eexists; apply Down_step].
  eexists. by apply Returns.
Qed.

(** ** Concrete runs *)

(** The server answers [7] and ends its sending; the client waits for the end of the answer. *)
Definition answered : relay :=
  let r := open_relay true true true in
  let r := set_down (send [7%Z] (down r)) r in
  let r := set_down (end_sending (down r)) r in
  let r := set_down (copy_round 1 (down r)) r in
  set_down (copy_ends false (down r)) r.

Lemma answered_reachable k : reachable k answered.
Proof.
  exists 2%nat. unfold answered. eapply Runs_relay; [|by apply Down_step, Loop_ends].
  eapply Runs_relay; [|apply Down_step, Loop_copies; [done|cbn; lia]].
  eapply Runs_peer; [|apply Server_step, Source_ends]. eapply Runs_peer; [|by apply Server_step, Source_sends]. apply Runs_refl.
Qed.

Lemma relay_exact_witness : reachable RelayTcp answered /\
  (forall f, f = up answered \/ f = down answered ->
     given f `prefix_of` total f /\ (told f = true -> given f = total f /\ ended f = true \/ failed f = true)) /\
  (returned answered = true -> copying (up answered) = false /\ copying (down answered) = false).
Proof. split; [apply answered_reachable|]. exact (relay_exact RelayTcp answered (answered_reachable RelayTcp)). Defined.

(** Everything was delivered and no step of the relay is possible but the failure of the loop that waits
    for the client, yet the client has not been told the end. *)
Example end_not_passed_on : reachable Proxy answered /\ given (down answered) = total (down answered) /\
  ended (down answered) = true /\ told (down answered) = false /\
  (forall r, relay_step Proxy answered r -> failed (up r) = true).
Proof.
  split; [apply answered_reachable|]. repeat split. intros r H.
  inversion H as [r0 f Hf|r0 f Hf|r0 Hc]; subst; [| |discriminate Hc].
  - inversion Hf as [f0 n Hc Hn|f0 Hc Hw He|f0 n Hc]; subst; [cbn in Hn; lia|discriminate He|done].
  - inversion Hf as [f0 n Hc|f0 Hc|f0 n Hc]; discriminate Hc.
Qed.

(** Both sides are over and the relay returned. *)
Definition finished_relay : relay :=
  let r := set_up (copy_ends false (end_sending (up answered))) (set_up (end_sending (up answered)) answered) in return_relay r.

Lemma finished_reachable : reachable RelayTcp finished_relay.
Proof.
  destruct (answered_reachable RelayTcp) as [n H]. exists (S (S n)). unfold finished_relay.
  eapply Runs_relay; [|by apply Returns]. eapply Runs_relay; [|by apply Up_step, Loop_ends].
  eapply Runs_peer; [exact H|]. apply Client_step, Source_ends.
Qed.

Lemma end_needs_both_witness : shuts_down RelayTcp = false /\ reachable RelayTcp finished_relay /\ told (down finished_relay) = true /\
  (told (down finished_relay) = true -> ended (up finished_relay) = true \/ failed (up finished_relay) = true) /\
  (told (up finished_relay) = true -> ended (down finished_relay) = true \/ failed (down finished_relay) = true).
Proof.
  split; [reflexivity|]. split; [apply finished_reachable|]. split; [reflexivity|].
  exact (end_needs_both RelayTcp finished_relay eq_refl finished_reachable).
Defined.

(** The ssh relay passes the end of its input on at once. *)
Example ssh_half_close : relay_step SshRelayProxy (set_up (end_sending fresh) (open_relay true true true))
    (set_up (copy_ends true (end_sending fresh)) (open_relay true true true)) /\ told (copy_ends true (end_sending fresh)) = true.
Proof. split; [|done]. apply (Up_step _ (set_up (end_sending fresh) (open_relay true true true))). by apply Loop_ends. Qed.

Lemma relay_ends_witness : sources_over (set_up (end_sending (up answered)) answered) /\
  runs RelayTcp 0 (set_up (end_sending (up answered)) answered) (set_up (end_sending (up answered)) answered) /\
  (0 + work (set_up (end_sending (up answered)) answered) <= work (set_up (end_sending (up answered)) answered))%nat /\
  (returned (set_up (end_sending (up answered)) answered) = true \/ exists r'', relay_step RelayTcp (set_up (end_sending (up answered)) answered) r'').
Proof.
  assert (Hs : sources_over (set_up (end_sending (up answered)) answered)) by done.
  split; [exact Hs|]. split; [apply Runs_refl|]. exact (relay_ends RelayTcp _ 0 _ Hs (Runs_refl _ _)).
Defined.
