(* ===== verification/Paths.v ===== *)
(** The parts of [std::path] the program uses, on the bytes of Unix paths. *)

From S2P Require Import Prelude RustStd.

(** [Path::join]: an absolute component replaces what is before it. *)
Definition path_join (a b : str) : str :=
  if bool_decide (head b = Some "/"%char) then b
  else if bool_decide (a = []) || bool_decide (last a = Some "/"%char) then a ++ b
  else a ++ #"/" ++ b.

(** The components of a path, by which [Path] is compared: empty components and, but at the start of a
    relative path, [.] do not count. *)
Definition components (p : str) : bool * list str :=
  let absolute := bool_decide (head p = Some "/"%char) in
  let counts (c : str) := negb (bool_decide (c = []) || bool_decide (c = #".")) in
  (absolute,
   match split_char "/"%char p with
   | c :: cs => (if negb absolute && bool_decide (c = #".") then [c] else List.filter counts [c]) ++ List.filter counts cs
   | [] => []
   end).

Definition same_paths (a b : list str) : bool := bool_decide (map components a = map components b).

(** [Path::starts_with], by components. *)
Definition path_starts_with (p base : str) : bool :=
  bool_decide (fst (components p) = fst (components base)) &&
  bool_decide (take (length (snd (components base))) (snd (components p)) = snd (components base)).

(** [Path::strip_prefix]: the components after those of the base. *)
Definition path_strip_prefix (p base : str) : option str :=
  if path_starts_with p base
  then Some (join #"/" (drop (length (snd (components base))) (snd (components p))))
  else None.

Definition is_absolute (p : str) : bool := bool_decide (head p = Some "/"%char).

(** A reversed path without trailing separators and [.] components. *)
Fixpoint strip_back (r : str) : str :=
  match r with
  | [] => []
  | c :: r' =>
      if decide (c = "/"%char) then match r' with [] => r | _ => strip_back r' end
      else if decide (c = "."%char) then
        match r' with d :: _ => if decide (d = "/"%char) then strip_back r' else r | [] => r end
      else r
  end.

Fixpoint back_component (r : str) : str :=
  match r with
  | [] => []
  | c :: r => if decide (c = "/"%char) then [] else c :: back_component r
  end.

(** [Path::file_name] and [Path::parent]. *)
Definition file_name (p : str) : option str :=
  let c := rev (back_component (strip_back (rev p))) in
  if bool_decide (c ∈ [ []; #"."; #".." ]) then None else Some c.

Definition parent (p : str) : option str :=
  let r := strip_back (rev p) in
  if bool_decide (r ∈ [ []; #"/" ]) then None
  else Some (rev (strip_back (drop (length (back_component r)) r))).

Example components_examples :
  map components [ #"/a//b/./c/"; #"./a"; #"a/."; #"/" ]
  = [(true, [ #"a"; #"b"; #"c"]); (false, [ #"."; #"a"]); (false, [ #"a"]); (true, [])].
Proof. vm_compute. reflexivity. Qed.

Example file_name_examples :
  map file_name [ #"/usr/bin/"; #"tmp/foo.txt"; #"foo.txt/."; #"foo.txt/.."; #"/"; #"a"; #"." ]
  = [Some #"bin"; Some #"foo.txt"; Some #"foo.txt"; None; None; Some #"a"; None].
Proof. vm_compute. reflexivity. Qed.

Example parent_examples :
  map parent [ #"/usr/bin/"; #"/a"; #"a"; #"/"; []; #"a/b/." ]
  = [Some #"/usr"; Some #"/"; Some []; None; None; Some #"a"].
Proof. vm_compute. reflexivity. Qed.
