(* ===== verification/Json.v ===== *)
(** The interface of the JSON library the program uses ([serde_json::Value]): parsing and the accessors
    of a value.  The library is not part of the repository, so components take an implementation as a
    parameter; the instance here, trees with a table of texts, lets examples run. *)

From S2P Require Import Prelude RustStd.

(** [serde_json::from_str], [Value::get] with a key, [as_str], [as_i64], [as_array] and [as_object]. *)
Class Json := {
  Value : Type;
  from_str : str -> option Value;
  get : str -> Value -> option Value;
  as_str : Value -> option str;
  as_i64 : Value -> option Z;
  as_array : Value -> option (list Value);
  as_object : Value -> option (list (str * Value)) }.

(** [Option::and_then] *)
Definition and_then {A B : Type} (o : option A) (f : A -> option B) : option B :=
  match o with Some a => f a | None => None end.

(** ** Trees *)

Inductive tree : Type :=
| TStr (s : str)
| TInt (z : Z)
| TBool (b : bool)
| TArr (l : list tree)
| TObj (m : list (str * tree))
| TOther.

Definition tree_get (k : str) (t : tree) : option tree :=
  match t with
  | TObj m => snd <$> List.find (fun kv => bool_decide (fst kv = k)) m
  | _ => None
  end.

(** The JSON library that knows the texts of [table]. *)
Definition tree_json (table : list (str * tree)) : Json := {|
  Value := tree;
  from_str s := snd <$> List.find (fun kv => bool_decide (fst kv = s)) table;
  get := tree_get;
  as_str t := match t with TStr s => Some s | _ => None end;
  as_i64 t := match t with TInt z => Some z | _ => None end;
  as_array t := match t with TArr l => Some l | _ => None end;
  as_object t := match t with TObj m => Some m | _ => None end |}.

(** ** A codec for any countable type: the binary digits of its number *)

Fixpoint pos_digits (p : positive) : str :=
  match p with xH => [] | xO p => "0"%char :: pos_digits p | xI p => "1"%char :: pos_digits p end.
Fixpoint digits_pos (s : str) : positive :=
  match s with [] => xH | c :: s => if decide (c = "0"%char) then xO (digits_pos s) else xI (digits_pos s) end.
Lemma digits_pos_digits p : digits_pos (pos_digits p) = p.
Proof. induction p as [p IH|p IH|]; cbn; [by rewrite IH..|done]. Qed.

Definition to_digits {A} `{Countable A} (x : A) : str := pos_digits (encode x).
Definition of_digits {A} `{Countable A} (s : str) : option A := decode (digits_pos s).
Lemma of_to_digits {A} `{Countable A} (x : A) : of_digits (to_digits x) = Some x.
Proof. unfold of_digits, to_digits. by rewrite digits_pos_digits, decode_encode. Qed.

(** The same between braces, as the JSON form of an object is. *)
Definition to_braces {A} `{Countable A} (x : A) : str := "{"%char :: to_digits x ++ ["}"%char].
Definition of_braces {A} `{Countable A} (s : str) : option A := of_digits (removelast (drop 1 s)).

Lemma of_to_braces {A} `{Countable A} (x : A) : of_braces (to_braces x) = Some x.
Proof. unfold of_braces, to_braces. change (drop 1 _) with (to_digits x ++ ["}"%char]). by rewrite removelast_last, of_to_digits. Qed.

Lemma pos_digits_not_nl p : NL ∉ pos_digits p.
Proof. induction p as [p IH|p IH|]; cbn; [by apply not_elem_of_cons..|apply not_elem_of_nil]. Qed.

Lemma to_braces_line {A} `{Countable A} (x : A) : NL ∉ to_braces x.
Proof.
  unfold to_braces. apply not_elem_of_cons. split; [done|]. apply not_elem_of_app. split; [apply pos_digits_not_nl|].
  by apply not_elem_of_cons; split; [|apply not_elem_of_nil].
Qed.

Lemma to_braces_tight {A} `{Countable A} (x : A) : tight (to_braces x).
Proof. exists "{"%char, "}"%char, (to_digits x). split; [done|]. split; [done|]. by right. Qed.

(** A decoder that takes nothing but such a text. *)
Definition strict_braces {A} `{Countable A} (s : str) : option A :=
  r ← of_braces s; if decide (to_braces r = s) then Some r else None.

Lemma strict_to_braces {A} `{Countable A} (x : A) : strict_braces (to_braces x) = Some x.
Proof. unfold strict_braces. rewrite of_to_braces. cbn. by rewrite decide_True. Qed.

Lemma strict_braces_some {A} `{Countable A} (s : str) (x : A) : strict_braces s = Some x -> s = to_braces x.
Proof. unfold strict_braces. destruct (of_braces s); cbn; [|done]. case_decide; congruence. Qed.

Lemma pos_digits_binary p c : c ∈ pos_digits p -> c = "0"%char \/ c = "1"%char.
Proof. induction p as [p IH|p IH|]; cbn; [intros [->|Hc]%elem_of_cons; auto..|]. by intros ?%elem_of_nil. Qed.

(** No part of an encoding is one, and neither is an object with a key. *)
Lemma strict_braces_cut {A} `{Countable A} (x : A) q : q `prefix_of` to_braces x -> q <> to_braces x -> strict_braces (A := A) q = None.
Proof.
  intros [t Ht] Hne. destruct (strict_braces q) as [y|] eqn:E; [|done]. apply strict_braces_some in E. subst q. exfalso.
  destruct t as [|a t] using rev_ind; [by rewrite app_nil_r in Ht|]. unfold to_braces in Ht. injection Ht as Ht.
  rewrite <- app_assoc, app_assoc, (app_assoc _ t) in Ht. apply app_inj_tail in Ht as [Ht _].
  assert (Hin : "}"%char ∈ to_digits x) by (rewrite Ht, !elem_of_app; left; right; by apply elem_of_cons; left).
  by apply pos_digits_binary in Hin as [|].
Qed.

Lemma strict_braces_key {A} `{Countable A} c t q : c <> "0"%char -> c <> "1"%char -> c <> "}"%char ->
  q `prefix_of` "{"%char :: c :: t -> strict_braces (A := A) q = None.
Proof.
  intros H0 H1 H2 Hq. destruct (strict_braces q) as [y|] eqn:E; [|done]. apply strict_braces_some in E. subst q. exfalso.
  unfold to_braces in Hq. apply prefix_cons_inv_2 in Hq. destruct (to_digits y) as [|d ds] eqn:E; apply prefix_cons_inv_1 in Hq.
  - done.
  - destruct (pos_digits_binary (encode y) c); [|done..]. change (c ∈ to_digits y). rewrite E. subst. by apply elem_of_cons; left.
Qed.
