(* ===== verification/GuestEvents.v ===== *)
(** Container events of the guest daemon ([pelagos-guest/src/main.rs]): the reader of the container
    state files, the difference of two polls, the poller, the broadcast to the bounded channels of the
    subscribers and the subscriber connections. *)

From S2P Require Import Prelude RustStd Json.

#[local] Open Scope Z_scope.

(** * Data *)

Record ContainerSnapshot := mkSnap {
  name : str; status : str; pid : Z; rootfs : str; started_at : str;
  exit_code : option Z; ports : list str }.

Inductive GuestEvent : Type :=
| Snapshot (containers : list ContainerSnapshot) (vm_running : bool)
| ContainerStarted (container : ContainerSnapshot)
| ContainerExited (name : str) (exit_code : option Z)
| Heartbeat (ts : Z).

(** * Reading the state files *)

Section Read.
Context {J : Json}.

(** [val.get(key).and_then(|v| v.as_str()).unwrap_or(d)] *)
Definition str_field (key d : str) (val : Value) : str := unwrap_or (and_then (get key val) as_str) d.

(** The record of one state file; [None]: it has no name. *)
Definition snapshot_of (val : Value) : option ContainerSnapshot :=
  let nm := str_field #"name" [] val in
  if bool_decide (nm = []) then None
  else Some (mkSnap nm (str_field #"status" #"unknown" val)
    (as_i32 (as_u32 (unwrap_or (and_then (get #"pid" val) as_i64) 0)))
    (str_field #"rootfs" [] val) (str_field #"started_at" [] val)
    (option_map (fun c => as_i32 (as_u32 c)) (and_then (get #"exit_code" val) as_i64))
    (unwrap_or (option_map (omap as_str)
       (and_then (and_then (get #"spawn_config" val) (get #"publish")) as_array)) [])).

(** The order of strings, and a stable sort by name. *)
Fixpoint str_le (a b : str) : bool :=
  match a, b with
  | [], _ => true
  | _ :: _, [] => false
  | c :: a, d :: b => (byte_of c <? byte_of d) || ((byte_of c =? byte_of d) && str_le a b)
  end.
Fixpoint insert_by_name (c : ContainerSnapshot) (l : list ContainerSnapshot) : list ContainerSnapshot :=
  match l with
  | [] => [c]
  | d :: l' => if str_le (name c) (name d) then c :: l else d :: insert_by_name c l'
  end.
Definition sort_by_name (l : list ContainerSnapshot) : list ContainerSnapshot := foldr insert_by_name [] l.

(** [read_container_states]: [None] is a directory that cannot be read; an entry is the text of its
    [state.json], if it can be read. *)
Definition read_container_states (dir : option (list (option str))) : list ContainerSnapshot :=
  match dir with
  | None => []
  | Some entries => sort_by_name (omap (fun e => and_then (and_then e from_str) snapshot_of) entries)
  end.
End Read.

(** * The difference of two polls *)

Definition RUNNING : str := #"running".
Definition is_running (c : ContainerSnapshot) : bool := bool_decide (status c = RUNNING).

Definition find_name (n : str) (l : list ContainerSnapshot) : option ContainerSnapshot :=
  List.find (fun c => bool_decide (name c = n)) l.

(** The body of the loop over the current containers. *)
Definition appeared (prev : list ContainerSnapshot) (c : ContainerSnapshot) : list GuestEvent :=
  match find_name (name c) prev with
  | None => ContainerStarted c :: (if negb (is_running c) then [ContainerExited (name c) (exit_code c)] else [])
  | Some p => if negb (is_running p) && is_running c then [ContainerStarted c] else []
  end.

(** The body of the loop over the previous ones. *)
Definition vanished (current : list ContainerSnapshot) (p : ContainerSnapshot) : list GuestEvent :=
  match find_name (name p) current with
  | None => [ContainerExited (name p) (exit_code p)]
  | Some c => if is_running p && negb (is_running c) then [ContainerExited (name c) (exit_code c)] else []
  end.

Definition diff_container_states (prev current : list ContainerSnapshot) : list GuestEvent :=
  flat_map (appeared prev) current ++ flat_map (vanished current) prev.

(** * Channels, connections and the poller *)

(** A subscriber connection: the events queued in its channel, whether its receiver still exists, and
    what was written to its socket, the oldest first.  [lost] only records that a full channel lost
    events. *)
Record conn := mkConn { queue : list GuestEvent; open : bool; sent : list GuestEvent; lost : bool }.

(** The poller's previous poll, the senders of [subscriber_list] as indices of connections, and the
    connections. *)
Record sys := mkSys { prev : list ContainerSnapshot; subs : list nat; conns : list conn }.

Definition CHANNEL : nat := 256.

(** The sends of one batch to one subscriber, and whether it is retained. *)
Fixpoint send_batch (events : list GuestEvent) (c : conn) : conn * bool :=
  match events with
  | [] => (c, true)
  | e :: es =>
      if negb (open c) then (c, false)
      else if (CHANNEL <=? length (queue c))%nat
           then (mkConn (queue c) (open c) (sent c) true, true)
           else send_batch es (mkConn (queue c ++ [e]) (open c) (sent c) (lost c))
  end.

(** [retain] over the list of senders. *)
Fixpoint retain_subs (events : list GuestEvent) (ids : list nat) (cs : list conn) : list nat * list conn :=
  match ids with
  | [] => ([], cs)
  | i :: ids =>
      match cs !! i with
      | None => retain_subs events ids cs
      | Some c =>
          let '(c', keep) := send_batch events c in
          let '(ids', cs') := retain_subs events ids (<[i := c']> cs) in
          (if keep then i :: ids' else ids', cs')
      end
  end.

Definition broadcast_events (events : list GuestEvent) (s : sys) : sys :=
  let '(ids, cs) := retain_subs events (subs s) (conns s) in
  mkSys (prev s) ids cs.

(** One round of [event_poller_loop]. *)
Definition poll (current : list ContainerSnapshot) (s : sys) : sys :=
  let events := diff_container_states (prev s) current in
  let s := if bool_decide (events = []) then s else broadcast_events events s in
  mkSys current (subs s) (conns s).

(** The registration at the start of [handle_subscribe]. *)
Definition register (s : sys) : sys :=
  mkSys (prev s) (subs s ++ [length (conns s)]) (conns s ++ [mkConn [] true [] false]).

Definition at_conn (i : nat) (f : conn -> conn) (s : sys) : sys :=
  mkSys (prev s) (subs s) (alter f i (conns s)).

(** [send_event] on a connection: a failure ends [handle_subscribe], which drops the receiver. *)
Definition write_event (e : GuestEvent) (ok : bool) (c : conn) : conn :=
  if ok then mkConn (queue c) (open c) (sent c ++ [e]) (lost c)
  else mkConn (queue c) false (sent c) (lost c).

(** Sending the snapshot, which is the first thing written. *)
Definition send_snapshot (read : list ContainerSnapshot) (ok : bool) (c : conn) : conn :=
  if open c && bool_decide (sent c = []) then write_event (Snapshot read true) ok c else c.

(** A round of the loop of [handle_subscribe]: an event is taken and written, or, when there is none,
    the timeout writes a heartbeat. *)
Definition stream_round (ts : Z) (ok : bool) (c : conn) : conn :=
  if negb (open c) || bool_decide (sent c = []) then c
  else match queue c with
       | e :: q => write_event e ok (mkConn q (open c) (sent c) (lost c))
       | [] => write_event (Heartbeat ts) ok c
       end.

(** The steps of the threads: the poller reads the containers; a client subscribes; connection [i]
    sends its snapshot, which is the containers read then; connection [i] goes round its loop. *)
Inductive act : Type :=
| Poll (current : list ContainerSnapshot)
| Subscribe
| SendSnapshot (i : nat) (read : list ContainerSnapshot) (ok : bool)
| Stream (i : nat) (ts : Z) (ok : bool).

Definition step (s : sys) (a : act) : sys :=
  match a with
  | Poll current => poll current s
  | Subscribe => register s
  | SendSnapshot i read ok => at_conn i (send_snapshot read ok) s
  | Stream i ts ok => at_conn i (stream_round ts ok) s
  end.

Definition boot (first : list ContainerSnapshot) : sys := mkSys first [] [].
Definition run_acts (first : list ContainerSnapshot) (acts : list act) : sys := fold_left step acts (boot first).

(** * What a client sees *)

(** The names of the containers that run. *)
Definition running_names (l : list ContainerSnapshot) : gset str := list_to_set (map name (List.filter is_running l)).

(** A client's set of running containers after an event. *)
Definition view_event (v : gset str) (e : GuestEvent) : gset str :=
  match e with
  | Snapshot cs _ => running_names cs
  | ContainerStarted c => {[ name c ]} ∪ v
  | ContainerExited n _ => v ∖ {[ n ]}
  | Heartbeat _ => v
  end.
Definition view (v : gset str) (es : list GuestEvent) : gset str := fold_left view_event es v.

(** The events of a sequence of polls after [first]. *)
Fixpoint diffs (first : list ContainerSnapshot) (polls : list (list ContainerSnapshot)) : list GuestEvent :=
  match polls with
  | [] => []
  | p :: ps => diff_container_states first p ++ diffs p ps
  end.

Definition polls_of (acts : list act) : list (list ContainerSnapshot) :=
  omap (fun a => match a with Poll c => Some c | _ => None end) acts.

(** The container events among what a connection was sent. *)
Definition is_container_event (e : GuestEvent) : bool :=
  match e with ContainerStarted _ | ContainerExited _ _ => true | _ => false end.
Definition events_of (l : list GuestEvent) : list GuestEvent := List.filter is_container_event l.

Definition unique_names (l : list ContainerSnapshot) : Prop := NoDup (map name l).

(** * Lemmas *)

(** What an event says about one container. *)
Definition says (n : str) (e : GuestEvent) : option bool :=
  match e with
  | ContainerStarted c => if bool_decide (name c = n) then Some true else None
  | ContainerExited m _ => if bool_decide (m = n) then Some false else None
  | _ => None
  end.

Definition runs (n : str) (l : list ContainerSnapshot) : bool :=
  match find_name n l with Some c => is_running c | None => false end.

Lemma find_name_some n l c : find_name n l = Some c -> c ∈ l /\ name c = n.
Proof.
  intros H. apply List.find_some in H as [Hin Hn]. apply bool_decide_eq_true in Hn.
  split; [by apply list_elem_of_In | done].
Qed.

Lemma find_name_none n l : find_name n l = None -> n ∉ map name l.
Proof.
  unfold find_name. intros H Hin. apply list_elem_of_fmap in Hin as (c & -> & Hc).
  apply list_elem_of_In in Hc. pose proof (List.find_none _ _ H c Hc) as Hn. cbn in Hn.
  by rewrite bool_decide_eq_true_2 in Hn.
Qed.

Lemma find_name_unique n l c : unique_names l -> c ∈ l -> name c = n -> find_name n l = Some c.
Proof.
  intros Hu Hc Hn. induction l as [|d l IH]; [by apply elem_of_nil in Hc|].
  unfold unique_names in Hu. cbn in Hu. apply NoDup_cons in Hu as [Hd Hu]. cbn. case_bool_decide as Hdn.
  - apply elem_of_cons in Hc as [->|Hc]; [done|]. destruct Hd. rewrite Hdn, <- Hn.
    by apply list_elem_of_fmap_2.
  - apply elem_of_cons in Hc as [->|Hc]; [done|]. by apply IH.
Qed.

Lemma runs_running_names n l : unique_names l -> n ∈ running_names l <-> runs n l = true.
Proof.
  intros Hu. unfold running_names, runs. rewrite elem_of_list_to_set, list_elem_of_fmap. split.
  - intros (c & -> & Hc). apply list_elem_of_In, filter_In in Hc as [Hc Hr].
    by rewrite (find_name_unique (name c) l c) by (try apply list_elem_of_In; done).
  - destruct (find_name n l) as [c|] eqn:E; [|done]. intros Hr. apply find_name_some in E as [Hc Hn].
    exists c. split; [done|]. apply list_elem_of_In, filter_In. split; [by apply list_elem_of_In | done].
Qed.

(** Only the last event about a container matters to the view of it. *)
Lemma view_says n es : forall v,
  Forall (fun e => is_container_event e = true) es ->
  n ∈ view v es <-> match last (omap (says n) es) with Some b => b = true | None => n ∈ v end.
Proof.
  induction es as [|e es IH] using rev_ind; intros v Hes; [done|].
  apply Forall_app in Hes as [Hes He]. apply Forall_cons in He as [He _].
  unfold view. rewrite fold_left_app. cbn [fold_left]. change (fold_left view_event es v) with (view v es).
  rewrite omap_app. destruct e as [|c|m x|]; try done; simpl; case_bool_decide.
  - rewrite last_snoc. set_solver.
  - rewrite app_nil_r, <- IH by done. set_solver.
  - rewrite last_snoc. set_solver.
  - rewrite app_nil_r, <- IH by done. set_solver.
Qed.

(** A loop whose rounds speak of one container each, about a given one. *)
Lemma says_flat_map n (g : ContainerSnapshot -> list GuestEvent) l :
  unique_names l -> (forall d, name d <> n -> omap (says n) (g d) = []) ->
  omap (says n) (flat_map g l) = match find_name n l with Some c => omap (says n) (g c) | None => [] end.
Proof.
  intros Hu Hg. induction l as [|d l IH]; [done|].
  unfold unique_names in Hu. cbn in Hu. apply NoDup_cons in Hu as [Hd Hu].
  cbn [flat_map]. rewrite omap_app, IH by done. cbn [find_name List.find]. unfold find_name. cbn [List.find].
  case_bool_decide as E.
  - destruct (List.find _ l) as [c|] eqn:F; [|by rewrite app_nil_r].
    apply find_name_some in F as [Hc Hn]. destruct Hd. rewrite E, <- Hn. by apply list_elem_of_fmap_2.
  - by rewrite Hg.
Qed.

Lemma diff_events prv cur : Forall (fun e => is_container_event e = true) (diff_container_states prv cur).
Proof.
  apply Forall_app; split; apply Forall_flat_map, Forall_forall; intros c _.
  - unfold appeared. repeat case_goal; repeat constructor.
  - unfold vanished. repeat case_goal; repeat constructor.
Qed.

(** What the difference of two polls says of a container. *)
Lemma says_diff n prv cur :
  unique_names prv -> unique_names cur ->
  omap (says n) (diff_container_states prv cur)
  = match find_name n prv, find_name n cur with
    | None, None => []
    | None, Some c => if is_running c then [true] else [true; false]
    | Some _, None => [false]
    | Some p, Some c =>
        if negb (is_running p) && is_running c then [true]
        else if is_running p && negb (is_running c) then [false] else []
    end.
Proof.
  intros Hp Hc. unfold diff_container_states. rewrite omap_app, !says_flat_map; try done.
  - destruct (find_name n prv) as [p|] eqn:Ep, (find_name n cur) as [c|] eqn:Ec; try done.
    + destruct (find_name_some _ _ _ Ep) as [_ Hpn]. destruct (find_name_some _ _ _ Ec) as [_ Hcn].
      unfold appeared, vanished. rewrite Hcn, Hpn, Ep, Ec.
      destruct (is_running p), (is_running c); cbn; by rewrite ?bool_decide_eq_true_2.
    + destruct (find_name_some _ _ _ Ep) as [_ Hpn]. unfold vanished. rewrite Hpn, Ec. cbn.
      by rewrite ?bool_decide_eq_true_2.
    + destruct (find_name_some _ _ _ Ec) as [_ Hcn]. unfold appeared. rewrite Hcn, Ep.
      destruct (is_running c); cbn; by rewrite ?bool_decide_eq_true_2.
  - intros d Hd. unfold vanished. destruct (find_name (name d) cur) as [c|] eqn:E.
    + apply find_name_some in E as [_ E]. case_goal; cbn; [|done]. by rewrite E, bool_decide_eq_false_2.
    + cbn. by rewrite bool_decide_eq_false_2.
  - intros d Hd. unfold appeared. repeat case_goal; cbn; by rewrite ?bool_decide_eq_false_2.
Qed.

(** After the events of a poll, a view that agreed with the poll before or with this one, container by
    container, is right. *)
Lemma view_diff v prv cur :
  unique_names prv -> unique_names cur ->
  (forall n, (n ∈ v <-> runs n prv = true) \/ (n ∈ v <-> runs n cur = true)) ->
  view v (diff_container_states prv cur) = running_names cur.
Proof.
  intros Hp Hc Hv. apply set_eq. intros n. rewrite view_says, says_diff, runs_running_names by (done || apply diff_events).
  specialize (Hv n). unfold runs in *.
  destruct (find_name n prv) as [p|], (find_name n cur) as [c|];
    try destruct (is_running p); try destruct (is_running c); cbn in *; intuition congruence.
Qed.

(** ** Broadcasts *)

Lemma send_batch_spec es : forall c c' keep, send_batch es c = (c', keep) ->
  open c' = open c /\ sent c' = sent c /\ (open c = true -> keep = true) /\
  exists pre, queue c' = queue c ++ pre /\ pre `sublist_of` es /\
    (open c = true -> lost c' = false -> lost c = false /\ pre = es).
Proof.
  induction es as [|e es IH]; intros c c' keep; cbn [send_batch].
  { intros [= <- <-]. split_and!; try done. exists []. rewrite app_nil_r. split_and!; done. }
  destruct (open c) eqn:Ho; cbn [negb].
  2: { intros [= <- <-]. split_and!; try done; try congruence. exists []. rewrite app_nil_r.
       split_and!; [done | apply sublist_nil_l | congruence]. }
  case_goal.
  - intros [= <- <-]. split_and!; try done. exists []. rewrite app_nil_r. split_and!; [done | apply sublist_nil_l | done].
  - intros H. apply IH in H as (H1 & H2 & H3 & pre & H4 & H5 & H6). cbn in *. rewrite ?Ho in *.
    split_and!; try done. exists (e :: pre). rewrite H4, <- app_assoc. split; [done|].
    split; [by apply sublist_skip|]. intros _ Hl. destruct (H6 eq_refl Hl) as [? ->]. done.
Qed.

Lemma retain_subs_length es ids : forall cs, length (retain_subs es ids cs).2 = length cs.
Proof.
  induction ids as [|i ids IH]; intros cs; [done|]. cbn [retain_subs].
  destruct (cs !! i) as [c|]; [|apply IH]. destruct (send_batch es c) as [c' keep].
  specialize (IH (<[i:=c']> cs)). destruct (retain_subs es ids (<[i:=c']> cs)) as [ids' cs'].
  cbn in *. by rewrite IH, length_insert.
Qed.

(** The broadcast reaches every listed connection once and leaves the others alone; it drops no sender
    whose receiver exists. *)
Lemma retain_subs_spec es ids : forall cs ids' cs', NoDup ids -> retain_subs es ids cs = (ids', cs') ->
  NoDup ids' /\ (forall i, i ∈ ids' -> i ∈ ids) /\
  forall i c, cs !! i = Some c ->
    exists c' keep, cs' !! i = Some c' /\
      (if bool_decide (i ∈ ids) then send_batch es c = (c', keep) /\ (keep = true -> i ∈ ids') else c' = c).
Proof.
  induction ids as [|j ids IH]; intros cs ids' cs' Hnd; cbn [retain_subs].
  { intros [= <- <-]. split_and!; try done. intros i c Hc. exists c, true. split; [done|].
    by rewrite bool_decide_eq_false_2 by apply not_elem_of_nil. }
  apply NoDup_cons in Hnd as [Hj Hnd]. destruct (cs !! j) as [d|] eqn:Ej.
  - destruct (send_batch es d) as [d' keep] eqn:Es.
    destruct (retain_subs es ids (<[j:=d']> cs)) as [ids1 cs1] eqn:Er. intros [= <- <-].
    destruct (IH _ _ _ Hnd Er) as (N1 & S1 & C1).
    split; [destruct keep; [constructor; [|done]; intros Hin; by apply Hj, S1 | done]|].
    split; [intros i Hi; destruct keep; [apply elem_of_cons in Hi as [->|Hi]; [left|right; by apply S1] | right; by apply S1]|].
    intros i c Hc. destruct (decide (i = j)) as [->|Hij].
    + simplify_eq. destruct (C1 j d') as (c1 & k1 & E1 & H1).
      { apply list_lookup_insert_eq. by eapply lookup_lt_Some. }
      rewrite bool_decide_eq_false_2 in H1 by done. subst. exists d', keep. split; [done|].
      rewrite bool_decide_eq_true_2 by left. split; [done|]. intros ->. left.
    + destruct (C1 i c) as (c1 & k1 & E1 & H1); [by rewrite list_lookup_insert_ne|].
      exists c1, k1. split; [done|]. case_bool_decide as Hi.
      * rewrite bool_decide_eq_true_2 by (by right). destruct H1 as [H1 K1]. split; [done|].
        intros Hk. destruct keep; [right|]; by apply K1.
      * rewrite bool_decide_eq_false_2; [done|]. by intros [->|?]%elem_of_cons.
  - intros Hr. destruct (IH _ _ _ Hnd Hr) as (N1 & S1 & C1). split; [done|].
    split; [intros i Hi; right; by apply S1|].
    intros i c Hc. destruct (C1 i c Hc) as (c1 & k1 & E1 & H1). exists c1, k1. split; [done|].
    assert (i <> j) by congruence. case_bool_decide as Hi.
    + by rewrite bool_decide_eq_true_2 by (by right).
    + rewrite bool_decide_eq_false_2; [done|]. by intros [->|?]%elem_of_cons.
Qed.

(** ** One connection through the steps *)

(** The senders are distinct, exist, and include every connection that is open. *)
Definition subs_ok (s : sys) : Prop :=
  NoDup (subs s) /\ (forall i, i ∈ subs s -> (i < length (conns s))%nat) /\
  forall i c, conns s !! i = Some c -> open c = true -> i ∈ subs s.

(** A connection after the events [es]: nothing else was queued, nothing twice and nothing out of
    order, and nothing is missing unless it was closed or lost a batch. *)
Definition tracks (es : list GuestEvent) (c : conn) : Prop :=
  events_of (sent c) ++ queue c `sublist_of` es /\
  (open c = true -> lost c = false -> events_of (sent c) ++ queue c = es) /\
  Forall (fun e => is_container_event e = true) (queue c) /\
  (sent c = [] \/ exists l rest, sent c = Snapshot l true :: rest).

Definition new_events (s : sys) (a : act) : list GuestEvent :=
  match a with Poll cur => diff_container_states (prev s) cur | _ => [] end.

Lemma broadcast_subs_ok es s : subs_ok s -> subs_ok (broadcast_events es s).
Proof.
  intros (Hnd & Hlt & Hopen). unfold broadcast_events.
  destruct (retain_subs es (subs s) (conns s)) as [ids' cs'] eqn:Er.
  pose proof (retain_subs_length es (subs s) (conns s)) as Hlen. rewrite Er in Hlen. cbn in Hlen.
  destruct (retain_subs_spec _ _ _ _ _ Hnd Er) as (N & S & C).
  split; [done|]. split; cbn; [intros j Hj; rewrite Hlen; by apply Hlt, S|].
  intros j cj Hj Hoj. destruct (conns s !! j) as [c0|] eqn:E0.
  - destruct (C j c0 E0) as (c1 & k & E1 & H1). simplify_eq.
    case_bool_decide as Hin; [|subst; destruct Hin; by eapply Hopen].
    destruct H1 as [H1 K]. apply K. apply send_batch_spec in H1 as (O & _ & K1 & _). apply K1. congruence.
  - apply lookup_ge_None in E0. apply lookup_lt_Some in Hj. lia.
Qed.

Lemma broadcast_tracks es s i c d :
  subs_ok s -> Forall (fun e => is_container_event e = true) es ->
  conns s !! i = Some c -> tracks d c ->
  exists c', conns (broadcast_events es s) !! i = Some c' /\ tracks (d ++ es) c'.
Proof.
  intros (Hnd & Hlt & Hopen) Hes Hc (T1 & T2 & T3 & T4). unfold broadcast_events.
  destruct (retain_subs es (subs s) (conns s)) as [ids' cs'] eqn:Er.
  destruct (retain_subs_spec _ _ _ _ _ Hnd Er) as (N & S & C).
  destruct (C i c Hc) as (c' & k & E' & H'). exists c'. split; [done|]. case_bool_decide as Hin.
  - destruct H' as [H' _]. apply send_batch_spec in H' as (O & Se & _ & pre & Q & Sub & L).
    split_and!.
    + rewrite Se, Q, app_assoc. by apply sublist_app.
    + rewrite O, Se, Q, app_assoc. intros Ho Hl. destruct (L Ho Hl) as [Hl0 ->]. by rewrite T2.
    + rewrite Q. apply Forall_app. split; [done|].
      apply Forall_forall. intros e He. rewrite Forall_forall in Hes. apply Hes. by eapply elem_of_sublist.
    + by rewrite Se.
  - subst c'. split_and!; try done.
    + by apply sublist_inserts_r.
    + intros Ho. destruct Hin. by eapply Hopen.
Qed.

Lemma at_conn_ok f s : (forall c, open (f c) = true -> open c = true) -> forall i, subs_ok s -> subs_ok (at_conn i f s).
Proof.
  intros Hf i (Hnd & Hlt & Hopen). split; [done|]. cbn. rewrite length_alter. split; [done|].
  intros j c Hj Ho. destruct (decide (i = j)) as [->|Hne].
  - rewrite list_lookup_alter_eq in Hj. destruct (conns s !! j) as [c0|] eqn:E; [|done]. cbn in Hj. simplify_eq.
    eapply Hopen; eauto.
  - rewrite list_lookup_alter_ne in Hj by done. by eapply Hopen.
Qed.

Lemma write_event_open e ok c : open (write_event e ok c) = true -> open c = true.
Proof. by destruct ok. Qed.

Lemma send_snapshot_tracks d read ok c : tracks d c -> tracks d (send_snapshot read ok c).
Proof.
  intros Ht. pose proof Ht as (T1 & T2 & T3 & T4). unfold send_snapshot. destruct (open c) eqn:Ho; [|exact Ht].
  cbn [andb]. case_bool_decide as Hs; [|exact Ht]. rewrite Hs in *. destruct ok; cbn.
  - unfold tracks. cbn. rewrite Hs, Ho. cbn in *. split_and!; try done. right. by exists read, [].
  - unfold tracks. cbn. rewrite Hs. cbn in *. split_and!; try done.
Qed.

Lemma stream_round_tracks d ts ok c : tracks d c -> tracks d (stream_round ts ok c).
Proof.
  intros Ht. pose proof Ht as (T1 & T2 & T3 & T4). unfold stream_round.
  destruct (open c) eqn:Ho; [|exact Ht]. cbn [negb orb].
  case_bool_decide as Hs; [exact Ht|]. destruct T4 as [|(l & rest & T4)]; [done|].
  destruct (queue c) as [|e q] eqn:Eq.
  - destruct ok; unfold tracks; cbn; rewrite Eq, ?Ho.
    + unfold events_of in *. rewrite List.filter_app. cbn. rewrite app_nil_r. split_and!; try done. right.
      exists l, (rest ++ [Heartbeat ts]). by rewrite T4.
    + split_and!; try done. right. by exists l, rest.
  - apply Forall_cons in T3 as [He Hq]. destruct ok; unfold tracks; cbn.
    + unfold events_of in *. rewrite List.filter_app. cbn. rewrite He, <- app_assoc. split_and!; try done. right.
      exists l, (rest ++ [e]). by rewrite T4.
    + split_and!; try done; [|right; by exists l, rest].
      etrans; [|exact T1]. apply sublist_app; [done|]. by apply sublist_cons.
Qed.

Lemma register_subs_ok s : subs_ok s -> subs_ok (register s).
Proof.
  intros (Hnd & Hlt & Hopen). unfold register. split; [|split]; cbn.
  - apply NoDup_app. split; [done|]. split; [|repeat constructor; by apply not_elem_of_nil].
    intros k Hk ->%list_elem_of_singleton. apply Hlt in Hk. lia.
  - intros k Hk. rewrite length_app. cbn. apply elem_of_app in Hk as [Hk|Hk%list_elem_of_singleton]; [|lia].
    apply Hlt in Hk. lia.
  - intros k ck Hk Ho. apply elem_of_app. apply lookup_app_Some in Hk as [Hk|[Hge Hk]]; [left; by eapply Hopen|].
    right. apply list_elem_of_singleton. apply lookup_lt_Some in Hk. cbn in Hk. lia.
Qed.

Lemma step_subs_ok s a : subs_ok s -> subs_ok (step s a).
Proof.
  intros Hok. destruct a as [cur| |j read ok|j ts ok]; cbn [step].
  - unfold poll. case_bool_decide; [|destruct (broadcast_subs_ok (diff_container_states (prev s) cur) _ Hok) as (?&?&?); done].
    destruct Hok as (?&?&?). done.
  - by apply register_subs_ok.
  - apply at_conn_ok; [|done]. intros c0. unfold send_snapshot. case_goal; [apply write_event_open|done].
  - apply at_conn_ok; [|done]. intros c0. unfold stream_round.
    repeat case_goal; intros H; try done; exact (write_event_open _ _ _ H).
Qed.

Lemma step_tracks s a i c d :
  subs_ok s -> conns s !! i = Some c -> tracks d c ->
  exists c', conns (step s a) !! i = Some c' /\ tracks (d ++ new_events s a) c'.
Proof.
  intros Hok Hc Ht. destruct a as [cur| |j read ok|j ts ok]; cbn [step new_events]; rewrite ?app_nil_r.
  - unfold poll. case_bool_decide as He; cbn [conns].
    + rewrite He, app_nil_r. by exists c.
    + exact (broadcast_tracks _ _ _ _ _ Hok (diff_events (prev s) cur) Hc Ht).
  - exists c. split; [|done]. cbn. by apply lookup_app_l_Some.
  - cbn. destruct (decide (j = i)) as [->|Hne].
    + eexists. rewrite list_lookup_alter_eq, Hc. split; [done|]. by apply send_snapshot_tracks.
    + rewrite list_lookup_alter_ne by done. by exists c.
  - cbn. destruct (decide (j = i)) as [->|Hne].
    + eexists. rewrite list_lookup_alter_eq, Hc. split; [done|]. by apply stream_round_tracks.
    + rewrite list_lookup_alter_ne by done. by exists c.
Qed.

Lemma broadcast_prev es s : prev (broadcast_events es s) = prev s.
Proof. unfold broadcast_events. by destruct (retain_subs _ _ _). Qed.

Lemma acts_subs_ok acts s : subs_ok s -> subs_ok (fold_left step acts s).
Proof. revert s. induction acts as [|a acts IH]; intros s Hs; [done|]. by apply IH, step_subs_ok. Qed.

Lemma acts_track acts : forall s i c d, subs_ok s -> conns s !! i = Some c -> tracks d c ->
  exists c', conns (fold_left step acts s) !! i = Some c' /\ tracks (d ++ diffs (prev s) (polls_of acts)) c'.
Proof.
  induction acts as [|a acts IH]; intros s i c d Hok Hc Ht.
  { exists c. cbn. by rewrite app_nil_r. }
  destruct (step_tracks s a i c d Hok Hc Ht) as (c1 & Hc1 & Ht1).
  destruct (IH _ _ _ _ (step_subs_ok s a Hok) Hc1 Ht1) as (c2 & Hc2 & Ht2).
  exists c2. split; [done|]. rewrite <- app_assoc in Ht2. destruct a; exact Ht2.
Qed.

(** * Properties *)

(** C17: a subscriber gets every event of every poll since it subscribed, in order.  For every
    interleaving of the poller, of subscriptions, of snapshots and of the connections' rounds, with
    writes that fail or not: the container events written to a connection, followed by those queued,
    are a subsequence of the events of the polls after its registration, and all of them as long as
    the connection is open and its channel has never been full; before them comes the snapshot. *)
Theorem subscriber_stream first before after :
  let s := run_acts first before in
  let s' := run_acts first (before ++ Subscribe :: after) in
  let es := diffs (prev s) (polls_of after) in
  exists c, conns s' !! length (conns s) = Some c /\
    events_of (sent c) ++ queue c `sublist_of` es /\
    (open c = true -> lost c = false -> events_of (sent c) ++ queue c = es) /\
    (sent c = [] \/ exists l rest, sent c = Snapshot l true :: rest).
Proof.
  intros s s' es.
  assert (Hok : subs_ok s).
  { apply acts_subs_ok. split; [constructor|]. split; [intros i Hi; by apply elem_of_nil in Hi | done]. }
  destruct (acts_track after (register s) (length (conns s)) (mkConn [] true [] false) []) as (c & Hc & T1 & T2 & _ & T4).
  - by apply register_subs_ok.
  - cbn. rewrite lookup_app_r by done. by rewrite Nat.sub_diag.
  - split_and!; try done. by left.
  - exists c. split; [|done]. unfold s', run_acts. rewrite fold_left_app. exact Hc.
Qed.

Lemma view_diffs_tail ps : forall p0, unique_names p0 -> Forall unique_names ps ->
  view (running_names p0) (diffs p0 ps) = running_names (List.last ps p0).
Proof.
  induction ps as [|p ps IH]; intros p0 H0 Hps; [done|].
  apply Forall_cons in Hps as [Hp Hps]. cbn [diffs]. unfold view. rewrite fold_left_app.
  change (fold_left view_event (diff_container_states p0 p) (running_names p0))
    with (view (running_names p0) (diff_container_states p0 p)).
  rewrite view_diff by (try done; intros n; left; by apply runs_running_names).
  change (view (running_names p) (diffs p ps) = running_names (List.last (p :: ps) p0)). rewrite IH by done.
  destruct ps as [|q ps]; [done|]. f_equal. cbn. clear. revert q. induction ps; intros; [done|]. cbn in *. apply IHps.
Qed.

(** A client that follows the stream knows what runs.  If the containers have distinct names, and
    each one's snapshot agrees with the poll before or the poll after it (it did not change twice in
    between), then after the snapshot and the events of the polls that follow the client's set of
    running containers is that of the last poll. *)
Theorem view_converges snap before after polls :
  unique_names before -> unique_names after -> unique_names snap -> Forall unique_names polls ->
  (forall n, runs n snap = runs n before \/ runs n snap = runs n after) ->
  view ∅ (Snapshot snap true :: diffs before (after :: polls)) = running_names (List.last polls after).
Proof.
  intros Hb Ha Hs Hp Hn. unfold view. cbn [fold_left view_event diffs]. rewrite fold_left_app.
  change (fold_left view_event (diff_container_states before after) (running_names snap))
    with (view (running_names snap) (diff_container_states before after)).
  rewrite view_diff; [by apply view_diffs_tail|done|done|].
  intros n. rewrite runs_running_names by done. destruct (Hn n) as [->| ->]; auto.
Qed.

Definition web (st : str) : ContainerSnapshot := mkSnap #"web" st 7 #"/r" #"t" None [].
Definition db (st : str) : ContainerSnapshot := mkSnap #"db" st 8 #"/r" #"t" (Some 0) [].

Lemma view_converges_witness :
  view ∅ (Snapshot [web RUNNING] true :: diffs [] [[db #"exited"; web RUNNING]; [db RUNNING]]) = {[ #"db" ]}.
Proof.
  rewrite (view_converges [web RUNNING] [] [db #"exited"; web RUNNING] [[db RUNNING]]).
  - vm_compute. reflexivity.
  - apply NoDup_nil_2.
  - by eapply bool_decide_eq_true_1; vm_compute.
  - by eapply bool_decide_eq_true_1; vm_compute.
  - repeat constructor. by eapply bool_decide_eq_true_1; vm_compute.
  - intros n. right. unfold runs, find_name. cbn. unfold is_running, RUNNING. repeat case_bool_decide; try done; by simplify_eq.
Defined.

(** A container that starts and exits between two polls while the snapshot is taken stays running for
    the client. *)
Example flap_missed :
  view ∅ (Snapshot [web RUNNING] true :: diffs [web #"exited"] [[web #"exited"]]) = {[ #"web" ]}.
Proof. vm_compute. reflexivity. Qed.
