(* ===== verification/GuestProto.v ===== *)
(** The messages between the host and the guest daemon ([pelagos-guest/src/main.rs], protocol types;
    [pelagos-mac/src/main.rs] declares the same ones): one JSON line per message, whose form is in [Protocol]. *)

From S2P Require Import Prelude RustStd.

#[local] Open Scope Z_scope.

Record GuestMount := mkMount { tag : str; subpath : str; container_path : str }.

(** The fields [Run] and [Exec] share; a map of environment variables is the list of its pairs in the
    order of iteration. *)
Record Launch := mkLaunch {
  image : str; args : list str; env : list (str * str); mounts : list GuestMount;
  cname : option str; labels : list str; publish : list str; network : option str; dns : list str }.

Inductive GuestCommand : Type :=
| Run (l : Launch) (detach : bool)
| Exec (l : Launch) (tty : bool)
| ExecInto (container : str) (args : list str) (env : list (str * str)) (tty : bool) (workdir : option str)
| Ps (all json : bool)
| Logs (name : str) (follow : bool)
| ContainerInspect (name : str)
| ContainerPrune
| Start (name : str) (interactive : bool) (cmd_override : list str)
| Stop (name : str)
| Restart (name : str) (time : Z)
| Rm (name : str) (force : bool)
| Shell (tty : bool)
| Ping
| Version
| Build (tag dockerfile : str) (build_args : list str) (no_cache : bool) (context_size : nat)
| Volume (sub : str) (name : option str)
| Network (sub : str) (args : list str)
| CpFrom (container src : str)
| CpTo (container dst : str) (data_size : nat)
| Subscribe
| ImageLs (json : bool)
| ImagePull (reference : str)
| ImageRm (reference : str)
| ImageTag (source target : str)
| ImageInspect (reference : str)
| ImageLogin (registry username password : str)
| ImageLogout (registry : str)
| Compose (subcommand file working_dir : str) (project : option str) (args : list str) (env : list (str * str))
| KubernetesStatus
| KubernetesStart
| KubernetesStop.

Inductive StreamKind : Type := Stdout | Stderr.

Inductive GuestResponse : Type :=
| Stream (stream : StreamKind) (data : str)
| Exit (exit : Z)
| Pong (pong : bool)
| Error (error : str)
| Ready (ready : bool)
| RawBytes (size : nat)
| VersionInfo (guest : str) (runtime kernel : option str)
| KubernetesState (running : bool).

(** A subprocess: program, arguments, variables added to its environment, working directory. *)
Record Command := mkCmd { prog : str; argv : list str; envs : list (str * str); cwd : option str }.

Definition cmd0 (prog : str) (argv : list str) : Command := mkCmd prog argv [] None.

(** ** Replies

    Most commands are answered by any number of stream messages and one last message.  [RawBytes]
    announces a payload, after which the reply goes on; [Ready] ends the JSON part of a connection that
    switches to frames. *)
Definition is_progress (r : GuestResponse) : bool :=
  match r with Stream _ _ | RawBytes _ => true | _ => false end.

Definition complete (rs : list GuestResponse) : Prop :=
  exists progress last, rs = progress ++ [last] /\
    Forall (fun r => is_progress r = true) progress /\ is_progress last = false.

Definition pending (rs : list GuestResponse) : Prop := Forall (fun r => is_progress r = true) rs.

Lemma complete_last r : is_progress r = false -> complete [r].
Proof. intros H. by exists [], r. Qed.

Lemma complete_cons r rs : is_progress r = true -> complete rs -> complete (r :: rs).
Proof.
  intros Hr (p & l & -> & Hp & Hl). exists (r :: p), l. split; [done|]. split; [by constructor|done].
Qed.

Lemma complete_app ps rs : pending ps -> complete rs -> complete (ps ++ rs).
Proof. intros Hp Hc. induction Hp; [done|]. by apply complete_cons. Qed.

Lemma pending_app ps qs : pending ps -> pending qs -> pending (ps ++ qs).
Proof. intros. by apply Forall_app. Qed.

(** Responses can be listed, so that they have a textual form to run examples with. *)
#[export] Instance GuestResponse_eq_dec : EqDecision GuestResponse.
Proof. assert (EqDecision StreamKind) by solve_decision. solve_decision. Defined.

#[export] Instance GuestResponse_countable : Countable GuestResponse.
Proof.
  refine (inj_countable'
    (fun r => match r with
              | Stream Stdout d => (0, d, None, None)
              | Stream Stderr d => (1, d, None, None)
              | Exit z => (2, [], None, Some (inl z))
              | Pong b => (3, [], None, Some (inr b))
              | Error e => (4, e, None, None)
              | Ready b => (5, [], None, Some (inr b))
              | RawBytes n => (6, [], None, Some (inl (Z.of_nat n)))
              | VersionInfo g r k => (7, g, Some (r, k), None)
              | KubernetesState b => (8, [], None, Some (inr b))
              end)
    (fun x : Z * str * option (option str * option str) * option (Z + bool) =>
       match x with
       | (0, d, _, _) => Stream Stdout d
       | (1, d, _, _) => Stream Stderr d
       | (2, _, _, Some (inl z)) => Exit z
       | (3, _, _, Some (inr b)) => Pong b
       | (4, e, _, _) => Error e
       | (5, _, _, Some (inr b)) => Ready b
       | (6, _, _, Some (inl z)) => RawBytes (Z.to_nat z)
       | (7, g, Some (r, k), _) => VersionInfo g r k
       | (8, _, _, Some (inr b)) => KubernetesState b
       | _ => Ready false
       end) _).
  intros [[|] | | | | | | |]; try done. cbn. by rewrite Nat2Z.id.
Defined.
