(* ===== verification/Protocol.v ===== *)
(** The JSON form of every message: what each program writes and what the program at the other end makes of it.
    Host and guest declare the message types each on their own (pelagos-mac/src/main.rs, daemon.rs;
    pelagos-guest/src/main.rs) and serde derives the codecs from the declarations and their attributes. *)

From S2P Require Import Prelude RustStd JsonText GuestProto PortDaemon.
From S2P Require GuestEvents.

#[local] Open Scope Z_scope.

(** * Derived decoders

    A struct is read from an object, by the names of its fields, or from an array, by their order. *)
Inductive fields : Type := Named (m : list (str * jval)) | Positional (l : list jval).

Definition D (A : Type) : Type := fields -> option (A * fields).

Definition dret {A} (a : A) : D A := fun f => Some (a, f).
Definition dbind {A B} (d : D A) (k : A -> D B) : D B := fun f => '(a, f) ← d f; k a f.
Notation "x <~ d ;; k" := (dbind d (fun x => k)) (at level 100, d at next level, right associativity).

(** The values of a key. *)
Definition look (k : str) (m : list (str * jval)) : list jval := omap (fun kv => if decide (kv.1 = k) then Some kv.2 else None) m.

(** A field, and what it is when it is missing. An unknown field is ignored, a field that comes twice is refused. *)
Definition field {A} (missing missing_at : option A) (k : str) (dec : jval -> option A) : D A := fun f =>
  match f with
  | Named m => match look k m with [] => a ← missing; Some (a, f) | [v] => a ← dec v; Some (a, f) | _ => None end
  | Positional [] => a ← missing_at; Some (a, f)
  | Positional (v :: l) => a ← dec v; Some (a, Positional l)
  end.

Definition required {A} (k : str) (dec : jval -> option A) : D A := field None None k dec.
(** [#[serde(default)]] *)
Definition defaulted {A} (d : A) (k : str) (dec : jval -> option A) : D A := field (Some d) (Some d) k dec.

(** Nothing is left over. *)
Definition finish {A} (r : option (A * fields)) : option A :=
  match r with Some (a, Named _) | Some (a, Positional []) => Some a | _ => None end.

Definition struct {A} (d : D A) (v : jval) : option A :=
  match v with JObj m => finish (d (Named m)) | JArr l => finish (d (Positional l)) | _ => None end.

(** Enums: [#[serde(tag = ...)]] puts the variant's name beside its fields; without it, the variant is an object
    of one entry. *)
Definition variant {A} (table : list (str * D A)) (t : str) : option (D A) :=
  snd <$> List.find (fun kv => bool_decide (kv.1 = t)) table.

Definition untag (tag : str) (v : jval) : option (str * fields) :=
  match v with
  | JObj m => match look tag m with
              | [JStr t] => Some (t, Named (filter (fun kv => kv.1 <> tag) m))
              | _ => None
              end
  | JArr (JStr t :: l) => Some (t, Positional l)
  | _ => None
  end.

Definition internal {A} (tag : str) (table : list (str * D A)) (v : jval) : option A :=
  '(t, f) ← untag tag v; d ← variant table t; finish (d f).

Definition external {A} (table : list (str * D A)) (v : jval) : option A :=
  match v with JObj [(t, c)] => d ← variant table t; struct d c | _ => None end.

(** Values. *)
Definition dec_str (v : jval) : option str := match v with JStr s => Some s | _ => None end.
Definition dec_bool (v : jval) : option bool := match v with JBool b => Some b | _ => None end.
Definition dec_int (lo hi : Z) (v : jval) : option Z :=
  match v with JNum z => if (lo <=? z) && (z <=? hi) then Some z else None | _ => None end.
Definition dec_u16 : jval -> option Z := dec_int 0 65535.
Definition dec_i32 : jval -> option Z := dec_int (-2147483648) 2147483647.
Definition dec_u64 : jval -> option Z := dec_int 0 U64_MAX.
Definition dec_size (v : jval) : option nat := Z.to_nat <$> dec_u64 v.
Definition dec_vec {A} (dec : jval -> option A) (v : jval) : option (list A) := match v with JArr l => mapM dec l | _ => None end.
Definition dec_strs : jval -> option (list str) := dec_vec dec_str.
Definition dec_option {A} (dec : jval -> option A) (v : jval) : option (option A) :=
  match v with JNull => Some None | v => Some <$> dec v end.

(** An [Option] without a default may be missing by name. *)
Definition optional {A} (k : str) (dec : jval -> option A) : D (option A) := field (Some None) None k (dec_option dec).

(** A [HashMap], in the order of its traversal: the last value of a key counts. *)
Definition rehash (order : gmap str str -> list (str * str)) (env : list (str * str)) : list (str * str) :=
  order (list_to_map (rev env)).
Definition dec_map (order : gmap str str -> list (str * str)) (v : jval) : option (list (str * str)) :=
  match v with
  | JObj m => rehash order <$> mapM (fun kv => s ← dec_str kv.2; Some (kv.1, s)) m
  | _ => None
  end.

(** * Derived encoders: the fields, without those that are skipped *)

Definition fld (k : str) (v : jval) : list (str * jval) := [(k, v)].
Definition unless (b : bool) (k : str) (v : jval) : list (str * jval) := if b then [] else [(k, v)].
(** [skip_serializing_if = "Option::is_none"], ["is_false"] and ["is_empty"] *)
Definition some_fld {A} (k : str) (enc : A -> jval) (o : option A) : list (str * jval) := match o with Some a => [(k, enc a)] | None => [] end.
Definition true_fld (k : str) (b : bool) : list (str * jval) := unless (negb b) k (JBool b).
Definition enc_strs (l : list str) : jval := JArr (map JStr l).
Definition enc_map (env : list (str * str)) : jval := JObj (map (fun kv => (kv.1, JStr kv.2)) env).
Definition enc_option {A} (enc : A -> jval) (o : option A) : jval := match o with Some a => enc a | None => JNull end.
Definition enc_size (n : nat) : jval := JNum (Z.of_nat n).
Definition empty {A} (l : list A) : bool := match l with [] => true | _ => false end.
Definition strs_fld (k : str) (l : list str) : list (str * jval) := unless (empty l) k (enc_strs l).

(** * Requests *)

(** ** What the host writes *)

Definition encode_mount (m : GuestMount) : jval :=
  JObj (fld #"tag" (JStr (tag m)) ++ unless (empty (subpath m)) #"subpath" (JStr (subpath m))
        ++ fld #"container_path" (JStr (container_path m))).
Definition mounts_fld (l : list GuestMount) : list (str * jval) := unless (empty l) #"mounts" (JArr (map encode_mount l)).
Definition map_fld (env : list (str * str)) : list (str * jval) := unless (empty env) #"env" (enc_map env).

(** The name of the variant and its fields. *)
Definition command_fields (c : GuestCommand) : str * list (str * jval) :=
  match c with
  | Run l detach =>
      (#"run", fld #"image" (JStr (image l)) ++ fld #"args" (enc_strs (args l)) ++ mounts_fld (mounts l)
        ++ some_fld #"name" JStr (cname l) ++ true_fld #"detach" detach ++ map_fld (env l) ++ strs_fld #"labels" (labels l)
        ++ strs_fld #"publish" (publish l) ++ some_fld #"network" JStr (network l) ++ strs_fld #"dns" (dns l))
  | Exec l tty =>
      (#"exec", fld #"image" (JStr (image l)) ++ fld #"args" (enc_strs (args l)) ++ fld #"env" (enc_map (env l))
        ++ fld #"tty" (JBool tty) ++ some_fld #"name" JStr (cname l) ++ mounts_fld (mounts l) ++ strs_fld #"labels" (labels l)
        ++ strs_fld #"publish" (publish l) ++ some_fld #"network" JStr (network l) ++ strs_fld #"dns" (dns l))
  | ExecInto container args env tty workdir =>
      (#"exec_into", fld #"container" (JStr container) ++ fld #"args" (enc_strs args) ++ fld #"env" (enc_map env)
        ++ fld #"tty" (JBool tty) ++ fld #"workdir" (enc_option JStr workdir))
  | Shell tty => (#"shell", true_fld #"tty" tty)
  | Ps all json => (#"ps", true_fld #"all" all ++ true_fld #"json" json)
  | Logs name follow => (#"logs", fld #"name" (JStr name) ++ true_fld #"follow" follow)
  | ContainerInspect name => (#"container_inspect", fld #"name" (JStr name))
  | ContainerPrune => (#"container_prune", [])
  | Start name interactive cmd_override =>
      (#"start", fld #"name" (JStr name) ++ true_fld #"interactive" interactive ++ strs_fld #"cmd_override" cmd_override)
  | Stop name => (#"stop", fld #"name" (JStr name))
  | Restart name time => (#"restart", fld #"name" (JStr name) ++ fld #"time" (JNum time))
  | Rm name force => (#"rm", fld #"name" (JStr name) ++ true_fld #"force" force)
  | Ping => (#"ping", [])
  | Version => (#"version", [])
  | Subscribe => (#"subscribe", [])
  | KubernetesStatus => (#"kubernetes_status", [])
  | KubernetesStart => (#"kubernetes_start", [])
  | KubernetesStop => (#"kubernetes_stop", [])
  | Build tag dockerfile build_args no_cache context_size =>
      (#"build", fld #"tag" (JStr tag) ++ fld #"dockerfile" (JStr dockerfile) ++ strs_fld #"build_args" build_args
        ++ true_fld #"no_cache" no_cache ++ fld #"context_size" (enc_size context_size))
  | Volume sub name => (#"volume", fld #"sub" (JStr sub) ++ some_fld #"name" JStr name)
  | Network sub args => (#"network", fld #"sub" (JStr sub) ++ strs_fld #"args" args)
  | CpFrom container src => (#"cp_from", fld #"container" (JStr container) ++ fld #"src" (JStr src))
  | CpTo container dst data_size =>
      (#"cp_to", fld #"container" (JStr container) ++ fld #"dst" (JStr dst) ++ fld #"data_size" (enc_size data_size))
  | ImageLs json => (#"image_ls", true_fld #"json" json)
  | ImagePull reference => (#"image_pull", fld #"reference" (JStr reference))
  | ImageRm reference => (#"image_rm", fld #"reference" (JStr reference))
  | ImageTag source target => (#"image_tag", fld #"source" (JStr source) ++ fld #"target" (JStr target))
  | ImageInspect reference => (#"image_inspect", fld #"reference" (JStr reference))
  | ImageLogin registry username password =>
      (#"image_login", fld #"registry" (JStr registry) ++ fld #"username" (JStr username) ++ fld #"password" (JStr password))
  | ImageLogout registry => (#"image_logout", fld #"registry" (JStr registry))
  | Compose subcommand file working_dir project args env =>
      (#"compose", fld #"subcommand" (JStr subcommand) ++ fld #"file" (JStr file) ++ fld #"working_dir" (JStr working_dir)
        ++ some_fld #"project" JStr project ++ strs_fld #"args" args ++ map_fld env)
  end.

Definition encode_command (c : GuestCommand) : jval := JObj (fld #"cmd" (JStr (command_fields c).1) ++ (command_fields c).2).

(** ** What the guest reads *)

Definition default_restart_time : Z := 10.
Definition default_dockerfile : str := #"Dockerfile".

Definition mount_fields : D GuestMount :=
  tag <~ required #"tag" dec_str ;;
  subpath <~ defaulted [] #"subpath" dec_str ;;
  container_path <~ required #"container_path" dec_str ;;
  dret (mkMount tag subpath container_path).
Definition decode_mount : jval -> option GuestMount := struct mount_fields.

Section Decode.
Context (order : gmap str str -> list (str * str)).

Definition run_fields : D GuestCommand :=
  image <~ required #"image" dec_str ;;
  args <~ required #"args" dec_strs ;;
  env <~ defaulted (rehash order []) #"env" (dec_map order) ;;
  mounts <~ defaulted [] #"mounts" (dec_vec decode_mount) ;;
  name <~ defaulted None #"name" (dec_option dec_str) ;;
  detach <~ defaulted false #"detach" dec_bool ;;
  labels <~ defaulted [] #"labels" dec_strs ;;
  publish <~ defaulted [] #"publish" dec_strs ;;
  network <~ defaulted None #"network" (dec_option dec_str) ;;
  dns <~ defaulted [] #"dns" dec_strs ;;
  dret (Run (mkLaunch image args env mounts name labels publish network dns) detach).

Definition exec_fields : D GuestCommand :=
  image <~ required #"image" dec_str ;;
  args <~ required #"args" dec_strs ;;
  env <~ defaulted (rehash order []) #"env" (dec_map order) ;;
  tty <~ defaulted false #"tty" dec_bool ;;
  name <~ defaulted None #"name" (dec_option dec_str) ;;
  mounts <~ defaulted [] #"mounts" (dec_vec decode_mount) ;;
  labels <~ defaulted [] #"labels" dec_strs ;;
  publish <~ defaulted [] #"publish" dec_strs ;;
  network <~ defaulted None #"network" (dec_option dec_str) ;;
  dns <~ defaulted [] #"dns" dec_strs ;;
  dret (Exec (mkLaunch image args env mounts name labels publish network dns) tty).

Definition exec_into_fields : D GuestCommand :=
  container <~ required #"container" dec_str ;;
  args <~ required #"args" dec_strs ;;
  env <~ defaulted (rehash order []) #"env" (dec_map order) ;;
  tty <~ defaulted false #"tty" dec_bool ;;
  workdir <~ defaulted None #"workdir" (dec_option dec_str) ;;
  dret (ExecInto container args env tty workdir).

Definition build_fields : D GuestCommand :=
  tag <~ required #"tag" dec_str ;;
  dockerfile <~ defaulted default_dockerfile #"dockerfile" dec_str ;;
  build_args <~ defaulted [] #"build_args" dec_strs ;;
  no_cache <~ defaulted false #"no_cache" dec_bool ;;
  context_size <~ required #"context_size" dec_size ;;
  dret (Build tag dockerfile build_args no_cache context_size).

Definition compose_fields : D GuestCommand :=
  subcommand <~ required #"subcommand" dec_str ;;
  file <~ required #"file" dec_str ;;
  working_dir <~ required #"working_dir" dec_str ;;
  project <~ defaulted None #"project" (dec_option dec_str) ;;
  args <~ defaulted [] #"args" dec_strs ;;
  env <~ defaulted (rehash order []) #"env" (dec_map order) ;;
  dret (Compose subcommand file working_dir project args env).

Definition command_table : list (str * D GuestCommand) := [
  (#"run", run_fields);
  (#"exec", exec_fields);
  (#"exec_into", exec_into_fields);
  (#"ps", all <~ defaulted false #"all" dec_bool ;; json <~ defaulted false #"json" dec_bool ;; dret (Ps all json));
  (#"logs", name <~ required #"name" dec_str ;; follow <~ defaulted false #"follow" dec_bool ;; dret (Logs name follow));
  (#"container_inspect", name <~ required #"name" dec_str ;; dret (ContainerInspect name));
  (#"container_prune", dret ContainerPrune);
  (#"start", name <~ required #"name" dec_str ;; interactive <~ defaulted false #"interactive" dec_bool ;;
     cmd_override <~ defaulted [] #"cmd_override" dec_strs ;; dret (Start name interactive cmd_override));
  (#"stop", name <~ required #"name" dec_str ;; dret (Stop name));
  (#"restart", name <~ required #"name" dec_str ;; time <~ defaulted default_restart_time #"time" dec_u64 ;; dret (Restart name time));
  (#"rm", name <~ required #"name" dec_str ;; force <~ defaulted false #"force" dec_bool ;; dret (Rm name force));
  (#"shell", tty <~ defaulted false #"tty" dec_bool ;; dret (Shell tty));
  (#"ping", dret Ping);
  (#"version", dret Version);
  (#"build", build_fields);
  (#"volume", sub <~ required #"sub" dec_str ;; name <~ defaulted None #"name" (dec_option dec_str) ;; dret (Volume sub name));
  (#"network", sub <~ required #"sub" dec_str ;; args <~ defaulted [] #"args" dec_strs ;; dret (Network sub args));
  (#"cp_from", container <~ required #"container" dec_str ;; src <~ required #"src" dec_str ;; dret (CpFrom container src));
  (#"cp_to", container <~ required #"container" dec_str ;; dst <~ required #"dst" dec_str ;;
     data_size <~ required #"data_size" dec_size ;; dret (CpTo container dst data_size));
  (#"subscribe", dret Subscribe);
  (#"image_ls", json <~ defaulted false #"json" dec_bool ;; dret (ImageLs json));
  (#"image_pull", reference <~ defaulted [] #"reference" dec_str ;; dret (ImagePull reference));
  (#"image_rm", reference <~ defaulted [] #"reference" dec_str ;; dret (ImageRm reference));
  (#"image_tag", source <~ defaulted [] #"source" dec_str ;; target <~ defaulted [] #"target" dec_str ;; dret (ImageTag source target));
  (#"image_inspect", reference <~ defaulted [] #"reference" dec_str ;; dret (ImageInspect reference));
  (#"image_login", registry <~ required #"registry" dec_str ;; username <~ required #"username" dec_str ;;
     password <~ required #"password" dec_str ;; dret (ImageLogin registry username password));
  (#"image_logout", registry <~ required #"registry" dec_str ;; dret (ImageLogout registry));
  (#"compose", compose_fields);
  (#"kubernetes_status", dret KubernetesStatus);
  (#"kubernetes_start", dret KubernetesStart);
  (#"kubernetes_stop", dret KubernetesStop)].

Definition decode_command : jval -> option GuestCommand := internal #"cmd" command_table.

End Decode.

(** * Replies *)

(** ** What the guest writes *)

Definition stream_name (k : StreamKind) : str := match k with Stdout => #"stdout" | Stderr => #"stderr" end.

Definition response_fields (r : GuestResponse) : str * list (str * jval) :=
  match r with
  | Stream stream data => (#"stream", fld #"stream" (JStr (stream_name stream)) ++ fld #"data" (JStr data))
  | Exit exit => (#"exit", fld #"exit" (JNum exit))
  | Pong pong => (#"pong", fld #"pong" (JBool pong))
  | Error error => (#"error", fld #"error" (JStr error))
  | Ready ready => (#"ready", fld #"ready" (JBool ready))
  | RawBytes size => (#"raw_bytes", fld #"size" (enc_size size))
  | VersionInfo guest runtime kernel =>
      (#"version_info", fld #"guest" (JStr guest) ++ some_fld #"runtime" JStr runtime ++ some_fld #"kernel" JStr kernel)
  | KubernetesState running => (#"kubernetes_status", fld #"running" (JBool running))
  end.

Definition encode_response (r : GuestResponse) : jval := JObj [((response_fields r).1, JObj (response_fields r).2)].

(** ** What the host reads: of the stream only whether it is [stderr] *)

Definition stream_kind (stream : str) : StreamKind := if bool_decide (stream = #"stderr") then Stderr else Stdout.

Definition version_fields : D GuestResponse :=
  guest <~ defaulted [] #"guest" dec_str ;;
  runtime <~ defaulted None #"runtime" (dec_option dec_str) ;;
  kernel <~ defaulted None #"kernel" (dec_option dec_str) ;;
  dret (VersionInfo guest runtime kernel).

Definition response_table : list (str * D GuestResponse) := [
  (#"stream", stream <~ required #"stream" dec_str ;; data <~ required #"data" dec_str ;; dret (Stream (stream_kind stream) data));
  (#"exit", exit <~ required #"exit" dec_i32 ;; dret (Exit exit));
  (#"pong", pong <~ required #"pong" dec_bool ;; dret (Pong pong));
  (#"error", error <~ required #"error" dec_str ;; dret (Error error));
  (#"ready", ready <~ required #"ready" dec_bool ;; dret (Ready ready));
  (#"kubernetes_status", running <~ required #"running" dec_bool ;; dret (KubernetesState running));
  (#"raw_bytes", size <~ required #"size" dec_size ;; dret (RawBytes size));
  (#"version_info", version_fields)].

Definition decode_response : jval -> option GuestResponse := external response_table.

(** * Commands of the daemon: written and read by the host program *)

Definition daemon_fields (c : DaemonCmd) : str * list (str * jval) :=
  match c with
  | RegisterPort host_port container_port =>
      (#"RegisterPort", fld #"host_port" (JNum host_port) ++ fld #"container_port" (JNum container_port))
  | UnregisterPort host_port => (#"UnregisterPort", fld #"host_port" (JNum host_port))
  | TrackComposeProject project host_ports =>
      (#"TrackComposeProject", fld #"project" (JStr project) ++ fld #"host_ports" (JArr (map JNum host_ports)))
  | UnregisterComposePorts project => (#"UnregisterComposePorts", fld #"project" (JStr project))
  end.

Definition encode_daemon (c : DaemonCmd) : jval := JObj [((daemon_fields c).1, JObj (daemon_fields c).2)].

Definition daemon_table : list (str * D DaemonCmd) := [
  (#"RegisterPort", host_port <~ required #"host_port" dec_u16 ;; container_port <~ required #"container_port" dec_u16 ;;
     dret (RegisterPort host_port container_port));
  (#"UnregisterPort", host_port <~ required #"host_port" dec_u16 ;; dret (UnregisterPort host_port));
  (#"TrackComposeProject", project <~ required #"project" dec_str ;; host_ports <~ required #"host_ports" (dec_vec dec_u16) ;;
     dret (TrackComposeProject project host_ports));
  (#"UnregisterComposePorts", project <~ required #"project" dec_str ;; dret (UnregisterComposePorts project))].

Definition decode_daemon : jval -> option DaemonCmd := external daemon_table.

Definition encode_reply (r : DaemonResponse) : jval :=
  JObj (match r with
        | RespOk => fld #"status" (JStr #"ok")
        | RespErr message => fld #"status" (JStr #"err") ++ fld #"message" (JStr message)
        end).

Definition reply_table : list (str * D DaemonResponse) := [
  (#"ok", dret RespOk);
  (#"err", message <~ required #"message" dec_str ;; dret (RespErr message))].

Definition decode_reply : jval -> option DaemonResponse := internal #"status" reply_table.

(** * Events: written by the guest, read by the daemon *)

Definition encode_snapshot (s : GuestEvents.ContainerSnapshot) : jval :=
  JObj (fld #"name" (JStr (GuestEvents.name s)) ++ fld #"status" (JStr (GuestEvents.status s)) ++ fld #"pid" (JNum (GuestEvents.pid s))
        ++ fld #"rootfs" (JStr (GuestEvents.rootfs s)) ++ fld #"started_at" (JStr (GuestEvents.started_at s))
        ++ fld #"exit_code" (enc_option JNum (GuestEvents.exit_code s)) ++ fld #"ports" (enc_strs (GuestEvents.ports s))).

Definition event_fields (e : GuestEvents.GuestEvent) : str * list (str * jval) :=
  match e with
  | GuestEvents.Snapshot containers vm_running =>
      (#"snapshot", fld #"containers" (JArr (map encode_snapshot containers)) ++ fld #"vm_running" (JBool vm_running))
  | GuestEvents.ContainerStarted container => (#"container_started", fld #"container" (encode_snapshot container))
  | GuestEvents.ContainerExited name exit_code =>
      (#"container_exited", fld #"name" (JStr name) ++ fld #"exit_code" (enc_option JNum exit_code))
  | GuestEvents.Heartbeat ts => (#"heartbeat", fld #"ts" (JNum ts))
  end.

Definition encode_event (e : GuestEvents.GuestEvent) : jval := JObj (fld #"type" (JStr (event_fields e).1) ++ (event_fields e).2).

Definition watch_container : jval -> option (str * list str) :=
  struct (name <~ required #"name" dec_str ;; ports <~ defaulted [] #"ports" dec_strs ;; dret (name, ports)).

Definition watch_table : list (str * D WatchEvent) := [
  (#"snapshot", containers <~ required #"containers" (dec_vec watch_container) ;; dret (Snapshot containers));
  (#"container_started", container <~ required #"container" watch_container ;; dret (ContainerStarted container.1 container.2));
  (#"container_exited", name <~ required #"name" dec_str ;; dret (ContainerExited name))].

(** [#[serde(other)]]: every other type is [Unknown]. *)
Definition decode_watch (v : jval) : option WatchEvent :=
  '(t, f) ← untag #"type" v;
  match variant watch_table t with Some d => finish (d f) | None => finish (dret Unknown f) end.

(** [SUBSCRIBE_LINE] of the watcher. *)
Definition SUBSCRIBE_LINE : str := #"{" ++ [DQ] ++ #"cmd" ++ [DQ] ++ #":" ++ [DQ] ++ #"subscribe" ++ [DQ] ++ #"}" ++ [NL].

(** * Lemmas: decoding by name *)

Definition gets {A} (d : D A) (m : list (str * jval)) (a : A) : Prop := d (Named m) = Some (a, Named m).

Lemma gets_ret {A} (a : A) m : gets (dret a) m a.
Proof. done. Qed.

Lemma gets_bind {A B} (d : D A) (k : A -> D B) m a b : gets d m a -> gets (k a) m b -> gets (dbind d k) m b.
Proof. unfold gets, dbind. by intros ->. Qed.

Lemma gets_field {A} (m1 m2 : option A) k dec m v a : look k m = [v] -> dec v = Some a -> gets (field m1 m2 k dec) m a.
Proof. unfold gets, field. by intros -> ->. Qed.

Lemma gets_missing {A} (m2 : option A) k dec m a : look k m = [] -> gets (field (Some a) m2 k dec) m a.
Proof. unfold gets, field. by intros ->. Qed.

(** A field that is skipped when it has its default. *)
Lemma gets_unless {A} (b : bool) v (m2 : option A) k dec m d a : look k m = (if b then [] else [v]) -> (b = true -> a = d) -> dec v = Some a ->
  gets (field (Some d) m2 k dec) m a.
Proof. destruct b; intros Hl Ha Hd; [rewrite Ha by done; by apply gets_missing|by eapply gets_field]. Qed.

Lemma gets_some {A} (enc : A -> jval) (m2 : option (option A)) k dec m (o : option A) : look k m = match o with Some a => [enc a] | None => [] end ->
  (forall a, dec (enc a) = Some (Some a)) -> gets (field (Some None) m2 k dec) m o.
Proof. destruct o; intros Hl Hd; [by eapply gets_field|by apply gets_missing]. Qed.

Lemma look_app k a b : look k (a ++ b) = look k a ++ look k b.
Proof. apply omap_app. Qed.
Lemma look_fld k k' v : look k (fld k' v) = if bool_decide (k' = k) then [v] else [].
Proof. cbn. case_bool_decide; [by rewrite decide_True|by rewrite decide_False]. Qed.
Lemma look_unless k b k' v : look k (unless b k' v) = if bool_decide (k' = k) then if b then [] else [v] else [].
Proof. destruct b; cbn; [by case_bool_decide|]. case_bool_decide; [by rewrite decide_True|by rewrite decide_False]. Qed.
Lemma look_some_fld {A} k k' (enc : A -> jval) o : look k (some_fld k' enc o) =
  if bool_decide (k' = k) then match o with Some a => [enc a] | None => [] end else [].
Proof. destruct o; cbn; [|by case_bool_decide]. case_bool_decide; [by rewrite decide_True|by rewrite decide_False]. Qed.
Lemma look_nil k : look k [] = [].
Proof. done. Qed.

(** Which fields have a given name is computed. *)
Ltac keys :=
  repeat match goal with
  | |- context [bool_decide (?a = ?b)] => let r := eval vm_compute in (bool_decide (a = b)) in change (bool_decide (a = b)) with r; cbv iota
  end.
Ltac looks :=
  unfold mounts_fld, map_fld, strs_fld, true_fld;
  rewrite ?look_app, ?look_fld, ?look_unless, ?look_some_fld, ?look_nil; keys; rewrite ?app_nil_r; cbn [app]; reflexivity.

(** ** Values *)

Lemma dec_enc_strs l : dec_strs (enc_strs l) = Some l.
Proof. unfold dec_strs, enc_strs, dec_vec. induction l as [|s l IH]; [done|]. cbn in *. by rewrite IH. Qed.

Lemma dec_vec_map {A} (dec : jval -> option A) (enc : A -> jval) l : Forall (fun a => dec (enc a) = Some a) l -> dec_vec dec (JArr (map enc l)) = Some l.
Proof. unfold dec_vec. induction 1 as [|a l Ha Hl IH]; [done|]. cbn in *. by rewrite Ha, IH. Qed.

Lemma dec_enc_int lo hi z : lo <= z <= hi -> dec_int lo hi (JNum z) = Some z.
Proof. intros Hz. unfold dec_int. by rewrite (proj2 (Z.leb_le _ _)), (proj2 (Z.leb_le _ _)) by lia. Qed.

Lemma dec_enc_size n : Z.of_nat n <= U64_MAX -> dec_size (enc_size n) = Some n.
Proof. intros Hn. unfold dec_size, enc_size, dec_u64. rewrite dec_enc_int by lia. cbn. by rewrite Nat2Z.id. Qed.

Lemma dec_enc_map order env : dec_map order (enc_map env) = Some (rehash order env).
Proof.
  unfold dec_map, enc_map. enough (mapM (fun kv : str * jval => s ← dec_str kv.2; Some (kv.1, s)) (map (fun kv => (kv.1, JStr kv.2)) env) = Some env) as -> by done.
  induction env as [|[k v] env IH]; [done|]. cbn in *. by rewrite IH.
Qed.

Lemma empty_true {A} (l : list A) : empty l = true -> l = [].
Proof. by destruct l. Qed.

Lemma dec_enc_option_str o : dec_option dec_str (enc_option JStr o) = Some o.
Proof. by destruct o. Qed.

Create HintDb codec.
#[export] Hint Resolve dec_enc_strs dec_enc_map dec_enc_option_str : codec.

(** A decoder applied to what the encoder of the same type wrote. *)
Ltac decodes := solve [reflexivity | eauto with codec | apply dec_enc_int; lia | apply dec_enc_size; lia].
Ltac gets_one :=
  first
    [ eapply gets_unless; [looks| |decodes]; [first [done | by intros ->%empty_true | by intros ?%negb_true_iff] ]
    | eapply gets_some; [looks|done]
    | eapply gets_field; [looks|decodes] ].
Ltac gets_all := repeat (eapply gets_bind; [gets_one|]); apply gets_ret.

(** ** Structs and enums *)

Lemma finish_gets {A} (d : D A) m a : gets d m a -> finish (d (Named m)) = Some a.
Proof. unfold gets. by intros ->. Qed.

Lemma struct_gets {A} (d : D A) m a : gets d m a -> struct d (JObj m) = Some a.
Proof. unfold gets, struct. by intros ->. Qed.

Lemma external_gets {A} (table : list (str * D A)) t d m a : variant table t = Some d -> gets d m a -> external table (JObj [(t, JObj m)]) = Some a.
Proof. unfold external. intros -> H. cbn. by apply struct_gets. Qed.

(** The fields of a variant do not have the name of the tag. *)
Lemma untag_first tag t m : look tag m = [] -> untag tag (JObj (fld tag (JStr t) ++ m)) = Some (t, Named m).
Proof.
  intros Hl. unfold untag. rewrite look_app, look_fld, bool_decide_eq_true_2, Hl by done. cbn [app fld].
  rewrite filter_cons_False by (cbn; naive_solver). do 3 f_equal. unfold look in Hl. clear t. induction m as [|[k v] m IH]; [done|].
  cbn in Hl. case_decide as E; [done|]. rewrite filter_cons_True by done. by rewrite IH.
Qed.

Lemma internal_gets {A} tag (table : list (str * D A)) t d m a : look tag m = [] -> variant table t = Some d -> gets d m a ->
  internal tag table (JObj (fld tag (JStr t) ++ m)) = Some a.
Proof. unfold internal. intros Hl Hv Hd. rewrite untag_first by done. cbn. rewrite Hv. cbn. by rewrite Hd. Qed.

Lemma dec_enc_mount m : decode_mount (encode_mount m) = Some m.
Proof. apply struct_gets. destruct m. unfold mount_fields, defaulted, required. gets_all. Qed.

Lemma dec_enc_mounts l : dec_vec decode_mount (JArr (map encode_mount l)) = Some l.
Proof. apply dec_vec_map, Forall_forall. intros m _. apply dec_enc_mount. Qed.
#[export] Hint Resolve dec_enc_mount dec_enc_mounts : codec.

(** * Lemmas: requests *)

(** The numbers are of their types, and the variables of an environment distinct, as the keys of a [HashMap] are. *)
Definition good_command (c : GuestCommand) : Prop :=
  match c with
  | Run l _ | Exec l _ => NoDup (env l).*1
  | ExecInto _ _ env _ _ | Compose _ _ _ _ _ env => NoDup env.*1
  | Restart _ time => 0 <= time <= U64_MAX
  | Build _ _ _ _ size | CpTo _ _ size => Z.of_nat size <= U64_MAX
  | _ => True
  end.

(** The command with its environment as [f] makes it. *)
Definition map_env (f : list (str * str) -> list (str * str)) (c : GuestCommand) : GuestCommand :=
  let launch l := mkLaunch (image l) (args l) (f (env l)) (mounts l) (cname l) (labels l) (publish l) (network l) (dns l) in
  match c with
  | Run l detach => Run (launch l) detach
  | Exec l tty => Exec (launch l) tty
  | ExecInto container args env tty workdir => ExecInto container args (f env) tty workdir
  | Compose subcommand file working_dir project args env => Compose subcommand file working_dir project args (f env)
  | c => c
  end.

Section Commands.
Context (order : gmap str str -> list (str * str)).

Lemma run_decodes l detach : gets (run_fields order) (command_fields (Run l detach)).2 (map_env (rehash order) (Run l detach)).
Proof. destruct l. unfold run_fields, defaulted, required. cbn [command_fields snd map_env]. gets_all. Qed.

Lemma exec_decodes l tty : gets (exec_fields order) (command_fields (Exec l tty)).2 (map_env (rehash order) (Exec l tty)).
Proof. destruct l. unfold exec_fields, defaulted, required. cbn [command_fields snd map_env]. gets_all. Qed.

Lemma command_decodes c : good_command c -> exists d, variant (command_table order) (command_fields c).1 = Some d /\
  gets d (command_fields c).2 (map_env (rehash order) c).
Proof.
  intros Hc. destruct c; (eexists; split; [reflexivity|]); try apply run_decodes; try apply exec_decodes;
    unfold exec_into_fields, build_fields, compose_fields, defaulted, required; cbn [command_fields snd map_env good_command] in *; gets_all.
Qed.

Lemma no_cmd_field c : look #"cmd" (command_fields c).2 = [].
Proof. destruct c; cbn [command_fields snd]; looks. Qed.

Lemma decode_encode c : good_command c -> decode_command order (encode_command c) = Some (map_env (rehash order) c).
Proof. intros Hc. destruct (command_decodes c Hc) as (d & Hd & Hg). by eapply internal_gets; [apply no_cmd_field|exact Hd|]. Qed.

(** A hash map keeps the variables, if not their order. *)
Context (order_all : forall m, order m ≡ₚ map_to_list m).

Lemma rehash_permutation env : NoDup env.*1 -> rehash order env ≡ₚ env.
Proof.
  intros Hn. unfold rehash. rewrite order_all, map_to_list_to_map.
  - symmetry. apply Permutation_rev.
  - rewrite <- Permutation_rev. done.
Qed.
End Commands.

(** * Lemmas: sizes *)

Definition fields_within (n : nat) (m : list (str * jval)) : bool := forallb (fun kv => within n kv.2) m.

Lemma within_obj n m : within (S n) (JObj m) = fields_within n m.
Proof. done. Qed.
Lemma within_arr {A} n (enc : A -> jval) l : Forall (fun a => within n (enc a) = true) l -> within (S n) (JArr (map enc l)) = true.
Proof. intros Hl. cbn. induction Hl as [|a l Ha Hl IH]; [done|]. cbn. by rewrite Ha. Qed.
Lemma fields_within_app n a b : fields_within n (a ++ b) = fields_within n a && fields_within n b.
Proof. apply forallb_app. Qed.
Lemma fields_within_fld n k v : fields_within n (fld k v) = within n v.
Proof. cbn. by rewrite andb_true_r. Qed.
Lemma fields_within_unless n b k v : within n v = true -> fields_within n (unless b k v) = true.
Proof. intros H. destruct b; cbn; by rewrite ?H. Qed.
Lemma fields_within_some n k (o : option str) : fields_within n (some_fld k JStr o) = true.
Proof. by destruct o, n. Qed.
Lemma within_strs n l : within (S n) (enc_strs l) = true.
Proof. apply within_arr, Forall_forall. intros s _. by destruct n. Qed.
Lemma within_str n s : within n (JStr s) = true.
Proof. by destruct n. Qed.
Lemma within_map n env : within (S n) (enc_map env) = true.
Proof. unfold enc_map. rewrite within_obj. unfold fields_within. induction env as [|kv env IH]; [done|]. cbn. by rewrite within_str. Qed.
Lemma within_option_str n o : within n (enc_option JStr o) = true.
Proof. by destruct o, n. Qed.
Lemma within_size n k : Z.of_nat k <= U64_MAX -> within n (enc_size k) = true.
Proof. intros H. destruct n; cbn; unfold fits_number; rewrite !(proj2 (Z.leb_le _ _)); (done || lia). Qed.
Lemma within_num n z : -9223372036854775808 <= z <= U64_MAX -> within n (JNum z) = true.
Proof. intros H. destruct n; cbn; unfold fits_number; rewrite !(proj2 (Z.leb_le _ _)); (done || lia). Qed.
Lemma within_bool n b : within n (JBool b) = true.
Proof. by destruct n. Qed.
Lemma within_mounts n l : within (S (S n)) (JArr (map encode_mount l)) = true.
Proof.
  apply within_arr, Forall_forall. intros m _. unfold encode_mount. rewrite within_obj, !fields_within_app, !fields_within_fld, !within_str.
  by rewrite fields_within_unless by apply within_str.
Qed.

Create HintDb sizes.
#[export] Hint Resolve within_strs within_map within_option_str within_size within_num within_str within_bool within_mounts
  fields_within_unless fields_within_some : sizes.
Ltac sizes :=
  rewrite ?fields_within_app, ?fields_within_fld; unfold mounts_fld, map_fld, strs_fld, true_fld;
  rewrite ?andb_true_iff; repeat match goal with |- _ /\ _ => split end; try done; auto with sizes.

Lemma readable_obj m : fields_within 126 m = true -> readable (JObj m) = true.
Proof. intros H. unfold readable. by rewrite (within_obj 126). Qed.

Lemma command_within n c : good_command c -> fields_within (S (S (S n))) (command_fields c).2 = true.
Proof. intros Hc. destruct c; cbn [command_fields snd good_command] in *; sizes.
  apply within_num. unfold U64_MAX in *. lia. Qed.

Lemma command_readable c : good_command c -> readable (encode_command c) = true.
Proof.
  intros Hc. apply readable_obj. rewrite fields_within_app, fields_within_fld, within_str. by rewrite (command_within 123).
Qed.

(** * Lemmas: the other messages *)

Definition good_response (r : GuestResponse) : Prop :=
  match r with
  | Exit exit => -2147483648 <= exit <= 2147483647
  | RawBytes size => Z.of_nat size <= U64_MAX
  | _ => True
  end.

Lemma decode_encode_response r : good_response r -> decode_response (encode_response r) = Some r.
Proof.
  intros Hr. destruct r as [k data| | | | | | |]; (eapply external_gets; [reflexivity|]); unfold version_fields, defaulted, required;
    cbn [response_fields snd good_response] in *; try by gets_all.
  repeat (eapply gets_bind; [gets_one|]). by destruct k.
Qed.

Lemma response_readable r : good_response r -> readable (encode_response r) = true.
Proof.
  intros Hr. apply readable_obj. cbn [encode_response]. change [(?a, ?b)] with (fld a b). rewrite fields_within_fld, (within_obj 125).
  destruct r; cbn [response_fields snd good_response] in *; sizes. apply within_num. unfold U64_MAX in *. lia.
Qed.

Definition u16 (n : Z) : Prop := 0 <= n <= 65535.
Definition good_daemon (c : DaemonCmd) : Prop :=
  match c with
  | RegisterPort h g => u16 h /\ u16 g
  | UnregisterPort h => u16 h
  | TrackComposeProject _ hs => Forall u16 hs
  | UnregisterComposePorts _ => True
  end.

Lemma dec_enc_ports l : Forall u16 l -> dec_vec dec_u16 (JArr (map JNum l)) = Some l.
Proof. intros Hl. apply dec_vec_map. eapply Forall_impl; [exact Hl|]. intros z Hz. by apply dec_enc_int. Qed.

Lemma decode_encode_daemon c : good_daemon c -> decode_daemon (encode_daemon c) = Some c.
Proof.
  intros Hc. destruct c; (eapply external_gets; [reflexivity|]); unfold required; cbn [daemon_fields snd good_daemon] in *; unfold u16 in *.
  - destruct Hc. gets_all.
  - gets_all.
  - eapply gets_bind; [gets_one|]. eapply gets_bind; [eapply gets_field; [looks|by apply dec_enc_ports]|]. apply gets_ret.
  - gets_all.
Qed.

Lemma decode_encode_reply r : decode_reply (encode_reply r) = Some r.
Proof.
  destruct r; cbn [encode_reply].
  - reflexivity.
  - eapply internal_gets; [looks|reflexivity|]. unfold required. gets_all.
Qed.

(** What a watcher knows of an event. *)
Definition watched_container (s : GuestEvents.ContainerSnapshot) : str * list str := (GuestEvents.name s, GuestEvents.ports s).
Definition watched (e : GuestEvents.GuestEvent) : WatchEvent :=
  match e with
  | GuestEvents.Snapshot containers _ => Snapshot (map watched_container containers)
  | GuestEvents.ContainerStarted container => ContainerStarted (GuestEvents.name container) (GuestEvents.ports container)
  | GuestEvents.ContainerExited name _ => ContainerExited name
  | GuestEvents.Heartbeat _ => Unknown
  end.

Lemma watch_encode_snapshot s : watch_container (encode_snapshot s) = Some (watched_container s).
Proof. apply struct_gets. destruct s. unfold defaulted, required. gets_all. Qed.

Lemma watch_encode_snapshots l : dec_vec watch_container (JArr (map encode_snapshot l)) = Some (map watched_container l).
Proof. unfold dec_vec. induction l as [|s l IH]; [done|]. cbn -[watch_container encode_snapshot] in *. by rewrite watch_encode_snapshot, IH. Qed.
#[export] Hint Resolve watch_encode_snapshot watch_encode_snapshots : codec.

Lemma watch_encode e : decode_watch (encode_event e) = Some (watched e).
Proof.
  unfold decode_watch, encode_event. rewrite untag_first by (destruct e; cbn [event_fields snd]; looks). cbn [mbind option_bind].
  destruct e as [cs r|c|n x|ts]; cbn [event_fields fst snd watched].
  - apply (finish_gets (containers <~ required #"containers" (dec_vec watch_container) ;; dret (Snapshot containers))). unfold required. gets_all.
  - apply (finish_gets (container <~ required #"container" watch_container ;; dret (ContainerStarted container.1 container.2))).
    unfold required. eapply gets_bind; [gets_one|]. apply gets_ret.
  - apply (finish_gets (name <~ required #"name" dec_str ;; dret (ContainerExited name))). unfold required. gets_all.
  - reflexivity.
Qed.

(** * Texts *)

Section Texts.
Context `{JT : JsonText}.

(** [serde_json::from_str] at a type. *)
Definition read {A} (decode : jval -> option A) (s : str) : option A := v ← of_string s; decode v.

Definition command_text (c : GuestCommand) : str := to_string (encode_command c).
Definition response_text (r : GuestResponse) : str := to_string (encode_response r).
Definition daemon_text (c : DaemonCmd) : str := to_string (encode_daemon c).
Definition reply_text (r : DaemonResponse) : str := to_string (encode_reply r).
Definition event_text (e : GuestEvents.GuestEvent) : str := to_string (encode_event e).

(** The line of the daemon that cannot reach the guest. *)
Definition vsock_error (e : str) : str := #"{" ++ [DQ] ++ #"error" ++ [DQ] ++ #":" ++ to_string (JStr e) ++ #"}".

Lemma read_object {A} (decode : jval -> option A) v : readable v = true -> read decode (to_string v) = decode v.
Proof. intros Hm. unfold read. by rewrite of_to_string. Qed.

Lemma read_cut {A} (decode : jval -> option A) m q : readable (JObj m) = true -> q `prefix_of` to_string (JObj m) -> q <> to_string (JObj m) ->
  read decode q = None.
Proof. intros Hm Hq Hne. unfold read. by rewrite (of_string_cut m). Qed.

Lemma vsock_error_object e : vsock_error e = to_string (JObj (fld #"error" (JStr e))).
Proof. rewrite to_string_obj. cbn [fld map join fst snd]. rewrite to_string_plain by done. unfold vsock_error, quote. by rewrite <- !app_assoc. Qed.

Lemma error_readable e : readable (JObj (fld #"error" (JStr e))) = true.
Proof. by apply readable_obj; rewrite fields_within_fld, within_str. Qed.

Lemma vsock_error_unread e q : q `prefix_of` vsock_error e -> read decode_response q = None.
Proof.
  rewrite vsock_error_object. intros Hq. destruct (decide (q = to_string (JObj (fld #"error" (JStr e))))) as [->|Hne].
  - by rewrite read_object by apply error_readable.
  - by apply (read_cut _ (fld #"error" (JStr e))); [apply error_readable|..].
Qed.

Lemma reply_readable r : readable (encode_reply r) = true.
Proof. apply readable_obj. destruct r; sizes. Qed.

Lemma daemon_readable c : good_daemon c -> readable (encode_daemon c) = true.
Proof.
  intros Hc. apply readable_obj. change [(?a, ?b)] with (fld a b). rewrite fields_within_fld, (within_obj 125).
  destruct c; cbn [daemon_fields snd good_daemon] in *; unfold u16 in *; sizes; try (apply within_num; unfold U64_MAX; lia).
  apply within_arr. eapply Forall_impl; [eassumption|]. intros z Hz. apply within_num. unfold u16, U64_MAX in *. lia.
Qed.

(** A line of text is UTF-8. *)
Lemma line_utf8 v : jval_utf8 v = true -> valid_utf8 (to_string v ++ [NL]) = true.
Proof. intros H. apply valid_utf8_app; [by apply to_string_utf8|done]. Qed.

Lemma response_read r : good_response r -> read decode_response (response_text r) = Some r.
Proof. intros Hr. unfold response_text. rewrite (read_object decode_response) by by apply response_readable. by apply decode_encode_response. Qed.

Lemma response_cut r q : good_response r -> q `prefix_of` response_text r -> q <> response_text r -> read decode_response q = None.
Proof. intros Hr. by apply read_cut, response_readable. Qed.

Lemma command_read order c : good_command c -> read (decode_command order) (command_text c) = Some (map_env (rehash order) c).
Proof. intros Hc. unfold command_text. rewrite (read_object (decode_command order)) by by apply command_readable. by apply decode_encode. Qed.

Lemma command_cut order c q : good_command c -> q `prefix_of` command_text c -> q <> command_text c -> read (decode_command order) q = None.
Proof. intros Hc. by apply read_cut, command_readable. Qed.

Lemma daemon_read c : good_daemon c -> read decode_daemon (daemon_text c) = Some c.
Proof. intros Hc. unfold daemon_text. rewrite (read_object decode_daemon) by by apply daemon_readable. by apply decode_encode_daemon. Qed.

Lemma reply_read r : read decode_reply (reply_text r) = Some r.
Proof. unfold reply_text. rewrite (read_object decode_reply) by apply reply_readable. apply decode_encode_reply. Qed.

(** A request is not read as a command of the daemon, whole or cut. *)
Lemma command_not_daemon c : good_command c -> read decode_daemon (command_text c) = None.
Proof.
  intros Hc. unfold command_text. rewrite (read_object decode_daemon) by by apply command_readable.
  unfold decode_daemon, external, encode_command. cbn [fld app]. by destruct (command_fields c).2.
Qed.

(** * Properties *)

(** C18: host and guest mean the same by a request.  Whatever command the host writes, with numbers of its types: the
    daemon in between takes neither the text nor a part of it for a command to itself; the guest reads it as the same
    command, with its environment in the order of the guest's hash map and no variable changed, lost or added; and the
    guest reads nothing from a text that was cut. *)
Theorem commands_agree (order : gmap str str -> list (str * str)) c :
  (forall m, order m ≡ₚ map_to_list m) -> good_command c ->
  (exists f, (forall env, NoDup env.*1 -> f env ≡ₚ env) /\ read (decode_command order) (command_text c) = Some (map_env f c)) /\
  (forall q, q `prefix_of` command_text c -> read decode_daemon q = None) /\
  (forall q, q `prefix_of` command_text c -> q <> command_text c -> read (decode_command order) q = None).
Proof.
  intros Ho Hc. pose proof (command_readable c Hc) as Hr. split; [|split].
  - exists (rehash order). split; [apply (rehash_permutation order Ho)|]. by apply command_read.
  - intros q Hq. destruct (decide (q = command_text c)) as [->|Hne]; [by apply command_not_daemon|]. by eapply read_cut.
  - intros q. by apply command_cut.
Qed.

(** C19: host and guest mean the same by a response.  Every response the guest writes, with an exit code of 32 bits,
    the host reads as that response, and nothing from a part of it; additional fields of a newer guest's version are
    ignored and those an older guest leaves out are empty; and the line that the daemon writes when it cannot reach the
    guest is no response to the host. *)
Theorem responses_agree r extra e :
  good_response r -> (forall k, k ∈ extra.*1 -> k ∉ [ #"guest"; #"runtime"; #"kernel"]) ->
  read decode_response (response_text r) = Some r /\
  (forall q, q `prefix_of` response_text r -> q <> response_text r -> read decode_response q = None) /\
  (forall g rt k, decode_response (JObj [(#"version_info", JObj ((response_fields (VersionInfo g rt k)).2 ++ extra))]) = Some (VersionInfo g rt k)) /\
  decode_response (JObj [(#"version_info", JObj extra)]) = Some (VersionInfo [] None None) /\
  read decode_response (vsock_error e) = None.
Proof.
  intros Hr Hx. pose proof (response_readable r Hr) as Hread.
  assert (Hlook : forall k, k ∈ [ #"guest"; #"runtime"; #"kernel"] -> look k extra = []).
  { intros k Hk. clear -Hx Hk. induction extra as [|[k' v] extra IH]; [done|]. cbn. rewrite decide_False.
    - apply IH. intros k0 H0. apply Hx. by apply elem_of_cons; right.
    - cbn. intros ->. apply (Hx k); [by apply elem_of_cons; left|done]. }
  pose proof (Hlook #"guest" ltac:(set_solver)) as H1. pose proof (Hlook #"runtime" ltac:(set_solver)) as H2. pose proof (Hlook #"kernel" ltac:(set_solver)) as H3.
  split; [|split; [|split; [|split]]].
  - by apply response_read.
  - intros q. by apply response_cut.
  - intros g rt k. eapply external_gets; [reflexivity|]. unfold version_fields, defaulted. cbn [response_fields snd].
    repeat (eapply gets_bind; [first [eapply gets_some; [rewrite look_app, ?H1, ?H2, ?H3, app_nil_r; looks|done]
      | eapply gets_field; [rewrite look_app, ?H1, ?H2, ?H3, app_nil_r; looks|done]]|]). apply gets_ret.
  - eapply external_gets; [reflexivity|]. unfold version_fields, defaulted.
    repeat (eapply gets_bind; [by apply gets_missing|]). apply gets_ret.
  - by eapply vsock_error_unread.
Qed.

(** The daemon's own messages.  Commands to the daemon and its replies are read as they were written, and nothing
    is read from a part of one; and no such command is a request to the guest. *)
Theorem daemon_messages_agree (order : gmap str str -> list (str * str)) c r :
  good_daemon c ->
  read decode_daemon (daemon_text c) = Some c /\ read decode_reply (reply_text r) = Some r /\
  (forall q, q `prefix_of` daemon_text c -> q <> daemon_text c -> read decode_daemon q = None) /\
  (forall q, q `prefix_of` reply_text r -> q <> reply_text r -> read decode_reply q = None) /\
  (forall q, q `prefix_of` daemon_text c -> read (decode_command order) q = None).
Proof.
  intros Hc. pose proof (daemon_readable c Hc) as Hd. pose proof (reply_readable r) as Hr. split; [|split; [|split; [|split]]].
  - by apply daemon_read.
  - apply reply_read.
  - intros q Hq Hne. by eapply read_cut; [exact Hd|..].
  - intros q Hq Hne. by eapply read_cut; [exact Hr|..].
  - intros q Hq. destruct (decide (q = daemon_text c)) as [->|Hne]; [|by eapply read_cut; [exact Hd|..]].
    unfold daemon_text. rewrite (read_object (decode_command order)) by done. by destruct c.
Qed.

Definition good_snapshot (s : GuestEvents.ContainerSnapshot) : Prop :=
  -2147483648 <= GuestEvents.pid s <= 2147483647 /\ (forall x, GuestEvents.exit_code s = Some x -> -2147483648 <= x <= 2147483647).
Definition good_event (e : GuestEvents.GuestEvent) : Prop :=
  match e with
  | GuestEvents.Snapshot cs _ => Forall good_snapshot cs
  | GuestEvents.ContainerStarted c => good_snapshot c
  | GuestEvents.ContainerExited _ x => forall z, x = Some z -> -2147483648 <= z <= 2147483647
  | GuestEvents.Heartbeat ts => 0 <= ts <= U64_MAX
  end.

Lemma within_option_num n (o : option Z) : (forall z, o = Some z -> -2147483648 <= z <= 2147483647) -> within n (enc_option JNum o) = true.
Proof. destruct o as [z|]; intros H; [|by destruct n]. apply within_num. specialize (H z eq_refl). unfold U64_MAX. lia. Qed.

Lemma snapshot_within n s : good_snapshot s -> within (S (S n)) (encode_snapshot s) = true.
Proof.
  intros [Hp Hx]. unfold encode_snapshot. rewrite within_obj. sizes; [apply within_num; unfold U64_MAX; lia|by apply within_option_num].
Qed.

Lemma event_readable e : good_event e -> readable (encode_event e) = true.
Proof.
  intros He. apply readable_obj. rewrite fields_within_app, fields_within_fld, within_str. cbn [andb].
  destruct e as [cs r|c|n x|ts]; cbn [event_fields snd good_event] in *; sizes.
  - apply (within_arr 125). eapply Forall_impl; [exact He|]. intros s Hs. by apply (snapshot_within 123).
  - by apply (snapshot_within 124).
  - by apply within_option_num.
  - apply within_num. unfold U64_MAX in *. lia.
Qed.

Lemma events_read e : good_event e -> read decode_watch (event_text e) = Some (watched e).
Proof. intros He. unfold event_text. rewrite (read_object decode_watch) by by apply event_readable. apply watch_encode. Qed.

Lemma event_cut e q : good_event e -> q `prefix_of` event_text e -> q <> event_text e -> read decode_watch q = None.
Proof. intros He. by apply read_cut, event_readable. Qed.

(** The line that the watcher writes by hand is the request it means. *)
Lemma subscribe_line : SUBSCRIBE_LINE = command_text Subscribe ++ [NL].
Proof.
  unfold command_text, encode_command. rewrite to_string_obj. cbn [command_fields fld app fst snd map join].
  rewrite !to_string_plain by done. reflexivity.
Qed.

End Texts.

(** * Concrete texts, with [compact_json] *)

(** JSON with single quotes. *)
Definition json (s : str) : str := map (fun c => if decide (c = "'"%char) then DQ else c) s.

Definition demo_launch : Launch :=
  mkLaunch #"alpine" [ #"sleep"; #"30"] [(#"TERM", #"xterm")] [mkMount #"share0" [] #"/data"] (Some #"mybox") [] [ #"8080:80"] None [].

Lemma commands_agree_witness :
  (exists f, (forall env, NoDup env.*1 -> f env ≡ₚ env) /\
     read (decode_command map_to_list) (command_text (Run demo_launch true)) = Some (map_env f (Run demo_launch true))) /\
  read decode_daemon (command_text (Run demo_launch true)) = None.
Proof.
  destruct (commands_agree map_to_list (Run demo_launch true)) as (H1 & H2 & _); [done|by apply NoDup_singleton|].
  split; [exact H1|]. by apply H2.
Defined.

Lemma responses_agree_witness :
  read decode_response (response_text (Exit (-1))) = Some (Exit (-1)) /\
  decode_response (JObj [(#"version_info", JObj [(#"vm_image", JStr #"1.2")])]) = Some (VersionInfo [] None None) /\
  read decode_response (vsock_error #"timed out") = None.
Proof.
  destruct (responses_agree (Exit (-1)) [(#"vm_image", JStr #"1.2")] #"timed out") as (H1 & _ & _ & H2 & H3).
  - cbn. lia.
  - intros k Hk. apply list_elem_of_singleton in Hk as ->. by apply (bool_decide_unpack _).
  - done.
Defined.

Lemma daemon_messages_agree_witness :
  read decode_daemon (daemon_text (TrackComposeProject #"app" [8080; 9090])) = Some (TrackComposeProject #"app" [8080; 9090]) /\
  read decode_reply (reply_text (RespErr #"port 8080 is taken")) = Some (RespErr #"port 8080 is taken").
Proof.
  destruct (daemon_messages_agree map_to_list (TrackComposeProject #"app" [8080; 9090]) (RespErr #"port 8080 is taken")) as (H1 & H2 & _).
  - by repeat constructor.
  - done.
Defined.

(** What is written. *)
Example run_text : command_text (Run demo_launch true) =
  json #"{'cmd':'run','image':'alpine','args':['sleep','30'],'mounts':[{'tag':'share0','container_path':'/data'}],'name':'mybox','detach':true,'env':{'TERM':'xterm'},'publish':['8080:80']}".
Proof. vm_compute. reflexivity. Qed.
Example ps_text : command_text (Ps true false) = json #"{'cmd':'ps','all':true}".
Proof. vm_compute. reflexivity. Qed.
Example stream_text : response_text (Stream Stdout (#"hello" ++ [NL])) = json #"{'stream':{'stream':'stdout','data':'hello\n'}}".
Proof. vm_compute. reflexivity. Qed.
Example daemon_cmd_text : daemon_text (RegisterPort 8080 80) = json #"{'RegisterPort':{'host_port':8080,'container_port':80}}".
Proof. vm_compute. reflexivity. Qed.

(** What is read: defaults, other orders and unknown fields; a struct by position; a field that comes twice, a missing
    one, an unknown command and a port that is too large are refused. *)
Example exec_defaults : read (decode_command map_to_list) (json #"{'cmd':'exec','image':'alpine','args':['cat']}") =
  Some (Exec (mkLaunch #"alpine" [ #"cat"] [] [] None [] [] None []) false).
Proof. vm_compute. reflexivity. Qed.
Example restart_defaults : read (decode_command map_to_list) (json #"{'later':[1],'name':'web','cmd':'restart'}") = Some (Restart #"web" 10).
Proof. vm_compute. reflexivity. Qed.
Example by_position : read (decode_command map_to_list) (json #"['rm','web',true]") = Some (Rm #"web" true).
Proof. vm_compute. reflexivity. Qed.
Example refused : map (read (decode_command map_to_list))
  [json #"{'cmd':'rm','name':'a','name':'b'}"; json #"{'cmd':'rm'}"; json #"{'cmd':'reboot'}"; json #"{'cmd':'rm','name':7}"] = [None; None; None; None].
Proof. vm_compute. reflexivity. Qed.
Example port_too_large : read decode_daemon (json #"{'UnregisterPort':{'host_port':65536}}") = None.
Proof. vm_compute. reflexivity. Qed.
Example no_ports : read decode_watch (json #"{'type':'snapshot','containers':[{'name':'busybox','status':'running','rootfs':'busybox','pid':3,'started_at':'2024-01-01'}],'vm_running':true}")
  = Some (Snapshot [(#"busybox", [])]).
Proof. vm_compute. reflexivity. Qed.
Example heartbeat_unknown : read decode_watch (json #"{'type':'heartbeat','ts':1234567890}") = Some Unknown.
Proof. vm_compute. reflexivity. Qed.
