(* ===== verification/VmState.v ===== *)
(** The state directory of a virtual machine profile ([pelagos-mac/src/state.rs]): the configuration
    file, the allocation of a subnet per profile, the PID file and the mount configuration of the
    running daemon; and the decision of [ensure_running] ([pelagos-mac/src/daemon.rs]) that rests on
    them. *)

From S2P Require Import Prelude RustStd Paths Json.

#[local] Open Scope Z_scope.

(** * The file system *)

(** Regular files by path, the entries of the [profiles] directory ([None]: it cannot be read), and
    the paths whose reading or writing fails with an error other than "not found". *)
Record fs := mkFs { files : gmap str str; profiles : option (list str); broken : gset str }.

Inductive io_error : Type := NotFound | OtherError | AlreadyExists | TimedOut.

(** [std::fs::read_to_string] *)
Definition read_to_string (path : str) (f : fs) : result str io_error :=
  if decide (path ∈ broken f) then Err OtherError
  else match files f !! path with Some c => Ok c | None => Err NotFound end.

(** [std::fs::write], [rename] and [remove_file]. *)
Definition write_file (path contents : str) (f : fs) : result unit io_error * fs :=
  if decide (path ∈ broken f) then (Err OtherError, f)
  else (Ok tt, mkFs (<[path := contents]> (files f)) (profiles f) (broken f)).

Definition rename (a b : str) (f : fs) : result unit io_error * fs :=
  match files f !! a with
  | Some c => (Ok tt, mkFs (<[b := c]> (delete a (files f))) (profiles f) (broken f))
  | None => (Err NotFound, f)
  end.

Definition remove_file (path : str) (f : fs) : fs := mkFs (delete path (files f)) (profiles f) (broken f).

(** * Profile configuration *)

Inductive PingMode : Type := Vsock | Ssh.

Record VmProfileConfig := mkConfig {
  disk : option str; kernel : option str; initrd : option str;
  memory : option Z; cpus : option Z;
  ping_mode : PingMode; cmdline : option str; vm_ip : option (list Z) }.

Definition default_config : VmProfileConfig := mkConfig None None None None None Vsock None None.

(** The [match key] of [load_path]. *)
Definition set_key (key val : str) (c : VmProfileConfig) : VmProfileConfig :=
  let '(mkConfig d k i m n p l v) := c in
  if bool_decide (key = #"disk") then mkConfig (Some val) k i m n p l v
  else if bool_decide (key = #"kernel") then mkConfig d (Some val) i m n p l v
  else if bool_decide (key = #"initrd") then mkConfig d k (Some val) m n p l v
  else if bool_decide (key = #"memory") then mkConfig d k i (parse_usize val) n p l v
  else if bool_decide (key = #"cpus") then mkConfig d k i m (parse_usize val) p l v
  else if bool_decide (key = #"ping_mode")
       then mkConfig d k i m n (if bool_decide (val = #"ssh") then Ssh else Vsock) l v
  else if bool_decide (key = #"cmdline") then mkConfig d k i m n p (Some val) v
  else if bool_decide (key = #"vm_ip") then mkConfig d k i m n p l (parse_ipv4 val)
  else c.

(** One line of the file. *)
Definition config_line (c : VmProfileConfig) (line : str) : VmProfileConfig :=
  let line := trim line in
  match line with
  | [] => c
  | a :: _ =>
      if decide (a = "#"%char) then c
      else match split_once "=" line with
           | None => c
           | Some (key, val) => set_key (trim key) (trim val) c
           end
  end.

Definition parse_config (text : str) : VmProfileConfig := fold_left config_line (lines text) default_config.

(** [VmProfileConfig::load_path] *)
Definition load_path (path : str) (f : fs) : result VmProfileConfig io_error :=
  match read_to_string path f with
  | Ok t => Ok (parse_config t)
  | Err NotFound => Ok default_config
  | Err e => Err e
  end.

Section Base.
(** The data directory, [pelagos_base()]. *)
Context (base : str).

(** [profile_dir] *)
Definition profile_dir (name : str) : str :=
  if bool_decide (name = #"default") then base else path_join (path_join base #"profiles") name.

Definition conf_path (profile : str) : str := path_join (profile_dir profile) #"vm.conf".

(** [VmProfileConfig::load] *)
Definition load (profile : str) (f : fs) : result VmProfileConfig io_error := load_path (conf_path profile) f.

(** * Subnet allocation *)

Definition DEFAULT_GUEST_IP : list Z := [192; 168; 105; 2].

(** [append_vm_ip_to_conf]; creating the directory fails with the file. *)
Definition append_vm_ip_to_conf (profile : str) (ip : list Z) (f : fs) : result unit io_error * fs :=
  let path := conf_path profile in
  let old := match files f !! path with Some c => c | None => [] end in
  write_file path (old ++ #"vm_ip = " ++ show_ipv4 ip ++ [NL]) f.

Definition third (ip : list Z) : Z := nth 2 ip 0.

(** The third octet of a profile that can be loaded and has an address. *)
Definition octet_of (profile : str) (f : fs) : option Z :=
  match load profile f with Ok c => third <$> vm_ip c | Err _ => None end.

(** The octets in use by the other profiles. *)
Definition taken (profile : str) (f : fs) : list Z :=
  match octet_of #"default" f with Some n => n | None => 105 end
  :: omap (fun pname => if bool_decide (pname = profile) then None else octet_of pname f)
       (match profiles f with Some l => l | None => [] end).

(** [(106u8..=254).find(|n| !taken.contains(n))] *)
Definition candidates : list Z := map Z.of_nat (seq 106 149).
Definition free_octet (used : list Z) : option Z :=
  head (filter (fun n => n ∉ used) candidates).

Definition ensure_vm_ip (profile : str) (f : fs) : result (list Z) io_error * fs :=
  match load profile f with
  | Err e => (Err e, f)
  | Ok conf =>
      match vm_ip conf with
      | Some ip => (Ok ip, f)
      | None =>
          if bool_decide (profile = #"default") then
            match append_vm_ip_to_conf profile DEFAULT_GUEST_IP f with
            | (Ok _, f) => (Ok DEFAULT_GUEST_IP, f)
            | (Err e, f) => (Err e, f)
            end
          else
            match free_octet (taken profile f) with
            | None => (Err OtherError, f)
            | Some n =>
                let ip := [192; 168; n; 2] in
                match append_vm_ip_to_conf profile ip f with
                | (Ok _, f) => (Ok ip, f)
                | (Err e, f) => (Err e, f)
                end
            end
      end
  end.

(** * The state directory *)

Record StateDir := mkState {
  pid_file : str; sock_file : str; console_sock_file : str;
  mounts_file : str; ports_file : str; extra_disks_file : str }.

(** [StateDir::open_profile] *)
Definition open_profile (name : str) : StateDir :=
  let d := profile_dir name in
  mkState (path_join d #"vm.pid") (path_join d #"vm.sock") (path_join d #"console.sock")
    (path_join d #"vm.mounts") (path_join d #"vm.ports") (path_join d #"vm.extra_disks").
End Base.

(** [running_pid]; [alive] is [kill(pid, 0) == 0], of the [pid_t] with the bits of the number read. *)
Definition running_pid (alive : Z -> bool) (s : StateDir) (f : fs) : option Z :=
  match read_to_string (pid_file s) f with
  | Err _ => None
  | Ok t =>
      match parse_u32 (trim t) with
      | Some pid => if alive (as_i32 pid) then Some pid else None
      | None => None
      end
  end.

Definition is_daemon_alive (alive : Z -> bool) (s : StateDir) (f : fs) : bool :=
  match running_pid alive s f with Some _ => true | None => false end.

(** The write to a temporary file and the rename of [write_pid], [write_mounts] and
    [write_extra_disks]. *)
Definition write_atomic (path contents : str) (f : fs) : result unit io_error * fs :=
  let tmp := path ++ #".tmp" in
  match write_file tmp contents f with
  | (Ok _, f) => rename tmp path f
  | r => r
  end.

Definition write_pid (pid : Z) (s : StateDir) : fs -> result unit io_error * fs :=
  write_atomic (pid_file s) (dec pid).

(** [clear] *)
Definition clear (s : StateDir) (f : fs) : fs :=
  remove_file (extra_disks_file s) (remove_file (ports_file s) (remove_file (mounts_file s)
    (remove_file (console_sock_file s) (remove_file (sock_file s) (remove_file (pid_file s) f))))).

(** * Mounts and the decision to start a daemon *)

(** [VirtiofsShare] *)
Record VirtiofsShare := mkShare { host_path : str; tag : str; read_only : bool; container_path : str }.

#[export] Instance VirtiofsShare_eq_dec : EqDecision VirtiofsShare.
Proof. solve_decision. Defined.

Section Json.
(** The JSON codec (serde) for lists of shares and of paths. *)
Context (shares_to_json : list VirtiofsShare -> str) (shares_of_json : str -> option (list VirtiofsShare)).
Context (disks_to_json : list str -> str) (disks_of_json : str -> option (list str)).

Definition write_mounts (mounts : list VirtiofsShare) (s : StateDir) : fs -> result unit io_error * fs :=
  write_atomic (mounts_file s) (shares_to_json mounts).

Definition write_extra_disks (paths : list str) (s : StateDir) : fs -> result unit io_error * fs :=
  write_atomic (extra_disks_file s) (disks_to_json paths).

(** [read_mounts] and [read_extra_disks]: a missing file is an empty list. *)
Definition read_list {A} (of_json : str -> option (list A)) (path : str) (f : fs) : result (list A) io_error :=
  match read_to_string path f with
  | Ok t => match of_json t with Some l => Ok l | None => Err OtherError end
  | Err NotFound => Ok []
  | Err e => Err e
  end.
Definition read_mounts (s : StateDir) : fs -> result (list VirtiofsShare) io_error :=
  read_list shares_of_json (mounts_file s).
Definition read_extra_disks (s : StateDir) : fs -> result (list str) io_error :=
  read_list disks_of_json (extra_disks_file s).

(** [PartialEq] of the shares: the host's paths are compared by their components. *)
Definition share_key (s : VirtiofsShare) := (components (host_path s), tag s, read_only s, container_path s).
Definition same_shares (a b : list VirtiofsShare) : bool := bool_decide (map share_key a = map share_key b).

(** What [ensure_running] does once the helper is installed and the subnet assigned: use the running
    daemon, fail, or start one after clearing the stale state. *)
Inductive decision : Type := UseRunning | Refuse (e : io_error) | Start.

Definition decide_running (alive : Z -> bool) (s : StateDir) (shares : list VirtiofsShare)
    (disks : list str) (f : fs) : decision * fs :=
  if is_daemon_alive alive s f then
    match read_mounts s f with
    | Err e => (Refuse e, f)
    | Ok running_mounts =>
        if negb (same_shares running_mounts shares) then (Refuse AlreadyExists, f)
        else
          match read_extra_disks s f with
          | Err e => (Refuse e, f)
          | Ok running_extra =>
              if negb (same_paths running_extra disks) then (Refuse AlreadyExists, f) else (UseRunning, f)
          end
    end
  else (Start, clear s f).

(** What the daemon persists when it is up, in the order of [run]: PID, mounts, extra disks; a
    failure is only logged. *)
Definition persist (pid : Z) (shares : list VirtiofsShare) (disks : list str) (s : StateDir) (f : fs) : fs :=
  (write_extra_disks disks s (write_mounts shares s (write_pid pid s f).2).2).2.
End Json.

(** Seconds the client waits for the daemon. *)
Definition START_TIMEOUT_MS : Z := 60 * 1000.

(** * Lemmas *)

(** A text whose last line is ended. *)
Definition ends_line (s : str) : Prop := s = [] \/ exists t, s = t ++ [NL].

Definition with_ip (ip : list Z) (c : VmProfileConfig) : VmProfileConfig :=
  mkConfig (disk c) (kernel c) (initrd c) (memory c) (cpus c) (ping_mode c) (cmdline c) (Some ip).

(** An address of four octets. *)
Definition ipv4 (ip : list Z) : Prop := exists a b c d, ip = [a; b; c; d] /\ bytes ip.

Lemma ipv4_facts ip : ipv4 ip ->
  parse_ipv4 (show_ipv4 ip) = Some ip /\ Forall (fun n => 0 <= n) ip /\ ip <> [].
Proof.
  intros (a & b & c & d & -> & Hb).
  pose proof Hb as Hb'. do 4 (apply bytes_cons_inv in Hb' as [? Hb']).
  split; [by apply parse_show_ipv4|]. split; [|done].
  eapply Forall_impl; [exact Hb|]. unfold is_u8. intros; lia.
Qed.

(** The line [append_vm_ip_to_conf] writes sets the address and nothing else. *)
Lemma vm_ip_line ip c : ipv4 ip -> config_line c (#"vm_ip = " ++ show_ipv4 ip) = with_ip ip c.
Proof.
  intros Hip. destruct (ipv4_facts ip Hip) as (Hp & Hn & Hne).
  pose proof (show_ipv4_graph ip Hn) as Hg. pose proof (show_ipv4_not_nil ip Hne Hn) as Hs.
  assert (Ht : tight (show_ipv4 ip)) by by apply tight_graph.
  assert (tight #"vm_ip") as Hv by (apply tight_graph; [done | repeat constructor]).
  unfold config_line. change (#"vm_ip = " ++ show_ipv4 ip) with (#"vm_ip" ++ #" = " ++ show_ipv4 ip).
  rewrite trim_tight by (by apply tight_app).
  change (#"vm_ip" ++ #" = " ++ show_ipv4 ip) with (#"vm_ip " ++ "="%char :: #" " ++ show_ipv4 ip).
  cbn [String.list_ascii_of_string app]. rewrite decide_False by done.
  change ("v"%char :: "m"%char :: "_"%char :: "i"%char :: "p"%char :: " "%char :: "="%char :: " "%char :: show_ipv4 ip)
    with (#"vm_ip " ++ "="%char :: #" " ++ show_ipv4 ip).
  rewrite split_once_app by (by apply not_in_literal).
  change (trim (#" " ++ show_ipv4 ip)) with (trim (show_ipv4 ip)). rewrite (trim_tight _ Ht).
  replace (trim #"vm_ip ") with #"vm_ip" by reflexivity. destruct c. cbn. by rewrite Hp.
Qed.

Lemma vm_ip_line_plain ip : ipv4 ip ->
  (NL ∉ #"vm_ip = " ++ show_ipv4 ip) /\ (CR ∉ #"vm_ip = " ++ show_ipv4 ip).
Proof.
  intros Hip. destruct (ipv4_facts ip Hip) as (_ & Hn & _).
  split; rewrite elem_of_app; intros [Hin|Hin]; try (by apply (show_ipv4_no _ _ Hn) in Hin);
    revert Hin; by apply not_in_literal.
Qed.

(** Appending it to a file whose last line is ended sets the address in the configuration. *)
Lemma parse_config_append old ip :
  ends_line old -> ipv4 ip ->
  parse_config (old ++ #"vm_ip = " ++ show_ipv4 ip ++ [NL]) = with_ip ip (parse_config old).
Proof.
  intros Ho Hip. destruct (vm_ip_line_plain ip Hip) as [Hn Hc].
  assert (Hl : lines (#"vm_ip = " ++ show_ipv4 ip ++ [NL]) = [ #"vm_ip = " ++ show_ipv4 ip]).
  { rewrite app_assoc. by apply lines_one. }
  unfold parse_config. destruct Ho as [-> | [t ->]].
  - change ([] ++ ?x) with x. rewrite Hl. cbn [fold_left]. by rewrite vm_ip_line.
  - rewrite lines_app, Hl, fold_left_app. cbn [fold_left]. by rewrite vm_ip_line.
Qed.

Section Alloc.
Context (base : str).

Lemma append_ok profile ip f r f' :
  append_vm_ip_to_conf base profile ip f = (Ok r, f') ->
  ends_line (match files f !! conf_path base profile with Some c => c | None => [] end) -> ipv4 ip ->
  (conf_path base profile ∉ broken f) /\ profiles f' = profiles f /\ broken f' = broken f /\
  (forall q, q <> conf_path base profile -> files f' !! q = files f !! q) /\
  exists c, load base profile f = Ok c /\ load base profile f' = Ok (with_ip ip c).
Proof.
  unfold append_vm_ip_to_conf, write_file. intros Ha He Hip. case_decide as Hb; [done|]. simplify_eq.
  split; [done|]. split; [done|]. split; [done|]. split.
  { intros q Hq. cbn [files]. by rewrite lookup_insert_ne. }
  unfold load, load_path, read_to_string. cbn [files broken]. rewrite !decide_False by done.
  rewrite lookup_insert_eq. destruct (files f !! conf_path base profile) as [c|].
  - exists (parse_config c). split; [done|]. by rewrite parse_config_append.
  - exists default_config. split; [done|]. by rewrite parse_config_append.
Qed.

Lemma free_octet_spec used n : free_octet used = Some n -> 106 <= n <= 254 /\ n ∉ used.
Proof.
  unfold free_octet. intros Hh. apply head_Some_elem_of, list_elem_of_filter in Hh as [Hn Hc].
  split; [|done]. apply list_elem_of_In in Hc. unfold candidates in Hc.
  apply in_map_iff in Hc as (k & <- & Hk). apply in_seq in Hk. lia.
Qed.

Lemma free_octet_none used : free_octet used = None -> forall n, 106 <= n <= 254 -> n ∈ used.
Proof.
  unfold free_octet. intros Hh n Hn. destruct (decide (n ∈ used)); [done|].
  assert (n ∈ filter (fun n => n ∉ used) candidates) as Hin.
  { apply list_elem_of_filter. split; [done|]. apply list_elem_of_In, in_map_iff. exists (Z.to_nat n).
    split; [lia|]. apply in_seq. lia. }
  destruct (filter _ candidates); [set_solver|done].
Qed.

Lemma octet_ipv4 n : 0 <= n <= 255 -> ipv4 [192; 168; n; 2].
Proof. intros. exists 192, 168, n, 2. split; [done|]. repeat constructor; lia. Qed.

Lemma octet_taken profile q f n :
  q ∈ (match profiles f with Some l => l | None => [] end) -> q <> profile ->
  octet_of base q f = Some n -> n ∈ taken base profile f.
Proof.
  intros Hq Hne Ho. unfold taken. right. apply list_elem_of_omap. exists q. split; [done|].
  by rewrite bool_decide_eq_false_2.
Qed.

(** What a profile is given the first time. *)
Lemma ensure_new profile f ip f' :
  ensure_vm_ip base profile f = (Ok ip, f') -> profile <> #"default" ->
  (forall c, load base profile f = Ok c -> vm_ip c = None) ->
  exists n, ip = [192; 168; n; 2] /\ 106 <= n <= 254 /\ (n ∉ taken base profile f) /\
    append_vm_ip_to_conf base profile ip f = (Ok tt, f').
Proof.
  unfold ensure_vm_ip. intros He Hd Hn. destruct (load base profile f) as [c|e]; [|done].
  rewrite (Hn c eq_refl), bool_decide_eq_false_2 in He by done.
  destruct (free_octet (taken base profile f)) as [n|] eqn:En; [|done].
  apply free_octet_spec in En as [??].
  destruct (append_vm_ip_to_conf _ _ _ _) as [[[]|] f2] eqn:Ea; simplify_eq.
  exists n. split; [done|]. split; [done|]. split; [done|]. done.
Qed.

(** * Properties *)

(** a subnet, once assigned, is stable.  When [ensure_vm_ip] succeeds on a profile whose
    configuration file ends its last line, loading the profile again gives that address and the same
    other settings, calling it again changes nothing and returns the same address, and no other file
    is touched. *)
Theorem subnet_persisted profile f ip f' :
  ends_line (match files f !! conf_path base profile with Some c => c | None => [] end) ->
  ensure_vm_ip base profile f = (Ok ip, f') ->
  (exists c, load base profile f = Ok c /\ load base profile f' = Ok (with_ip ip c)) /\
  ensure_vm_ip base profile f' = (Ok ip, f') /\
  (forall q, q <> conf_path base profile -> files f' !! q = files f !! q).
Proof.
  intros He Hf.
  assert (Hcase : (exists c, load base profile f = Ok c /\ vm_ip c = Some ip /\ f' = f) \/
    (ipv4 ip /\ append_vm_ip_to_conf base profile ip f = (Ok tt, f'))).
  { revert Hf. unfold ensure_vm_ip. destruct (load base profile f) as [c|e]; [|done].
    destruct (vm_ip c) as [ip0|] eqn:Ei; [intros; simplify_eq; left; eauto|]. case_bool_decide.
    - destruct (append_vm_ip_to_conf _ _ _ _) as [[[]|] f2] eqn:Ea; [|done]. intros. simplify_eq. right.
      split; [by apply octet_ipv4 | done].
    - destruct (free_octet (taken base profile f)) as [n|] eqn:En; [|done].
      apply free_octet_spec in En as [? _].
      destruct (append_vm_ip_to_conf _ _ _ _) as [[[]|] f2] eqn:Ea; [|done]. intros. simplify_eq. right.
      split; [apply octet_ipv4; lia | done]. }
  destruct Hcase as [(c & Hl & Hi & ->)|[Hip Ha]].
  - split; [exists c; split; [done|]; rewrite Hl; f_equal; by destruct c; cbn in *; subst|].
    split; [|done]. unfold ensure_vm_ip. by rewrite Hl, Hi.
  - apply append_ok in Ha as (_ & _ & _ & Hq & c & Hl & Hl'); [|done..].
    split; [by exists c|]. split; [|done]. unfold ensure_vm_ip. by rewrite Hl'.
Qed.

(** Two profiles never share a subnet.  If two profiles that have a directory and no address yet
    are assigned one after the other, both get an address [192.168.N.2] with N between 106 and 254,
    their Ns differ, and the second differs from those of all other profiles that have one. *)
Theorem subnets_distinct p q f ip f1 iq f2 :
  p <> #"default" -> q <> #"default" -> p <> q -> conf_path base p <> conf_path base q ->
  (exists l, profiles f = Some l /\ p ∈ l) ->
  ends_line (match files f !! conf_path base p with Some c => c | None => [] end) ->
  (forall c, load base p f = Ok c -> vm_ip c = None) ->
  (forall c, load base q f = Ok c -> vm_ip c = None) ->
  ensure_vm_ip base p f = (Ok ip, f1) -> ensure_vm_ip base q f1 = (Ok iq, f2) ->
  exists n m, ip = [192; 168; n; 2] /\ iq = [192; 168; m; 2] /\
    106 <= n <= 254 /\ 106 <= m <= 254 /\ n <> m /\
    (forall r, r ∈ (match profiles f with Some l => l | None => [] end) -> r <> q ->
       octet_of base r f1 <> Some m).
Proof.
  intros Hp Hq Hne Hpath (l & Hprof & Hin) He Lp Lq Ep Eq.
  apply ensure_new in Ep as (n & -> & Hn & _ & Ha); [|done..].
  apply append_ok in Ha as (_ & Hprof1 & Hbr & Hfiles & c & _ & Hl1); [|done|apply octet_ipv4; lia].
  assert (Lq1 : forall c, load base q f1 = Ok c -> vm_ip c = None).
  { intros cq. unfold load, load_path, read_to_string. rewrite Hbr, Hfiles by congruence. apply Lq. }
  apply ensure_new in Eq as (m & -> & Hm & Hfree & _); [|done..].
  assert (Hall : forall r, r ∈ l -> r <> q -> octet_of base r f1 <> Some m).
  { intros r Hr Hrq Ho. apply Hfree. apply (octet_taken q r f1); [|done..]. by rewrite Hprof1, Hprof. }
  exists n, m. split_and!; try done; try lia.
  - intros ->. apply (Hall p Hin Hne). unfold octet_of. by rewrite Hl1.
  - by rewrite Hprof.
Qed.
End Alloc.

(** ** The life of a daemon's state *)

(** Joining a relative component adds it to something that depends on the directory only. *)
Lemma path_join_rel d : exists p, forall c n, c <> "/"%char -> path_join d (c :: n) = p ++ c :: n.
Proof.
  unfold path_join. destruct (bool_decide (d = []) || bool_decide (last d = Some "/"%char))%bool.
  - exists d. intros c n Hc. rewrite bool_decide_eq_false_2; [done|]. cbn. congruence.
  - exists (d ++ #"/"). intros c n Hc. rewrite bool_decide_eq_false_2; [by rewrite <- app_assoc|].
    cbn. congruence.
Qed.

(** The files of a state directory, as names in it. *)
Lemma open_profile_files base name :
  exists p, open_profile base name
    = mkState (p ++ #"vm.pid") (p ++ #"vm.sock") (p ++ #"console.sock") (p ++ #"vm.mounts")
        (p ++ #"vm.ports") (p ++ #"vm.extra_disks").
Proof.
  destruct (path_join_rel (profile_dir base name)) as [p Hp]. exists p. unfold open_profile.
  cbn [String.list_ascii_of_string]. by rewrite !Hp by discriminate.
Qed.

(** Writing atomically in a file system that works. *)
Lemma write_atomic_ok path c f :
  broken f = ∅ ->
  let f' := (write_atomic path c f).2 in
  broken f' = ∅ /\ files f' !! path = Some c /\
  forall q, q <> path -> q <> path ++ #".tmp" -> files f' !! q = files f !! q.
Proof.
  intros Hb. unfold write_atomic, write_file. rewrite decide_False by (rewrite Hb; set_solver).
  unfold rename. cbn [files broken profiles]. rewrite lookup_insert_eq. cbn [snd files broken].
  split; [done|]. split; [by rewrite lookup_insert_eq|]. intros q H1 H2.
  by rewrite lookup_insert_ne, lookup_delete_ne, lookup_insert_ne by done.
Qed.

Lemma as_i32_small n : 0 <= n <= 2147483647 -> as_i32 n = n.
Proof. intros. unfold as_i32. rewrite Z.mod_small by lia. lia. Qed.

Section Life.
Context (shares_to_json : list VirtiofsShare -> str) (shares_of_json : str -> option (list VirtiofsShare)).
Context (disks_to_json : list str -> str) (disks_of_json : str -> option (list str)).
Context (shares_json : forall l, shares_of_json (shares_to_json l) = Some l).
Context (disks_json : forall l, disks_of_json (disks_to_json l) = Some l).

(** The mount check compares with what the running daemon was started with.  In any state directory
    whose file system works, after a daemon has persisted its state, and as long as its process is
    alive, [ensure_running] uses it exactly for the same shares and the same extra disks, as paths, and refuses any
    others with "already exists"; and it starts a new daemon when the process is gone or after
    [clear], which removes what was persisted. *)
Lemma persisted_decision base name alive pid shares disks shares' disks' f :
  broken f = ∅ -> 0 < pid <= 2147483647 ->
  let s := open_profile base name in
  let f' := persist shares_to_json disks_to_json pid shares disks s f in
  let d := decide_running shares_of_json disks_of_json alive s shares' disks' in
  (alive pid = true ->
     d f' = (if same_shares shares shares' && same_paths disks disks' then UseRunning
             else Refuse AlreadyExists, f')) /\
  (alive pid = false -> (d f').1 = Start) /\
  (d (clear s f')).1 = Start /\
  (forall q, q ∈ [pid_file s; mounts_file s; extra_disks_file s] -> files (clear s f') !! q = None).
Proof.
  intros Hb Hpid s f' d. subst s f' d. destruct (open_profile_files base name) as [p ->].
  set (s := mkState _ _ _ _ _ _). unfold persist, write_pid, write_mounts, write_extra_disks.
  destruct (write_atomic_ok (pid_file s) (dec pid) f Hb) as (Hb1 & Hp1 & _).
  destruct (write_atomic_ok (mounts_file s) (shares_to_json shares) _ Hb1) as (Hb2 & Hm2 & Hk2).
  destruct (write_atomic_ok (extra_disks_file s) (disks_to_json disks) _ Hb2) as (Hb3 & Hd & Hk3).
  set (f' := (write_atomic (extra_disks_file s) _ _).2) in *.
  assert (Hne : forall a b, a <> b -> p ++ a <> p ++ b) by (intros a b Hab Heq; by apply app_inv_head in Heq).
  assert (Hm : files f' !! mounts_file s = Some (shares_to_json shares)).
  { rewrite Hk3; [done|..]; cbn; rewrite <- ?app_assoc; by apply Hne. }
  assert (Hpidf : files f' !! pid_file s = Some (dec pid)).
  { rewrite Hk3, Hk2; [done|..]; cbn; rewrite <- ?app_assoc; by apply Hne. }
  assert (Hbr : forall q, q ∉ broken f') by (intros q; rewrite Hb3; apply not_elem_of_empty).
  assert (Hrun : running_pid alive s f' = if alive pid then Some pid else None).
  { unfold running_pid, read_to_string. rewrite decide_False by apply Hbr.
    rewrite Hpidf, trim_tight by (apply tight_graph; [apply dec_not_nil | apply dec_graph]; lia).
    unfold parse_u32. rewrite parse_uint_dec by (unfold U32_MAX, U64_MAX; lia).
    rewrite as_i32_small by lia. done. }
  assert (Hgone : forall q, q ∈ [pid_file s; mounts_file s; extra_disks_file s] -> files (clear s f') !! q = None).
  { intros q Hq. unfold clear, remove_file. cbn [files]. rewrite !lookup_delete_None.
    rewrite !elem_of_cons, elem_of_nil in Hq. destruct Hq as [->|[->|[->|[]]]]; tauto. }
  unfold decide_running, is_daemon_alive. split_and!.
  - intros Ha. rewrite Hrun, Ha. unfold read_mounts, read_extra_disks, read_list, read_to_string.
    rewrite !decide_False by apply Hbr.
    rewrite Hm, shares_json, Hd, disks_json.
    by destruct (same_shares shares shares'), (same_paths disks disks').
  - intros Ha. by rewrite Hrun, Ha.
  - unfold running_pid, read_to_string. rewrite decide_False by apply Hbr. by rewrite Hgone by left.
  - exact Hgone.
Qed.
End Life.

(** * Witnesses *)

(** A data directory with the default profile configured and two named profiles, one with an address. *)
Definition fs0 : fs :=
  mkFs (<[ #"/d/vm.conf" := #"vm_ip = 192.168.105.2" ++ [NL] ]>
       (<[ #"/d/profiles/a/vm.conf" := #"memory = 4096" ++ [NL] ]>
       (<[ #"/d/profiles/b/vm.conf" := #"vm_ip = 192.168.106.2" ++ [NL] ]> ∅)))
    (Some [ #"a"; #"b"; #"c" ]) ∅.

Lemma subnet_persisted_witness :
  ensure_vm_ip #"/d" #"a" (ensure_vm_ip #"/d" #"a" fs0).2 = (Ok [192; 168; 107; 2], (ensure_vm_ip #"/d" #"a" fs0).2).
Proof.
  refine (proj1 (proj2 (subnet_persisted #"/d" #"a" fs0 [192; 168; 107; 2] (ensure_vm_ip #"/d" #"a" fs0).2 _ _))).
  - right. exists #"memory = 4096". vm_compute. reflexivity.
  - vm_compute. reflexivity.
Defined.

Lemma subnets_distinct_witness : exists n m,
  (ensure_vm_ip #"/d" #"a" fs0).1 = Ok [192; 168; n; 2] /\
  (ensure_vm_ip #"/d" #"c" (ensure_vm_ip #"/d" #"a" fs0).2).1 = Ok [192; 168; m; 2] /\ n <> m.
Proof.
  set (f1 := (ensure_vm_ip #"/d" #"a" fs0).2). set (f2 := (ensure_vm_ip #"/d" #"c" f1).2).
  destruct (subnets_distinct #"/d" #"a" #"c" fs0 [192; 168; 107; 2] f1 [192; 168; 108; 2] f2) as (n & m & Hn & Hm & _ & _ & Hne & _).
  - discriminate.
  - discriminate.
  - discriminate.
  - vm_compute. discriminate.
  - exists [ #"a"; #"b"; #"c" ]. split; [reflexivity|]. left.
  - right. exists #"memory = 4096". vm_compute. reflexivity.
  - intros c Hc. vm_compute in Hc. by injection Hc as <-.
  - intros c Hc. vm_compute in Hc. by injection Hc as <-.
  - vm_compute. reflexivity.
  - vm_compute. reflexivity.
  - exists n, m. rewrite <- Hn, <- Hm. split; [vm_compute; reflexivity|]. split; [vm_compute; reflexivity | done].
Defined.

Definition demo_share : VirtiofsShare := mkShare #"/home/me" #"share0" false #"/root".

#[export] Instance VirtiofsShare_countable : Countable VirtiofsShare.
Proof.
  refine (inj_countable' (fun s => (host_path s, tag s, read_only s, container_path s))
            (fun x => let '(h, t, r, c) := x in mkShare h t r c) _). by intros [].
Defined.

Example mounts_compared :
  let s := open_profile #"/d" #"default" in
  let f := persist to_digits to_digits 42 [demo_share] [ #"/x" ] s (mkFs ∅ None ∅) in
  decide_running of_digits of_digits (fun _ => true) s [] [ #"/x" ] f = (Refuse AlreadyExists, f) /\
  decide_running of_digits of_digits (fun _ => true) s [demo_share] [ #"//x/" ] f = (UseRunning, f).
Proof.
  assert (Hrange : 0 < 42 <= 2147483647) by lia.
  split.
  - exact (proj1 (persisted_decision to_digits of_digits to_digits of_digits of_to_digits of_to_digits #"/d" #"default"
      (fun _ => true) 42 [demo_share] [ #"/x" ] [] [ #"/x" ] (mkFs ∅ None ∅) eq_refl Hrange) eq_refl).
  - exact (proj1 (persisted_decision to_digits of_digits to_digits of_digits of_to_digits of_to_digits #"/d" #"default"
      (fun _ => true) 42 [demo_share] [ #"/x" ] [demo_share] [ #"//x/" ] (mkFs ∅ None ∅) eq_refl Hrange) eq_refl).
Qed.

(** A file edited by hand without a final line break: the address is glued to its last line, so the
    profile gets no address and loses the setting of that line. *)
Example address_glued :
  let f := mkFs (<[ #"/d/vm.conf" := #"memory = 4096" ]> ∅) None ∅ in
  load #"/d" #"default" (ensure_vm_ip #"/d" #"default" f).2 = Ok default_config.
Proof. vm_compute. reflexivity. Qed.

(** Renaming does not keep a second daemon from owning the state: the write of its PID succeeds too. *)
Example pid_overwritten :
  let s := open_profile #"/d" #"default" in
  let f := (write_pid 41 s (mkFs ∅ None ∅)).2 in
  (write_pid 42 s f).1 = Ok tt /\ running_pid (fun _ => true) s (write_pid 42 s f).2 = Some 42.
Proof. vm_compute. by split. Qed.
