(* ===== verification/GuestBuild.v ===== *)
(** What the guest's image builder reads from a Dockerfile ([handle_build], [substitute_build_args] and
    [image_cached_locally] of [pelagos-guest/src/main.rs]): build-argument substitution, and which base
    images must be pulled before the build. *)

From S2P Require Import Prelude RustStd.

#[local] Open Scope Z_scope.

(** * Build arguments *)

Definition is_ident (c : ascii) : bool := is_ascii_alphanumeric c || bool_decide (c = "_"%char).

Fixpoint take_ident (s : str) : str :=
  match s with
  | [] => []
  | c :: t => if is_ident c then c :: take_ident t else []
  end.

(** [out.push(b as char)]: the UTF-8 encoding of the code point with the number of the byte. *)
Definition push_byte (c : ascii) : str :=
  if byte_of c <? 128 then [c]
  else [of_byte (192 + byte_of c / 64); of_byte (128 + byte_of c mod 64)].

Definition var_value (vars : gmap str str) (name : str) : str := unwrap_or (vars !! name) [].

(** [substitute_build_args]; [skip] bytes were consumed with a variable. *)
Fixpoint subst_go (vars : gmap str str) (skip : nat) (s : str) : str :=
  match s with
  | [] => []
  | c :: t =>
      match skip with
      | S k => subst_go vars k t
      | O =>
          if bool_decide (c = "$"%char) then
            match t with
            | d :: t' =>
                if bool_decide (d = "{"%char) then
                  match split_once "}" t' with
                  | Some (name, _) => var_value vars name ++ subst_go vars (length name + 2) t
                  | None => "$"%char :: subst_go vars 0 t
                  end
                else if is_ident d then
                  let name := take_ident t in var_value vars name ++ subst_go vars (length name) t
                else "$"%char :: subst_go vars 0 t
            | [] => ["$"%char]
            end
          else push_byte c ++ subst_go vars 0 t
      end
  end.

Definition substitute_build_args (text : str) (vars : gmap str str) : str := subst_go vars 0 text.

(** The map of [--build-arg] pairs. *)
Definition build_arg_map (build_args : list str) : gmap str str :=
  fold_left (fun m a => match split_once "=" a with Some (k, v) => <[k := v]> m | None => m end) build_args ∅.

(** An [ARG] line: the first default of a name stays. *)
Definition arg_line (m : gmap str str) (line : str) : gmap str str :=
  let trimmed := trim line in
  if starts_with #"ARG" (to_ascii_uppercase trimmed) then
    match split_once "=" (trim (drop 3 trimmed)) with
    | Some (k, v) =>
        let k := trim k in
        match m !! k with Some _ => m | None => <[k := trim v]> m end
    | None => m
    end
  else m.

Definition arg_defaults (content : str) : gmap str str := fold_left arg_line (lines content) ∅.

(** Build arguments take precedence over defaults. *)
Definition sub_vars (build_args : list str) (content : str) : gmap str str :=
  build_arg_map build_args ∪ arg_defaults content.

(** * Base images *)

Definition eq_ignore_ascii_case (a b : str) : bool :=
  bool_decide (to_ascii_lowercase a = to_ascii_lowercase b).

Definition is_from (line : str) : bool := starts_with #"FROM" (to_ascii_uppercase (trim line)).

(** The image of a [FROM] line after substitution. *)
Definition from_base (vars : gmap str str) (line : str) : str :=
  substitute_build_args (nth 1 (split_whitespace (trim line)) []) vars.

(** The alias it declares. *)
Definition from_alias (line : str) : option str :=
  match split_whitespace (trim line) with
  | _ :: _ :: k :: a :: _ => if eq_ignore_ascii_case k #"AS" then Some (to_ascii_lowercase a) else None
  | _ => None
  end.

(** The aliases after a line. *)
Definition add_alias (line : str) (aliases : gset str) : gset str :=
  match from_alias line with Some a => {[ a ]} ∪ aliases | None => aliases end.

(** The lines that need no pull, given the aliases and the images pulled so far. *)
Definition skip_base (base : str) (pulled aliases : gset str) : bool :=
  bool_decide (base = []) || eq_ignore_ascii_case base #"scratch" || starts_with #"$" base
  || bool_decide (to_ascii_lowercase base ∈ pulled) || bool_decide (to_ascii_lowercase base ∈ aliases).

(** The images pulled, in order, when every pull succeeds. *)
Fixpoint plan (vars : gmap str str) (aliases pulled : gset str) (ls : list str) : list str :=
  match ls with
  | [] => []
  | line :: ls =>
      if negb (is_from line) then plan vars aliases pulled ls
      else
        let aliases := add_alias line aliases in
        let base := from_base vars line in
        if skip_base base pulled aliases then plan vars aliases pulled ls
        else base :: plan vars aliases ({[ to_ascii_lowercase base ]} ∪ pulled) ls
  end.

(** * The local image store *)

(** The manifest whose existence tells that an image is cached. *)
Definition image_manifest (image : str) : str :=
  let normalized := if negb (contains_char ":" image) && negb (contains_char "@" image)
                    then image ++ #":latest" else image in
  let dirname := map (fun c => if bool_decide (c ∈ [":"; "/"; "@"]%char) then "_"%char else c) normalized in
  #"/var/lib/pelagos/images/" ++ dirname ++ #"/manifest.json".

(** * Lemmas *)

(** A text as pieces: plain text, variables in both notations, and dollars that start no variable. *)
Inductive piece : Type := Text (s : str) | Var (name : str) | Braced (name : str) | Dollar.

Definition render (p : piece) : str :=
  match p with
  | Text s => s
  | Var n => "$"%char :: n
  | Braced n => #"${" ++ n ++ #"}"
  | Dollar => #"$"
  end.
Definition render_all (ps : list piece) : str := concat (map render ps).

Definition meaning (vars : gmap str str) (p : piece) : str :=
  match p with
  | Text s => s
  | Var n | Braced n => var_value vars n
  | Dollar => #"$"
  end.

(** What follows a piece does not change how it reads. *)
Definition not_ident_first (s : str) : Prop := match s with [] => True | c :: _ => is_ident c = false end.

Fixpoint well_formed (ps : list piece) : Prop :=
  match ps with
  | [] => True
  | p :: ps =>
      match p with
      | Text s => Forall (fun c => c <> "$"%char /\ byte_of c < 128) s
      | Var n => n <> [] /\ Forall (fun c => is_ident c = true) n /\ not_ident_first (render_all ps)
      | Braced n => "}"%char ∉ n
      | Dollar => not_ident_first (render_all ps) /\ head (render_all ps) <> Some "{"%char
      end /\ well_formed ps
  end.

Lemma subst_skip vars s t : forall k, k = length s -> subst_go vars k (s ++ t) = subst_go vars 0 t.
Proof. induction s as [|c s IH]; intros k ->; [done|]. cbn. by apply IH. Qed.

Lemma take_ident_app n t : Forall (fun c => is_ident c = true) n -> not_ident_first t -> take_ident (n ++ t) = n.
Proof.
  intros Hn Ht. induction Hn as [|c n Hc Hn IH]; cbn.
  - destruct t as [|d t]; [done|]. cbn in *. by rewrite Ht.
  - by rewrite Hc, IH.
Qed.

Lemma subst_text vars s t : Forall (fun c => c <> "$"%char /\ byte_of c < 128) s ->
  subst_go vars 0 (s ++ t) = s ++ subst_go vars 0 t.
Proof.
  induction 1 as [|c s [Hc Hb] Hs IH]; [done|]. cbn [app subst_go]. rewrite bool_decide_eq_false_2 by done.
  unfold push_byte. rewrite (proj2 (Z.ltb_lt _ _)) by done. cbn [app]. by rewrite IH.
Qed.

Lemma subst_piece vars p ps : well_formed (p :: ps) ->
  subst_go vars 0 (render p ++ render_all ps) = meaning vars p ++ subst_go vars 0 (render_all ps).
Proof.
  destruct p as [s|n|n|]; intros [Hp _]; cbn [render meaning].
  - by apply subst_text.
  - destruct Hp as (Hne & Hn & Hf). destruct n as [|d n]; [done|].
    pose proof (take_ident_app (d :: n) _ Hn Hf) as Ht. apply Forall_cons in Hn as [Hd Hn].
    cbn [app subst_go]. rewrite bool_decide_eq_true_2 by done.
    rewrite bool_decide_eq_false_2 by (intros ->; done). rewrite Hd.
    change (d :: n ++ render_all ps) with ((d :: n) ++ render_all ps). rewrite Ht.
    f_equal. by apply subst_skip.
  - change (#"${" ++ n ++ #"}") with ("$"%char :: "{"%char :: n ++ ["}"%char]).
    cbn [app]. rewrite <- app_assoc. cbn [app].
    replace (subst_go vars 0 ("$"%char :: "{"%char :: n ++ "}"%char :: render_all ps))
      with (var_value vars n ++ subst_go vars (length n + 2) ("{"%char :: n ++ "}"%char :: render_all ps))
      by (cbn [subst_go]; by rewrite split_once_app).
    f_equal. rewrite <- (subst_skip vars ("{"%char :: n ++ ["}"%char]) (render_all ps) (length n + 2)).
    + f_equal. cbn. by rewrite <- app_assoc.
    + cbn. rewrite length_app. cbn. lia.
  - destruct Hp as [Hf Hh]. cbn [app]. change (#"$" ++ ?t) with ("$"%char :: t).
    destruct (render_all ps) as [|d t]; [done|]. cbn in Hf.
    cbn [subst_go]. rewrite (bool_decide_eq_true_2 ("$"%char = "$"%char)) by done.
    rewrite bool_decide_eq_false_2 by (intros ->; done). by rewrite Hf.
Qed.

(** * Properties *)

(** build arguments are substituted everywhere and nothing else changes.  For every text that is
    read as plain ASCII text, [$NAME] and [${NAME}] variables and lone dollars, the result is the
    text with each variable replaced by its value, or by nothing when it has none. *)
Theorem substitute_pieces vars ps :
  well_formed ps -> substitute_build_args (render_all ps) vars = concat (map (meaning vars) ps).
Proof.
  unfold substitute_build_args. induction ps as [|p ps IH]; intros Hw; [done|].
  change (render_all (p :: ps)) with (render p ++ render_all ps).
  rewrite subst_piece by done. cbn [map concat]. rewrite IH; [done|]. apply Hw.
Qed.

Lemma substitute_pieces_witness :
  substitute_build_args #"mcr/$VARIANT-${OS}:1$/$NONE" (<[ #"VARIANT" := #"base" ]> (<[ #"OS" := #"jammy" ]> ∅))
  = #"mcr/base-jammy:1$/".
Proof.
  refine (substitute_pieces _ [Text #"mcr/"; Var #"VARIANT"; Text #"-"; Braced #"OS"; Text #":1"; Dollar; Text #"/"; Var #"NONE"] _).
  repeat split; try discriminate; try (repeat constructor; (discriminate || lia)).
  by apply not_in_literal.
Defined.

(** A byte that is not ASCII is pushed as a character of its own: text in UTF-8 does not survive. *)
Example substitute_mojibake :
  substitute_build_args [of_byte 195; of_byte 169] ∅ = map of_byte [195; 131; 194; 169].
Proof. vm_compute. reflexivity. Qed.

(** The aliases known after some lines. *)
Definition aliases_after (aliases : gset str) (ls : list str) : gset str :=
  fold_left (fun a l => if is_from l then add_alias l a else a) ls aliases.

Lemma plan_app vars l1 : forall aliases pulled l2,
  plan vars aliases pulled (l1 ++ l2)
  = plan vars aliases pulled l1
    ++ plan vars (aliases_after aliases l1)
         (pulled ∪ list_to_set (map to_ascii_lowercase (plan vars aliases pulled l1))) l2.
Proof.
  induction l1 as [|l l1 IH]; intros aliases pulled l2.
  { cbn. f_equal. set_solver. }
  cbn [app plan]. unfold aliases_after. cbn [fold_left]. destruct (is_from l); cbn [negb]; [|apply IH].
  cbv zeta. destruct (skip_base _ _ _); [apply IH|]. rewrite IH. cbn [app map list_to_set]. f_equal.
  unfold aliases_after. by rewrite (union_comm_L _ pulled), union_assoc_L.
Qed.

Lemma plan_not_pulled vars ls : forall aliases pulled b,
  b ∈ map to_ascii_lowercase (plan vars aliases pulled ls) -> b ∉ pulled.
Proof.
  induction ls as [|l ls IH]; intros aliases pulled b Hb; [by apply elem_of_nil in Hb|].
  cbn [plan] in Hb. destruct (is_from l); cbn [negb] in Hb; [|by eapply IH].
  cbv zeta in Hb. destruct (skip_base _ _ _) eqn:Es; [by eapply IH|]. cbn [map] in Hb.
  apply elem_of_cons in Hb as [->|Hb].
  - unfold skip_base in Es. bool_arith. by eapply bool_decide_eq_false_1.
  - apply IH in Hb. set_solver.
Qed.

Lemma plan_nodup vars ls : forall aliases pulled, NoDup (map to_ascii_lowercase (plan vars aliases pulled ls)).
Proof.
  induction ls as [|l ls IH]; intros aliases pulled; [constructor|].
  cbn [plan]. cbv zeta. destruct (is_from l), (skip_base _ _ _); cbn [negb]; try apply IH. cbn [map]. constructor; [|apply IH].
  intros Hb%plan_not_pulled. set_solver.
Qed.

(** C21: the base images are pulled before the build, each once.  Among the images pulled for a
    Dockerfile none occurs twice up to case; and the base of every [FROM] line is empty, [scratch], an
    unresolved variable, an alias declared on a line up to this one, or among the images pulled
    for the lines up to this one. *)
Theorem bases_pulled_once vars before line after :
  let pulled ls := map to_ascii_lowercase (plan vars ∅ ∅ ls) in
  let base := from_base vars line in
  NoDup (pulled (before ++ line :: after)) /\
  (is_from line = true ->
   base = [] \/ eq_ignore_ascii_case base #"scratch" = true \/ starts_with #"$" base = true \/
   to_ascii_lowercase base ∈ aliases_after ∅ (before ++ [line]) \/
   to_ascii_lowercase base ∈ pulled (before ++ [line])).
Proof.
  cbv zeta. split; [apply plan_nodup|]. intros Hf.
  unfold aliases_after. rewrite plan_app, fold_left_app. cbn [fold_left plan]. rewrite Hf. cbn [negb].
  destruct (skip_base _ _ _) eqn:Es.
  - unfold skip_base in Es. rewrite !orb_true_iff in Es. destruct Es as [[[[Es|Es]|Es]|Es]|Es]; [..|].
    + left. by eapply bool_decide_eq_true_1.
    + by right; left.
    + by right; right; left.
    + do 4 right. rewrite app_nil_r. apply bool_decide_eq_true_1 in Es. set_solver.
    + do 3 right. left. by eapply bool_decide_eq_true_1.
  - do 4 right. rewrite map_app. apply elem_of_app. right. left.
Qed.

Lemma bases_pulled_once_witness :
  let dockerfile := [ #"FROM golang:1 AS build"; #"RUN make"; #"from alpine"; #"FROM Alpine"; #"FROM build" ] in
  NoDup (map to_ascii_lowercase (plan ∅ ∅ ∅ dockerfile)) /\ plan ∅ ∅ ∅ dockerfile = [ #"golang:1"; #"alpine" ] /\
  (to_ascii_lowercase #"build" ∈ aliases_after ∅ dockerfile).
Proof.
  split; [|split; [vm_compute; reflexivity|]].
  - exact (proj1 (bases_pulled_once ∅ [ #"FROM golang:1 AS build"; #"RUN make"; #"from alpine"; #"FROM Alpine" ] #"FROM build" [])).
  - destruct (proj2 (bases_pulled_once ∅ [ #"FROM golang:1 AS build"; #"RUN make"; #"from alpine"; #"FROM Alpine" ] #"FROM build" []) eq_refl)
      as [H|[H|[H|[H|H]]]]; try discriminate H; [exact H|].
    exfalso. revert H. eapply bool_decide_eq_false_1. vm_compute. reflexivity.
Defined.

(** A stage that takes the name of its own base image keeps the image from being pulled. *)
Example own_name_not_pulled : plan ∅ ∅ ∅ [ #"FROM alpine AS alpine" ] = [].
Proof. vm_compute. reflexivity. Qed.

(** A word that begins like [ARG] counts as one. *)
Example argument_counts : arg_defaults #"ARGUMENT=1" = {[ #"UMENT" := #"1" ]}.
Proof. vm_compute. reflexivity. Qed.
