(* ===== verification/GuestServer.v ===== *)
(** The command server of the guest daemon ([pelagos-guest/src/main.rs]): the connection loop, the
    dispatch of the commands, and every handler, down to the subprocesses it starts and the responses
    it writes. *)

From S2P Require Import Prelude RustStd Paths Json GuestProto GuestBuild.

#[local] Open Scope Z_scope.

(** * The outside *)

(** What a subprocess with pipes did: its output, the order in which the two reader threads delivered
    their chunks ([true] is standard output), and what waiting for it gave (the exit code, [None] after
    a signal). *)
Record proc := mkProc { out : str; err : str; sched : list bool; waited : result (option Z) unit }.

(** Calls that leave the program. *)
Inductive ev : Type :=
| Respond (r : GuestResponse)              (* one response line *)
| WriteRaw (data : str)
| SendEvents                               (* the loop of a subscription *)
| Frames (tty : bool) (c : Command)        (* the framed part of an exec connection *)
| ReadFails
| Exists (path : str)
| ReadDir (path : str)
| ReadFile (path : str)
| CreateDirAll (path : str)
| RemoveDirAll (path : str)
| NowMicros
| Spawn (c : Command)                      (* with piped output *)
| SpawnStdin (c : Command) (input : str)   (* with piped output and input *)
| SpawnDetached (c : Command)              (* piped standard output, of which one line is read *)
| StartPiped (c : Command)                     (* with pipes, its input still open *)
| StartIn (ns : list Z) (root : Z) (c : Command)
                                           (* the same, in the namespaces and root of a container *)
| Feed (input : str)                       (* write the input of the child started last, close it, wait *)
| Output (c : Command)                     (* run to completion, output collected *)
| OutputIn (ns : list Z) (root : Z) (c : Command)
| Succeeds (c : Command)                   (* run to completion, only success is looked at *)
| Background (c : Command)
| OpenFd (path : str)
| CloseFd (fd : Z)
| PortOpen (port : Z)
| Deadline                                 (* has the deadline passed? *)
| SleepMs (ms : Z).

Definition reply (e : ev) : Type :=
  match e with
  | Respond _ | WriteRaw _ => bool
  | SendEvents | Frames _ _ => bool
  | ReadFails | Exists _ | CreateDirAll _ | Succeeds _ | PortOpen _ | Deadline => bool
  | ReadDir _ => option (list str)
  | ReadFile _ => option str
  | NowMicros => Z
  | Spawn _ => result proc str
  | SpawnStdin _ _ => result (bool * proc) str        (* was all of the input written? *)
  | SpawnDetached _ => result (str * result (option Z) unit) str
  | StartPiped _ | StartIn _ _ _ => result unit str
  | Feed _ => option str * proc                       (* the error of the copy, if any *)
  | Output _ | OutputIn _ _ _ => result (str * str * option Z) str
  | OpenFd _ => result Z str
  | RemoveDirAll _ | Background _ | CloseFd _ | SleepMs _ => unit
  end.

(** The state of a connection handler is the input it has not read yet. *)
Definition M (A : Type) : Type := Sys ev reply str (result A unit).

Abbreviation ask e := (call (R := reply) (S := str) e).
Definition ok {A} (a : A) : M A := ret (Ok a).
Definition fail {A} : M A := ret (Err tt).
Definition ok_if (b : bool) : M unit := if b then ok tt else fail.

(** [send_response] *)
Definition send_response (r : GuestResponse) : M unit := b <- ask (Respond r) ;; ok_if b.

(** An [i32] in decimal. *)
Definition show_i32 (z : Z) : str := if z <? 0 then "-"%char :: dec (- z) else dec z.

Definition code_of (status : option Z) : Z := unwrap_or status (-1).
Definition success (status : option Z) : bool := bool_decide (status = Some 0).

Section Server.
Context {J : Json}.
(** The runtime's path ([pelagos_bin]), validity of UTF-8, lossy decoding, the version string, and the
    JSON codec of commands. *)
Context (pelagos_bin : str) (utf8 : str -> bool) (lossy : str -> str) (version : str).
(** The message of the error of parsing a number. *)
Context (parse_int_error : str -> str).
Context (parse_command : str -> result GuestCommand str).

(** * Streaming subprocesses *)

Inductive Chunk : Type := OutC (data : str) | ErrC (data : str) | DoneC.

(** A reader thread: the lines of the pipe, each with a line break, up to the first that is not UTF-8. *)
Fixpoint valid_lines (ls : list str) : list str :=
  match ls with
  | [] => []
  | l :: ls => if utf8 l then l :: valid_lines ls else []
  end.
Definition reader_thread (mk : str -> Chunk) (pipe : str) : list Chunk :=
  map (fun l => mk (l ++ [NL])) (valid_lines (lines pipe)) ++ [DoneC].

(** The channel both threads send to. *)
Fixpoint merge (sched : list bool) (a b : list Chunk) : list Chunk :=
  match sched, a, b with
  | true :: s, x :: a', _ => x :: merge s a' b
  | false :: s, _, y :: b' => y :: merge s a b'
  | _ :: s, _, _ => merge s a b
  | [], _, _ => a ++ b
  end.

Fixpoint relay (done : nat) (rx : list Chunk) : M unit :=
  if (2 <=? done)%nat then ok tt
  else match rx with
       | OutC data :: rx => send_response (Stream Stdout data) ;;? relay done rx
       | ErrC data :: rx => send_response (Stream Stderr data) ;;? relay done rx
       | DoneC :: rx => relay (S done) rx
       | [] => ok tt
       end.

(** What both helpers do once the child runs. *)
Definition stream_child (p : proc) : M unit :=
  relay 0 (merge (sched p) (reader_thread OutC (out p)) (reader_thread ErrC (err p))) ;;?
  match waited p with
  | Ok status => send_response (Exit (code_of status))
  | Err _ => fail
  end.

Definition spawn_and_stream (c : Command) : M unit :=
  r <- ask (Spawn c) ;;
  match r with
  | Err e => send_response (Error e)
  | Ok p => stream_child p
  end.

Definition spawn_and_stream_with_stdin (c : Command) (stdin_data : str) : M unit :=
  r <- ask (SpawnStdin c stdin_data) ;;
  match r with
  | Err e => send_response (Error e)
  | Ok (written, p) => ok_if written ;;? stream_child p
  end.

(** [run_detached]: the first line of the output is the name of the container. *)
Definition run_detached (c : Command) : M unit :=
  r <- ask (SpawnDetached c) ;;
  match r with
  | Err e => send_response (Error e)
  | Ok (line, waited) =>
      let name_line := trim_end_matches CR (trim_end_matches NL line) in
      match waited with
      | Err _ => fail
      | Ok status =>
          (if bool_decide (name_line = []) then ok tt else send_response (Stream Stdout (name_line ++ [NL]))) ;;?
          send_response (Exit (code_of status))
      end
  end.

(** * Pulling an image *)

Definition PULL_ATTEMPTS : nat := 10.

Fixpoint send_lines (ls : list str) : M unit :=
  match ls with
  | [] => ok tt
  | l :: ls => send_response (Stream Stderr (l ++ [NL])) ;;? send_lines ls
  end.

(** The attempts left, and the error of the last one. *)
Fixpoint pull_attempts (image : str) (left : nat) (pull_error : str) : M bool :=
  match left with
  | O => send_response (Error pull_error) ;;? ok false
  | S left' =>
      r <- ask (Spawn (cmd0 pelagos_bin [ #"image"; #"pull"; image])) ;;
      match r with
      | Err e => send_response (Error (#"image pull spawn failed: " ++ e)) ;;? ok false
      | Ok p =>
          send_lines (List.filter utf8 (lines (err p)) ++ List.filter utf8 (lines (out p))) ;;?
          match waited p with
          | Err _ => fail
          | Ok status =>
              if success status then ok true
              else
                let pull_error := #"image pull failed (exit " ++ show_i32 (code_of status) ++ #")" in
                (if bool_decide (left' = 0%nat) then ret tt else ask (SleepMs 2000)) ;;
                pull_attempts image left' pull_error
          end
      end
  end.

Definition pull_image (image : str) : M bool :=
  cached <- ask (Exists (image_manifest image)) ;;
  if cached then ok true else pull_attempts image PULL_ATTEMPTS [].

(** * Running containers *)

Definition flag (name : str) (v : option str) : list str := match v with Some v => [name; v] | None => [] end.
Definition flags (name : str) (vs : list str) : list str := flat_map (fun v => [name; v]) vs.

Definition run_mount (m : GuestMount) : str :=
  let guest_src := if bool_decide (subpath m = []) then #"/mnt/" ++ tag m
                   else #"/mnt/" ++ tag m ++ #"/" ++ trim_start_matches "/" (subpath m) in
  guest_src ++ #":" ++ container_path m.

(** The command of [run_container]. *)
Definition run_cmd (l : Launch) (detach : bool) : Command :=
  mkCmd pelagos_bin
    ([ #"run"] ++ flag #"--name" (cname l) ++ (if detach then [ #"--detach"] else [])
     ++ flags #"-v" (map run_mount (mounts l)) ++ flags #"--label" (labels l)
     ++ flags #"--publish" (publish l) ++ flag #"--network" (network l) ++ flags #"--dns" (dns l)
     ++ [image l] ++ args l)
    (env l) None.

Definition run_container (l : Launch) (detach : bool) : M unit :=
  pulled <-? pull_image (image l) ;;
  if negb pulled then ok tt
  else if detach then run_detached (run_cmd l detach) else spawn_and_stream (run_cmd l detach).

Definition exec_mount (m : GuestMount) : str :=
  (if bool_decide (subpath m = []) then #"/mnt/" ++ tag m else #"/mnt/" ++ tag m ++ #"/" ++ subpath m)
  ++ #":" ++ container_path m.

(** The command of [handle_exec]. *)
Definition exec_cmd (l : Launch) (tty : bool) : Command :=
  mkCmd pelagos_bin
    ([ #"run"] ++ (if tty then [ #"--interactive"] else []) ++ flag #"--name" (cname l)
     ++ flags #"--label" (labels l) ++ flags #"--publish" (publish l) ++ flag #"--network" (network l)
     ++ flags #"--dns" (dns l) ++ flags #"--volume" (map exec_mount (mounts l)) ++ [image l] ++ args l)
    (env l) None.

(** [handle_exec_piped] and [handle_exec_tty] *)
Definition handle_frames (tty : bool) (c : Command) : M unit := b <- ask (Frames tty c) ;; ok_if b.

Definition handle_exec (l : Launch) (tty : bool) : M unit :=
  pulled <-? pull_image (image l) ;;
  if negb pulled then ok tt
  else send_response (Ready true) ;;? handle_frames false (exec_cmd l tty).

(** The command of [handle_exec_into]. *)
Definition exec_into_cmd (container : str) (args : list str) (env : list (str * str)) (tty : bool)
    (workdir : option str) : Command :=
  cmd0 pelagos_bin
    ([ #"exec"] ++ (if tty then [ #"--interactive"] else []) ++ flag #"--workdir" workdir
     ++ flat_map (fun '(k, v) => [ #"--env"; k ++ #"=" ++ v]) env ++ [container] ++ args).

Definition handle_exec_into (container : str) (args : list str) (env : list (str * str)) (tty : bool)
    (workdir : option str) : M unit :=
  match args with
  | [] => _ <- send_response (Error #"exec: no command specified") ;; fail
  | _ => send_response (Ready true) ;;? handle_frames tty (exec_into_cmd container args env tty workdir)
  end.

(** * Handlers that run one subcommand *)

Definition pelagos (argv : list str) : Command := cmd0 pelagos_bin argv.

Definition compose_cmd (subcommand file working_dir : str) (project : option str) (args : list str)
    (env : list (str * str)) : Command :=
  mkCmd pelagos_bin ([ #"compose"; subcommand; #"-f"; file] ++ flag #"-p" project ++ args) env (Some working_dir).

Definition handle_compose (subcommand file working_dir : str) (project : option str) (args : list str)
    (env : list (str * str)) : M unit :=
  spawn_and_stream (compose_cmd subcommand file working_dir project args env).

Definition handle_volume (sub : str) (name : option str) : M unit :=
  spawn_and_stream (pelagos ([ #"volume"; sub] ++ match name with Some n => [n] | None => [] end)).
Definition handle_network (sub : str) (args : list str) : M unit :=
  spawn_and_stream (pelagos ([ #"network"; sub] ++ args)).
Definition handle_image_ls (json : bool) : M unit :=
  spawn_and_stream (pelagos ([ #"image"; #"ls"] ++ (if json then [ #"--format"; #"json"] else []))).
Definition handle_image_pull (reference : str) : M unit :=
  spawn_and_stream (pelagos [ #"image"; #"pull"; reference]).
Definition handle_image_rm (reference : str) : M unit :=
  spawn_and_stream (pelagos [ #"image"; #"rm"; reference]).
Definition handle_image_tag (source target : str) : M unit :=
  spawn_and_stream (pelagos [ #"image"; #"tag"; source; target]).
Definition handle_image_inspect (reference : str) : M unit :=
  spawn_and_stream (pelagos [ #"image"; #"ls"; #"--format"; #"json"]).
Definition handle_image_login (registry username password : str) : M unit :=
  spawn_and_stream_with_stdin
    (pelagos [ #"image"; #"login"; #"--username"; username; #"--password-stdin"; registry]) password.
Definition handle_image_logout (registry : str) : M unit :=
  spawn_and_stream (pelagos [ #"image"; #"logout"; registry]).

(** * Prune *)

(** A round of the loop of [ContainerPrune]: was the container removed? *)
Definition prune_entry (name : str) : M bool :=
  data <- ask (ReadFile (#"/run/pelagos/containers/" ++ name ++ #"/state.json")) ;;
  match and_then data from_str with
  | None => ok false
  | Some val =>
      if bool_decide (and_then (get #"status" val) as_str = Some #"exited") then
        o <- ask (Output (pelagos [ #"rm"; name])) ;;
        match o with
        | Ok (_, stderr, status) =>
            if success status
            then send_response (Stream Stdout (name ++ [NL])) ;;? ok true
            else send_response (Stream Stderr
                   (#"error removing " ++ name ++ #": " ++ trim (lossy stderr) ++ [NL])) ;;? ok false
        | Err e => send_response (Stream Stderr (#"error removing " ++ name ++ #": " ++ e ++ [NL])) ;;? ok false
        end
      else ok false
  end.

Fixpoint prune_entries (entries : list str) (removed : nat) : M nat :=
  match entries with
  | [] => ok removed
  | name :: entries =>
      r <-? prune_entry name ;; prune_entries entries (if (r : bool) then S removed else removed)
  end.

Definition container_prune : M unit :=
  entries <- ask (ReadDir #"/run/pelagos/containers") ;;
  removed <-? match entries with Some l => prune_entries l 0 | None => ok 0%nat end ;;
  send_response (Stream Stdout (dec (Z.of_nat removed) ++ #" container(s) removed" ++ [NL])) ;;?
  send_response (Exit 0).

(** * Versions *)

Definition tool_version (c : Command) (strip : str) : M (option str) :=
  o <- ask (Output c) ;;
  ok match o with
     | Ok (stdout, _, status) =>
         if success status && utf8 stdout
         then Some (unwrap_or (strip_prefix strip (trim stdout)) (trim stdout)) else None
     | Err _ => None
     end.

Definition handle_version : M unit :=
  runtime <-? tool_version (cmd0 #"pelagos" [ #"--version"]) #"pelagos " ;;
  kernel <-? tool_version (cmd0 #"uname" [ #"-r"]) [] ;;
  send_response (VersionInfo version runtime kernel).

(** * Kubernetes *)

Definition k8s_is_running (name : str) : M bool := b <- ask (Succeeds (cmd0 #"pgrep" [ #"-x"; name])) ;; ok b.

Fixpoint k8s_find_bin (name : str) (dirs : list str) : M str :=
  match dirs with
  | [] => ok name
  | dir :: dirs =>
      let p := dir ++ #"/" ++ name in
      b <- ask (Exists p) ;; if b then ok p else k8s_find_bin name dirs
  end.

(** The loop of [k8s_wait_for_port], for at most [fuel] rounds; a round takes half a second. *)
Fixpoint k8s_wait_for_port (fuel : nat) (port : Z) : M unit :=
  match fuel with
  | O => ok tt
  | S fuel =>
      over <- ask Deadline ;;
      if over then ok tt
      else
        connected <- ask (PortOpen port) ;;
        if connected then ok tt
        else ask (SleepMs 500) ;; k8s_wait_for_port fuel port
  end.
Definition K8S_ROUNDS : nat := 61.

Definition handle_kubernetes_status : M unit :=
  api <-? k8s_is_running #"api-server" ;;
  running <-? (if (api : bool) then k8s_is_running #"kubelet" else ok false) ;;
  send_response (KubernetesState running).

Definition setsid (argv : list str) (env : list (str * str)) : Command := mkCmd #"setsid" (#"--fork" :: argv) env None.

Definition start_dockerd (dockerd : str) : M unit :=
  running <-? k8s_is_running #"pelagos-dockerd" ;;
  if (running : bool) then ok tt
  else
    ask (Background (setsid [dockerd; #"--pelagos-bin"; pelagos_bin] [])) ;;
    send_response (Stream Stdout (#"started pelagos-dockerd" ++ [NL])) ;;?
    ask (SleepMs 500) ;; ok tt.

Definition TLS_CERT : str := #"/mnt/Projects/pelagos-mac/tls/server.crt".
Definition TLS_KEY : str := #"/mnt/Projects/pelagos-mac/tls/server.key".
Definition CONSOLE_DIR : str := #"/mnt/Projects/rusternetes/console/dist".
Definition data_dir : str := #"/var/lib/rusternetes/cluster.db".

Definition tls_args : M (list str) :=
  cert <- ask (Exists TLS_CERT) ;;
  key <- (if cert then ask (Exists TLS_KEY) else ret false) ;;
  ok (if key then [ #"--tls"; #"--tls-cert-file"; TLS_CERT; #"--tls-key-file"; TLS_KEY]
      else [ #"--tls"; #"--tls-self-signed"; #"--tls-san"; #"localhost,127.0.0.1"]).

Definition start_api_server (api_bin : str) : M unit :=
  running <-? k8s_is_running #"api-server" ;;
  if (running : bool) then ok tt
  else
    tls <-? tls_args ;;
    console <- ask (Exists CONSOLE_DIR) ;;
    ask (Background (setsid ([api_bin; #"--storage-backend"; #"sqlite"; #"--data-dir"; data_dir; #"--skip-auth"]
      ++ tls ++ (if console then [ #"--console-dir"; CONSOLE_DIR] else [])) [])) ;;
    send_response (Stream Stdout (#"started api-server, waiting for ready..." ++ [NL])) ;;?
    k8s_wait_for_port K8S_ROUNDS 6443 ;;?
    send_response (Stream Stdout (#"api-server ready" ++ [NL])).

Definition start_kubelet (kubelet_bin : str) : M unit :=
  running <-? k8s_is_running #"kubelet" ;;
  if (running : bool) then ok tt
  else
    ask (Background (setsid [kubelet_bin; #"--node-name"; #"pelagos-node"; #"--storage-backend"; #"sqlite";
      #"--data-dir"; data_dir; #"--network"; #"bridge"]
      [(#"DOCKER_HOST", #"unix:///var/run/pelagos-dockerd.sock"); (#"RUST_MIN_STACK", #"8388608")])) ;;
    send_response (Stream Stdout (#"started kubelet" ++ [NL])).

Definition handle_kubernetes_start : M unit :=
  dockerd <-? k8s_find_bin #"pelagos-dockerd" [ #"/usr/local/bin"; #"/mnt/Projects/pelagos/target/debug"] ;;
  api_bin <-? k8s_find_bin #"api-server" [ #"/usr/local/bin"; #"/mnt/Projects/rusternetes/target/debug"] ;;
  kubelet_bin <-? k8s_find_bin #"kubelet" [ #"/usr/local/bin"; #"/mnt/Projects/rusternetes/target/debug"] ;;
  ask (CreateDirAll #"/var/lib/rusternetes") ;;
  start_dockerd dockerd ;;?
  start_api_server api_bin ;;?
  start_kubelet kubelet_bin ;;?
  send_response (Exit 0).

Definition pkill (name : str) : Sys ev reply str unit :=
  ask (Succeeds (cmd0 #"pkill" [ #"-x"; name])) ;; ret tt.

Definition handle_kubernetes_stop : M unit :=
  for_each [ #"kubelet"; #"api-server"; #"pelagos-dockerd"] pkill ;;
  send_response (Exit 0).

(** * Copying *)

(** The rows of [pelagos ps --all]: name, status, PID. *)
Fixpoint ps_pid (container : str) (ls : list str) : result Z str :=
  match ls with
  | [] => Err (#"container '" ++ container ++ #"' not found or not running")
  | line :: ls =>
      match split_whitespace line with
      | c0 :: _ :: pid_str :: _ =>
          if bool_decide (c0 = container) then
            if bool_decide (pid_str = #"-")
            then Err (#"container '" ++ container ++ #"' has no running process (PID is '-')")
            else match parse_u32 pid_str with Some pid => Ok pid | None => Err (parse_int_error pid_str) end
          else ps_pid container ls
      | _ => ps_pid container ls
      end
  end.

(** [get_container_pid]; an error is its message. *)
Definition get_container_pid (container : str) : M (result Z str) :=
  o <- ask (Output (pelagos [ #"ps"; #"--all"])) ;;
  ok match o with
     | Err e => Err e
     | Ok (stdout, _, _) => ps_pid container (lines (lossy stdout))
     end.

(** [find_root_pid] *)
Definition root_pid_of (pid : Z) (content : option str) : Z :=
  match content with
  | Some c => match omap parse_u32 (split_whitespace c) with [child] => child | _ => pid end
  | None => pid
  end.
Definition children_path (pid : Z) : str := #"/proc/" ++ dec pid ++ #"/task/" ++ dec pid ++ #"/children".
Definition find_root_pid (pid : Z) : M Z :=
  content <- ask (ReadFile (children_path pid)) ;;
  ok (root_pid_of pid content).

Definition root_path (root_pid : Z) : str := #"/proc/" ++ dec root_pid ++ #"/root".
Definition open_root_fd (pid : Z) : M (result Z str) :=
  root_pid <-? find_root_pid pid ;;
  fd <- ask (OpenFd (root_path root_pid)) ;; ok fd.

Definition NS_NAMES : list str := [ #"net"; #"uts"; #"ipc"; #"pid"; #"mnt"].

Definition close_all (fds : list Z) : Sys ev reply str unit := for_each fds (fun fd => ask (CloseFd fd)).

Definition ns_path (pid : Z) (ns : str) : str := #"/proc/" ++ dec pid ++ #"/ns/" ++ ns.

(** The loop of [open_ns_fds]: a failure closes those opened so far. *)
Fixpoint open_fds (pid : Z) (names : list str) (fds : list Z) : M (result (list Z) str) :=
  match names with
  | [] => ok (Ok fds)
  | ns :: names =>
      fd <- ask (OpenFd (ns_path pid ns)) ;;
      match fd with
      | Ok fd => open_fds pid names (fds ++ [fd])
      | Err e => close_all fds ;; ok (Err e)
      end
  end.
Definition open_ns_fds (pid : Z) : M (result (list Z) str) := open_fds pid NS_NAMES [].

(** The part [handle_cp_from] and [handle_cp_to] share: enter the container's namespaces, or answer why
    not. *)
Definition enter (container : str) (k : list Z -> Z -> M unit) : M unit :=
  pid <-? get_container_pid container ;;
  match pid with
  | Err e => send_response (Error (#"cp: " ++ e))
  | Ok pid =>
      ns_fds <-? open_ns_fds pid ;;
      match ns_fds with
      | Err e => send_response (Error (#"cp: open ns fds: " ++ e))
      | Ok ns_fds =>
          root_fd <-? open_root_fd pid ;;
          match root_fd with
          | Err e => close_all ns_fds ;; send_response (Error (#"cp: open root fd: " ++ e))
          | Ok root_fd => k ns_fds root_fd
          end
      end
  end.

Definition write_raw (data : str) : M unit := b <- ask (WriteRaw data) ;; ok_if b.

(** The [tar] command of [handle_cp_from]. *)
Definition cp_from_cmd (src : str) : Command :=
  let parent := match parent src with Some p => if bool_decide (p = []) then #"/" else p | None => #"/" end in
  cmd0 #"tar" [ #"-cC"; parent; unwrap_or (file_name src) #"."].

Definition handle_cp_from (container src : str) : M unit :=
  enter container (fun ns_fds root_fd =>
    output <- ask (OutputIn ns_fds root_fd (cp_from_cmd src)) ;;
    close_all ns_fds ;; ask (CloseFd root_fd) ;;
    match output with
    | Err e => send_response (Error e)
    | Ok (stdout, stderr, status) =>
        if success status then
          send_response (RawBytes (length stdout)) ;;?
          write_raw stdout ;;?
          send_response (Exit 0)
        else
          send_response (Error (#"cp: tar failed (exit " ++ show_i32 (code_of status) ++ #"): " ++ trim (lossy stderr)))
    end).

(** [(&mut reader).take(n)] read to its end. *)
Definition take_input (n : nat) : M str := s <- get_st ;; put_st (drop n s) ;; ok (take n s).

Definition handle_cp_to (container dst : str) (data_size : nat) : M unit :=
  enter container (fun ns_fds root_fd =>
    child <- ask (StartIn ns_fds root_fd (cmd0 #"tar" [ #"-xC"; dst])) ;;
    close_all ns_fds ;; ask (CloseFd root_fd) ;;
    match child with
    | Err e => send_response (Error e)
    | Ok _ =>
        data <-? take_input data_size ;;
        fed <- ask (Feed data) ;;
        match fed with
        | (Some e, _) => send_response (Error e)
        | (None, p) =>
            match waited p with
            | Err _ => fail
            | Ok status =>
                (if bool_decide (err p = []) then ok tt else send_response (Stream Stderr (err p))) ;;?
                send_response (Exit (code_of status))
            end
        end
    end).

(** * Building an image *)

(** The loop over the [FROM] lines: is every base image there? *)
Fixpoint pull_bases (vars : gmap str str) (aliases pulled : gset str) (ls : list str) : M bool :=
  match ls with
  | [] => ok true
  | line :: ls =>
      if negb (is_from line) then pull_bases vars aliases pulled ls
      else
        let aliases := add_alias line aliases in
        let base := from_base vars line in
        if skip_base base pulled aliases then pull_bases vars aliases pulled ls
        else
          b <-? pull_image base ;;
          if negb b then ok false
          else pull_bases vars aliases ({[ to_ascii_lowercase base ]} ∪ pulled) ls
  end.

Definition build_cmd (tag dockerfile_path : str) (build_args : list str) (no_cache : bool) (ctx_dir : str) : Command :=
  pelagos ([ #"build"; #"-t"; tag; #"-f"; dockerfile_path; #"--network"; #"pasta"]
    ++ flags #"--build-arg" build_args ++ (if no_cache then [ #"--no-cache"] else []) ++ [ctx_dir]).

(** The extraction of the context: an answer is sent when it fails. *)
Definition extract_context (ctx_dir : str) (context_size : nat) : M bool :=
  tar <- ask (StartPiped (cmd0 #"tar" [ #"xzf"; #"-"; #"-C"; ctx_dir])) ;;
  match tar with
  | Err e =>
      ask (RemoveDirAll ctx_dir) ;; send_response (Error (#"tar spawn failed: " ++ e)) ;;? ok false
  | Ok _ =>
      context <-? take_input context_size ;;
      fed <- ask (Feed context) ;;
      let '(copy_error, p) := fed in
      match waited p with
      | Err _ => fail
      | Ok status =>
          if match copy_error with Some _ => true | None => false end || negb (success status) then
            ask (RemoveDirAll ctx_dir) ;;
            send_response (Error (#"build context extract failed (exit " ++ show_i32 (code_of status) ++ #"): "
              ++ trim (err p))) ;;? ok false
          else ok true
      end
  end.

Definition handle_build (tag dockerfile : str) (build_args : list str) (no_cache : bool) (context_size : nat) : M unit :=
  build_id <- ask NowMicros ;;
  let ctx_dir := #"/tmp/pelagos-build-" ++ dec build_id in
  created <- ask (CreateDirAll ctx_dir) ;;
  ok_if created ;;?
  extracted <-? extract_context ctx_dir context_size ;;
  if negb extracted then ok tt
  else
    let dockerfile_path := ctx_dir ++ #"/" ++ dockerfile in
    content <- ask (ReadFile dockerfile_path) ;;
    ready <-? match content with
              | Some c => pull_bases (sub_vars build_args c) ∅ ∅ (lines c)
              | None => ok true
              end ;;
    if negb (ready : bool) then ask (RemoveDirAll ctx_dir) ;; ok tt
    else
      r <- spawn_and_stream (build_cmd tag dockerfile_path build_args no_cache ctx_dir) ;;
      ask (RemoveDirAll ctx_dir) ;;
      ret r.

(** * The connection *)

Definition start_cmd (name : str) (interactive : bool) (cmd_override : list str) : Command :=
  pelagos ([ #"start"] ++ (if interactive then [ #"-i"] else []) ++ [name]
    ++ (if bool_decide (cmd_override = []) then [] else #"--" :: cmd_override)).

Definition shell_cmd : Command :=
  mkCmd #"/bin/sh" [] [(#"PATH", #"/usr/local/sbin:/usr/local/bin:/usr/sbin:/usr/bin:/sbin:/bin")] None.

(** The handler goes on with the next line. *)
Definition goes_on (m : M unit) : M bool := m ;;? ok false.
(** The handler ends the connection. *)
Definition ends (m : M unit) : M bool := m ;;? ok true.

Definition dispatch (c : GuestCommand) : M bool :=
  match c with
  | Ping => ends (send_response (Pong true))
  | Version => ends handle_version
  | Run l detach => goes_on (run_container l detach)
  | Exec l tty => ends (handle_exec l tty)
  | ExecInto container args env tty workdir => ends (handle_exec_into container args env tty workdir)
  | Ps all json =>
      goes_on (spawn_and_stream (pelagos ([ #"ps"] ++ (if all then [ #"--all"] else [])
        ++ (if json then [ #"--format"; #"json"] else []))))
  | Logs name follow => goes_on (spawn_and_stream (pelagos ([ #"logs"; name] ++ (if follow then [ #"--follow"] else []))))
  | ContainerInspect name => goes_on (spawn_and_stream (pelagos [ #"container"; #"inspect"; name]))
  | ContainerPrune => goes_on container_prune
  | Start name interactive cmd_override =>
      if interactive
      then ends (send_response (Ready true) ;;? handle_frames true (start_cmd name interactive cmd_override))
      else goes_on (spawn_and_stream (start_cmd name interactive cmd_override))
  | Stop name => goes_on (spawn_and_stream (pelagos [ #"stop"; name]))
  | Restart name time => goes_on (spawn_and_stream (pelagos [ #"restart"; #"--time"; dec time; name]))
  | Rm name force => goes_on (spawn_and_stream (pelagos ([ #"rm"; name] ++ (if force then [ #"--force"] else []))))
  | Shell tty => ends (send_response (Ready true) ;;? handle_frames tty shell_cmd)
  | Build tag dockerfile build_args no_cache context_size =>
      ends (handle_build tag dockerfile build_args no_cache context_size)
  | Volume sub name => goes_on (handle_volume sub name)
  | Network sub args => goes_on (handle_network sub args)
  | CpFrom container src => ends (handle_cp_from container src)
  | CpTo container dst data_size => ends (handle_cp_to container dst data_size)
  | Subscribe => ends (b <- ask SendEvents ;; ok_if b)
  | ImageLs json => goes_on (handle_image_ls json)
  | ImagePull reference => goes_on (handle_image_pull reference)
  | ImageRm reference => goes_on (handle_image_rm reference)
  | ImageTag source target => goes_on (handle_image_tag source target)
  | ImageInspect reference => goes_on (handle_image_inspect reference)
  | ImageLogin registry username password => goes_on (handle_image_login registry username password)
  | ImageLogout registry => goes_on (handle_image_logout registry)
  | Compose subcommand file working_dir project args env =>
      goes_on (handle_compose subcommand file working_dir project args env)
  | KubernetesStatus => goes_on handle_kubernetes_status
  | KubernetesStart => goes_on handle_kubernetes_start
  | KubernetesStop => goes_on handle_kubernetes_stop
  end.

(** [read_line]: the line with its line break, [None] at the end of the input. *)
Fixpoint take_line (s : str) : str * str :=
  match s with
  | [] => ([], [])
  | c :: s => if decide (c = NL) then ([c], s) else let '(l, r) := take_line s in (c :: l, r)
  end.

Definition read_line : M (option str) :=
  fails <- ask ReadFails ;;
  if fails then fail
  else
    s <- get_st ;;
    match s with
    | [] => ok None
    | _ => let '(l, rest) := take_line s in put_st rest ;; (if utf8 l then ok (Some l) else fail)
    end.

(** [handle_connection], for at most [fuel] lines. *)
Fixpoint handle_connection (fuel : nat) : M unit :=
  match fuel with
  | O => ok tt
  | S fuel =>
      line <-? read_line ;;
      match line with
      | None => ok tt
      | Some line =>
          let line := trim_end_matches CR (trim_end_matches NL line) in
          if bool_decide (line = []) then handle_connection fuel
          else match parse_command line with
               | Err e => send_response (Error (#"parse error: " ++ e)) ;;? handle_connection fuel
               | Ok c => over <-? dispatch c ;; if (over : bool) then ok tt else handle_connection fuel
               end
      end
  end.
End Server.

(** * What is seen of a program that may fail *)

Section Seen.
Context {O : Type} (see : forall e : ev, reply e -> list O).

Lemma adds_try {A B} (m : M A) (k : A -> M B) P Q :
  adds see m P ->
  (forall os, P (Err tt) os -> Q (Err tt) os) ->
  (forall a, adds see (k a) (fun b os' => forall os, P (Ok a) os -> Q b (os ++ os'))) ->
  adds see (try m k) Q.
Proof. intros Hm He Hk. eapply try_adds; [exact Hm|by intros []|exact Hk]. Qed.

Lemma silent_try {A B} (m : M A) (k : A -> M B) Q :
  silent see m -> Q (Err tt) [] -> (forall a, adds see (k a) Q) -> adds see (try m k) Q.
Proof.
  intros Hm He Hk. eapply adds_try; [exact Hm|by intros os ->|]. intros a. eapply adds_weaken; [apply Hk|].
  intros b os' HQ os ->. exact HQ.
Qed.
End Seen.

(** * Replies *)

(** The responses that were written. *)
Definition see_response (e : ev) : reply e -> list GuestResponse :=
  match e with
  | Respond r => fun written => if written then [r] else []
  | _ => fun _ => []
  end.

Abbreviation mute := (silent see_response).

(** [m] writes no last message. *)
Definition streams {A} (m : M A) : Prop := adds see_response m (fun _ rs => pending rs).

(** [m] writes one complete reply; when it fails, the reply may be cut short. *)
Definition answers {A} (m : M A) : Prop :=
  adds see_response m (fun r rs => match r with Ok _ => complete rs | Err _ => pending rs \/ complete rs end).

(** [m] writes one complete reply exactly when it gives [false]. *)
Definition verdict (m : M bool) : Prop :=
  adds see_response m (fun r rs =>
    match r with Ok true => pending rs | Ok false => complete rs | Err _ => pending rs \/ complete rs end).

Lemma pending_nil : pending [].
Proof. constructor. Qed.

Lemma mute_streams {A} (m : M A) : mute m -> streams m.
Proof. intros H. eapply adds_weaken; [exact H|]. intros a os ->. apply pending_nil. Qed.

Lemma mute_ok_if b : mute (ok_if b).
Proof. destruct b; apply silent_ret. Qed.

Lemma send_adds r : adds see_response (send_response r) (fun a rs => rs = match a with Ok _ => [r] | Err _ => [] end).
Proof.
  eapply adds_bind.
  - apply (adds_call see_response (Respond r) (fun b rs => rs = if (b : bool) then [r] else [])). by intros [].
  - intros [|]; apply adds_ret; by intros os ->.
Qed.

Lemma streams_send r : is_progress r = true -> streams (send_response r).
Proof.
  intros H. eapply adds_weaken; [apply send_adds|]. intros [|] os ->; [by repeat constructor|apply pending_nil].
Qed.

Lemma answers_send r : is_progress r = false -> answers (send_response r).
Proof.
  intros H. eapply adds_weaken; [apply send_adds|]. intros [|] os ->; [by apply complete_last|left; apply pending_nil].
Qed.

Lemma streams_try {A B} (m : M A) (k : A -> M B) : streams m -> (forall a, streams (k a)) -> streams (try m k).
Proof.
  intros Hm Hk. eapply adds_try; [exact Hm|done|]. intros a. eapply adds_weaken; [apply Hk|].
  intros b os' Hos' os Hos. by apply pending_app.
Qed.

Lemma answers_try {A B} (m : M A) (k : A -> M B) : streams m -> (forall a, answers (k a)) -> answers (try m k).
Proof.
  intros Hm Hk. eapply adds_try; [exact Hm|by left|]. intros a. eapply adds_weaken; [apply Hk|].
  intros [b|e] os' Hos' os Hos; [by apply complete_app|].
  destruct Hos' as [|]; [left; by apply pending_app | right; by apply complete_app].
Qed.

Lemma verdict_try {A} (m : M A) (k : A -> M bool) : streams m -> (forall a, verdict (k a)) -> verdict (try m k).
Proof.
  intros Hm Hk. eapply adds_try; [exact Hm|by left|]. intros a. eapply adds_weaken; [apply Hk|].
  intros [[|]|e] os' Hos' os Hos; [by apply pending_app | by apply complete_app |].
  destruct Hos' as [|]; [left; by apply pending_app | right; by apply complete_app].
Qed.

(** What follows a complete reply is mute. *)
Lemma answers_then {A B} (m : M A) (k : A -> M B) : answers m -> (forall a, mute (k a)) -> answers (try m k).
Proof.
  intros Hm Hk. eapply adds_try; [exact Hm|done|]. intros a. eapply adds_weaken; [apply Hk|].
  intros b os' -> os Hos. rewrite app_nil_r. destruct b; [done|by right].
Qed.

Lemma verdict_no {A} (m : M A) : answers m -> verdict (m ;;? ok false).
Proof.
  intros Hm. eapply adds_try; [exact Hm|done|]. intros a. apply adds_ret. intros os Hos. by rewrite app_nil_r.
Qed.

(** A verdict, and what is done when it is [true]. *)
Lemma answers_verdict {B} (m : M bool) (b0 : B) (k : M B) :
  verdict m -> answers k -> answers (b <-? m ;; if negb b then ok b0 else k).
Proof.
  intros Hm Hk. eapply adds_try; [exact Hm|done|]. intros [|]; cbn [negb].
  - eapply adds_weaken; [exact Hk|]. intros [b|e] os' Hos' os Hos; cbn in *; [by apply complete_app|].
    destruct Hos' as [|]; [left; by apply pending_app | right; by apply complete_app].
  - apply adds_ret. intros os Hos. by rewrite app_nil_r.
Qed.

Lemma verdict_verdict (m k : M bool) : verdict m -> verdict k -> verdict (b <-? m ;; if negb b then ok false else k).
Proof.
  intros Hm Hk. eapply adds_try; [exact Hm|done|]. intros [|]; cbn [negb].
  - eapply adds_weaken; [exact Hk|]. intros [[|]|e] os' Hos' os Hos; cbn in *; [by apply pending_app|by apply complete_app|].
    destruct Hos' as [|]; [left; by apply pending_app | right; by apply complete_app].
  - apply adds_ret. intros os Hos. by rewrite app_nil_r.
Qed.

Lemma answers_silent {A B} (m : Sys ev reply str A) (k : A -> M B) :
  mute m -> (forall a, answers (k a)) -> answers (bind m k).
Proof. intros Hm Hk. by apply adds_silent. Qed.
Lemma streams_silent {A B} (m : Sys ev reply str A) (k : A -> M B) :
  mute m -> (forall a, streams (k a)) -> streams (bind m k).
Proof. intros Hm Hk. by apply adds_silent. Qed.
Lemma verdict_silent {A} (m : Sys ev reply str A) (k : A -> M bool) :
  mute m -> (forall a, verdict (k a)) -> verdict (bind m k).
Proof. intros Hm Hk. by apply adds_silent. Qed.
Lemma mute_bind {A B} (m : Sys ev reply str A) (k : A -> Sys ev reply str B) :
  mute m -> (forall a, mute (k a)) -> mute (bind m k).
Proof. intros Hm Hk. by apply adds_silent. Qed.
Lemma mute_try {A B} (m : M A) (k : A -> M B) : mute m -> (forall a, mute (k a)) -> mute (try m k).
Proof. intros Hm Hk. by apply silent_try. Qed.
Lemma answers_fail {A} : answers (@fail A).
Proof. apply adds_ret. left. apply pending_nil. Qed.
Lemma verdict_fail : verdict fail.
Proof. apply adds_ret. left. apply pending_nil. Qed.
Lemma verdict_yes : verdict (ok true).
Proof. apply adds_ret, pending_nil. Qed.

Create HintDb reply_db discriminated.
#[export] Hint Resolve mute_ok_if verdict_yes verdict_fail answers_fail : reply_db.

(** Follows a program in a goal about its responses; [reply_db] knows its parts. *)
Ltac mute_go :=
  repeat lazymatch goal with
         | |- silent _ (try _ _) => apply mute_try; [|intros ?]
         | |- silent _ (bind _ _) => apply mute_bind; [|intros ?]
         | |- silent _ (ask _) => apply silent_call; intros ?; reflexivity
         | |- silent _ get_st => apply silent_get
         | |- silent _ (put_st _) => apply silent_put
         | |- silent _ (for_each _ _) => apply silent_for_each; intros ?
         | |- silent _ (ret _) => apply silent_ret
         | |- silent _ (ok _) => apply silent_ret
         | |- silent _ fail => apply silent_ret
         | |- silent _ (let _ := _ in _) => cbv zeta
         | |- silent _ (match ?e with _ => _ end) => destruct e eqn:?
         | |- silent _ _ => solve [auto with reply_db]
         end.

Ltac reply_go :=
  repeat lazymatch goal with
         | |- silent _ _ => mute_go
         | |- answers (send_response _) => apply answers_send; reflexivity
         | |- streams (send_response _) => apply streams_send; reflexivity
         | |- streams (ok _) => apply mute_streams, silent_ret
         | |- streams fail => apply mute_streams, silent_ret
         | |- answers (try ?m (fun b => if negb b then ok _ else _)) => apply answers_verdict
         | |- verdict (try ?m (fun b => if negb b then ok false else _)) => apply verdict_verdict
         | |- verdict (try ?m (fun _ => ok false)) => apply verdict_no
         | |- answers (bind _ _) => apply answers_silent; [|intros ?]
         | |- streams (bind _ _) => apply streams_silent; [|intros ?]
         | |- verdict (bind _ _) => apply verdict_silent; [|intros ?]
         | |- answers (try _ _) => apply answers_try; [|intros ?]
         | |- streams (try _ _) => apply streams_try; [|intros ?]
         | |- verdict (try _ _) => apply verdict_try; [|intros ?]
         | |- _ (match ?e with _ => _ end) => destruct e eqn:?
         | |- _ (let _ := _ in _) => cbv zeta
         | |- streams _ => first [ solve [auto with reply_db] | apply mute_streams ]
         | |- _ => solve [auto with reply_db]
         end.

Section Replies.
Context {J : Json}.
Context (pelagos_bin : str) (utf8 : str -> bool) (lossy : str -> str) (version : str).
Context (parse_int_error : str -> str) (parse_command : str -> result GuestCommand str).

Lemma relay_streams rx : forall done, streams (relay done rx).
Proof. induction rx as [|[d|d|] rx IH]; intros done; cbn [relay]; repeat case_goal; reply_go; apply IH. Qed.
#[local] Hint Resolve relay_streams : reply_db.

Lemma stream_child_answers p : answers (stream_child utf8 p).
Proof. unfold stream_child. reply_go. Qed.
#[local] Hint Resolve stream_child_answers : reply_db.

Lemma spawn_and_stream_answers c : answers (spawn_and_stream utf8 c).
Proof. unfold spawn_and_stream. reply_go. Qed.

Lemma spawn_and_stream_with_stdin_answers c d : answers (spawn_and_stream_with_stdin utf8 c d).
Proof. unfold spawn_and_stream_with_stdin. reply_go. Qed.

Lemma run_detached_answers c : answers (run_detached c).
Proof. unfold run_detached. reply_go. Qed.

Lemma send_lines_streams ls : streams (send_lines ls).
Proof. induction ls as [|l ls IH]; cbn [send_lines]; reply_go; apply IH. Qed.
#[local] Hint Resolve spawn_and_stream_answers spawn_and_stream_with_stdin_answers run_detached_answers
  send_lines_streams : reply_db.

Lemma pull_attempts_verdict image n : forall e, verdict (pull_attempts pelagos_bin utf8 image n e).
Proof. induction n as [|n IH]; intros e; cbn [pull_attempts]; reply_go; apply IH. Qed.
#[local] Hint Resolve pull_attempts_verdict : reply_db.

Lemma pull_image_verdict image : verdict (pull_image pelagos_bin utf8 image).
Proof. unfold pull_image. reply_go. Qed.
#[local] Hint Resolve pull_image_verdict : reply_db.

Lemma handle_frames_mute tty c : mute (handle_frames tty c).
Proof. unfold handle_frames. mute_go. Qed.

Lemma ready_answers tty c : answers (send_response (Ready true) ;;? handle_frames tty c).
Proof. apply answers_then; [reply_go|]. intros _. apply handle_frames_mute. Qed.
#[local] Hint Resolve handle_frames_mute ready_answers : reply_db.

Lemma prune_entry_streams name : streams (prune_entry pelagos_bin lossy name).
Proof. unfold prune_entry. reply_go. Qed.
#[local] Hint Resolve prune_entry_streams : reply_db.

Lemma prune_entries_streams entries : forall n, streams (prune_entries pelagos_bin lossy entries n).
Proof. induction entries as [|e es IH]; intros n; cbn [prune_entries]; reply_go; apply IH. Qed.
#[local] Hint Resolve prune_entries_streams : reply_db.

Lemma tool_version_mute c strip : mute (tool_version utf8 c strip).
Proof. unfold tool_version. mute_go. Qed.
Lemma k8s_is_running_mute name : mute (k8s_is_running name).
Proof. unfold k8s_is_running. mute_go. Qed.
Lemma k8s_find_bin_mute name dirs : mute (k8s_find_bin name dirs).
Proof. induction dirs as [|d ds IH]; cbn [k8s_find_bin]; mute_go. Qed.
Lemma k8s_wait_mute fuel port : mute (k8s_wait_for_port fuel port).
Proof. induction fuel as [|n IH]; cbn [k8s_wait_for_port]; mute_go. Qed.
Lemma tls_args_mute : mute tls_args.
Proof. unfold tls_args. mute_go. Qed.
Lemma pkill_mute name : mute (pkill name).
Proof. unfold pkill. mute_go. Qed.
#[local] Hint Resolve tool_version_mute k8s_is_running_mute k8s_find_bin_mute k8s_wait_mute tls_args_mute
  pkill_mute : reply_db.

Lemma start_dockerd_streams d : streams (start_dockerd pelagos_bin d).
Proof. unfold start_dockerd. reply_go. Qed.
Lemma start_api_server_streams b : streams (start_api_server b).
Proof. unfold start_api_server. reply_go. Qed.
Lemma start_kubelet_streams b : streams (start_kubelet b).
Proof. unfold start_kubelet. reply_go. Qed.
#[local] Hint Resolve start_dockerd_streams start_api_server_streams start_kubelet_streams : reply_db.

Lemma get_container_pid_mute c : mute (get_container_pid pelagos_bin lossy parse_int_error c).
Proof. unfold get_container_pid. mute_go. Qed.
Lemma close_all_mute fds : mute (close_all fds).
Proof. unfold close_all. mute_go. Qed.
#[local] Hint Resolve get_container_pid_mute close_all_mute : reply_db.
Lemma open_fds_mute pid names : forall fds, mute (open_fds pid names fds).
Proof. induction names as [|n ns IH]; intros fds; cbn [open_fds]; mute_go. Qed.
Lemma open_root_fd_mute pid : mute (open_root_fd pid).
Proof. unfold open_root_fd, find_root_pid. mute_go. Qed.
Lemma take_input_mute n : mute (take_input n).
Proof. unfold take_input. mute_go. Qed.
Lemma write_raw_mute d : mute (write_raw d).
Proof. unfold write_raw. mute_go. Qed.
#[local] Hint Resolve open_fds_mute open_root_fd_mute take_input_mute write_raw_mute : reply_db.

Lemma enter_answers c k : (forall fds fd, answers (k fds fd)) -> answers (enter pelagos_bin lossy parse_int_error c k).
Proof. intros Hk. unfold enter, open_ns_fds. reply_go. Qed.

Lemma handle_cp_from_answers c src : answers (handle_cp_from pelagos_bin lossy parse_int_error c src).
Proof. unfold handle_cp_from. apply enter_answers. intros fds fd. reply_go. Qed.

Lemma handle_cp_to_answers c dst n : answers (handle_cp_to pelagos_bin lossy parse_int_error c dst n).
Proof. unfold handle_cp_to. apply enter_answers. intros fds fd. reply_go. Qed.

Lemma extract_context_verdict dir n : verdict (extract_context dir n).
Proof. unfold extract_context. reply_go. Qed.

Lemma pull_bases_verdict vars ls : forall aliases pulled, verdict (pull_bases pelagos_bin utf8 vars aliases pulled ls).
Proof. induction ls as [|l ls IH]; intros a p; cbn [pull_bases]; reply_go; apply IH. Qed.
#[local] Hint Resolve handle_cp_from_answers handle_cp_to_answers extract_context_verdict pull_bases_verdict : reply_db.

Lemma cleanup_answers {A} (m : M A) dir : answers m -> answers (r <- m ;; ask (RemoveDirAll dir) ;; ret r).
Proof.
  intros Hm. eapply adds_bind; [exact Hm|]. intros r. apply adds_silent; [mute_go|]. intros _. apply adds_ret.
  intros os Hos. by rewrite app_nil_r.
Qed.

Lemma handle_build_answers tag df ba nc n : answers (handle_build pelagos_bin utf8 tag df ba nc n).
Proof.
  unfold handle_build. do 2 (apply answers_silent; [mute_go|intros ?]). cbv zeta. apply answers_try; [reply_go|intros _].
  apply answers_verdict; [reply_go|]. apply answers_silent; [mute_go|intros content].
  match goal with |- answers (try _ (fun ready => if negb ready then ask (RemoveDirAll ?d) ;; _ else _)) => set (dir := d) end.
  eapply adds_try with (P := fun r rs =>
    match r with Ok true => pending rs | Ok false => complete rs | Err _ => pending rs \/ complete rs end).
  - change (verdict (match content with Some c => pull_bases pelagos_bin utf8 (sub_vars ba c) ∅ ∅ (lines c) | None => ok true end)).
    reply_go.
  - done.
  - intros [|]; cbn [negb].
    + eapply adds_weaken; [apply (cleanup_answers _ dir), spawn_and_stream_answers|].
      intros [b|e] os' Hos' os Hos; cbn in *; [by apply complete_app|].
      destruct Hos' as [|]; [left; by apply pending_app | right; by apply complete_app].
    + apply adds_silent; [mute_go|]. intros _. apply adds_ret. intros os Hos. by rewrite app_nil_r.
Qed.

Lemma run_container_answers l detach : answers (run_container pelagos_bin utf8 l detach).
Proof. unfold run_container. reply_go. Qed.
Lemma handle_exec_answers l tty : answers (handle_exec pelagos_bin utf8 l tty).
Proof. unfold handle_exec. apply answers_verdict; [reply_go|]. apply ready_answers. Qed.
Lemma handle_exec_into_answers c a e tty w : answers (handle_exec_into pelagos_bin c a e tty w).
Proof.
  unfold handle_exec_into. destruct a; [|apply ready_answers].
  eapply adds_bind; [apply send_adds|]. intros [|]; apply adds_ret; intros os ->; cbn;
    [right; by apply complete_last | left; apply pending_nil].
Qed.
Lemma container_prune_answers : answers (container_prune pelagos_bin lossy).
Proof. unfold container_prune. reply_go. Qed.
Lemma handle_version_answers : answers (handle_version utf8 version).
Proof. unfold handle_version. reply_go. Qed.
Lemma handle_kubernetes_status_answers : answers handle_kubernetes_status.
Proof. unfold handle_kubernetes_status. reply_go. Qed.
Lemma handle_kubernetes_start_answers : answers (handle_kubernetes_start pelagos_bin).
Proof. unfold handle_kubernetes_start. reply_go. Qed.
Lemma handle_kubernetes_stop_answers : answers handle_kubernetes_stop.
Proof. unfold handle_kubernetes_stop. reply_go. Qed.
#[local] Hint Resolve run_container_answers handle_exec_answers handle_exec_into_answers container_prune_answers
  handle_version_answers handle_build_answers handle_kubernetes_status_answers handle_kubernetes_start_answers
  handle_kubernetes_stop_answers : reply_db.

(** What a connection writes for a command: one complete reply; for a subscription, whose events are
    not responses, nothing. *)
Definition reply_to (c : GuestCommand) (r : result bool unit) (rs : list GuestResponse) : Prop :=
  match c with
  | Subscribe => rs = []
  | _ => match r with Ok _ => complete rs | Err _ => pending rs \/ complete rs end
  end.

Lemma dispatch_adds c :
  adds see_response (dispatch pelagos_bin utf8 lossy version parse_int_error c) (reply_to c).
Proof.
  assert (Ha : forall m : M unit, answers m -> answers (goes_on m)) by (intros m Hm; apply answers_then; [done|intros; mute_go]).
  assert (Hb : forall m : M unit, answers m -> answers (ends m)) by (intros m Hm; apply answers_then; [done|intros; mute_go]).
  destruct c; cbn [dispatch reply_to].
  all: try (first [apply Ha | apply Hb]; first [ solve [auto with reply_db] | solve [reply_go] | apply spawn_and_stream_answers
    | apply spawn_and_stream_with_stdin_answers ]).
  - destruct interactive; [apply Hb, ready_answers | apply Ha, spawn_and_stream_answers].
  - change (mute (ends (b <- ask SendEvents ;; ok_if b))). unfold ends. mute_go.
Qed.

(** The replies of a connection, one after the other, and one that was cut short. *)
Definition replies_of (r : result unit unit) (rs : list GuestResponse) : Prop :=
  exists reps tail, rs = concat reps ++ tail /\ Forall complete reps /\ pending tail /\ (r = Ok tt -> tail = []).

Lemma replies_app rs1 r rs2 : complete rs1 -> replies_of r rs2 -> replies_of r (rs1 ++ rs2).
Proof.
  intros H1 (reps & tail & -> & Hr & Ht). exists (rs1 :: reps), tail. cbn. rewrite app_assoc.
  split; [done|]. split; [by constructor|done].
Qed.

Lemma replies_none r : replies_of r [].
Proof. exists [], []. split_and!; [done | constructor | constructor | done]. Qed.

Lemma replies_err rs : pending rs \/ complete rs -> replies_of (Err tt) rs.
Proof.
  intros [H|H].
  - exists [], rs. split_and!; [done | constructor | done | done].
  - exists [rs], []. cbn. rewrite !app_nil_r. split_and!; [done | by constructor | constructor | done].
Qed.

Lemma read_line_mute : mute (read_line utf8).
Proof. unfold read_line. mute_go. Qed.

Lemma handle_connection_adds fuel :
  adds see_response (handle_connection pelagos_bin utf8 lossy version parse_int_error parse_command fuel) replies_of.
Proof.
  induction fuel as [|fuel IH]; cbn [handle_connection].
  { apply adds_ret, replies_none. }
  apply silent_try; [apply read_line_mute|apply replies_err; left; apply pending_nil|].
  intros [line|]; [|apply adds_ret; apply replies_none]. cbv zeta. case_bool_decide; [apply IH|].
  destruct (parse_command _) as [c|e].
  - eapply adds_try; [apply dispatch_adds| |].
    + intros os Hos. apply replies_err. destruct c; try exact Hos. left. rewrite Hos. apply pending_nil.
    + intros over. assert (Hos : forall os, reply_to c (Ok over) os -> os = [] \/ complete os).
      { intros os Hos. destruct c; cbn in Hos; auto. }
      destruct over.
      * apply adds_ret. intros os [->|Hc]%Hos; [apply replies_none|]. apply replies_app; [done|apply replies_none].
      * eapply adds_weaken; [apply IH|]. intros r os' Hos' os [->|Hc]%Hos; [done | by apply replies_app].
  - eapply adds_try; [apply send_adds| |].
    + intros os ->. apply replies_err. left. apply pending_nil.
    + intros []. eapply adds_weaken; [apply IH|]. intros r os' Hos' os ->. apply replies_app; [by apply complete_last|done].
Qed.

(** * Properties *)

(** C22: every request is answered once.  For every behaviour of the outside (subprocesses that fail to
    start, fail or write anything, files that are missing, writes that fail), a command other than
    [Subscribe] whose handling succeeds has written exactly one complete reply, that is any number of
    stream messages and then one last message, and one whose handling fails (the connection is then
    closed) has written at most that. *)
Theorem one_reply c env s h :
  c <> Subscribe ->
  let '(r, (_, h')) := dispatch pelagos_bin utf8 lossy version parse_int_error c env s h in
  exists rs, seen see_response env h' = seen see_response env h ++ rs /\
    match r with Ok _ => complete rs | Err _ => pending rs \/ complete rs end.
Proof.
  intros Hc. pose proof (dispatch_adds c env s h) as Hd.
  destruct (dispatch _ _ _ _ _ _ _ _) as [r [s' h']]. destruct c; done.
Qed.

(** a connection's requests are answered in turn.  For every input and every behaviour of the
    outside, what a connection writes is complete replies one after the other, a bad request being
    answered with an error message; only when the connection fails may the last one be cut short. *)
Theorem connection_replies fuel env input :
  let '(r, (_, h)) := handle_connection pelagos_bin utf8 lossy version parse_int_error parse_command fuel env input [] in
  exists reps tail, seen see_response env h = concat reps ++ tail /\
    Forall complete reps /\ pending tail /\ (r = Ok tt -> tail = []).
Proof.
  destruct (handle_connection_adds fuel env input []) as (os & H1 & H2).
  destruct (handle_connection _ _ _ _ _ _ _ _ _ _) as [r [s' h']]. cbn in *. rewrite H1. exact H2.
Qed.
End Replies.

(** ** Copying: how the child is started, and the descriptors *)

Inductive fd_op : Type := Opened (fd : Z) | Closed (fd : Z).

Definition see_fd (e : ev) : reply e -> list fd_op :=
  match e with
  | OpenFd _ => fun r => match r with Ok fd => [Opened fd] | Err _ => [] end
  | CloseFd fd => fun _ => [Closed fd]
  | _ => fun _ => []
  end.

(** The same with what was asked before and the child that is started. *)
Inductive cp_op : Type :=
| Told (o : result (str * str * option Z) str)      (* by [pelagos ps] *)
| Looked (path : str) (content : option str)
| OpenedAt (path : str) (fd : Z)
| Started (ns : list Z) (root : Z)
| Shut (fd : Z).

Definition see_cp (e : ev) : reply e -> list cp_op :=
  match e with
  | Output _ => fun r => [Told r]
  | ReadFile path => fun r => [Looked path r]
  | OpenFd path => fun r => match r with Ok fd => [OpenedAt path fd] | Err _ => [] end
  | StartIn ns root _ | OutputIn ns root _ => fun _ => [Started ns root]
  | CloseFd fd => fun _ => [Shut fd]
  | _ => fun _ => []
  end.

Definition fd_part (o : cp_op) : option fd_op :=
  match o with OpenedAt _ fd => Some (Opened fd) | Shut fd => Some (Closed fd) | _ => None end.

Lemma see_fd_part env h : seen see_fd env h = omap fd_part (seen see_cp env h).
Proof.
  induction h as [|e h IH]; [done|]. cbn [seen]. rewrite omap_app, IH. f_equal.
  destruct e; try done. cbn. by destruct (env h _).
Qed.

Definition opens (paths : list str) (fds : list Z) : list cp_op := zip_with OpenedAt paths fds.

Lemma opens_app ps fds p fd : length ps = length fds -> opens (ps ++ [p]) (fds ++ [fd]) = opens ps fds ++ [OpenedAt p fd].
Proof. intros H. unfold opens. by rewrite zip_with_app. Qed.

Lemma opens_fds ps : forall fds, (length fds <= length ps)%nat -> omap fd_part (opens ps fds) = map Opened fds.
Proof. induction ps as [|p ps IH]; intros [|fd fds] Hl; cbn in *; try (done || lia). unfold opens in IH. by rewrite IH by lia. Qed.

Lemma shuts_fds fds : omap fd_part (map Shut fds) = map Closed fds.
Proof. induction fds as [|fd fds IH]; [done|]. cbn in *. by rewrite IH. Qed.

Lemma close_all_adds fds : adds see_cp (close_all fds) (fun _ os => os = map Shut fds).
Proof.
  unfold close_all. induction fds as [|fd fds IH]; cbn [for_each]; [by apply adds_ret|].
  eapply adds_bind; [apply (adds_call see_cp (CloseFd fd) (fun _ os => os = [Shut fd])); done|].
  intros x. eapply adds_weaken; [exact IH|]. by intros a os -> os' ->.
Qed.

Lemma open_fd_adds path :
  adds see_cp (ask (OpenFd path)) (fun r os => os = match r with Ok fd => [OpenedAt path fd] | Err _ => [] end).
Proof. apply (adds_call see_cp (OpenFd path) (fun r os => os = match r with Ok fd => [OpenedAt path fd] | Err _ => [] end)). by intros []. Qed.

(** All are opened, or those opened so far are closed again. *)
Lemma open_fds_adds pid names : forall fds, adds see_cp (open_fds pid names fds) (fun r os =>
  match r with
  | Ok (Ok fds') => exists new, fds' = fds ++ new /\ length new = length names /\ os = opens (map (ns_path pid) names) new
  | Ok (Err _) => exists new, (length new < length names)%nat /\ os = opens (map (ns_path pid) names) new ++ map Shut (fds ++ new)
  | Err _ => False
  end).
Proof.
  induction names as [|n names IH]; intros fds; cbn [open_fds map].
  { apply adds_ret. exists []. by rewrite app_nil_r. }
  eapply adds_bind; [apply open_fd_adds|]. intros [fd|e].
  - eapply adds_weaken; [apply IH|]. intros [[fds'|e]|[]] os Hos os' ->; [..|done].
    + destruct Hos as (new & -> & Hn & ->). exists (fd :: new). rewrite <- app_assoc. cbn. by rewrite Hn.
    + destruct Hos as (new & Hn & ->). exists (fd :: new). rewrite <- app_assoc. cbn. split; [lia|done].
  - eapply adds_bind; [apply close_all_adds|]. intros x. apply adds_ret. intros os -> os' ->. exists [].
    rewrite !app_nil_r. split; [cbn; lia|done].
Qed.

Lemma silent_cp_send r : silent see_cp (send_response r).
Proof. apply adds_silent; [by apply silent_call|]. intros []; apply silent_ret. Qed.

Lemma open_root_fd_adds pid :
  adds see_cp (open_root_fd pid) (fun r os => exists content,
    match r with
    | Ok (Ok fd) => os = [Looked (children_path pid) content; OpenedAt (root_path (root_pid_of pid content)) fd]
    | Ok (Err _) => os = [Looked (children_path pid) content]
    | Err _ => False
    end).
Proof.
  unfold open_root_fd, find_root_pid.
  eapply try_adds with (P := fun r os => exists content, os = [Looked (children_path pid) content] /\ r = Ok (root_pid_of pid content)).
  - eapply adds_bind; [apply (adds_call see_cp (ReadFile _) (fun r os => os = [Looked (children_path pid) r])); done|].
    intros content. apply adds_ret. intros os ->. by exists content.
  - by intros e os (content & _ & ?).
  - intros rp. eapply adds_bind; [apply open_fd_adds|]. intros []; apply adds_ret; intros os -> os' (content & -> & [= ->]); by exists content.
Qed.

Section Fds.
Context (pelagos_bin : str) (lossy : str -> str) (parse_int_error : str -> str).

(** The process that [pelagos ps --all] gives for the container. *)
Definition told_pid (container : str) (o : result (str * str * option Z) str) : result Z str :=
  match o with
  | Err e => Err e
  | Ok (stdout, _, _) => ps_pid parse_int_error container (lines (lossy stdout))
  end.

Definition ns_paths (pid : Z) : list str := map (ns_path pid) NS_NAMES.

(** What a copy does: it ends before the child is started, closing what it opened, or starts it with the
    descriptors of the container, and closes them afterwards. *)
Inductive cp_trace (container : str) : list cp_op -> Prop :=
| no_container o e : told_pid container o = Err e -> cp_trace container [Told o]
| no_namespaces o pid fds :
    told_pid container o = Ok pid -> (length fds < length NS_NAMES)%nat ->
    cp_trace container (Told o :: opens (ns_paths pid) fds ++ map Shut fds)
| no_root o pid fds content :
    told_pid container o = Ok pid -> length fds = length NS_NAMES ->
    cp_trace container (Told o :: opens (ns_paths pid) fds ++ Looked (children_path pid) content :: map Shut fds)
| child_started o pid fds content root :
    told_pid container o = Ok pid -> length fds = length NS_NAMES ->
    cp_trace container (Told o :: opens (ns_paths pid) fds
      ++ Looked (children_path pid) content :: OpenedAt (root_path (root_pid_of pid content)) root
      :: Started fds root :: map Shut (fds ++ [root])).

Lemma enter_adds container k :
  (forall fds fd, adds see_cp (k fds fd) (fun _ os => os = Started fds fd :: map Shut (fds ++ [fd]))) ->
  adds see_cp (enter pelagos_bin lossy parse_int_error container k) (fun _ os => cp_trace container os).
Proof.
  intros Hk. unfold enter.
  eapply try_adds with (P := fun r os => exists o, os = [Told o] /\ r = Ok (told_pid container o)).
  { unfold get_container_pid. eapply adds_bind; [apply (adds_call see_cp (Output _) (fun r os => os = [Told r])); done|].
    intros o. apply adds_ret. intros os ->. exists o. by destruct o as [[[]]|]. }
  { by intros e os (o & _ & ?). }
  intros [pid|e].
  2:{ eapply adds_weaken; [apply silent_cp_send|]. intros a os -> os' (o & -> & [= Ho]). by eapply no_container. }
  unfold open_ns_fds. eapply try_adds; [apply open_fds_adds|done|]. intros [fds|e].
  2:{ eapply adds_weaken; [apply silent_cp_send|]. intros a os -> os1 (new & Hn & ->) os2 (o & -> & [= Ho]).
      rewrite app_nil_r. by eapply no_namespaces. }
  eapply try_adds; [apply open_root_fd_adds|by intros e os [? ?]|]. intros [fd|e].
  - eapply adds_weaken; [apply Hk|]. intros a os -> os1 (content & ->) os2 (new & -> & Hn & ->) os3 (o & -> & [= Ho]).
    cbn [app]. by eapply child_started.
  - eapply adds_bind; [apply close_all_adds|]. intros x. eapply adds_weaken; [apply silent_cp_send|].
    intros a os -> os1 -> os2 (content & ->) os3 (new & -> & Hn & ->) os4 (o & -> & [= Ho]).
    rewrite app_nil_r. cbn [app]. by eapply no_root.
Qed.

(** Closing the descriptors and going on without them. *)
Lemma close_and_go {B} fds fd (k : M B) : silent see_cp k ->
  adds see_cp (close_all fds ;; ask (CloseFd fd) ;; k) (fun _ os => os = map Shut (fds ++ [fd])).
Proof.
  intros Hk. eapply adds_bind; [apply close_all_adds|]. intros x.
  eapply adds_bind; [apply (adds_call see_cp (CloseFd fd) (fun _ os => os = [Shut fd])); done|]. intros y.
  eapply adds_weaken; [exact Hk|]. intros a os -> os1 -> os2 ->. by rewrite map_app, app_nil_r.
Qed.

Ltac silent_cp_go :=
  repeat lazymatch goal with
         | |- silent _ (send_response _) => apply silent_cp_send
         | |- silent _ (try _ _) => apply try_quiet; [|intros ?]
         | |- silent _ (bind _ _) => apply adds_silent; [|intros ?]
         | |- silent _ (ask _) => apply silent_call; intros ?; reflexivity
         | |- silent _ get_st => apply silent_get
         | |- silent _ (put_st _) => apply silent_put
         | |- silent _ (ret _) => apply silent_ret
         | |- silent _ (ok _) => apply silent_ret
         | |- silent _ (ok_if ?b) => destruct b; apply silent_ret
         | |- silent _ fail => apply silent_ret
         | |- silent _ (match ?e with _ => _ end) => destruct e eqn:?
         | |- adds _ ?m (fun _ os => os = []) => change (silent see_cp m)
         end.

(** The container of a copy. *)
Definition copies (c : GuestCommand) : option str :=
  match c with CpFrom container _ | CpTo container _ _ => Some container | _ => None end.

Lemma cp_adds {J : Json} utf8 version c container : copies c = Some container ->
  adds see_cp (dispatch pelagos_bin utf8 lossy version parse_int_error c) (fun _ os => cp_trace container os).
Proof.
  assert (He : forall m : M unit, adds see_cp m (fun _ os => cp_trace container os) ->
    adds see_cp (ends m) (fun _ os => cp_trace container os)).
  { intros m Hm. eapply try_adds; [exact Hm|done|]. intros []. apply adds_ret. intros os Hos. by rewrite app_nil_r. }
  assert (Hs : forall {R} (m : M R) ns root e k, (forall a, see_cp e a = [Started ns root]) ->
    (forall r, adds see_cp (k r) (fun _ os => os = map Shut (ns ++ [root]))) ->
    adds see_cp (bind (ask e) k : M R) (fun _ os => os = Started ns root :: map Shut (ns ++ [root]))).
  { intros R _ ns root e k Hsee Hk. eapply adds_bind; [apply (adds_call see_cp e (fun _ os => os = [Started ns root])), Hsee|].
    intros r. eapply adds_weaken; [apply Hk|]. by intros a os -> os' ->. }
  destruct c; intros [= ->]; apply He, enter_adds; intros fds fd; (apply Hs; [exact fail|done|]); intros r; apply close_and_go.
  - unfold write_raw. silent_cp_go.
  - unfold take_input. silent_cp_go.
Qed.

(** No descriptor leaks.  For every behaviour of the outside, copying from and to a container
    closes exactly the namespace and root descriptors it opened, each once, after the last one was
    opened, on every path, also when one cannot be opened. *)
Theorem cp_closes_descriptors c env s h :
  (exists container src, c = CpFrom container src) \/ (exists container dst n, c = CpTo container dst n) ->
  forall (J : Json) utf8 version,
  let '(_, (_, h')) := dispatch pelagos_bin utf8 lossy version parse_int_error c env s h in
  exists fds, seen see_fd env h' = seen see_fd env h ++ map Opened fds ++ map Closed fds.
Proof.
  intros Hc J utf8 version.
  assert (exists container, copies c = Some container) as [container Hn] by (destruct Hc as [(? & ? & ->)|(? & ? & ? & ->)]; by eexists).
  destruct (cp_adds utf8 version c container Hn env s h) as (os & H1 & H2).
  destruct (dispatch _ _ _ _ _ _ _ _) as [r [s' h']]. cbn [fst snd] in *.
  enough (exists fds, omap fd_part os = map Opened fds ++ map Closed fds) as (fds & Hf)
    by (exists fds; by rewrite !see_fd_part, H1, omap_app, Hf).
  assert (Hl : forall pid, length (ns_paths pid) = length NS_NAMES) by done.
  destruct H2 as [o e|o pid fds _ Hl'|o pid fds content _ Hl'|o pid fds content root _ Hl'].
  - by exists [].
  - exists fds. cbn -[opens ns_paths]. by rewrite omap_app, opens_fds, shuts_fds by (rewrite Hl; lia).
  - exists fds. cbn -[opens ns_paths]. rewrite omap_app, opens_fds by (rewrite Hl; lia). cbn. by rewrite shuts_fds.
  - exists (fds ++ [root]). cbn -[opens ns_paths]. rewrite omap_app, opens_fds by (rewrite Hl; lia). cbn. by rewrite shuts_fds, !map_app, <- app_assoc.
Qed.
End Fds.

(** ** Streamed output *)

Definition data_of (k : StreamKind) (rs : list GuestResponse) : str :=
  concat (omap (fun r => match r, k with
                         | Stream Stdout d, Stdout | Stream Stderr d, Stderr => Some d
                         | _, _ => None
                         end) rs).

Lemma data_of_app k rs qs : data_of k (rs ++ qs) = data_of k rs ++ data_of k qs.
Proof. unfold data_of. by rewrite omap_app, concat_app. Qed.

(** What [relay] writes when every write succeeds. *)
Fixpoint relayed (done : nat) (rx : list Chunk) : list GuestResponse :=
  if (2 <=? done)%nat then []
  else match rx with
       | OutC d :: rx => Stream Stdout d :: relayed done rx
       | ErrC d :: rx => Stream Stderr d :: relayed done rx
       | DoneC :: rx => relayed (S done) rx
       | [] => []
       end.

Definition writes_ok (env : Env ev reply) : Prop := forall h r, env h (Respond r) = true.

Lemma send_ok env s h r : writes_ok env -> send_response r env s h = (Ok tt, (s, Respond r :: h)).
Proof. intros Hw. unfold send_response. cbn. by rewrite Hw. Qed.

Lemma relay_ok env s rx : writes_ok env -> forall done h, exists h',
  relay done rx env s h = (Ok tt, (s, h')) /\
  seen see_response env h' = seen see_response env h ++ relayed done rx.
Proof.
  intros Hw. induction rx as [|c rx IH]; intros done h; cbn [relay relayed].
  { exists h. destruct (2 <=? done)%nat; by rewrite app_nil_r. }
  destruct (2 <=? done)%nat; [exists h; by rewrite app_nil_r|]. destruct c as [d|d|].
  - destruct (IH done (Respond (Stream Stdout d) :: h)) as (h' & H1 & H2). exists h'.
    unfold try, bind. rewrite send_ok by done. split; [exact H1|]. rewrite H2. cbn. rewrite Hw. by rewrite <- app_assoc.
  - destruct (IH done (Respond (Stream Stderr d) :: h)) as (h' & H1 & H2). exists h'.
    unfold try, bind. rewrite send_ok by done. split; [exact H1|]. rewrite H2. cbn. rewrite Hw. by rewrite <- app_assoc.
  - apply IH.
Qed.

(** The data and the ends in a sequence of chunks. *)
Definition outs (rx : list Chunk) : list str := omap (fun c => match c with OutC d => Some d | _ => None end) rx.
Definition errs (rx : list Chunk) : list str := omap (fun c => match c with ErrC d => Some d | _ => None end) rx.
Definition dones (rx : list Chunk) : nat := length (List.filter (fun c => match c with DoneC => true | _ => false end) rx).

Lemma relayed_until_done pre : forall done, (dones pre + done = 1)%nat ->
  data_of Stdout (relayed done (pre ++ [DoneC])) = concat (outs pre) /\
  data_of Stderr (relayed done (pre ++ [DoneC])) = concat (errs pre).
Proof.
  induction pre as [|c pre IH]; intros done Hd.
  { cbn in Hd. by subst. }
  assert ((2 <=? done)%nat = false) as Hlt by (apply Nat.leb_gt; lia).
  destruct c as [d|d|]; cbn [app relayed]; rewrite Hlt.
  - destruct (IH done Hd) as [H1 H2]. split; [|exact H2]. unfold data_of in *. cbn. by rewrite H1.
  - destruct (IH done Hd) as [H1 H2]. split; [exact H1|]. unfold data_of in *. cbn. by rewrite H2.
  - apply IH. unfold dones in *. cbn in Hd. lia.
Qed.

Lemma relayed_pending rx : forall done, pending (relayed done rx).
Proof. induction rx as [|[d|d|] rx IH]; intros done; cbn [relayed]; case_goal; try apply pending_nil; try (apply Forall_cons; split; [reflexivity|]); apply IH. Qed.

Lemma merge_nil_l sched : forall l, merge sched [] l = l.
Proof. induction sched as [|[|] sched IH]; intros [|y l]; cbn; try done; by rewrite IH. Qed.
Lemma merge_nil_r sched : forall l, merge sched l [] = l.
Proof.
  induction sched as [|[|] sched IH]; intros [|y l]; cbn; try done; try (by rewrite IH). by rewrite app_nil_r.
Qed.

Lemma merge_threads sched : forall la lb, exists pre,
  merge sched (map OutC la ++ [DoneC]) (map ErrC lb ++ [DoneC]) = pre ++ [DoneC] /\
  dones pre = 1%nat /\ outs pre = la /\ errs pre = lb.
Proof.
  assert (Ho : forall l, outs (map OutC l) = l /\ errs (map OutC l) = [] /\ dones (map OutC l) = 0%nat).
  { induction l as [|d l (H1 & H2 & H3)]; [done|]. unfold outs, errs, dones in *. cbn. by rewrite H1. }
  assert (He : forall l, outs (map ErrC l) = [] /\ errs (map ErrC l) = l /\ dones (map ErrC l) = 0%nat).
  { induction l as [|d l (H1 & H2 & H3)]; [done|]. unfold outs, errs, dones in *. cbn. by rewrite H2. }
  induction sched as [|[|] sched IH]; intros la lb.
  - exists (map OutC la ++ DoneC :: map ErrC lb). cbn [merge]. rewrite <- !app_assoc. split; [done|].
    destruct (Ho la) as (H1 & H2 & H3), (He lb) as (H4 & H5 & H6). unfold outs, errs, dones in *.
    rewrite !omap_app, List.filter_app, length_app. cbn. rewrite H1, H2, H3, H4, H5, H6, app_nil_r. done.
  - destruct la as [|d la]; cbn [map app merge].
    + exists (DoneC :: map ErrC lb). rewrite merge_nil_l. split; [done|].
      destruct (He lb) as (H4 & H5 & H6). unfold outs, errs, dones in *. cbn. by rewrite H4, H5, H6.
    + destruct (IH la lb) as (pre & -> & H1 & H2 & H3). exists (OutC d :: pre). split; [done|].
      unfold outs, errs, dones in *. cbn. by rewrite H1, H2, H3.
  - destruct lb as [|d lb].
    + exists (DoneC :: map OutC la). destruct (map OutC la ++ [DoneC]) as [|x l] eqn:E; [by destruct la|].
      cbn [map app merge]. rewrite merge_nil_r. rewrite <- E. split; [done|].
      destruct (Ho la) as (H1 & H2 & H3). unfold outs, errs, dones in *. cbn. by rewrite H1, H2, H3.
    + destruct (IH la lb) as (pre & E & H1 & H2 & H3). exists (ErrC d :: pre).
      split; [|unfold outs, errs, dones in *; cbn; by rewrite H1, H2, H3].
      destruct (map OutC la ++ [DoneC]) as [|x l] eqn:El; [by destruct la|]. cbn [map app merge]. by rewrite E.
Qed.

Lemma valid_lines_all utf8 ls : Forall (fun l => utf8 l = true) ls -> valid_lines utf8 ls = ls.
Proof. induction 1 as [|l ls Hl Hls IH]; [done|]. cbn. by rewrite Hl, IH. Qed.

(** The text of some lines. *)
Definition unlines (ls : list str) : str := concat (map (fun l => l ++ [NL]) ls).

Lemma unlines_lines_go s : forall acc, CR ∉ acc -> CR ∉ s -> last s = Some NL ->
  unlines (lines_go acc s) = rev acc ++ s.
Proof.
  induction s as [|c s IH]; intros acc Ha Hs Hl; [done|]. cbn [lines_go].
  apply not_elem_of_cons in Hs as [Hc Hs]. case_decide as Hn.
  - subst c. assert (Hacc : match acc with a :: acc' => if decide (a = CR) then rev acc' else rev acc | [] => [] end = rev acc).
    { destruct acc as [|a acc]; [done|]. apply not_elem_of_cons in Ha as [Ha _]. by rewrite decide_False. }
    rewrite Hacc. unfold unlines. cbn [map concat]. rewrite <- app_assoc. f_equal.
    destruct s as [|d s]; [done|]. cbn [app]. f_equal. apply (IH []); (done || apply not_elem_of_nil).
  - destruct s as [|d s]; [cbn in Hl; congruence|].
    rewrite IH by (done || by apply not_elem_of_cons). cbn [rev]. by rewrite <- app_assoc.
Qed.

Lemma unlines_lines s : CR ∉ s -> s = [] \/ last s = Some NL -> unlines (lines s) = s.
Proof. intros Hc [->|Hl]; [done|]. unfold lines. by rewrite unlines_lines_go by (done || apply not_elem_of_nil). Qed.

(** The messages of a subprocess that runs. *)
Lemma spawn_streams utf8 c env s h p status :
  writes_ok env -> env h (Spawn c) = Ok p -> waited p = Ok status ->
  Forall (fun l => utf8 l = true) (lines (out p)) -> Forall (fun l => utf8 l = true) (lines (err p)) ->
  exists rs h', spawn_and_stream utf8 c env s h = (Ok tt, (s, h')) /\
    seen see_response env h' = seen see_response env h ++ rs ++ [Exit (code_of status)] /\
    pending rs /\
    data_of Stdout rs = unlines (lines (out p)) /\ data_of Stderr rs = unlines (lines (err p)) /\
    (CR ∉ out p -> out p = [] \/ last (out p) = Some NL -> data_of Stdout rs = out p).
Proof.
  intros Hw Hs Hwait Ho He. unfold spawn_and_stream, bind, call. rewrite Hs. unfold stream_child, reader_thread.
  rewrite !valid_lines_all by done.
  destruct (merge_threads (sched p) (map (fun l => l ++ [NL]) (lines (out p))) (map (fun l => l ++ [NL]) (lines (err p))))
    as (pre & E & Hd & Hout & Herr).
  rewrite <- (map_map (fun l => l ++ [NL]) OutC), <- (map_map (fun l => l ++ [NL]) ErrC), E.
  destruct (relay_ok env s (pre ++ [DoneC]) Hw 0 (Spawn c :: h)) as (h1 & H1 & H2).
  destruct (relayed_until_done pre 0) as [D1 D2]; [lia|].
  exists (relayed 0 (pre ++ [DoneC])), (Respond (Exit (code_of status)) :: h1).
  assert (Hout' : data_of Stdout (relayed 0 (pre ++ [DoneC])) = unlines (lines (out p))) by (rewrite D1, Hout; done).
  split_and!.
  - unfold try, bind. rewrite H1, Hwait. by apply send_ok.
  - cbn. rewrite H2, Hw. cbn. by rewrite app_nil_r, app_assoc.
  - apply relayed_pending.
  - exact Hout'.
  - by rewrite D2, Herr.
  - intros Hc Hl. rewrite Hout'. by apply unlines_lines.
Qed.

(** A subcommand's output arrives whole and unmixed.  When the subprocess starts, its output is
    UTF-8 and the writes succeed, then for every interleaving of the two reader threads the standard
    output messages put together are its standard output line by line (the very text, if its lines
    are ended by plain line breaks), the standard error messages likewise, and the last message is its
    exit code. *)
Theorem output_streamed utf8 c env s h p status :
  writes_ok env -> env h (Spawn c) = Ok p -> waited p = Ok status ->
  Forall (fun l => utf8 l = true) (lines (out p)) -> Forall (fun l => utf8 l = true) (lines (err p)) ->
  exists rs h', spawn_and_stream utf8 c env s h = (Ok tt, (s, h')) /\
    seen see_response env h' = seen see_response env h ++ rs ++ [Exit (code_of status)] /\
    pending rs /\
    data_of Stdout rs = unlines (lines (out p)) /\ data_of Stderr rs = unlines (lines (err p)) /\
    (CR ∉ out p -> out p = [] \/ last (out p) = Some NL -> data_of Stdout rs = out p).
Proof. apply spawn_streams. Qed.

Definition demo_env : Env ev reply := fun _ e =>
  match e return reply e with
  | Respond _ | WriteRaw _ => true
  | SendEvents | Frames _ _ => true
  | ReadFails | Exists _ | Succeeds _ | PortOpen _ | Deadline => false
  | CreateDirAll _ => true
  | ReadDir _ => None
  | ReadFile _ => None
  | NowMicros => 42
  | Spawn _ => Ok (mkProc (#"one" ++ [NL] ++ #"two" ++ [NL]) (#"warning" ++ [NL]) [true; false] (Ok (Some 3)))
  | SpawnStdin _ _ => Err #"no"
  | SpawnDetached _ => Err #"no"
  | StartPiped _ | StartIn _ _ _ => Ok tt
  | Feed _ => (None, mkProc [] [] [] (Ok (Some 0)))
  | Output _ | OutputIn _ _ _ => Ok (#"web running 12", [], Some 0)
  | OpenFd _ => Ok 7
  | RemoveDirAll _ | Background _ | CloseFd _ | SleepMs _ => tt
  end.

Lemma output_streamed_witness : exists rs h',
  spawn_and_stream (fun _ => true) (cmd0 #"pelagos" [ #"ps"]) demo_env [] [] = (Ok tt, ([], h')) /\
  seen see_response demo_env h' = rs ++ [Exit 3] /\ data_of Stdout rs = #"one" ++ [NL] ++ #"two" ++ [NL].
Proof.
  destruct (output_streamed (fun _ => true) (cmd0 #"pelagos" [ #"ps"]) demo_env [] []
    (mkProc (#"one" ++ [NL] ++ #"two" ++ [NL]) (#"warning" ++ [NL]) [true; false] (Ok (Some 3))) (Some 3))
    as (rs & h' & H1 & H2 & _ & _ & _ & H3).
  - by intros h r.
  - reflexivity.
  - reflexivity.
  - repeat constructor.
  - repeat constructor.
  - exists rs, h'. split; [exact H1|]. split; [exact H2|]. apply H3; [by apply not_in_literal | by right].
Defined.

Lemma one_reply_witness :
  exists rs, seen see_response demo_env
    (snd (snd (dispatch (J := tree_json []) #"pelagos" (fun _ => true) (fun s => s) #"1" (fun s => s) (Stop #"web") demo_env [] []))) = rs /\
    complete rs.
Proof.
  assert (Stop #"web" <> Subscribe) as Hne by discriminate.
  pose proof (one_reply (J := tree_json []) #"pelagos" (fun _ => true) (fun s => s) #"1" (fun s => s) (Stop #"web") demo_env [] [] Hne) as H.
  vm_compute in H. destruct H as (rs & H1 & H2). exists rs. split; [|exact H2]. vm_compute. exact H1.
Defined.

Lemma cp_closes_descriptors_witness :
  let h' := snd (snd (dispatch (J := tree_json []) #"pelagos" (fun _ => true) (fun s => s) #"1" (fun s => s)
                        (CpFrom #"web" #"/etc") demo_env [] [])) in
  length (seen see_fd demo_env h') = 12%nat /\
  exists fds, seen see_fd demo_env h' = map Opened fds ++ map Closed fds.
Proof.
  split; [vm_compute; reflexivity|].
  pose proof (cp_closes_descriptors #"pelagos" (fun s => s) (fun s => s) (CpFrom #"web" #"/etc") demo_env [] []
    (or_introl (ex_intro _ #"web" (ex_intro _ #"/etc" eq_refl))) (tree_json []) (fun _ => true) #"1") as H.
  destruct (dispatch _ _ _ _ _ _ _ _) as [r [s' h']]. exact H.
Defined.

(** ** The end of a connection *)

(** [m] leaves no more input to read than there was. *)
Definition shrinks {A} (m : Sys ev reply str A) : Prop :=
  forall env s h, (length (fst (snd (m env s h))) <= length s)%nat.

Lemma shrinks_ret {A} (a : A) : shrinks (ret a).
Proof. intros env s h. done. Qed.
Lemma shrinks_call e : shrinks (ask e).
Proof. intros env s h. done. Qed.
Lemma shrinks_bind {A B} (m : Sys ev reply str A) (k : A -> Sys ev reply str B) :
  shrinks m -> (forall a, shrinks (k a)) -> shrinks (bind m k).
Proof.
  intros Hm Hk env s h. specialize (Hm env s h). unfold bind. destruct (m env s h) as [a [s1 h1]].
  specialize (Hk a env s1 h1). cbn in *. lia.
Qed.
Lemma shrinks_try {A B} (m : M A) (k : A -> M B) : shrinks m -> (forall a, shrinks (k a)) -> shrinks (try m k).
Proof. intros Hm Hk. apply shrinks_bind; [done|]. intros [a|e]; [apply Hk | apply shrinks_ret]. Qed.
Lemma shrinks_for_each {A} (l : list A) (body : A -> Sys ev reply str unit) :
  (forall a, shrinks (body a)) -> shrinks (for_each l body).
Proof. intros Hb. induction l as [|x l IH]; cbn [for_each]; [apply shrinks_ret|]. by apply shrinks_bind. Qed.
Lemma shrinks_take_input n : shrinks (take_input n).
Proof. intros env s h. cbn. rewrite length_drop. lia. Qed.

Create HintDb shrink_db discriminated.
#[export] Hint Resolve shrinks_take_input : shrink_db.

Ltac shrink_go :=
  repeat lazymatch goal with
         | |- shrinks (try _ _) => apply shrinks_try; [|intros ?]
         | |- shrinks (bind _ _) => apply shrinks_bind; [|intros ?]
         | |- shrinks (call _) => apply shrinks_call
         | |- shrinks (for_each _ _) => apply shrinks_for_each; intros ?
         | |- shrinks (ret _) => apply shrinks_ret
         | |- shrinks (ok _) => apply shrinks_ret
         | |- shrinks fail => apply shrinks_ret
         | |- shrinks (ok_if ?b) => destruct b; apply shrinks_ret
         | |- shrinks (send_response _) => unfold send_response
         | |- shrinks (let _ := _ in _) => cbv zeta
         | |- shrinks (match ?e with _ => _ end) => destruct e eqn:?
         | |- shrinks _ => solve [auto with shrink_db]
         end.

Section Shrink.
Context {J : Json}.
Context (pelagos_bin : str) (utf8 : str -> bool) (lossy : str -> str) (version : str).
Context (parse_int_error : str -> str) (parse_command : str -> result GuestCommand str).

Lemma relay_shrinks rx : forall done, shrinks (relay done rx).
Proof. induction rx as [|[d|d|] rx IH]; intros done; cbn [relay]; shrink_go; apply IH. Qed.
Lemma send_lines_shrinks ls : shrinks (send_lines ls).
Proof. induction ls as [|l ls IH]; cbn [send_lines]; shrink_go. Qed.
#[local] Hint Resolve relay_shrinks send_lines_shrinks : shrink_db.
Lemma stream_shrinks c : shrinks (spawn_and_stream utf8 c).
Proof. unfold spawn_and_stream, stream_child. shrink_go. Qed.
Lemma pull_shrinks image n : forall e, shrinks (pull_attempts pelagos_bin utf8 image n e).
Proof. induction n as [|n IH]; intros e; cbn [pull_attempts]; shrink_go; apply IH. Qed.
#[local] Hint Resolve stream_shrinks pull_shrinks : shrink_db.
Lemma pull_image_shrinks image : shrinks (pull_image pelagos_bin utf8 image).
Proof. unfold pull_image. shrink_go. Qed.
Lemma prune_shrinks entries : forall n, shrinks (prune_entries pelagos_bin lossy entries n).
Proof. induction entries as [|e es IH]; intros n; cbn [prune_entries]; unfold prune_entry; shrink_go; apply IH. Qed.
Lemma find_bin_shrinks name dirs : shrinks (k8s_find_bin name dirs).
Proof. induction dirs as [|d ds IH]; cbn [k8s_find_bin]; shrink_go. Qed.
Lemma wait_shrinks fuel port : shrinks (k8s_wait_for_port fuel port).
Proof. induction fuel as [|n IH]; cbn [k8s_wait_for_port]; shrink_go. Qed.
Lemma open_fds_shrinks pid names : forall fds, shrinks (open_fds pid names fds).
Proof. induction names as [|n ns IH]; intros fds; cbn [open_fds]; unfold close_all; shrink_go. Qed.
#[local] Hint Resolve pull_image_shrinks prune_shrinks find_bin_shrinks wait_shrinks open_fds_shrinks : shrink_db.
Lemma pull_bases_shrinks vars ls : forall a p, shrinks (pull_bases pelagos_bin utf8 vars a p ls).
Proof. induction ls as [|l ls IH]; intros a p; cbn [pull_bases]; shrink_go. Qed.
#[local] Hint Resolve pull_bases_shrinks : shrink_db.

Lemma dispatch_shrinks c : shrinks (dispatch pelagos_bin utf8 lossy version parse_int_error c).
Proof.
  destruct c; cbn [dispatch]; unfold goes_on, ends, run_container, run_detached, handle_exec, handle_exec_into,
    handle_frames, container_prune, handle_version, tool_version, handle_build, extract_context, handle_volume,
    handle_network, handle_cp_from, handle_cp_to, enter, get_container_pid, open_ns_fds, open_root_fd, find_root_pid,
    close_all, write_raw, handle_image_ls, handle_image_pull, handle_image_rm, handle_image_tag, handle_image_inspect,
    handle_image_login, handle_image_logout, spawn_and_stream_with_stdin, stream_child, handle_compose,
    handle_kubernetes_status, handle_kubernetes_start, handle_kubernetes_stop, start_dockerd, start_api_server,
    start_kubelet, tls_args, k8s_is_running, pkill; shrink_go.
Qed.

Lemma take_line_length s : s <> [] -> (length (take_line s).2 < length s)%nat.
Proof.
  induction s as [|c s IH]; [done|]. intros _. cbn [take_line]. case_decide; [cbn; lia|].
  destruct s as [|d s]; [cbn; lia|]. specialize (IH ltac:(done)). destruct (take_line (d :: s)) as [l r]. cbn in *. lia.
Qed.

Lemma read_line_shorter env s h :
  match read_line utf8 env s h with
  | (Ok (Some _), (s', _)) => (length s' < length s)%nat
  | _ => True
  end.
Proof.
  unfold read_line. cbn. destruct (env h ReadFails); cbn; [done|]. destruct s as [|c s]; cbn [get_st bind]; [done|].
  pose proof (take_line_length (c :: s) ltac:(done)) as Hl. unfold bind, get_st. cbv beta iota.
  destruct (take_line (c :: s)) as [l r]. cbn in *. by destruct (utf8 l).
Qed.

(** A connection ends.  A round of the loop uses up some of the input, so that for every behaviour of
    the outside more rounds than the input has bytes never run out: from there on the number of
    rounds allowed makes no difference. *)
Theorem connection_ends fuel env input h :
  (length input < fuel)%nat ->
  handle_connection pelagos_bin utf8 lossy version parse_int_error parse_command fuel env input h
  = handle_connection pelagos_bin utf8 lossy version parse_int_error parse_command (S (length input)) env input h.
Proof.
  assert (Hall : forall n input h f1 f2, (length input <= n)%nat -> (length input < f1)%nat -> (length input < f2)%nat ->
    handle_connection pelagos_bin utf8 lossy version parse_int_error parse_command f1 env input h
    = handle_connection pelagos_bin utf8 lossy version parse_int_error parse_command f2 env input h).
  2:{ intros Hf. apply (Hall (length input)); lia. }
  clear. induction n as [n IH] using (well_founded_induction lt_wf). intros input h f1 f2 Hn H1 H2.
  destruct f1 as [|f1], f2 as [|f2]; try lia. cbn [handle_connection]. unfold try, bind.
  pose proof (read_line_shorter env input h) as Hr.
  destruct (read_line utf8 env input h) as [[[line|]|e] [s1 h1]]; [|done..].
  assert (Hgo : forall s2 h2, (length s2 <= length s1)%nat ->
    handle_connection pelagos_bin utf8 lossy version parse_int_error parse_command f1 env s2 h2
    = handle_connection pelagos_bin utf8 lossy version parse_int_error parse_command f2 env s2 h2).
  { intros s2 h2 Hs. apply (IH (length s2)); lia. }
  case_bool_decide; [by apply Hgo|]. destruct (parse_command _) as [c|e].
  - pose proof (dispatch_shrinks c env s1 h1) as Hd. destruct (dispatch _ _ _ _ _ _ _ _ _) as [[[|]|e] [s2 h2]]; [done| |done].
    by apply Hgo.
  - unfold send_response, call, bind. destruct (env h1 (Respond _)); cbn; [by apply Hgo|done].
Qed.
End Shrink.

Lemma connection_ends_witness :
  handle_connection (J := tree_json []) #"pelagos" (fun _ => true) (fun s => s) #"1" (fun s => s) (fun _ => Ok Ping) 100
    demo_env (#"x" ++ [NL]) []
  = handle_connection (J := tree_json []) #"pelagos" (fun _ => true) (fun s => s) #"1" (fun s => s) (fun _ => Ok Ping) 3
    demo_env (#"x" ++ [NL]) [].
Proof. apply (connection_ends (J := tree_json [])). cbn. lia. Defined.

(** ** The images a build pulls *)

Definition see_images (e : ev) : reply e -> list str :=
  match e with Exists path => fun _ => [path] | _ => fun _ => [] end.

Section Pulls.
Context (pelagos_bin : str) (utf8 : str -> bool).

Lemma send_lines_images ls : silent see_images (send_lines ls).
Proof.
  induction ls as [|l ls IH]; cbn [send_lines]; [apply silent_ret|].
  apply silent_try; [|done|intros _; exact IH]. apply adds_silent; [by apply silent_call|]. intros []; apply silent_ret.
Qed.

Lemma pull_attempts_images image n : forall e, silent see_images (pull_attempts pelagos_bin utf8 image n e).
Proof.
  assert (Hs : forall r, silent see_images (send_response r)).
  { intros r. apply adds_silent; [by apply silent_call|]. intros []; apply silent_ret. }
  induction n as [|n IH]; intros e; cbn [pull_attempts].
  { apply silent_try; [apply Hs|done|]. intros _. apply silent_ret. }
  apply adds_silent; [by apply silent_call|]. intros [p|e'].
  - apply silent_try; [apply send_lines_images|done|]. intros _. destruct (waited p) as [st|]; [|apply silent_ret].
    destruct (success st); [apply silent_ret|]. apply adds_silent; [|intros _; apply IH].
    case_bool_decide; [apply silent_ret | by apply silent_call].
  - apply silent_try; [apply Hs|done|]. intros _. apply silent_ret.
Qed.

Lemma pull_image_images image : adds see_images (pull_image pelagos_bin utf8 image) (fun _ os => os = [image_manifest image]).
Proof.
  unfold pull_image. eapply adds_bind.
  { apply (adds_call see_images (Exists (image_manifest image)) (fun _ os => os = [image_manifest image])). done. }
  intros [|]; [apply adds_ret; intros os ->; by rewrite app_nil_r|].
  eapply adds_weaken; [apply pull_attempts_images|]. intros a os -> os' ->. by rewrite app_nil_r.
Qed.

(** a build makes sure of the images planned, in order.  For every behaviour of the outside, the loop over
    the [FROM] lines looks up, and pulls if they are missing, the images of the plan one after the
    other; it gives success only when it came to the end of the plan. *)
Theorem build_follows_plan vars aliases pulled ls env s h :
  let '(r, (_, h')) := pull_bases pelagos_bin utf8 vars aliases pulled ls env s h in
  exists done_, seen see_images env h' = seen see_images env h ++ done_ /\
    done_ `prefix_of` map image_manifest (plan vars aliases pulled ls) /\
    (r = Ok true -> done_ = map image_manifest (plan vars aliases pulled ls)).
Proof.
  assert (Hadds : forall ls aliases pulled, adds see_images (pull_bases pelagos_bin utf8 vars aliases pulled ls) (fun r os =>
    os `prefix_of` map image_manifest (plan vars aliases pulled ls) /\
    (r = Ok true -> os = map image_manifest (plan vars aliases pulled ls)))).
  { clear. induction ls as [|l ls IH]; intros aliases pulled; cbn [pull_bases plan]; [by apply adds_ret|].
    destruct (is_from l); cbn [negb]; [|apply IH]. cbv zeta. destruct (skip_base _ _ _); [apply IH|]. cbn [map].
    eapply adds_try; [apply pull_image_images| |].
    - intros os ->. split; [by apply prefix_cons, prefix_nil|done].
    - intros [|]; cbn [negb].
      + eapply adds_weaken; [apply IH|]. intros r os' [H1 H2] os ->. cbn. split; [by apply prefix_cons|].
        intros Hr. by rewrite H2.
      + apply adds_ret. intros os ->. split; [by apply prefix_cons, prefix_nil|done]. }
  destruct (Hadds ls aliases pulled env s h) as (os & H1 & H2). destruct (pull_bases _ _ _ _ _ _ _ _ _) as [r [s' h']].
  by exists os.
Qed.
End Pulls.
