(* ===== verification/GuestChild.v ===== *)
(** The children of the guest between [fork] and [exec] (pelagos-guest/src/main.rs: the [pre_exec] closures of
    [handle_cp_from], [handle_cp_to] and [handle_exec_tty]): which namespaces, root directory, descriptors and
    terminal the program has that a copy or a session runs. *)

From S2P Require Import Prelude RustStd Json GuestProto GuestServer.

#[local] Open Scope Z_scope.

(** * What the kernel knows of a process *)

(** Whose namespace or directory: the server's, that of a process when its file in [/proc] was opened, or another. *)
Inductive place : Type := Own | Of (pid : Z) | Elsewhere (n : Z).

Record process := mkProcess {
  spaces : gmap str place;      (* its namespaces, by their kinds *)
  pid_children : place;         (* the PID namespace its children will be in *)
  root : place;
  cwd : place;
  table : gmap Z str;           (* the descriptors and the paths they were opened at *)
  leader : bool;                (* of its session *)
  terminal : option str }.

Definition with_places (p : process) (r c : place) : process :=
  mkProcess (spaces p) (pid_children p) r c (table p) (leader p) (terminal p).
(** A process joins a namespace; but of PID namespaces only its later children do: its own never changes. *)
Definition with_space (p : process) (kind : str) (s : place) : process :=
  if decide (kind = #"pid") then mkProcess (spaces p) s (root p) (cwd p) (table p) (leader p) (terminal p)
  else mkProcess (<[kind := s]> (spaces p)) (pid_children p) (root p) (cwd p) (table p) (leader p) (terminal p).
Definition without (fd : Z) (p : process) : process :=
  mkProcess (spaces p) (pid_children p) (root p) (cwd p) (delete fd (table p)) (leader p) (terminal p).
Definition with_session (p : process) (t : option str) : process :=
  mkProcess (spaces p) (pid_children p) (root p) (cwd p) (table p) true t.

(** [/proc/<pid>/<link>]; of the links, the namespaces and the root directory. *)
Definition proc_link (path : str) : option (Z * str) :=
  rest ← strip_prefix #"/proc/" path; '(p, link) ← split_once "/" rest; pid ← parse_u32 p; Some (pid, link).
Definition ns_file (path : str) : option (Z * str) :=
  '(pid, link) ← proc_link path; kind ← strip_prefix #"ns/" link; Some (pid, kind).
Definition root_file (path : str) : option Z :=
  '(pid, link) ← proc_link path; if decide (link = #"root") then Some pid else None.
Definition is_terminal (path : str) : bool := starts_with #"/dev/pts/" path.

(** * Its calls *)

Inductive sys : Type :=
| Setns (fd : Z)
| Close (fd : Z)
| Fchdir (fd : Z)
| Chroot                        (* to the working directory *)
| Chdir                         (* to [/] *)
| Setsid
| SetTerminal (fd : Z).

(** The kernel refuses, or allows, but always closes; a mount namespace that is joined leaves the root and the working directory
    wherever it likes. *)
Definition answer (c : sys) : Type := option (place * place).

Definition kernel (p : process) (c : sys) (a : answer c) : option process :=
  match c, a with
  | Close fd, _ => Some (without fd p)
  | _, None => None
  | Setns fd, Some (r, d) =>
      path ← table p !! fd; '(pid, kind) ← ns_file path;
      let p := with_space p kind (Of pid) in
      Some (if decide (kind = #"mnt") then with_places p r d else p)
  | Fchdir fd, Some _ => path ← table p !! fd; pid ← root_file path; Some (with_places p (root p) (Of pid))
  | Chroot, Some _ => Some (with_places p (cwd p) (cwd p))
  | Chdir, Some _ => Some (with_places p (root p) (root p))
  | Setsid, Some _ => if leader p then None else Some (with_session p None)
  | SetTerminal fd, Some _ =>
      path ← table p !! fd;
      if leader p && is_terminal path && bool_decide (terminal p = None) then Some (with_session p (Some path)) else None
  end.

Definition K (A : Type) : Type := Sys sys answer process A.

Definition do_call (c : sys) : K bool :=
  a <- call c ;;
  p <- get_st ;;
  match kernel p c a with Some p' => put_st p' ;; ret true | None => ret false end.

(** A call whose failure ends the closure with the error; the child exits then and [spawn] gives it to the server. *)
Definition checked (c : sys) : K (result unit unit) := done <- do_call c ;; ret (if (done : bool) then Ok tt else Err tt).
(** One whose result is not looked at. *)
Definition unchecked (c : sys) : K (result unit unit) := do_call c ;; ret (Ok tt).

(** * The closures *)

Fixpoint join_all (ns_fds : list Z) : K (result unit unit) :=
  match ns_fds with
  | [] => ret (Ok tt)
  | ns_fd :: ns_fds => checked (Setns ns_fd) ;;? unchecked (Close ns_fd) ;;? join_all ns_fds
  end.

(** Of [handle_cp_from] and [handle_cp_to]. *)
Definition enter_container (ns_fds : list Z) (root_fd : Z) : K (result unit unit) :=
  join_all ns_fds ;;?
  checked (Fchdir root_fd) ;;?
  checked Chroot ;;?
  checked Chdir ;;?
  unchecked (Close root_fd).

(** Of [handle_exec_tty]. *)
Definition take_terminal (slave_fd : Z) : K (result unit unit) :=
  checked Setsid ;;? checked (SetTerminal slave_fd).

(** * The server's descriptors, which a child inherits *)

Definition after_op (T : gmap Z str) (o : cp_op) : gmap Z str :=
  match o with OpenedAt path fd => <[fd := path]> T | Shut fd => delete fd T | _ => T end.
Definition table_after (T : gmap Z str) (os : list cp_op) : gmap Z str := fold_left after_op os T.

(** The children that are started: the table at that time and the descriptors for the closure. *)
Fixpoint children (T : gmap Z str) (os : list cp_op) : list (gmap Z str * list Z * Z) :=
  match os with
  | [] => []
  | o :: os => match o with Started ns root => [(T, ns, root)] | _ => [] end ++ children (after_op T o) os
  end.

(** The kernel gives descriptors that are not in use. *)
Fixpoint honest (T : gmap Z str) (os : list cp_op) : Prop :=
  match os with
  | [] => True
  | o :: os => match o with OpenedAt _ fd => T !! fd = None | _ => True end /\ honest (after_op T o) os
  end.

(** From [p]: in the network, host name, IPC and mount namespaces of [pid], with the root directory of [rp], working
    there, and its children in the PID namespace of [pid]; its own PID namespace is that of [p]. *)
Definition inside (pid rp : Z) (p p' : process) : Prop :=
  (forall kind, kind ∈ NS_NAMES -> kind <> #"pid" -> spaces p' !! kind = Some (Of pid)) /\
  spaces p' !! #"pid" = spaces p !! #"pid" /\ pid_children p' = Of pid /\ root p' = Of rp /\ cwd p' = Of rp.

(** * Lemmas: files in [/proc] *)

Lemma proc_link_path pid link : 0 <= pid <= U32_MAX -> proc_link (#"/proc/" ++ dec pid ++ #"/" ++ link) = Some (pid, link).
Proof.
  intros Hp. unfold proc_link. rewrite strip_prefix_app. cbn -[split_once parse_u32 dec]. rewrite split_once_app.
  - cbn -[parse_u32 dec]. unfold parse_u32. by rewrite parse_uint_dec by (unfold U32_MAX, U64_MAX in *; lia).
  - intros Hin. pose proof (dec_digits pid ltac:(lia)) as Hd. rewrite Forall_forall in Hd. by apply Hd in Hin.
Qed.

Lemma ns_file_path pid kind : 0 <= pid <= U32_MAX -> ns_file (ns_path pid kind) = Some (pid, kind).
Proof.
  intros Hp. unfold ns_file, ns_path. change (#"/ns/" ++ kind) with (#"/" ++ (#"ns/" ++ kind)). rewrite proc_link_path by done.
  unfold mbind, option_bind. by rewrite strip_prefix_app.
Qed.

Lemma root_file_path pid : 0 <= pid <= U32_MAX -> root_file (root_path pid) = Some pid.
Proof. intros Hp. unfold root_file, root_path. change #"/root" with (#"/" ++ #"root"). by rewrite proc_link_path. Qed.

Lemma parse_u32_range s n : parse_u32 s = Some n -> 0 <= n <= U32_MAX.
Proof. apply parse_uint_bound. done. Qed.

Lemma ps_pid_range e container ls : forall pid, ps_pid e container ls = Ok pid -> 0 <= pid <= U32_MAX.
Proof.
  induction ls as [|l ls IH]; intros pid; cbn [ps_pid]; [done|]. destruct (split_whitespace l) as [|c0 [|c1 [|c2 cs]]]; try apply IH.
  case_bool_decide; [|apply IH]. case_bool_decide; [done|]. destruct (parse_u32 c2) as [n|] eqn:E; [|done]. intros [= <-].
  by eapply parse_u32_range.
Qed.

Lemma told_pid_range lossy e container o pid : told_pid lossy e container o = Ok pid -> 0 <= pid <= U32_MAX.
Proof. destruct o as [[[]]|]; [apply ps_pid_range|done]. Qed.

Lemma root_pid_range pid content : 0 <= pid <= U32_MAX -> 0 <= root_pid_of pid content <= U32_MAX.
Proof.
  intros Hp. unfold root_pid_of. destruct content as [c|]; [|done]. destruct (omap parse_u32 _) as [|n [|]] eqn:E; try done.
  assert (n ∈ omap parse_u32 (split_whitespace c)) as (s & _ & Hs)%list_elem_of_omap by (rewrite E; by left).
  by eapply parse_u32_range.
Qed.

(** * Lemmas: closures *)

(** The kernel refuses nothing on its own. *)
Definition permits (kenv : Env sys answer) : Prop := forall h c, kenv h c <> None.

(** From [p], the closure comes to an end as [Q] says, or fails; it does not fail when the kernel permits all. *)
Definition leads (p : process) (m : K (result unit unit)) (Q : process -> Prop) : Prop := forall kenv h,
  let '(r, (p', _)) := m kenv p h in (r = Ok tt -> Q p') /\ (permits kenv -> r = Ok tt).

Lemma leads_ret p (Q : process -> Prop) : Q p -> leads p (ret (Ok tt)) Q.
Proof. by intros HQ kenv h. Qed.

Lemma leads_try p m k P Q : leads p m P -> (forall p', P p' -> leads p' k Q) -> leads p (m ;;? k) Q.
Proof.
  intros Hm Hk kenv h. specialize (Hm kenv h). unfold try, bind. destruct (m kenv p h) as [r [p' h']]. destruct Hm as [H1 H2].
  destruct r as [[]|[]].
  - by apply Hk, H1.
  - cbn. by split.
Qed.

Lemma leads_weaken p m (P Q : process -> Prop) : leads p m P -> (forall p', P p' -> Q p') -> leads p m Q.
Proof.
  intros Hm HPQ kenv h. specialize (Hm kenv h). destruct (m kenv p h) as [r [p' h']]. destruct Hm as [H1 H2]. split; [|done].
  intros Hr. by apply HPQ, H1.
Qed.

Lemma leads_checked p c (Q : process -> Prop) : (forall a p', kernel p c a = Some p' -> Q p') ->
  (forall x, kernel p c (Some x) <> None) -> leads p (checked c) Q.
Proof.
  intros HQ Hx kenv h. unfold checked, do_call, bind. cbn. destruct (kernel p c (kenv h c)) as [p'|] eqn:E; cbn.
  - split; [intros _; by eapply HQ|done].
  - split; [done|]. intros Hp. specialize (Hp h c). destruct (kenv h c) as [x|]; [|done]. by apply Hx in E.
Qed.

Lemma leads_close p fd (Q : process -> Prop) : Q (without fd p) -> leads p (unchecked (Close fd)) Q.
Proof. by intros HQ kenv h. Qed.

(** What joining the namespaces of [pid] changes. *)
Definition joined (pid : Z) (kinds : list str) (fds : list Z) (p p' : process) : Prop :=
  (forall kind, spaces p' !! kind = if decide (kind ∈ kinds /\ kind <> #"pid") then Some (Of pid) else spaces p !! kind) /\
  pid_children p' = (if decide (#"pid" ∈ kinds) then Of pid else pid_children p) /\
  (forall x, table p' !! x = if decide (x ∈ fds) then None else table p !! x).

Lemma joined_space pid kind p p' : spaces p' = spaces (with_space p kind (Of pid)) ->
  pid_children p' = pid_children (with_space p kind (Of pid)) -> table p' = table p -> joined pid [kind] [] p p'.
Proof.
  unfold joined, with_space. intros -> -> ->. split; [intros k|split; [|done]].
  - destruct (decide (kind = #"pid")) as [->|Hk]; cbn.
    + by rewrite decide_False by (intros [->%list_elem_of_singleton ?]; done).
    + destruct (decide (k = kind)) as [->|Hne].
      * rewrite lookup_insert_eq, decide_True; [done|]. split; [by left|done].
      * rewrite lookup_insert_ne, decide_False; [done| |done]. by intros [?%list_elem_of_singleton ?].
  - destruct (decide (kind = #"pid")) as [->|Hk]; cbn; [by rewrite decide_True by by left|].
    rewrite decide_False; [done|]. by intros ?%list_elem_of_singleton.
Qed.

Lemma kernel_setns p pid kind fd x : 0 <= pid <= U32_MAX -> table p !! fd = Some (ns_path pid kind) ->
  exists p', kernel p (Setns fd) (Some x) = Some p' /\ joined pid [kind] [] p p'.
Proof.
  intros Hp Ht. destruct x as [r d]. cbn [kernel]. rewrite Ht. unfold mbind, option_bind. rewrite ns_file_path by done.
  eexists. split; [reflexivity|]. apply joined_space; case_decide; try done; unfold with_space; by case_decide.
Qed.

Lemma setns_leads p pid kind fd : 0 <= pid <= U32_MAX -> table p !! fd = Some (ns_path pid kind) ->
  leads p (checked (Setns fd)) (joined pid [kind] [] p).
Proof.
  intros Hp Ht. apply leads_checked.
  - intros [x|] p'; [|done]. destruct (kernel_setns p pid kind fd x Hp Ht) as (p1 & -> & H1). by intros [= <-].
  - intros x. by destruct (kernel_setns p pid kind fd x Hp Ht) as (p1 & -> & _).
Qed.

Lemma joined_cons pid kind kinds fd fds p p1 p2 : joined pid [kind] [] p p1 -> joined pid kinds fds (without fd p1) p2 ->
  joined pid (kind :: kinds) (fd :: fds) p p2.
Proof.
  intros (Hs1 & Hc1 & Ht1) (Hs2 & Hc2 & Ht2). cbn in Hs2, Hc2, Ht2. split; [intros k|split; [|intros x]].
  - rewrite Hs2, Hs1. repeat case_decide; set_solver.
  - rewrite Hc2, Hc1. repeat case_decide; set_solver.
  - rewrite Ht2. destruct (decide (x = fd)) as [->|Hx].
    + rewrite lookup_delete_eq. repeat case_decide; set_solver.
    + rewrite lookup_delete_ne, Ht1 by done. repeat case_decide; set_solver.
Qed.

Lemma join_leads pid (T : gmap Z str) fds : 0 <= pid <= U32_MAX -> NoDup fds -> forall kinds p,
  Forall2 (fun kind fd => T !! fd = Some (ns_path pid kind)) kinds fds -> (forall x, x ∈ fds -> table p !! x = T !! x) ->
  leads p (join_all fds) (joined pid kinds fds p).
Proof.
  intros Hp Hn. induction fds as [|fd fds IH]; intros kinds p HT Ht.
  { apply Forall2_nil_inv_r in HT as ->. apply leads_ret. split; [|done]. intros k. rewrite decide_False; [done|]. by intros [?%not_elem_of_nil ?]. }
  apply Forall2_cons_inv_r in HT as (kind & kinds' & Hfd & HT & ->). apply NoDup_cons in Hn as [Hnin Hn]. cbn [join_all].
  eapply leads_try; [apply (setns_leads p pid kind); [done|]; by rewrite Ht by left|]. intros p1 H1.
  eapply leads_try; [by apply (leads_close _ _ (fun p2 => p2 = without fd p1))|]. intros p2 ->.
  eapply leads_weaken; [apply (IH Hn kinds'); [done|]|intros p3 H3; by eapply joined_cons].
  intros x Hx. cbn. rewrite lookup_delete_ne by (intros ->; done). destruct H1 as (_ & _ & Ht1). rewrite Ht1. apply Ht. by right.
Qed.

(** The closure of a copy. *)
Lemma enter_leads pid rp (T : gmap Z str) fds fd p : 0 <= pid <= U32_MAX -> 0 <= rp <= U32_MAX -> NoDup (fds ++ [fd]) ->
  Forall2 (fun kind x => T !! x = Some (ns_path pid kind)) NS_NAMES fds -> T !! fd = Some (root_path rp) -> table p = T ->
  leads p (enter_container fds fd)
    (fun p' => inside pid rp p p' /\ forall x, table p' !! x = if decide (x ∈ fds ++ [fd]) then None else T !! x).
Proof.
  intros Hp Hr Hn HT Hfd Ht. apply NoDup_app in Hn as (Hn & Hnin & _). unfold enter_container.
  eapply leads_try; [by apply (join_leads pid T fds Hp Hn NS_NAMES); [|intros x _; by rewrite Ht]|]. intros p1 (Hs1 & Hc1 & Ht1).
  assert (Hroot : table p1 !! fd = Some (root_path rp)).
  { rewrite Ht1, decide_False, Ht; [done|]. intros Hin. by apply (Hnin fd Hin), list_elem_of_singleton. }
  eapply leads_try with (P := fun p2 => p2 = with_places p1 (root p1) (Of rp)).
  { apply leads_checked.
    - intros [x|] p2; [|done]. cbn [kernel]. rewrite Hroot. unfold mbind, option_bind. rewrite root_file_path by done. by intros [= <-].
    - intros x. cbn [kernel]. rewrite Hroot. unfold mbind, option_bind. by rewrite root_file_path. }
  intros p2 ->. eapply leads_try with (P := fun p3 => p3 = with_places p1 (Of rp) (Of rp)).
  { apply leads_checked; [|done]. intros [x|] p3; [|done]. by intros [= <-]. }
  intros p3 ->. eapply leads_try with (P := fun p4 => p4 = with_places p1 (Of rp) (Of rp)).
  { apply leads_checked; [|done]. intros [x|] p3; [|done]. by intros [= <-]. }
  intros p4 ->. apply leads_close. split.
  - unfold inside. cbn. split; [intros kind Hk Hne; by rewrite Hs1, decide_True|]. rewrite Hs1, decide_False by (by intros [_ ?]). split; [done|].
    by rewrite Hc1, decide_True by (apply (bool_decide_unpack _); by vm_compute).
  - intros x. cbn. destruct (decide (x = fd)) as [->|Hx].
    + rewrite lookup_delete_eq, decide_True; [done|]. set_solver.
    + rewrite lookup_delete_ne by done. rewrite Ht1, Ht. rewrite (decide_ext (x ∈ fds ++ [fd]) (x ∈ fds)); [done|]. set_solver.
Qed.

(** * Lemmas: the server's descriptors *)

Lemma table_after_app T a b : table_after T (a ++ b) = table_after (table_after T a) b.
Proof. apply fold_left_app. Qed.

Lemma honest_app a b : forall T, honest T (a ++ b) <-> honest T a /\ honest (table_after T a) b.
Proof. induction a as [|o a IH]; intros T; cbn; [tauto|]. rewrite IH. unfold table_after. cbn. tauto. Qed.

Lemma children_app a b : forall T, children T (a ++ b) = children T a ++ children (table_after T a) b.
Proof. induction a as [|o a IH]; intros T; cbn; [done|]. by rewrite IH, app_assoc. Qed.

Lemma children_opens ps : forall fds T, children T (opens ps fds) = [].
Proof. induction ps as [|p ps IH]; intros [|fd fds] T; try done. apply IH. Qed.

Lemma children_shuts fds : forall T, children T (map Shut fds) = [].
Proof. induction fds as [|fd fds IH]; intros T; [done|]. apply IH. Qed.

Lemma opened ps : forall fds T, (length fds <= length ps)%nat -> honest T (opens ps fds) ->
  NoDup fds /\ (forall x, x ∈ fds -> T !! x = None) /\ (forall x, x ∉ fds -> table_after T (opens ps fds) !! x = T !! x) /\
  (forall i p fd, ps !! i = Some p -> fds !! i = Some fd -> table_after T (opens ps fds) !! fd = Some p).
Proof.
  induction ps as [|p ps IH]; intros [|fd fds] T Hl HT; cbn in Hl; try lia; try by (split; [constructor|]; split; [by intros x ?%not_elem_of_nil|done]).
  destruct HT as [Hfree HT]. destruct (IH fds _ ltac:(lia) HT) as (Hn & Hnew & Hold & Hat). cbn [after_op] in *.
  assert (Hfd : fd ∉ fds) by (intros Hin; specialize (Hnew fd Hin); by rewrite lookup_insert_eq in Hnew).
  split; [by constructor|]. split; [|split].
  - intros x [->|Hx]%elem_of_cons; [done|]. specialize (Hnew x Hx). by apply lookup_insert_None in Hnew as [? _].
  - intros x [Hx1 Hx2]%not_elem_of_cons. change (table_after (<[fd:=p]> T) (opens ps fds) !! x = T !! x).
    rewrite Hold by done. by rewrite lookup_insert_ne.
  - intros [|i] q x; [|by apply Hat]. intros [= <-] [= <-]. change (table_after (<[fd:=p]> T) (opens ps fds) !! fd = Some p).
    by rewrite Hold, lookup_insert_eq.
Qed.

Lemma shut fds : forall T x, table_after T (map Shut fds) !! x = if decide (x ∈ fds) then None else T !! x.
Proof.
  induction fds as [|fd fds IH]; intros T x; [done|]. change (table_after (delete fd T) (map Shut fds) !! x = if decide (x ∈ fd :: fds) then None else T !! x).
  rewrite IH. destruct (decide (x = fd)) as [->|Hx].
  - rewrite lookup_delete_eq, (decide_True (P := fd ∈ fd :: fds)) by by left. by case_decide.
  - rewrite lookup_delete_ne by done. by rewrite (decide_ext (x ∈ fd :: fds) (x ∈ fds)) by (rewrite elem_of_cons; tauto).
Qed.

(** Opening and closing the same gives the table of before. *)
Lemma open_shut ps fds T mid : (length fds <= length ps)%nat -> honest T (opens ps fds) ->
  table_after (table_after T (opens ps fds)) mid = table_after T (opens ps fds) ->
  table_after T (opens ps fds ++ mid ++ map Shut fds) = T.
Proof.
  intros Hl HT Hm. destruct (opened ps fds T Hl HT) as (_ & Hnew & Hold & _). rewrite !table_after_app, Hm.
  apply map_eq. intros x. rewrite shut. case_decide; [by rewrite Hnew|by apply Hold].
Qed.

(** * A copy runs inside the container *)

Section Copies.
Context (pelagos_bin : str) (lossy : str -> str) (parse_int_error : str -> str).

Lemma trace_inside container T os : cp_trace lossy parse_int_error container os -> honest T os ->
  table_after T os = T /\
  forall T0 ns rootfd, (T0, ns, rootfd) ∈ children T os ->
    exists o pid content, (Told o ∈ os) /\ told_pid lossy parse_int_error container o = Ok pid /\ (Looked (children_path pid) content ∈ os) /\
      forall p, table p = T0 -> leads p (enter_container ns rootfd) (fun p' => inside pid (root_pid_of pid content) p p' /\ table p' = T).
Proof.
  intros Hos. destruct Hos as [o e|o pid fds _ Hl|o pid fds content _ Hl|o pid fds content fd Ho Hl].
  - intros _. split; [done|]. by intros ? ? ? ?%not_elem_of_nil.
  - intros [_ HT]. apply honest_app in HT as [HT _]. cbn [after_op] in HT. split.
    + apply (open_shut _ fds T []); [by apply Nat.lt_le_incl|done..].
    + cbn [children]. rewrite children_app, children_opens, children_shuts. by intros ? ? ? ?%not_elem_of_nil.
  - intros [_ HT]. apply honest_app in HT as [HT _]. cbn [after_op] in HT. split.
    + apply (open_shut _ fds T [Looked _ content]); [by rewrite Hl|done..].
    + cbn [children]. rewrite children_app, children_opens. cbn [children app]. rewrite children_shuts. by intros ? ? ? ?%not_elem_of_nil.
  - intros [_ [HT [_ [Hfd _]]]%honest_app]. cbn [after_op] in HT, Hfd. set (rp := root_pid_of pid content) in *.
    set (ps := ns_paths pid ++ [root_path rp]). set (T2 := table_after T (opens ps (fds ++ [fd]))).
    assert (Hlen : length (ns_paths pid) = length fds) by by rewrite Hl.
    assert (Hps : opens ps (fds ++ [fd]) = opens (ns_paths pid) fds ++ [OpenedAt (root_path rp) fd]) by by apply opens_app.
    assert (HT2 : honest T (opens ps (fds ++ [fd]))) by (rewrite Hps; by apply honest_app).
    assert (E2 : <[fd := root_path rp]> (table_after T (opens (ns_paths pid) fds)) = T2) by (unfold T2; by rewrite Hps, table_after_app).
    assert (Hle : (length (fds ++ [fd]) <= length ps)%nat) by (unfold ps; rewrite !length_app, Hlen; done).
    destruct (opened ps (fds ++ [fd]) T Hle HT2) as (Hn & Hnew & Hold & Hat). fold T2 in Hold, Hat. split.
    + rewrite <- (open_shut ps (fds ++ [fd]) T [] Hle HT2 eq_refl) at 2. rewrite Hps. cbn [app].
      change (table_after T (Told o :: ?l)) with (table_after T l). by rewrite <- app_assoc, !table_after_app.
    + cbn [children after_op app]. rewrite children_app, children_opens. cbn [children after_op app]. rewrite E2, children_shuts.
      intros T0 ns rootfd [= -> -> ->]%list_elem_of_singleton. exists o, pid, content. split; [by left|]. split; [done|]. split; [set_solver|].
      pose proof (told_pid_range _ _ _ _ _ Ho) as Hp. intros p Ht.
      eapply leads_weaken; [apply (enter_leads pid rp T2); [done|by apply root_pid_range|done| | |done]|].
      * apply Forall2_same_length_lookup_2; [done|]. intros i kind x Hk Hx. apply (Hat i).
        -- apply lookup_app_l_Some. unfold ns_paths. by rewrite list_lookup_fmap, Hk.
        -- by apply lookup_app_l_Some.
      * apply (Hat (length fds)); [unfold ps; rewrite <- Hlen|]; by rewrite list_lookup_middle.
      * intros p' [Hin Htab]. split; [done|]. apply map_eq. intros x. rewrite Htab. case_decide; [by rewrite Hnew|by apply Hold].
Qed.

(** C23: a copy from or to a container runs its program with the files of the container or not at all, whatever the
    outside and the kernel do: a child is started only for a process that [pelagos ps] gives for the container, and
    when its closure succeeds, which it does unless the kernel refuses a call, the child is in the network, host name,
    IPC and mount namespaces of this process, its root and working directory are the root of the process or of its only
    child, and it has none of the descriptors that led there.  Its PID namespace stays that of the server: only its
    own children would be in the container's.  Afterwards the server has the descriptors of before.  (The kernel
    gives descriptors that are not in use.) *)
Theorem copy_inside c container T env s h : copies c = Some container ->
  forall (J : Json) utf8 version,
  let '(_, (_, h')) := dispatch pelagos_bin utf8 lossy version parse_int_error c env s h in
  exists os, seen see_cp env h' = seen see_cp env h ++ os /\ (honest T os ->
    table_after T os = T /\
    forall T0 ns rootfd, (T0, ns, rootfd) ∈ children T os ->
      exists o pid content, (Told o ∈ os) /\ told_pid lossy parse_int_error container o = Ok pid /\
        Looked (children_path pid) content ∈ os /\
        forall kenv p, table p = T0 ->
          let '(r, (p', _)) := enter_container ns rootfd kenv p [] in
          (r = Ok tt -> inside pid (root_pid_of pid content) p p' /\ table p' = T) /\ (permits kenv -> r = Ok tt)).
Proof.
  intros Hc J utf8 version. destruct (cp_adds pelagos_bin lossy parse_int_error utf8 version c container Hc env s h) as (os & H1 & H2).
  destruct (dispatch _ _ _ _ _ _ _ _) as [r [s' h']]. cbn [fst snd] in *. exists os. split; [done|]. intros HT.
  destruct (trace_inside container T os H2 HT) as [Ht Hc']. split; [done|]. intros T0 ns rootfd Hin.
  destruct (Hc' T0 ns rootfd Hin) as (o & pid & content & H3 & H4 & H5 & H6). exists o, pid, content. split; [done|]. split; [done|]. split; [done|].
  intros kenv p Hp. exact (H6 p Hp kenv []).
Qed.
End Copies.

(** * A session has its terminal *)

(** With a terminal, the program of a session leads a session of its own, whose terminal is the one opened for it;
    without [setsid] it could not take it. *)
Theorem session_terminal p slave path : table p !! slave = Some path -> is_terminal path = true -> leader p = false ->
  (forall kenv, let '(r, (p', _)) := take_terminal slave kenv p [] in
     (r = Ok tt -> leader p' = true /\ terminal p' = Some path /\ table p' = table p) /\ (permits kenv -> r = Ok tt)) /\
  forall kenv, fst (checked (SetTerminal slave) kenv p []) = Err tt.
Proof.
  intros Ht Hpts Hl. split.
  - enough (leads p (take_terminal slave) (fun p' => leader p' = true /\ terminal p' = Some path /\ table p' = table p)) as H
      by (intros kenv; apply H).
    eapply leads_try with (P := fun p1 => p1 = with_session p None).
    { apply leads_checked; [intros [x|] p1; [|done]|intros x]; cbn [kernel]; rewrite Hl; [by intros [= <-]|done]. }
    intros p1 ->. apply leads_checked; [intros [x|] p2; [|done]|intros x]; cbn [kernel with_session table leader terminal];
      rewrite Ht; unfold mbind, option_bind; rewrite Hpts; [by intros [= <-]|done].
  - intros kenv. unfold checked, do_call, bind. cbn -[kernel]. cbn [kernel]. destruct (kenv [] _); [|done]. by rewrite Ht; cbn; rewrite Hl.
Qed.

(** * Witnesses *)

(** A container whose process 7 has one child, and descriptors that are new. *)
Definition cp_env : Env ev reply := fun h e =>
  match e with
  | OpenFd _ => Ok (10 + Z.of_nat (length h))
  | Output _ => Ok (unlines [ #"NAME  STATUS  PID"; #"web  running  7"], [], Some 0)
  | ReadFile _ => Some #"9 "
  | OutputIn _ _ _ => Ok (#"tar", [], Some 0)
  | e => GuestServer.demo_env h e
  end.
Definition kernel_permits : Env sys answer := fun _ _ => Some (Own, Own).
Definition forked (T : gmap Z str) : process := mkProcess {[ #"pid" := Own ]} Own Own Own T false None.

#[local] Abbreviation demo_cp := (dispatch (J := tree_json []) #"pelagos" (fun _ => true) (fun s => s) #"1" (fun s => s)
  (CpFrom #"web" #"/etc") cp_env [] []).

Lemma copy_inside_witness :
  let '(_, (_, h')) := demo_cp in
  let os := seen see_cp cp_env h' in
  honest ∅ os /\ table_after ∅ os = ∅ /\ length (children ∅ os) = 1%nat /\
  forall T0 ns rootfd, (T0, ns, rootfd) ∈ children ∅ os ->
    let '(r, (p', _)) := enter_container ns rootfd kernel_permits (forked T0) [] in r = Ok tt /\ exists pid rp, inside pid rp (forked T0) p'.
Proof.
  pose proof (copy_inside #"pelagos" (fun s => s) (fun s => s) (CpFrom #"web" #"/etc") #"web" ∅ cp_env [] [] eq_refl
    (tree_json []) (fun _ => true) #"1") as H.
  assert (Hh : honest ∅ (seen see_cp cp_env (snd (snd demo_cp)))) by (vm_compute; repeat split).
  assert (Hl : length (children ∅ (seen see_cp cp_env (snd (snd demo_cp)))) = 1%nat) by (vm_compute; reflexivity).
  destruct demo_cp as [r [s' h']]. cbn [fst snd] in Hh, Hl. destruct H as (os & H1 & H2). cbn [seen app] in H1. subst os.
  destruct (H2 Hh) as [Ht Hc]. split; [done|]. split; [done|]. split; [done|]. intros T0 ns rootfd Hin.
  destruct (Hc T0 ns rootfd Hin) as (o & pid & content & _ & _ & _ & Hrun). specialize (Hrun kernel_permits (forked T0) eq_refl).
  destruct (enter_container _ _ _ _ _) as [r' [p' h'']]. destruct Hrun as [Hok Hp]. specialize (Hp ltac:(by intros ? ?)).
  split; [done|]. destruct (Hok Hp) as [Hi _]. by eexists _, _.
Defined.

(** There the namespaces but that of PIDs are those of process 7, and the root is that of its child 9. *)
Example copy_places :
  map (fun '(T0, ns, rootfd) => let '(_, (p', _)) := enter_container ns rootfd kernel_permits (forked T0) [] in
         (map (fun kind => spaces p' !! kind) NS_NAMES, pid_children p', root p', cwd p', map_to_list (table p')))
      (children {[ 3 := #"/dev/vsock" ]} (seen see_cp cp_env (snd (snd demo_cp))))
  = [([Some (Of 7); Some (Of 7); Some (Of 7); Some Own; Some (Of 7)], Of 7, Of 9, Of 9, [(3, #"/dev/vsock")])].
Proof. vm_compute. reflexivity. Qed.

(** Without changing the root the program would see whatever root the mount namespace left it. *)
Example joined_only :
  let '(_, (p', _)) := join_all [10] (fun _ _ => Some (Elsewhere 1, Elsewhere 2)) (forked {[ 10 := ns_path 7 #"mnt" ]}) [] in
  (root p', cwd p') = (Elsewhere 1, Elsewhere 2).
Proof. vm_compute. reflexivity. Qed.

Lemma session_terminal_witness :
  let '(r, (p', _)) := take_terminal 5 kernel_permits (forked {[ 5 := #"/dev/pts/0" ]}) [] in
  r = Ok tt /\ leader p' = true /\ terminal p' = Some #"/dev/pts/0".
Proof.
  destruct (session_terminal (forked {[ 5 := #"/dev/pts/0" ]}) 5 #"/dev/pts/0" ltac:(by apply lookup_singleton_eq) eq_refl eq_refl) as [H _].
  specialize (H kernel_permits). destruct (take_terminal _ _ _ _) as [r [p' h']]. destruct H as [H1 H2].
  specialize (H2 ltac:(by intros ? ?)). split; [done|]. by destruct (H1 H2) as (? & ? & _).
Defined.
