(* ===== verification/GuestMain.v ===== *)
(** The accept loop of the guest daemon ([main], [create_vsock_listener] and [accept_vsock] of
    [pelagos-guest/src/main.rs]), and the table of file descriptors that its threads share: connections, which
    [handle_connection] closes by a guard, and terminals, which [handle_exec_tty] closes by hand. *)

From S2P Require Import Prelude RustStd GuestProto GuestServer.

#[local] Open Scope Z_scope.

(** * The accept loop *)

Definition VSOCK_PORT : Z := 1024.
Definition EMFILE : Z := 24.
Definition ENFILE : Z := 23.

Inductive ev : Type :=
| Socket | Bind (fd port : Z) | Listen (fd backlog : Z) | CloseFd (fd : Z)
| LastError
| StartPoller
| Accept4 (listener : Z)
| SleepMs (ms : Z)
| SpawnHandler (fd : Z).            (* whether the system could make a thread *)

Definition reply (e : ev) : Type :=
  match e with
  | Socket | Bind _ _ | Listen _ _ | Accept4 _ | LastError => Z
  | CloseFd _ | StartPoller | SleepMs _ => unit
  | SpawnHandler _ => bool
  end.

Abbreviation ask e := (call (R := reply) (S := unit) e).

Definition last_os_error {A} : Sys ev reply unit (result A Z) := e <- ask LastError ;; ret (Err e).

Definition create_vsock_listener (port : Z) : Sys ev reply unit (result Z Z) :=
  fd <- ask Socket ;;
  if fd <? 0 then last_os_error
  else
    rc <- ask (Bind fd port) ;;
    if rc <? 0 then ask (CloseFd fd) ;; last_os_error
    else
      rc <- ask (Listen fd 16) ;;
      if rc <? 0 then ask (CloseFd fd) ;; last_os_error else ret (Ok fd).

Definition accept_vsock (listener : Z) : Sys ev reply unit (result Z Z) :=
  fd <- ask (Accept4 listener) ;;
  if fd <? 0 then last_os_error else ret (Ok fd).

Inductive outcome : Type := Panicked | Running.

(** [Running] is the fuel, one for each round, running out. *)
Fixpoint accept_loop (fuel : nat) (listener : Z) : Sys ev reply unit outcome :=
  match fuel with
  | O => ret Running
  | S fuel =>
      conn <- accept_vsock listener ;;
      match conn with
      | Err os_err =>
          (if (os_err =? EMFILE) || (os_err =? ENFILE) then ask (SleepMs 500) else ret tt) ;;
          accept_loop fuel listener
      | Ok conn_fd =>
          spawned <- ask (SpawnHandler conn_fd) ;;
          if (spawned : bool) then accept_loop fuel listener else ret Panicked
      end
  end.

Definition main (fuel : nat) : Sys ev reply unit outcome :=
  listener <- create_vsock_listener VSOCK_PORT ;;
  match listener with
  | Err _ => ret Panicked
  | Ok listener => ask StartPoller ;; accept_loop fuel listener
  end.

(** * The table of descriptors

    The table is shared by the main thread and the threads of the connections; the kernel gives the lowest
    free number. *)

Local Open Scope nat_scope.

(** What a number stands for: an end of a standard stream, the listener, or something that belongs to a
    connection: its socket, and the two ends of its terminal, of which it may have a second handle. *)
Inductive object : Type := Std | Listener | Conn (k : nat) | Master (k : nat) | Slave (k : nat).

Abbreviation table := (gmap nat object).

Definition lowest_free (n : nat) (t : table) : Prop := t !! n = None /\ forall m, m < n -> t !! m <> None.

(** How far the thread of a connection is.  While it has a terminal, [s] is the number its command owns three
    times ([Stdio::from_raw_fd]), [m] the number of the master and [d] that of its duplicate. *)
Inductive stage : Type :=
| Serving                                              (* between commands, or in one without a terminal *)
| Opened_pty (m s : nat)
| Spawned (m s : nat)
| In_session (m s d : nat) (reading waiting : bool)    (* the reader's loop; [child.wait()] *)
| Closing (fds : list nat)                             (* what the thread still closes, in this order *)
| Gone.

(** The number of the connection, the stage, and the number to which the thread for the input, which nobody
    waits for, writes. *)
Record session := mkSession { number : nat; at_stage : stage; input : option nat }.

Record world := mkWorld { fds : table; sessions : list session }.

(** ** Operations *)

Definition set_stage (k : nat) (g : stage) (w : world) : world :=
  mkWorld (fds w) (alter (fun c => mkSession (number c) g (input c)) k (sessions w)).
Definition set_input (k m : nat) (w : world) : world :=
  mkWorld (fds w) (alter (fun c => mkSession (number c) (at_stage c) (Some m)) k (sessions w)).
Definition open_fd (n : nat) (o : object) (w : world) : world := mkWorld (<[n := o]> (fds w)) (sessions w).
Definition close_fd (n : nat) (w : world) : world := mkWorld (delete n (fds w)) (sessions w).

(** [accept_vsock] and the thread for the connection. *)
Definition accepted (n : nat) (w : world) : world :=
  mkWorld (<[n := Conn (length (sessions w))]> (fds w)) (sessions w ++ [mkSession n Serving None]).

(** [handle_connection] returns and the guard closes its descriptor. *)
Definition handler_returns (k n : nat) (w : world) : world := set_stage k (Closing [n]) w.
Definition close_next (k x : nat) (rest : list nat) (w : world) : world :=
  set_stage k (if decide (rest = []) then Gone else Closing rest) (close_fd x w).

(** [handle_exec_tty] *)
Definition open_pty (k m s : nat) (w : world) : world := set_stage k (Opened_pty m s) (open_fd s (Slave k) (open_fd m (Master k) w)).
(** The three handles that [cmd] owns are closed when the function returns, then the guard's descriptor. *)
Definition returns_with (fds : list nat) (s n : nat) : list nat := fds ++ [s; s; s; n].
Definition spawn_fails (k m s n : nat) (w : world) : world := set_stage k (Closing (returns_with [m; s] s n)) w.
Definition spawned (k m s : nat) (w : world) : world := set_stage k (Spawned m s) (close_fd s w).
Definition dup_fails (k m s n : nat) (w : world) : world := set_stage k (Closing (returns_with [m] s n)) w.
Definition duplicated (k m s d : nat) (w : world) : world := set_input k m (set_stage k (In_session m s d true true) (open_fd d (Master k) w)).
Definition reader_over (k m s d : nat) (waiting : bool) (w : world) : world :=
  set_stage k (In_session m s d false waiting) (close_fd d w).
Definition child_over (k m s d : nat) (reading : bool) (w : world) : world :=
  set_stage k (In_session m s d reading false) (close_fd m w).
Definition session_over (k s n : nat) (w : world) : world := set_stage k (Closing (returns_with [] s n)) w.

Definition at_ (w : world) (k n : nat) (g : stage) : Prop := exists i, sessions w !! k = Some (mkSession n g i).

(** A step of the daemon; [terminals] is whether commands with a terminal are run. *)
Inductive step (terminals : bool) (w : world) : world -> Prop :=
| Accepts n : lowest_free n (fds w) -> step terminals w (accepted n w)
| Returns k n : at_ w k n Serving -> step terminals w (handler_returns k n w)
| Closes k n x rest : at_ w k n (Closing (x :: rest)) -> step terminals w (close_next k x rest w)
| Opens_pty k n m s : terminals = true -> at_ w k n Serving -> lowest_free m (fds w) ->
    lowest_free s (<[m := Master k]> (fds w)) -> step terminals w (open_pty k m s w)
| Spawn_fails k n m s : at_ w k n (Opened_pty m s) -> step terminals w (spawn_fails k m s n w)
| Spawns k n m s : at_ w k n (Opened_pty m s) -> step terminals w (spawned k m s w)
| Dup_fails k n m s : at_ w k n (Spawned m s) -> step terminals w (dup_fails k m s n w)
| Dups k n m s d : at_ w k n (Spawned m s) -> lowest_free d (fds w) -> step terminals w (duplicated k m s d w)
| Reader_over k n m s d b : at_ w k n (In_session m s d true b) -> step terminals w (reader_over k m s d b w)
| Child_over k n m s d b : at_ w k n (In_session m s d b true) -> step terminals w (child_over k m s d b w)
| Session_over k n m s d : at_ w k n (In_session m s d false false) -> step terminals w (session_over k s n w).

(** After [create_vsock_listener]. *)
Definition started : world := mkWorld (<[3 := Listener]> (<[2 := Std]> (<[1 := Std]> (<[0 := Std]> ∅)))) [].

Definition reachable (terminals : bool) (w : world) : Prop := rtc (step terminals) started w.

Local Open Scope Z_scope.

(** What is seen: the descriptors that are opened, closed and handed to a thread, and the pauses. *)
Inductive op : Type := Opened (fd : Z) | Closed (fd : Z) | Accepted (fd : Z) | Handed (fd : Z) (spawned : bool) | Full | Paused.

Definition see (e : ev) : reply e -> list op :=
  match e return reply e -> list op with
  | Socket => fun fd => if (fd : Z) <? 0 then [] else [Opened fd]
  | CloseFd fd => fun _ => [Closed fd]
  | Accept4 _ => fun fd => if (fd : Z) <? 0 then [] else [Accepted fd]
  | LastError => fun e => if ((e : Z) =? EMFILE) || ((e : Z) =? ENFILE) then [Full] else []
  | SleepMs _ => fun _ => [Paused]
  | SpawnHandler fd => fun b => [Handed fd b]
  | _ => fun _ => []
  end.

(** The rounds of the loop. *)
Inductive rounds : outcome -> list op -> Prop :=
| Rounds_over : rounds Running []
| Rounds_full r os : rounds r os -> rounds r (Full :: Paused :: os)
| Rounds_handed fd r os : rounds r os -> rounds r (Accepted fd :: Handed fd true :: os)
| Rounds_no_thread fd : rounds Panicked [Accepted fd; Handed fd false].

(** A start that fails leaves no descriptor open. *)
Inductive served : outcome -> list op -> Prop :=
| No_socket full : Forall (eq Full) full -> served Panicked full
| No_bind fd full : Forall (eq Full) full -> served Panicked (Opened fd :: Closed fd :: full)
| Serves fd r os : rounds r os -> served r (Opened fd :: os).

Lemma last_os_error_adds {A} : adds see (@last_os_error A) (fun r os => exists e, r = Err e /\
  os = if (e =? EMFILE) || (e =? ENFILE) then [Full] else []).
Proof.
  unfold last_os_error. eapply adds_bind_known; [refine (adds_call see LastError (fun e os => os = see LastError e) _); done|].
  intros e os ->. apply adds_ret. exists e. split; [done|]. cbn. by rewrite app_nil_r.
Qed.

Lemma last_os_error_full {A} : adds see (@last_os_error A) (fun r os => (exists e, r = Err e) /\ Forall (eq Full) os).
Proof.
  eapply adds_weaken; [apply last_os_error_adds|]. intros r os (e & -> & ->). split; [by eexists|]. destruct (_ || _); by repeat constructor.
Qed.

Lemma accept_loop_rounds fuel listener : adds see (accept_loop fuel listener) rounds.
Proof.
  induction fuel as [|fuel IH]; cbn [accept_loop]; [apply adds_ret; constructor|].
  unfold accept_vsock. set (k := fun conn : result Z Z => match conn with Ok _ => _ | Err _ => _ end).
  assert (Hk : forall e, adds see (k (Err e)) (fun r os => rounds r ((if (e =? EMFILE) || (e =? ENFILE) then [Full] else []) ++ os))).
  { intros e. unfold k. destruct ((e =? EMFILE) || (e =? ENFILE)).
    - eapply adds_bind_known; [refine (adds_call see (SleepMs 500) (fun _ os => os = [Paused]) _); done|]. intros u os ->.
      eapply adds_weaken; [apply IH|]. intros r os H. by constructor.
    - apply adds_silent; [silent_go|]. intros _. apply IH. }
  eapply adds_bind_known with (P := fun conn os => match conn with
    | Ok fd => os = [Accepted fd] | Err e => os = if (e =? EMFILE) || (e =? ENFILE) then [Full] else [] end).
  - eapply adds_bind_known; [refine (adds_call see (Accept4 listener) (fun fd os => os = see (Accept4 listener) fd) _); done|].
    intros fd os ->. cbn [see]. destruct (fd <? 0); [|by apply adds_ret].
    eapply adds_weaken; [apply last_os_error_adds|]. by intros r os (e & -> & ->).
  - intros [fd|e] os ->; [|apply Hk]. unfold k.
    eapply adds_bind_known; [refine (adds_call see (SpawnHandler fd) (fun b os => os = [Handed fd b]) _); done|].
    intros b os ->. destruct (b : bool); [|apply adds_ret; constructor].
    eapply adds_weaken; [apply IH|]. intros r os H. by constructor.
Qed.

(** The guest's daemon accepts exactly.  Whatever the outside does, a start that fails has closed its socket;
    afterwards every accepted descriptor is handed to exactly one thread, at once, and the loop pauses after
    each failure for want of descriptors and after no other.  Only a thread that cannot be made ends it. *)
Theorem main_serves fuel env s h :
  exists os, seen see env (snd (snd (main fuel env s h))) = seen see env h ++ os /\ served (fst (main fuel env s h)) os.
Proof.
  cut (adds see (main fuel) served); [intros H; apply H|]. unfold main, create_vsock_listener.
  eapply adds_bind_known with (P := fun r os => match r with
    | Ok fd => os = [Opened fd] | Err _ => Forall (eq Full) os \/ exists fd full, os = Opened fd :: Closed fd :: full /\ Forall (eq Full) full end).
  - eapply adds_bind_known; [refine (adds_call see Socket (fun fd os => os = see Socket fd) _); done|]. intros fd os ->.
    cbn [see]. destruct (fd <? 0) eqn:E.
    { eapply adds_weaken; [apply last_os_error_full|]. intros r os [[e ->] H]. by left. }
    assert (Hc : adds see (ask (CloseFd fd) ;; last_os_error) (fun (r : result Z Z) os =>
      match r with Ok fd' => [Opened fd] ++ os = [Opened fd'] | Err _ => Forall (eq Full) ([Opened fd] ++ os) \/
        exists fd' full, [Opened fd] ++ os = Opened fd' :: Closed fd' :: full /\ Forall (eq Full) full end)).
    { eapply adds_bind_known; [refine (adds_call see (CloseFd fd) (fun _ os => os = [Closed fd]) _); done|]. intros u os ->.
      eapply adds_weaken; [apply last_os_error_full|]. intros r os [[e ->] H]. right. by exists fd, os. }
    apply adds_silent; [silent_go|]. intros rc. destruct (rc <? 0); [exact Hc|].
    apply adds_silent; [silent_go|]. intros rc'. destruct (rc' <? 0); [exact Hc|]. by apply adds_ret.
  - intros [fd|e] os; [intros ->|intros H; apply adds_ret; rewrite app_nil_r; destruct H as [H|(fd & full & -> & H)]; by constructor].
    apply adds_silent; [silent_go|]. intros u. eapply adds_weaken; [apply accept_loop_rounds|]. intros r os H. by constructor.
Qed.

(** * Descriptors *)

#[local] Open Scope nat_scope.

(** What a thread will still close. *)
Definition will_close (c : session) : list nat :=
  match at_stage c with
  | Serving => [number c]
  | Opened_pty m s | Spawned m s => [m; s; number c]
  | In_session m s d reading waiting => (if reading then [d] else []) ++ (if waiting then [m] else []) ++ [s; number c]
  | Closing fds => fds
  | Gone => []
  end.

Definition owner (o : object) : option nat := match o with Std | Listener => None | Conn k | Master k | Slave k => Some k end.

Lemma elem_of_returns_with l s n x : x ∈ returns_with l s n <-> x ∈ l ++ [s; n].
Proof. unfold returns_with. set_solver. Qed.

(** Every number in the table is still to be closed by the thread it belongs to, and the standard streams and
    the listener are not among them. *)
Record inv (w : world) : Prop := {
  inv_owned n o k : fds w !! n = Some o -> owner o = Some k -> exists c, sessions w !! k = Some c /\ n ∈ will_close c;
  inv_own n o : fds w !! n = Some o -> owner o = None -> n <= 3;
  inv_kept n : n <= 3 -> fds w !! n = fds started !! n;
  inv_above k c n : sessions w !! k = Some c -> n ∈ will_close c -> 3 < n }.

Lemma started_low n : n <= 3 -> is_Some (fds started !! n).
Proof. intros H. do 4 (destruct n as [|n]; [by eexists|]). lia. Qed.

Lemma free_above w n : inv w -> lowest_free n (fds w) -> 3 < n.
Proof.
  intros Hi [Hn _]. destruct (decide (n <= 3)) as [H|H]; [|lia]. rewrite (inv_kept w Hi n H) in Hn.
  destruct (started_low n H). congruence.
Qed.

(** A step of the thread of connection [k]: what it opens it will close, and what it no longer will close is
    not in the table. *)
Lemma inv_step w k c c' t' ss : inv w -> sessions w !! k = Some c -> ss !! k = Some c' ->
  (forall j, j <> k -> ss !! j = sessions w !! j) ->
  (forall n o, t' !! n = Some o -> fds w !! n = Some o /\ (n ∈ will_close c -> n ∈ will_close c')
     \/ owner o = Some k /\ n ∈ will_close c') ->
  (forall n, n <= 3 -> t' !! n = fds w !! n) -> (forall n, n ∈ will_close c' -> 3 < n) -> inv (mkWorld t' ss).
Proof.
  intros Hi Hc Hc' Hother Ht Hlow Habove. split; cbn [fds sessions].
  - intros n o j Hn Ho. destruct (Ht n o Hn) as [[Hw Hmove]|[Hk Hin]]; [|exists c'; split; [congruence|done]].
    destruct (inv_owned w Hi n o j Hw Ho) as (c0 & H1 & H2). destruct (decide (j = k)) as [->|Hj].
    + exists c'. split; [done|]. apply Hmove. congruence.
    + exists c0. by rewrite Hother.
  - intros n o Hn Ho. destruct (Ht n o Hn) as [[Hw _]|[Hk _]]; [by apply (inv_own w Hi n o)|congruence].
  - intros n Hn. by rewrite Hlow, (inv_kept w Hi).
  - intros j c0 n Hj Hn. destruct (decide (j = k)) as [->|Hjk]; [apply Habove; congruence|].
    rewrite Hother in Hj by done. by apply (inv_above w Hi j c0).
Qed.

Lemma alter_other (f : session -> session) (k : nat) (l : list session) j : j <> k -> alter f k l !! j = l !! j.
Proof. intros. by apply list_lookup_alter_ne. Qed.

Lemma alter_same (f : session -> session) (k : nat) (l : list session) c : l !! k = Some c -> alter f k l !! k = Some (f c).
Proof. intros H. by rewrite list_lookup_alter_eq, H. Qed.

(** The thread's step opens nothing and closes [x], or nothing that is in the table. *)
Lemma inv_closes w k n i g g' x : inv w -> sessions w !! k = Some (mkSession n g i) ->
  x ∈ will_close (mkSession n g i) ->
  (forall y, y ∈ will_close (mkSession n g i) -> y <> x -> y ∈ will_close (mkSession n g' i)) ->
  (forall y, y ∈ will_close (mkSession n g' i) -> y ∈ will_close (mkSession n g i)) -> inv (set_stage k g' (close_fd x w)).
Proof.
  intros Hi Hc Hx Hsub Hsup. eapply (inv_step w k); [done|exact Hc|by apply alter_same|intros j Hj; by apply alter_other|..].
  - intros m o Hm. cbn in Hm. apply lookup_delete_Some in Hm as [Hne Hm]. left. split; [done|]. intros Hin. apply Hsub; [done|congruence].
  - intros m Hm. cbn. apply lookup_delete_ne. pose proof (inv_above w Hi k _ x Hc Hx). lia.
  - intros m Hm. apply (inv_above w Hi k _ m Hc). by apply Hsup.
Qed.

Lemma inv_moves w k n i g g' : inv w -> sessions w !! k = Some (mkSession n g i) ->
  (forall y, y ∈ will_close (mkSession n g' i) <-> y ∈ will_close (mkSession n g i)) -> inv (set_stage k g' w).
Proof.
  intros Hi Hc Heq. eapply (inv_step w k); [done|exact Hc|by apply alter_same|intros j Hj; by apply alter_other|..].
  - intros m o Hm. left. split; [done|]. apply Heq.
  - done.
  - intros m Hm%Heq. by apply (inv_above w Hi k _ m Hc).
Qed.

Lemma inv_accepted w n : inv w -> lowest_free n (fds w) -> inv (accepted n w).
Proof.
  intros Hi Hn. pose proof (free_above w n Hi Hn) as Habove. set (k := length (sessions w)).
  assert (Hnew : sessions w !! k = None) by (apply lookup_ge_None_2; done).
  assert (Hlast : (sessions w ++ [mkSession n Serving None]) !! k = Some (mkSession n Serving None)) by by apply list_lookup_middle.
  assert (Hold : forall j c, sessions w !! j = Some c -> (sessions w ++ [mkSession n Serving None]) !! j = Some c).
  { intros j c Hj. by apply lookup_app_l_Some. }
  unfold accepted. split; cbn [fds sessions].
  - intros m o j Hm Ho. destruct (decide (m = n)) as [->|Hmn].
    + rewrite lookup_insert_eq in Hm. injection Hm as <-. injection Ho as <-. exists (mkSession n Serving None).
      split; [done|]. by apply elem_of_cons; left.
    + rewrite lookup_insert_ne in Hm by done. destruct (inv_owned w Hi m o j Hm Ho) as (c & H1 & H2). exists c. auto.
  - intros m o Hm Ho. destruct (decide (m = n)) as [->|Hmn].
    + rewrite lookup_insert_eq in Hm. by injection Hm as <-.
    + rewrite lookup_insert_ne in Hm by done. by apply (inv_own w Hi m o).
  - intros m Hm. rewrite lookup_insert_ne by lia. by apply (inv_kept w Hi).
  - intros j c m Hj Hm. destruct (decide (j = k)) as [->|Hjk].
    + rewrite Hlast in Hj. injection Hj as <-. apply elem_of_cons in Hm as [->|[]%elem_of_nil]. done.
    + apply (inv_above w Hi j c); [|done]. rewrite lookup_app in Hj. destruct (sessions w !! j) eqn:E; [done|].
      apply lookup_ge_None in E. destruct (j - length (sessions w)) as [|q] eqn:Eq; [exfalso; apply Hjk; unfold k; lia|done].
Qed.

Lemma inv_open_pty w k n i m s : inv w -> sessions w !! k = Some (mkSession n Serving i) -> lowest_free m (fds w) ->
  lowest_free s (<[m := Master k]> (fds w)) -> inv (open_pty k m s w).
Proof.
  intros Hi Hc Hm Hs. pose proof (free_above w m Hi Hm) as Hm3.
  assert (Hs3 : 3 < s).
  { destruct Hs as [Hs _]. destruct (decide (s <= 3)) as [H|H]; [|lia]. rewrite lookup_insert_ne in Hs by lia.
    rewrite (inv_kept w Hi s H) in Hs. destruct (started_low s H). congruence. }
  pose proof (inv_above w Hi k _ n Hc ltac:(by apply elem_of_cons; left)) as Hn3.
  eapply (inv_step w k); [done|exact Hc|by apply alter_same|intros j Hj; by apply alter_other|..].
  - intros x o Hx. cbn in Hx. apply lookup_insert_Some in Hx as [[<- <-]|[_ Hx]]; [right; cbn; set_solver|].
    apply lookup_insert_Some in Hx as [[<- <-]|[_ Hx]]; [right; cbn; set_solver|]. left. split; [done|]. cbn. set_solver.
  - intros x Hx. cbn. by rewrite !lookup_insert_ne by lia.
  - intros x Hx. cbn in Hx. repeat (apply elem_of_cons in Hx as [->|Hx]; [lia|]). by apply elem_of_nil in Hx.
Qed.

Lemma inv_duplicated w k n i m s d : inv w -> sessions w !! k = Some (mkSession n (Spawned m s) i) -> lowest_free d (fds w) ->
  inv (duplicated k m s d w).
Proof.
  intros Hi Hc Hd. pose proof (free_above w d Hi Hd) as Hd3.
  eapply (inv_step w k _ (mkSession n (In_session m s d true true) (Some m))); [done|exact Hc|..].
  - cbn. rewrite list_lookup_alter_eq. by rewrite (alter_same _ k (sessions w) _ Hc).
  - intros j Hj. cbn. by rewrite !alter_other.
  - intros x o Hx. cbn in Hx. apply lookup_insert_Some in Hx as [[<- <-]|[_ Hx]]; [right; cbn; set_solver|].
    left. split; [done|]. cbn. set_solver.
  - intros x Hx. cbn. by rewrite lookup_insert_ne by lia.
  - intros x Hx. cbn in Hx. apply elem_of_cons in Hx as [->|Hx]; [done|]. by apply (inv_above w Hi k _ x Hc).
Qed.

Lemma step_keeps b w w' : step b w w' -> inv w -> inv w'.
Proof.
  intros Hs Hi. destruct Hs as [n Hn|k n [i Hc]|k n x rest [i Hc]|k n m s _ [i Hc] Hm Hs|k n m s [i Hc]|k n m s [i Hc]|k n m s [i Hc]
    |k n m s d [i Hc] Hd|k n m s d b' [i Hc]|k n m s d b' [i Hc]|k n m s d [i Hc]].
  - by apply inv_accepted.
  - by eapply inv_moves.
  - unfold close_next. eapply inv_closes; [done|exact Hc|by apply elem_of_cons; left|..]; destruct (decide (rest = [])) as [->|]; cbn; set_solver.
  - by eapply inv_open_pty.
  - eapply inv_moves; [done|exact Hc|]. intros y. cbn -[returns_with]. rewrite elem_of_returns_with. cbn. set_solver.
  - eapply inv_closes; [done|exact Hc|..]; cbn; set_solver.
  - eapply inv_step with (k := k); [done|exact Hc|by apply alter_same|intros j Hj; by apply alter_other|..].
    + intros x o Hx. left. split; [done|]. cbn -[returns_with]. rewrite elem_of_returns_with. cbn. set_solver.
    + done.
    + intros x Hx. cbn -[returns_with] in Hx. apply elem_of_returns_with in Hx. apply (inv_above w Hi k _ x Hc). cbn in *. set_solver.
  - by eapply inv_duplicated.
  - eapply inv_closes; [done|exact Hc|..]; cbn; set_solver.
  - eapply inv_closes; [done|exact Hc|..]; destruct b'; cbn; set_solver.
  - eapply inv_moves; [done|exact Hc|]. intros y. cbn -[returns_with]. rewrite elem_of_returns_with. cbn. set_solver.
Qed.

Lemma started_inv : inv started.
Proof.
  split.
  - intros n o k Hn Ho. exfalso. unfold started in Hn. cbn [fds] in Hn. repeat (apply lookup_insert_Some in Hn as [[_ <-]|[_ Hn]]; [done|]). rewrite lookup_empty in Hn. discriminate Hn.
  - intros n o Hn _. unfold started in Hn. cbn [fds] in Hn. repeat (apply lookup_insert_Some in Hn as [[<- _]|[_ Hn]]; [lia|]). rewrite lookup_empty in Hn. discriminate Hn.
  - done.
  - done.
Qed.

Lemma reachable_ind_ b (P : world -> Prop) : P started -> (forall w w', step b w w' -> P w -> P w') -> forall w, reachable b w -> P w.
Proof.
  intros H0 Hs w Hr. unfold reachable in Hr. revert H0. generalize started, w, Hr. clear w Hr.
  induction 1 as [w|w1 w2 w3 H1 _ IH]; [done|]. intros H. apply IH. by eapply Hs.
Qed.

Lemma reachable_keeps b w : reachable b w -> inv w.
Proof. apply reachable_ind_; [apply started_inv|apply step_keeps]. Qed.

(** Without terminals every connection that is not gone has its own number. *)
Definition apart (w : world) : Prop := forall k c, sessions w !! k = Some c ->
  at_stage c = Gone \/ (at_stage c = Serving \/ at_stage c = Closing [number c]) /\ fds w !! number c = Some (Conn k).

Lemma step_apart w w' : step false w w' -> apart w -> apart w'.
Proof.
  intros Hs Ha. destruct Hs as [n [Hn _]|k n [i Hc]|k n x rest [i Hc]|k n m s Hf|k n m s [i Hc]|k n m s [i Hc]|k n m s [i Hc]
    |k n m s d [i Hc] Hd|k n m s d b' [i Hc]|k n m s d b' [i Hc]|k n m s d [i Hc]]; try done;
    try (destruct (Ha _ _ Hc) as [|[[|] _]]; done).
  - intros j c Hj. cbn in Hj. rewrite lookup_app in Hj. destruct (sessions w !! j) as [c0|] eqn:E.
    + injection Hj as <-. destruct (Ha j c0 E) as [|[Hst Hf]]; [by left|right]. split; [done|]. cbn.
      rewrite lookup_insert_ne; [done|]. intros ->. congruence.
    + apply lookup_ge_None in E. destruct (j - length (sessions w)) as [|q] eqn:Eq; [|done]. injection Hj as <-. right.
      split; [by left|]. cbn. rewrite lookup_insert_eq. f_equal. f_equal. lia.
  - destruct (Ha _ _ Hc) as [|[_ Hf]]; [done|]. intros j c Hj. destruct (decide (j = k)) as [->|Hjk].
    + cbn in Hj. rewrite (alter_same _ k _ _ Hc) in Hj. injection Hj as <-. right. split; [by right|done].
    + cbn in Hj. rewrite alter_other in Hj by done. by apply Ha.
  - destruct (Ha _ _ Hc) as [|[[|Hcl] Hf]]; [done..|]. cbn in Hcl, Hf. injection Hcl as -> ->.
    intros j c Hj. unfold close_next in *. cbn in *. destruct (decide (j = k)) as [->|Hjk].
    + rewrite (alter_same _ k _ _ Hc) in Hj. injection Hj as <-. by left.
    + rewrite alter_other in Hj by done. destruct (Ha j c Hj) as [|[Hst Hf']]; [by left|right]. split; [done|].
      rewrite lookup_delete_ne; [done|]. intros ->. congruence.
Qed.

Lemma reachable_apart w : reachable false w -> apart w.
Proof. apply reachable_ind_; [done|apply step_apart]. Qed.

(** * Properties *)

(** C3: descriptors are neither leaked nor, as long as no command has a terminal, mixed up.  Whatever the order in
    which connections come, end and open terminals: every open descriptor is one that the thread it belongs to
    still closes; when all connections are gone the table is as at the start; the listener and the standard
    streams are never closed; and without terminals the number of a connection stands for that connection, so
    that replies reach the client they are for. *)
Theorem descriptors_kept b w : reachable b w ->
  (forall n o k, fds w !! n = Some o -> owner o = Some k -> exists c, sessions w !! k = Some c /\ n ∈ will_close c) /\
  ((forall k c, sessions w !! k = Some c -> at_stage c = Gone) -> fds w = fds started) /\
  (forall n, n <= 3 -> fds w !! n = fds started !! n) /\
  (b = false -> forall k c, sessions w !! k = Some c -> at_stage c = Serving -> fds w !! number c = Some (Conn k)).
Proof.
  intros Hr. pose proof (reachable_keeps b w Hr) as Hi. split; [apply (inv_owned w Hi)|]. split; [|split; [apply (inv_kept w Hi)|]].
  - intros Hg. apply map_eq. intros n. destruct (decide (n <= 3)) as [Hn|Hn]; [by apply (inv_kept w Hi)|].
    assert (Hs : fds started !! n = None) by (unfold started; cbn; rewrite !lookup_insert_ne by lia; apply lookup_empty).
    rewrite Hs. destruct (fds w !! n) as [o|] eqn:E; [|done]. exfalso. destruct (owner o) as [k|] eqn:Eo.
    + destruct (inv_owned w Hi n o k E Eo) as (c & Hc & Hin). unfold will_close in Hin. rewrite (Hg k c Hc) in Hin. by apply elem_of_nil in Hin.
    + apply Hn. by apply (inv_own w Hi n o).
  - intros -> k c Hc Hst. destruct (reachable_apart w Hr k c Hc) as [H|[_ H]]; [congruence|done].
Qed.

(** ** Concrete runs *)

Definition lowest_freeb (n : nat) (t : table) : bool :=
  bool_decide (t !! n = None) && forallb (fun m => bool_decide (is_Some (t !! m))) (seq 0 n).

Lemma lowest_freeb_spec n t : lowest_freeb n t = true -> lowest_free n t.
Proof.
  intros [Hn Hm]%andb_true_iff. apply bool_decide_eq_true in Hn. split; [done|]. intros m Hlt.
  rewrite forallb_forall in Hm. specialize (Hm m). apply not_eq_None_Some. eapply bool_decide_eq_true_1, Hm. apply in_seq. lia.
Qed.

(** Two clients without terminals, of which the first is gone. *)
Definition quiet_world : world := close_next 0 4 [] (handler_returns 0 4 (accepted 5 (accepted 4 started))).

Lemma quiet_reachable : reachable false quiet_world.
Proof.
  eapply rtc_l; [apply (Accepts _ _ 4), lowest_freeb_spec; reflexivity|].
  eapply rtc_l; [apply (Accepts _ _ 5), lowest_freeb_spec; reflexivity|].
  eapply rtc_l; [apply (Returns _ _ 0 4); by eexists|]. eapply rtc_l; [apply (Closes _ _ 0 4); by eexists|]. apply rtc_refl.
Qed.

Lemma descriptors_kept_witness :
  (forall n o k, fds quiet_world !! n = Some o -> owner o = Some k -> exists c, sessions quiet_world !! k = Some c /\ n ∈ will_close c) /\
  ((forall k c, sessions quiet_world !! k = Some c -> at_stage c = Gone) -> fds quiet_world = fds started) /\
  (forall n, n <= 3 -> fds quiet_world !! n = fds started !! n) /\
  (false = false -> forall k c, sessions quiet_world !! k = Some c -> at_stage c = Serving -> fds quiet_world !! number c = Some (Conn k)).
Proof. exact (descriptors_kept false quiet_world quiet_reachable). Defined.

(** A terminal session, in which the duplicate of the master gets the number of the slave, which was closed; the
    duplicate is closed, the next client gets the number, and the session, when it is over, closes it again. *)
Definition mixed_world : world :=
  let w := accepted 7 (duplicated 0 5 6 6 (spawned 0 5 6 (open_pty 0 5 6 (accepted 4 started)))) in
  let w := child_over 0 5 6 6 false (accepted 6 (reader_over 0 5 6 6 true w)) in
  accepted 6 (accepted 5 (close_next 0 6 [6; 6; 4] (session_over 0 6 4 w))).

Lemma mixed_reachable : reachable true mixed_world.
Proof.
  unfold mixed_world. cbv zeta.
  eapply rtc_l; [apply (Accepts _ _ 4), lowest_freeb_spec; reflexivity|].
  eapply rtc_l; [apply (Opens_pty _ _ 0 4 5 6); [done|by eexists|apply lowest_freeb_spec; reflexivity..]|].
  eapply rtc_l; [apply (Spawns _ _ 0 4 5 6); by eexists|].
  eapply rtc_l; [apply (Dups _ _ 0 4 5 6 6); [by eexists|apply lowest_freeb_spec; reflexivity]|].
  eapply rtc_l; [apply (Accepts _ _ 7), lowest_freeb_spec; reflexivity|].
  eapply rtc_l; [apply (Reader_over _ _ 0 4 5 6 6 true); by eexists|].
  eapply rtc_l; [apply (Accepts _ _ 6), lowest_freeb_spec; reflexivity|].
  eapply rtc_l; [apply (Child_over _ _ 0 4 5 6 6 false); by eexists|].
  eapply rtc_l; [apply (Session_over _ _ 0 4 5 6 6); by eexists|].
  eapply rtc_l; [apply (Closes _ _ 0 4 6 [6; 6; 4]); by eexists|].
  eapply rtc_l; [apply (Accepts _ _ 5), lowest_freeb_spec; reflexivity|].
  eapply rtc_l; [apply (Accepts _ _ 6), lowest_freeb_spec; reflexivity|]. apply rtc_refl.
Qed.

(** Then the third client is still served under a number that stands for the fifth, which gets its replies, and
    what still arrives for the terminal is written to the fourth. *)
Example terminal_mixes_up : reachable true mixed_world /\
  at_ mixed_world 2 6 Serving /\ fds mixed_world !! 6 = Some (Conn 4) /\
  (exists g, sessions mixed_world !! 0 = Some (mkSession 4 g (Some 5))) /\ fds mixed_world !! 5 = Some (Conn 3).
Proof. split; [apply mixed_reachable|]. split; [by eexists|]. split; [reflexivity|]. split; [by eexists|reflexivity]. Qed.

Local Close Scope nat_scope.

(** The loop: a full table, a client, and a thread that cannot be made. *)
Example loop_panics :
  let env : Env ev reply := fun h e => match e return reply e with
    | Socket => 3 | Bind _ _ | Listen _ _ => 0
    | Accept4 _ => match h with LastError :: _ | SleepMs _ :: _ => 4 | _ => -1 end
    | LastError => 24 | CloseFd _ | StartPoller | SleepMs _ => tt | SpawnHandler _ => false end in
  let '(r, (_, h)) := main 10 env tt [] in
  r = Panicked /\ seen see env h = [Opened 3; Full; Paused; Accepted 4; Handed 4 false].
Proof. vm_compute. auto. Qed.
