(* ===== verification/ExecSession.v ===== *)
(** Exec sessions with all their threads: the host ([pelagos-mac/src/main.rs], [exec_command] after the
    handshake) and the guest ([pelagos-guest/src/main.rs], [handle_exec_piped] and [handle_exec_tty]), with a
    child process, threads that take turns in any order and a connection that may break after any byte in
    either direction.  The two directions of a session share nothing but the child, so each is a transition
    system of its own: [input_step] from the host's terminal to the child, [output_step] from the child to the
    host. *)

From S2P Require Import Prelude Wire.

#[local] Open Scope Z_scope.

Definition BUF : nat := 4096.

(** * From the host's standard input to the child *)

(** The host: what its standard input still delivers, and whether the input thread runs.  The connection:
    the bytes it took with the room it has left, and how many the guest has read.  The guest: whether its
    input thread runs, and whether it saw the frame that ends the input.  The child: the input it got and
    the window sizes set. *)
Record inbound := mkInbound {
  h_left : list Z; h_on : bool;
  up : writer; up_pos : nat;
  g_on : bool; g_eof : bool;
  child_in : list Z; sizes : list (Z * Z) }.

Definition start_in (input : list Z) (room : option nat) : inbound :=
  mkInbound input true (Writer [] room) 0 true false [] [].

(** ** The host's thread *)

Definition host_halts (s : inbound) : inbound :=
  mkInbound (h_left s) false (up s) (up_pos s) (g_on s) (g_eof s) (child_in s) (sizes s).
Definition host_took (n : nat) (s : inbound) : inbound :=
  mkInbound (drop n (h_left s)) (h_on s) (up s) (up_pos s) (g_on s) (g_eof s) (child_in s) (sizes s).

Definition host_send (frame_type : Z) (data : list Z) (s : inbound) : bool * inbound :=
  let '(ok, w) := send_frame (up s) frame_type data in
  (ok, mkInbound (h_left s) (h_on s) w (up_pos s) (g_on s) (g_eof s) (child_in s) (sizes s)).

(** [libc::read] of standard input. *)
Inductive stdin_read : Type := Interrupted | Failed | Got (d : list Z).

(** Whether the thread goes on after a read. *)
Definition host_read (r : stdin_read) (s : inbound) : bool * inbound :=
  match r with
  | Interrupted => (true, s)
  | Failed | Got [] => (false, snd (host_send FRAME_STDIN [] s))
  | Got d => host_send FRAME_STDIN d (host_took (length d) s)
  end.

(** What [poll] reports: its result, a resize, the window size then, input or a hang-up, the read then,
    an error or an invalid descriptor. *)
Record polled := mkPolled {
  ret : Z; resized : bool; winsize : option (Z * Z); readable : bool; got : stdin_read; broken : bool }.

(** One round of the loop. *)
Definition host_round (p : polled) (s : inbound) : inbound :=
  if ret p <=? 0 then host_halts s else
  let s := if resized p then
             match read_winsize (winsize p) with Some data => snd (host_send FRAME_RESIZE data s) | None => s end
           else s in
  match (if readable p then host_read (got p) s else (true, s)) with
  | (false, s) => host_halts s
  | (true, s) => if broken p then host_halts (snd (host_send FRAME_STDIN [] s)) else s
  end.

(** What the outside may report: the window size is two [u16], a read gives at most a buffer of what is
    left of the input. *)
Definition possible (p : polled) (s : inbound) : Prop :=
  match winsize p with Some (rows, cols) => is_u16 rows /\ is_u16 cols | None => True end /\
  match got p with Got d => d `prefix_of` h_left s /\ (length d <= BUF)%nat | _ => True end.

(** ** The guest's thread *)

(** What it does with a frame: whether it goes on, whether it saw the end, new input of the child, new
    sizes.  [wrote] is, for a pipe, [None] if the write succeeds and otherwise how many bytes the pipe took
    before it failed; for a terminal, how many bytes the write took, [None] if it failed. *)
Definition piped_frame (wrote : option nat) (frame_type : Z) (data : list Z) : bool * bool * list Z * list (Z * Z) :=
  if frame_type =? FRAME_STDIN then
    match data with
    | [] => (false, true, [], [])
    | _ => match wrote with
           | None => (true, false, data, [])
           | Some k => (false, false, take k data, [])
           end
    end
  else if frame_type =? FRAME_RESIZE then (true, false, [], [])
  else (false, false, [], []).

Definition tty_frame_act (wrote : option nat) (frame_type : Z) (data : list Z) : bool * bool * list Z * list (Z * Z) :=
  if frame_type =? FRAME_STDIN then
    match wrote with
    | Some k => (true, false, take k data, [])
    | None => (false, false, [], [])
    end
  else if (frame_type =? FRAME_RESIZE) && (length data =? 4)%nat then
    (true, false, [], [(be16 (nth 0 data 0) (nth 1 data 0), be16 (nth 2 data 0) (nth 3 data 0))])
  else (false, false, [], []).

(** One round; [frame] is [None] when the connection is at its end. *)
Definition guest_input (tty : bool) (wrote : option nat) (frame : option (Z * list Z)) (pos : nat) (s : inbound) : inbound :=
  let '(on, eof, data, size) :=
    match frame with
    | Some (t, d) => if tty then tty_frame_act wrote t d else piped_frame wrote t d
    | None => (false, false, [], [])
    end in
  mkInbound (h_left s) (h_on s) (up s) pos on (g_eof s || eof) (child_in s ++ data) (sizes s ++ size).

Inductive input_step (tty : bool) : inbound -> inbound -> Prop :=
| Host_polls s p : h_on s = true -> possible p s -> input_step tty s (host_round p s)
| Guest_reads s wrote t d rest e : g_on s = true ->
    recv_frame (Reader (drop (up_pos s) (written (up s))) e) = (Ok (t, d), rest) ->
    input_step tty s (guest_input tty wrote (Some (t, d)) (length (written (up s)) - length (avail rest)) s)
| Guest_loses s : g_on s = true -> input_step tty s (guest_input tty None None (up_pos s) s).

(** * From the child to the host *)

(** A pipe, or the output of the pseudo-terminal, and the thread that reads it: the bytes in it, whether
    anyone can still write to it, whether the thread runs, and all that was ever written to it. *)
Record pipe := mkPipe { held : list Z; writers : bool; reading : bool; total : list Z }.

(** The outputs of the child, its exit code, the connection, whether the guest's handler is over. *)
Record outbound := mkOutbound { p_out : pipe; p_err : pipe; child : option Z; down : writer; finished : bool }.

(** A terminal session has one output only. *)
Definition start_out (tty : bool) (room : option nat) : outbound :=
  mkOutbound (mkPipe [] true true []) (mkPipe [] (negb tty) (negb tty) []) None (Writer [] room) false.

(** One round of an output thread that reads [n] bytes; it is over when they cannot be sent. *)
Definition forward (frame_type : Z) (n : nat) (p : pipe) (w : writer) : pipe * writer :=
  let '(ok, w) := send_frame w frame_type (take n (held p)) in
  (mkPipe (drop n (held p)) (writers p) ok (total p), w).

Definition stop_reading (p : pipe) : pipe := mkPipe (held p) (writers p) false (total p).
Definition set_out (p : pipe) (s : outbound) : outbound := mkOutbound p (p_err s) (child s) (down s) (finished s).
Definition set_err (p : pipe) (s : outbound) : outbound := mkOutbound (p_out s) p (child s) (down s) (finished s).

Definition forward_out (n : nat) (s : outbound) : outbound :=
  let '(p, w) := forward FRAME_STDOUT n (p_out s) (down s) in mkOutbound p (p_err s) (child s) w (finished s).
Definition forward_err (n : nat) (s : outbound) : outbound :=
  let '(p, w) := forward FRAME_STDERR n (p_err s) (down s) in mkOutbound (p_out s) p (child s) w (finished s).

(** The exit frame, and the end of the handler. *)
Definition guest_exit (code : Z) (s : outbound) : outbound :=
  let '(_, w) := send_frame (down s) FRAME_EXIT (exit_payload code) in mkOutbound (p_out s) (p_err s) (child s) w true.

(** A read gives some of the bytes in the pipe, and its end only when it is empty and nobody can write to
    it; the exit frame waits for both threads and the child. *)
Definition can_read (n : nat) (p : pipe) : Prop := reading p = true /\ (0 < n <= BUF)%nat /\ (n <= length (held p))%nat.
Definition at_end (p : pipe) : Prop := reading p = true /\ held p = [] /\ writers p = false.

Inductive output_step : outbound -> outbound -> Prop :=
| Forwards_out s n : can_read n (p_out s) -> output_step s (forward_out n s)
| Ends_out s : at_end (p_out s) -> output_step s (set_out (stop_reading (p_out s)) s)
| Forwards_err s n : can_read n (p_err s) -> output_step s (forward_err n s)
| Ends_err s : at_end (p_err s) -> output_step s (set_err (stop_reading (p_err s)) s)
| Exits s code : finished s = false -> reading (p_out s) = false -> reading (p_err s) = false -> child s = Some code ->
    output_step s (guest_exit code s).

(** ** The child and its descendants *)

Definition put (d : list Z) (p : pipe) : pipe := mkPipe (held p ++ d) (writers p) (reading p) (total p ++ d).
Definition close (p : pipe) : pipe := mkPipe (held p) false (reading p) (total p).

Inductive child_step : outbound -> outbound -> Prop :=
| Writes_out s d : writers (p_out s) = true -> child_step s (set_out (put d (p_out s)) s)
| Writes_err s d : writers (p_err s) = true -> child_step s (set_err (put d (p_err s)) s)
| Closes_out s : child_step s (set_out (close (p_out s)) s)
| Closes_err s : child_step s (set_err (close (p_err s)) s)
| Child_exits s code : child s = None -> -2147483648 <= code < 2147483648 ->
    child_step s (mkOutbound (p_out s) (p_err s) (Some code) (down s) (finished s)).

(** * Runs *)

Inductive inputs (tty : bool) : inbound -> inbound -> Prop :=
| Inputs_refl s : inputs tty s s
| Inputs_step s1 s2 s3 : inputs tty s1 s2 -> input_step tty s2 s3 -> inputs tty s1 s3.

(** A run of the output side with the number of rounds its threads made. *)
Inductive outputs : nat -> outbound -> outbound -> Prop :=
| Outputs_refl s : outputs 0 s s
| Outputs_thread n s1 s2 s3 : outputs n s1 s2 -> output_step s2 s3 -> outputs (S n) s1 s3
| Outputs_child n s1 s2 s3 : outputs n s1 s2 -> child_step s2 s3 -> outputs n s1 s3.

(** What the client makes of the bytes it got when the connection ends in a state. *)
Definition client_result (e : io_error) (s : outbound) : option (Z * list chunk) :=
  match run_guest_frames (Reader (written (down s)) e) with
  | Some (code, out, _) => Some (code, out)
  | None => None
  end.

Definition out_data (cs : list chunk) : list Z := flat_map (fun c => match c with Stdout d => d | Stderr _ => [] end) cs.
Definition err_data (cs : list chunk) : list Z := flat_map (fun c => match c with Stderr d => d | Stdout _ => [] end) cs.

(** The handler when the child cannot be started, or the terminal not opened. *)
Definition exec_failed (message : list Z) (w : writer) : writer :=
  let '(_, w) := send_frame w FRAME_STDERR message in
  snd (send_frame w FRAME_EXIT (exit_payload 1)).

(** * Lemmas: the output side *)

Lemma out_data_app cs ds : out_data (cs ++ ds) = out_data cs ++ out_data ds.
Proof. apply flat_map_app. Qed.
Lemma err_data_app cs ds : err_data (cs ++ ds) = err_data cs ++ err_data ds.
Proof. apply flat_map_app. Qed.

(** What was forwarded of a pipe and what is in it are all that was written to it; its thread has only
    stopped at its end. *)
Definition follows (d : list Z) (p : pipe) : Prop :=
  d ++ held p = total p /\ (reading p = false -> held p = [] /\ writers p = false).

(** The bytes the connection took after the complete chunks [cs]: none so far; a part of a frame, and the
    connection takes no more; or the exit frame. *)
Definition flowing (cs : list chunk) (tail : list Z) (s : outbound) : Prop :=
  tail = [] /\ finished s = false /\ follows (out_data cs) (p_out s) /\ follows (err_data cs) (p_err s).
Definition cut (cs : list chunk) (tail : list Z) (s : outbound) : Prop :=
  (exists t d k, fits d /\ (k < length (encode t d))%nat /\ tail = take k (encode t d)) /\ room (down s) = Some 0%nat /\
  out_data cs `prefix_of` total (p_out s) /\ err_data cs `prefix_of` total (p_err s).
Definition done (cs : list chunk) (tail : list Z) (s : outbound) : Prop :=
  finished s = true /\ (exists code, child s = Some code /\ tail = encode FRAME_EXIT (exit_payload code)) /\
  follows (out_data cs) (p_out s) /\ follows (err_data cs) (p_err s) /\
  reading (p_out s) = false /\ reading (p_err s) = false.

Definition output_inv (s : outbound) : Prop :=
  (forall code, child s = Some code -> -2147483648 <= code < 2147483648) /\
  exists cs tail, written (down s) = flat_map chunk_frame cs ++ tail /\ Forall (fun c => fits (chunk_data c)) cs /\
    (flowing cs tail s \/ cut cs tail s \/ done cs tail s).

(** A frame after complete chunks is sent whole, or cut off. *)
Lemma send_frame_cases w t d : fits d ->
  (exists w', send_frame w t d = (true, w') /\ written w' = written w ++ encode t d /\ (room w = None -> room w' = None)) \/
  (exists w' k, send_frame w t d = (false, w') /\ written w' = written w ++ take k (encode t d) /\
                (k < length (encode t d))%nat /\ room w' = Some 0%nat /\ room w <> None).
Proof.
  intros Hd. rewrite send_frame_spec. destruct (room w) as [k|].
  - destruct (length (encode t d) <=? k)%nat eqn:E; bool_arith.
    + left. eexists. split; [reflexivity|]. cbn -[encode]. rewrite take_ge by lia. done.
    + right. eexists _, k. split; [reflexivity|]. cbn -[encode].
      repeat split; [lia | f_equal; lia | done].
  - left. eexists. split; [reflexivity|]. done.
Qed.

(** Nothing goes through a connection that is full. *)
Lemma send_frame_full w t d : room w = Some 0%nat -> send_frame w t d = (false, w).
Proof. intros Hr. rewrite send_frame_spec, Hr. destruct w as [b r]; cbn in *. by subst; rewrite app_nil_r. Qed.

Lemma fits_take n (l : list Z) : (0 < n <= BUF)%nat -> fits (take n l).
Proof. intros. unfold fits, BUF in *. rewrite length_take. lia. Qed.

Lemma cut_first t d cs s : fits d -> room (down s) = Some 0%nat ->
  out_data cs `prefix_of` total (p_out s) -> err_data cs `prefix_of` total (p_err s) ->
  forall k, (k < length (encode t d))%nat -> cut cs (take k (encode t d)) s.
Proof. intros ? ? ? ? k Hk. split; [by exists t, d, k|done]. Qed.

Lemma follows_prefix d p : follows d p -> d `prefix_of` total p.
Proof. intros [<- _]. by eexists. Qed.

Lemma follows_forward d p n ok : follows d p -> reading p = true ->
  follows (d ++ take n (held p)) (mkPipe (drop n (held p)) (writers p) true (total p)) /\
  total (mkPipe (drop n (held p)) (writers p) ok (total p)) = total p.
Proof. intros [<- _] _. split; [|done]. split; cbn; [by rewrite <- app_assoc, take_drop | done]. Qed.

#[local] Hint Resolve follows_prefix : core.

Lemma forward_out_inv s n : can_read n (p_out s) -> output_inv s -> output_inv (forward_out n s).
Proof.
  intros (Hr & Hn & _) (Hc & cs & tail & Hw & Hf & Hs). unfold forward_out, forward.
  destruct Hs as [(-> & Hfin & Ho & He)|[(Ht & Hroom & Ho & He)|(_ & _ & _ & _ & Hr' & _)]]; [| |congruence].
  - destruct (send_frame_cases (down s) FRAME_STDOUT (take n (held (p_out s)))) as [(w & -> & Hw' & _)|(w & k & -> & Hw' & Hk & Hroom & _)];
      [by apply fits_take| |]; split; try exact Hc; cbn [down]; rewrite Hw', Hw, app_nil_r.
    + exists (cs ++ [Stdout (take n (held (p_out s)))]), []. rewrite flat_map_app, app_nil_r. split; [cbn; by rewrite app_nil_r|].
      split; [apply Forall_app; repeat constructor; [done | by apply fits_take]|]. left.
      split; [done|]. split; [done|]. rewrite out_data_app, err_data_app. cbn. rewrite !app_nil_r.
      split; [by apply (follows_forward _ _ _ true) | done].
    + exists cs, (take k (encode FRAME_STDOUT (take n (held (p_out s))))). split; [done|]. split; [done|]. right; left.
      apply cut_first; cbn -[encode]; auto using fits_take.
  - rewrite send_frame_full by done. split; [done|]. exists cs, tail. split; [done|]. split; [done|]. right; left. done.
Qed.

Lemma forward_err_inv s n : can_read n (p_err s) -> output_inv s -> output_inv (forward_err n s).
Proof.
  intros (Hr & Hn & _) (Hc & cs & tail & Hw & Hf & Hs). unfold forward_err, forward.
  destruct Hs as [(-> & Hfin & Ho & He)|[(Ht & Hroom & Ho & He)|(_ & _ & _ & _ & _ & Hr')]]; [| |congruence].
  - destruct (send_frame_cases (down s) FRAME_STDERR (take n (held (p_err s)))) as [(w & -> & Hw' & _)|(w & k & -> & Hw' & Hk & Hroom & _)];
      [by apply fits_take| |]; split; try exact Hc; cbn [down]; rewrite Hw', Hw, app_nil_r.
    + exists (cs ++ [Stderr (take n (held (p_err s)))]), []. rewrite flat_map_app, app_nil_r. split; [cbn; by rewrite app_nil_r|].
      split; [apply Forall_app; repeat constructor; [done | by apply fits_take]|]. left.
      split; [done|]. split; [done|]. rewrite out_data_app, err_data_app. cbn. rewrite !app_nil_r.
      split; [done | by apply (follows_forward _ _ _ true)].
    + exists cs, (take k (encode FRAME_STDERR (take n (held (p_err s))))). split; [done|]. split; [done|]. right; left.
      apply cut_first; cbn -[encode]; auto using fits_take.
  - rewrite send_frame_full by done. split; [done|]. exists cs, tail. split; [done|]. split; [done|]. right; left. done.
Qed.

Lemma fits_exit code : fits (exit_payload code).
Proof. unfold fits. cbn. lia. Qed.

Lemma guest_exit_inv s code : finished s = false -> reading (p_out s) = false -> reading (p_err s) = false ->
  child s = Some code -> output_inv s -> output_inv (guest_exit code s).
Proof.
  intros Hfin Hr Hr' Hchild (Hc & cs & tail & Hw & Hf & Hs). unfold guest_exit.
  destruct Hs as [(-> & _ & Ho & He)|[(Ht & Hroom & Ho & He)|(? & _)]]; [| |congruence].
  - destruct (send_frame_cases (down s) FRAME_EXIT (exit_payload code)) as [(w & -> & Hw' & _)|(w & k & -> & Hw' & Hk & Hroom & _)];
      [apply fits_exit| |]; split; try exact Hc; cbn [down]; rewrite Hw', Hw, app_nil_r.
    + exists cs, (encode FRAME_EXIT (exit_payload code)). split; [done|]. split; [done|]. right; right.
      split; [done|]. split; [by exists code|]. done.
    + exists cs, (take k (encode FRAME_EXIT (exit_payload code))). split; [done|]. split; [done|]. right; left.
      apply cut_first; cbn -[encode exit_payload]; auto using fits_exit.
  - rewrite send_frame_full by done. split; [done|]. exists cs, tail. split; [done|]. split; [done|]. right; left. done.
Qed.

(** Stopping at the end, writing and closing keep what a pipe has to satisfy. *)
Lemma follows_stop d p : at_end p -> follows d p -> follows d (stop_reading p).
Proof. by intros (_ & Hh & Hw) [Hd _]. Qed.
Lemma follows_put d p x : writers p = true -> follows d p -> follows d (put x p).
Proof. intros Hw [Hd Hr]. split; cbn; [by rewrite app_assoc, Hd|]. intros [_ ?]%Hr. congruence. Qed.
Lemma follows_close d p : follows d p -> follows d (close p).
Proof. intros [Hd Hr]. split; [done|]. by intros [? _]%Hr. Qed.

Lemma output_step_inv s s' : output_step s s' -> output_inv s -> output_inv s'.
Proof.
  destruct 1 as [s n Hn|s Hn|s n Hn|s Hn|s code]; [by apply forward_out_inv| |by apply forward_err_inv| |by apply guest_exit_inv];
    intros (Hc & cs & tail & Hw & Hf & Hs); (split; [done|]); exists cs, tail; (split; [done|]); (split; [done|]);
    destruct Hs as [(? & ? & Ho & He)|[?|(_ & _ & _ & _ & ? & ?)]];
    try (destruct Hn as (? & _); congruence); try (right; left; done);
    left; do 2 (split; [done|]); split; cbn [p_out p_err set_out set_err]; auto using follows_stop.
Qed.

Lemma child_step_inv s s' : child_step s s' -> output_inv s -> output_inv s'.
Proof.
  destruct 1 as [s d Hn|s d Hn|s|s|s code Hn Hcode]; intros (Hc & cs & tail & Hw & Hf & Hs).
  5: { split; [cbn; intros ? [= <-]; done|]. exists cs, tail. split; [done|]. split; [done|].
       destruct Hs as [?|[?|(_ & (? & ? & _) & _)]]; [by left | by right; left | congruence]. }
  all: split; [done|]; exists cs, tail; (split; [done|]); (split; [done|]);
    destruct Hs as [(? & ? & Ho & He)|[(? & ? & Ho & He)|(? & ? & Ho & He & Hr & Hr')]].
  all: try (left; do 2 (split; [done|]); split; cbn [p_out p_err set_out set_err]; auto using follows_put, follows_close; fail).
  all: try (right; left; do 2 (split; [done|]); split; cbn; auto using prefix_app_r; fail).
  all: try (right; right; do 2 (split; [done|]); split; cbn [p_out p_err set_out set_err]; auto using follows_close; fail).
  - destruct Ho as [_ Ho]. destruct (Ho Hr). congruence.
  - destruct He as [_ He]. destruct (He Hr'). congruence.
Qed.

Lemma outputs_inv n tty room s : outputs n (start_out tty room) s -> output_inv s.
Proof.
  intros H. remember (start_out tty room) as s0 eqn:E. induction H; subst; eauto using output_step_inv, child_step_inv.
  split; [done|]. exists [], []. split; [done|]. split; [done|]. left.
  do 2 (split; [done|]). destruct tty; repeat split; done.
Qed.

(** A connection without limit stays so. *)
Lemma outputs_room n s s' : outputs n s s' -> room (down s) = None -> room (down s') = None.
Proof.
  induction 1 as [|n s1 s2 s3 _ IH H|n s1 s2 s3 _ IH H]; [done| |destruct H; exact IH]. intros Hr. specialize (IH Hr).
  destruct H; unfold forward_out, forward_err, forward, guest_exit; rewrite ?send_frame_spec, ?IH; done.
Qed.

(** The client's loop on complete chunks followed by a frame that is cut off. *)
Lemma client_cut cs t d k e :
  Forall (fun c => fits (chunk_data c)) cs -> fits d -> (k < length (encode t d))%nat ->
  run_guest_frames (Reader (flat_map chunk_frame cs ++ take k (encode t d)) e) = Some (1, cs, Reader [] e).
Proof.
  intros Hw Hd Hk. unfold run_guest_frames. cbn [avail].
  edestruct (read_guest_frames_chunks cs) as (fuel & Hf & ->); [done | apply Nat.lt_succ_diag_r |].
  destruct fuel as [|fuel]; [lia|]. cbn [read_guest_frames]. by rewrite recv_truncated.
Qed.

(** * Properties: the output side *)

(** C4: what the client makes of an exec session.  Whatever the child writes, in whatever order the threads
    take turns and wherever the connection breaks, the client's loop returns, and it has shown an initial
    part of the child's standard output and of its standard error.  Its exit code is that of the child, and
    then both outputs have been shown completely; or it is 1, and if the connection has no limit the
    handler is not over. *)
Theorem exec_outcome tty room n s e :
  outputs n (start_out tty room) s ->
  exists code out, client_result e s = Some (code, out) /\
    out_data out `prefix_of` total (p_out s) /\ err_data out `prefix_of` total (p_err s) /\
    ((finished s = true /\ child s = Some code /\ out_data out = total (p_out s) /\ err_data out = total (p_err s)) \/
     (code = 1 /\ (room = None -> finished s = false))).
Proof.
  intros H. assert (Hroom : room = None -> Wire.room (down s) = None) by (intros ->; by apply (outputs_room _ _ _ H)).
  apply outputs_inv in H as (Hc & cs & tail & Hw & Hf & Hs). unfold client_result. rewrite Hw.
  destruct Hs as [(-> & Hfin & [Ho _] & [He _])|[((t & d & k & Hd & Hk & ->) & Hr & Ho & He)|(Hfin & (code & Hcode & ->) & Ho & He & Hr & Hr')]].
  - exists 1, cs. change [] with (take 0 (encode 0 [])). rewrite client_cut by (try done; cbn; lia).
    split; [done|]. split; [by eexists|]. split; [by eexists|]. by right.
  - exists 1, cs. rewrite client_cut by done. do 3 (split; [done|]). right. split; [done|].
    intros ?%Hroom. congruence.
  - exists code, cs. rewrite <- (app_nil_r (encode _ _)). rewrite run_guest_frames_session by auto.
    destruct Ho as [Ho Hh], He as [He Hh']. destruct (Hh Hr) as [Hx _]. destruct (Hh' Hr') as [Hx' _].
    rewrite Hx, app_nil_r in Ho. rewrite Hx', app_nil_r in He. rewrite Ho, He.
    do 3 (split; [done|]). by left.
Qed.

(** * Lemmas: the input side *)

(** What the host sends: input, or a window size; the end of the input is a frame of its own. *)
Inductive item : Type := Data (d : list Z) | Size (rows cols : Z).
Definition item_frame (i : item) : list Z :=
  match i with
  | Data d => encode FRAME_STDIN d
  | Size rows cols => encode FRAME_RESIZE (to_be16 rows ++ to_be16 cols)
  end.
Definition item_data (i : item) : list Z := match i with Data d => d | Size _ _ => [] end.
Definition item_ok (i : item) : Prop := match i with Data d => d <> [] /\ fits d | Size _ _ => True end.
Definition end_frame : list Z := encode FRAME_STDIN [].

(** A part of a frame, after which the connection takes no more. *)
Definition part (tail : list Z) (w : writer) : Prop :=
  exists t d k, fits d /\ (k < length (encode t d))%nat /\ tail = take k (encode t d) /\ (tail = [] \/ room w = Some 0%nat).

(** The bytes the guest has read, the items on their way, and what comes after: a part of a frame, the end of
    the input, or nothing once the guest saw the end.  The input is what the child got, what the guest
    could not give it, what is on its way, what the host could not send and what it has not read. *)
Definition input_inv (input : list Z) (s : inbound) : Prop :=
  exists gone items tail refused unsent,
    written (up s) = gone ++ flat_map item_frame items ++ tail /\ length gone = up_pos s /\ Forall item_ok items /\
    child_in s ++ refused ++ flat_map item_data items ++ unsent ++ h_left s = input /\
    (g_on s = true -> refused = []) /\ (h_on s = true -> unsent = []) /\
    ((g_eof s = false /\ part tail (up s)) \/
     (g_eof s = false /\ h_on s = false /\ unsent = [] /\ tail = end_frame) \/
     (g_on s = false /\ h_on s = false /\ unsent = [] /\ items = [] /\ refused = [] /\ tail = [])).

Lemma part_nil w : part [] w.
Proof. exists 0, [], 0%nat. repeat split; [cbn; lia|by left]. Qed.

(** Sending a frame after items and the part of a frame: it goes through only if there is no part, and
    otherwise leaves such a part. *)
Lemma send_after tail w t d : part tail w -> fits d ->
  (exists w', send_frame w t d = (true, w') /\ tail = [] /\ written w' = written w ++ encode t d) \/
  (exists w' part', send_frame w t d = (false, w') /\ written w' = written w ++ part' /\ part (tail ++ part') w').
Proof.
  intros (t' & d' & k & Hd' & Hk & -> & Hp) Hd. destruct Hp as [Hp|Hp].
  - rewrite Hp. destruct (send_frame_cases w t d Hd) as [(w' & -> & Hw & _)|(w' & k' & -> & Hw & Hk' & Hr & _)]; [left; by exists w'|].
    right. exists w', (take k' (encode t d)). repeat split; [done|]. exists t, d, k'. cbn [app]. auto.
  - right. exists w, []. rewrite (send_frame_full _ _ _ Hp), !app_nil_r. repeat split. exists t', d', k. auto.
Qed.

Lemma app_tail {A} (a b c d : list A) : (a ++ b ++ c) ++ d = a ++ b ++ (c ++ d).
Proof. by rewrite <- !app_assoc. Qed.

Section Host.
Context (input : list Z).

(** The state of a host thread that runs. *)
Lemma host_running s : input_inv input s -> h_on s = true ->
  exists gone items tail refused,
    written (up s) = gone ++ flat_map item_frame items ++ tail /\ length gone = up_pos s /\ Forall item_ok items /\
    child_in s ++ refused ++ flat_map item_data items ++ h_left s = input /\
    (g_on s = true -> refused = []) /\ g_eof s = false /\ part tail (up s).
Proof.
  intros (gone & items & tail & refused & unsent & Hw & Hl & Hf & Hi & Hg & Hu & Hs) Hh.
  rewrite (Hu Hh) in Hi. exists gone, items, tail, refused. do 5 (split; [done|]).
  destruct Hs as [?|[(_ & ? & _)|(_ & ? & _)]]; [done|congruence..].
Qed.

Lemma host_halts_inv s : input_inv input s -> input_inv input (host_halts s).
Proof.
  intros (gone & items & tail & refused & unsent & Hw & Hl & Hf & Hi & Hg & Hu & Hs).
  exists gone, items, tail, refused, unsent. do 5 (split; [done|]). split; [done|].
  destruct Hs as [?|[(? & _ & ?)|(? & _ & ?)]]; auto.
Qed.

(** An item goes on its way, or the connection is full. *)
Lemma host_size_inv s rows cols : input_inv input s -> h_on s = true ->
  input_inv input (snd (host_send FRAME_RESIZE (to_be16 rows ++ to_be16 cols) s)).
Proof.
  intros H Hh. destruct (host_running s H Hh) as (gone & items & tail & refused & Hw & Hl & Hf & Hi & Hg & He & Hp).
  unfold host_send. destruct (send_after tail (up s) FRAME_RESIZE (to_be16 rows ++ to_be16 cols) Hp) as [(w & -> & -> & Hw')|(w & p & -> & Hw' & Hp')]; [done| |].
  - exists gone, (items ++ [Size rows cols]), [], refused, []. cbn [snd up up_pos child_in h_left h_on g_on g_eof].
    rewrite Hw', Hw, !flat_map_app, app_tail. split; [by cbn; rewrite !app_nil_r|]. split; [done|].
    split; [apply Forall_app; by repeat constructor|]. split; [cbn; rewrite app_nil_r; done|].
    do 2 (split; [done|]). left. split; [done|apply part_nil].
  - exists gone, items, (tail ++ p), refused, []. cbn [snd up up_pos child_in h_left h_on g_on g_eof].
    rewrite Hw', Hw, app_tail. do 6 (split; [done|]). by left.
Qed.

Lemma host_data_inv s d ok s' : input_inv input s -> h_on s = true -> d <> [] -> (length d <= BUF)%nat -> d `prefix_of` h_left s ->
  host_send FRAME_STDIN d (host_took (length d) s) = (ok, s') ->
  input_inv input (if ok then s' else host_halts s') /\ (ok = true -> h_on s' = true).
Proof.
  intros H Hh Hd Hl' [r Hr]. destruct (host_running s H Hh) as (gone & items & tail & refused & Hw & Hl & Hf & Hi & Hg & He & Hp).
  assert (fits d) by (unfold fits, BUF in *; lia). rewrite Hr in Hi.
  unfold host_send, host_took. cbn [up up_pos child_in h_left h_on g_on g_eof]. rewrite Hr, drop_app_length.
  destruct (send_after tail (up s) FRAME_STDIN d Hp) as [(w & -> & -> & Hw')|(w & p & -> & Hw' & Hp')]; [done|intros [= <- <-]; split; [|done]..].
  - exists gone, (items ++ [Data d]), [], refused, []. cbn [up up_pos child_in h_left h_on g_on g_eof].
    rewrite Hw', Hw, !flat_map_app, app_tail. split; [by cbn -[encode]; rewrite !app_nil_r|]. split; [done|].
    split; [apply Forall_app; by repeat constructor|]. split; [cbn; rewrite app_nil_r, <- !app_assoc; done|].
    do 2 (split; [done|]). left. split; [done|apply part_nil].
  - exists gone, items, (tail ++ p), refused, d. cbn [host_halts up up_pos child_in h_left h_on g_on g_eof].
    rewrite Hw', Hw, app_tail. do 6 (split; [done|]). by left.
Qed.

Lemma host_end_inv s : input_inv input s -> h_on s = true -> input_inv input (host_halts (snd (host_send FRAME_STDIN [] s))).
Proof.
  intros H Hh. destruct (host_running s H Hh) as (gone & items & tail & refused & Hw & Hl & Hf & Hi & Hg & He & Hp).
  unfold host_send. destruct (send_after tail (up s) FRAME_STDIN [] Hp) as [(w & -> & -> & Hw')|(w & p & -> & Hw' & Hp')]; [done| |].
  - exists gone, items, end_frame, refused, []. cbn [host_halts snd up up_pos child_in h_left h_on g_on g_eof].
    rewrite Hw', Hw, app_tail. do 6 (split; [done|]). right; left. done.
  - exists gone, items, (tail ++ p), refused, []. cbn [host_halts snd up up_pos child_in h_left h_on g_on g_eof].
    rewrite Hw', Hw, app_tail. do 6 (split; [done|]). by left.
Qed.

Lemma host_send_on t d s : h_on (snd (host_send t d s)) = h_on s.
Proof. unfold host_send. by destruct (send_frame _ _ _). Qed.
Lemma host_send_left t d s : h_left (snd (host_send t d s)) = h_left s.
Proof. unfold host_send. by destruct (send_frame _ _ _). Qed.

Lemma host_round_inv s p : h_on s = true -> possible p s -> input_inv input s -> input_inv input (host_round p s).
Proof.
  intros Hh [Hp Hg] H. unfold host_round. case_goal; [by apply host_halts_inv|].
  set (s1 := if resized p then _ else s).
  assert (input_inv input s1 /\ h_on s1 = true /\ h_left s1 = h_left s) as (H1 & Hh1 & Hl1).
  { subst s1. destruct (resized p), (winsize p) as [[rows cols]|]; cbn [read_winsize]; try done.
    rewrite host_send_on, host_send_left. split; [by apply host_size_inv|done]. }
  rewrite <- Hl1 in Hg. clearbody s1.
  assert (forall s, input_inv input s -> h_on s = true ->
            input_inv input (if broken p then host_halts (snd (host_send FRAME_STDIN [] s)) else s)) as Hb.
  { intros s2 ??. destruct (broken p); [by apply host_end_inv|done]. }
  destruct (readable p); [|by apply Hb]. destruct (got p) as [| |[|b d]]; cbn [host_read]; [by apply Hb|by apply host_end_inv..|].
  destruct Hg as [Hd Hn]. destruct (host_send FRAME_STDIN (b :: d) _) as [ok s2] eqn:E.
  destruct (host_data_inv s1 (b :: d) ok s2 H1 Hh1 ltac:(done) Hn Hd E) as [H2 Hh2]. destruct ok; [apply Hb; auto|done].
Qed.
End Host.

Definition item_content (i : item) : Z * list Z :=
  match i with Data d => (FRAME_STDIN, d) | Size rows cols => (FRAME_RESIZE, to_be16 rows ++ to_be16 cols) end.

Lemma recv_item i rest e : item_ok i -> recv_frame (Reader (item_frame i ++ rest) e) = (Ok (item_content i), Reader rest e).
Proof. destruct i as [d|rows cols]; intros H; cbn [item_frame]; apply recv_encode; [apply H|done]. Qed.

Lemma recv_part tail w e : part tail w -> exists e' r, recv_frame (Reader tail e) = (Err e', r).
Proof. intros (t & d & k & Hd & Hk & -> & _). rewrite recv_truncated by done. eauto. Qed.

(** What is read of a first item is its content, and the reader is then behind it. *)
Lemma read_next gone i rest e t d r : item_ok i ->
  recv_frame (Reader (drop (length gone) (gone ++ item_frame i ++ rest)) e) = (Ok (t, d), r) ->
  (t, d) = item_content i /\
  (length (gone ++ item_frame i ++ rest) - length (avail r))%nat = length (gone ++ item_frame i).
Proof.
  intros Hi. rewrite drop_app_length, recv_item by done. intros [= Hc <-]. split; [done|].
  cbn [avail]. rewrite !length_app. lia.
Qed.

Lemma guest_reads_inv input s wrote t d rest e : g_on s = true ->
  recv_frame (Reader (drop (up_pos s) (written (up s))) e) = (Ok (t, d), rest) -> input_inv input s ->
  input_inv input (guest_input false wrote (Some (t, d)) (length (written (up s)) - length (avail rest)) s).
Proof.
  intros Hon Hr (gone & items & tail & refused & unsent & Hw & Hl & Hf & Hi & Hg & Hu & Hs).
  rewrite (Hg Hon) in Hi. rewrite <- Hl, Hw in Hr. destruct items as [|i items]; cbn [flat_map] in *.
  - rewrite app_nil_l, drop_app_length in Hr.
    destruct Hs as [(_ & Hp)|[(Heof & Hh & -> & ->)|(? & _)]]; [apply (recv_part _ _ e) in Hp as (? & ? & ?); congruence| |congruence].
    unfold end_frame in Hr. rewrite <- (app_nil_r (encode _ _)), recv_encode in Hr by done. injection Hr as <- <- <-.
    exists (written (up s)), [], [], [], []. unfold guest_input. cbn -[written drop app]. rewrite !app_nil_r, Nat.sub_0_r in *.
    do 6 (split; [done|]). right; right. done.
  - apply Forall_cons in Hf as [Hi' Hf]. rewrite <- app_assoc in Hw, Hr.
    pose proof (read_next gone i _ e t d rest Hi' Hr) as [Hc Hpos]. rewrite <- Hw in Hpos. rewrite Hpos.
    assert (Hw' : written (up s) = (gone ++ item_frame i) ++ flat_map item_frame items ++ tail) by (rewrite Hw; by rewrite <- app_assoc).
    assert (Hs' : (g_eof s = false /\ part tail (up s)) \/ (g_eof s = false /\ h_on s = false /\ unsent = [] /\ tail = end_frame)).
    { destruct Hs as [?|[?|(? & _)]]; [by left|by right|congruence]. }
    assert (He : g_eof s = false) by (destruct Hs' as [(? & _)|(? & _)]; done).
    assert (Hnext : forall on data refused, child_in s ++ item_data i = child_in s ++ data ++ refused -> (on = true -> refused = []) ->
      input_inv input (mkInbound (h_left s) (h_on s) (up s) (length (gone ++ item_frame i)) on (g_eof s || false) (child_in s ++ data) (sizes s ++ []))).
    { intros on data refused' Hd Hon'. exists (gone ++ item_frame i), items, tail, refused', unsent.
      cbn [up up_pos child_in h_left h_on g_on g_eof]. rewrite orb_false_r. do 3 (split; [done|]).
      split; [|split; [done|split; [done|]]; destruct Hs' as [?|?]; auto].
      rewrite <- Hi. cbn [app]. rewrite <- (app_assoc (item_data i)), (app_assoc _ (item_data i)), Hd. by rewrite <- !app_assoc. }
    unfold guest_input. destruct i as [d'|rows cols]; injection Hc as -> ->; cbn [item_data] in *.
    + destruct Hi' as [Hne _]. unfold piped_frame. rewrite Z.eqb_refl. destruct d' as [|b d']; [done|].
      destruct wrote as [k|]; [apply (Hnext false _ (drop k (b :: d'))); [by rewrite take_drop|done] | apply (Hnext true _ []); [by rewrite app_nil_r|done]].
    + by apply (Hnext true [] []).
Qed.

Lemma input_step_inv input s s' : input_step false s s' -> input_inv input s -> input_inv input s'.
Proof.
  destruct 1 as [s p Hh Hp|s wrote t d rest e Hon Hr|s Hon]; [by apply host_round_inv|by apply guest_reads_inv with e|].
  intros (gone & items & tail & refused & unsent & Hw & Hl & Hf & Hi & Hg & Hu & Hs).
  exists gone, items, tail, refused, unsent. unfold guest_input. cbn [up up_pos child_in h_left h_on g_on g_eof].
  rewrite app_nil_r, orb_false_r. do 4 (split; [done|]). split; [done|]. split; [done|].
  destruct Hs as [?|[?|(? & _)]]; [auto|auto|congruence].
Qed.

Lemma inputs_inv input room s : inputs false (start_in input room) s -> input_inv input s.
Proof.
  intros H. remember (start_in input room) as s0 eqn:E. induction H; subst; [|eauto using input_step_inv].
  exists [], [], [], [], []. do 6 (split; [done|]). left. split; [done|apply part_nil].
Qed.

(** * Properties: the input side *)

(** C6: the child's input.  Without a terminal, whatever the two input threads and the outside do, and
    wherever the connection breaks, what the child got is an initial part of the host's standard input;
    and when its input is closed because the guest saw the frame that ends the input, the child got all
    that the host read. *)
Theorem exec_input input room s :
  inputs false (start_in input room) s ->
  child_in s `prefix_of` input /\ (g_eof s = true -> child_in s ++ h_left s = input).
Proof.
  intros (gone & items & tail & refused & unsent & Hw & Hl & Hf & Hi & Hg & Hu & Hs)%inputs_inv.
  split; [by eexists|]. intros He. destruct Hs as [(? & _)|[(? & _)|(_ & _ & -> & -> & -> & _)]]; [congruence..|].
  done.
Qed.

(** ** Concrete sessions *)

(** A child writes [hi], exits with 3 and closes the terminal; the thread forwards a byte, then the other. *)
Definition hi_out : outbound :=
  let s := set_out (put [104; 105] (p_out (start_out true None))) (start_out true None) in
  let s := set_out (close (p_out s)) s in
  let s := forward_out 1 (forward_out 1 (mkOutbound (p_out s) (p_err s) (Some 3) (down s) (finished s))) in
  guest_exit 3 (set_out (stop_reading (p_out s)) s).

Lemma hi_outputs : outputs 4 (start_out true None) hi_out.
Proof.
  unfold hi_out. eapply Outputs_thread; [|by apply Exits]. eapply Outputs_thread; [|by apply Ends_out].
  do 2 (eapply Outputs_thread; [|apply Forwards_out; repeat split; cbn; unfold BUF; lia]).
  eapply Outputs_child; [|apply Child_exits; [done|lia]]. eapply Outputs_child; [|apply Closes_out].
  eapply Outputs_child; [|by apply Writes_out]. apply Outputs_refl.
Qed.

Lemma exec_outcome_witness :
  outputs 4 (start_out true None) hi_out /\ finished hi_out = true /\
  exists code out, client_result UnexpectedEof hi_out = Some (code, out) /\
    out_data out `prefix_of` [104; 105] /\ err_data out `prefix_of` [] /\
    ((true = true /\ Some 3 = Some code /\ out_data out = [104; 105] /\ err_data out = []) \/
     (code = 1 /\ (None = @None nat -> true = false))).
Proof.
  split; [apply hi_outputs|]. split; [reflexivity|].
  exact (exec_outcome true None 4 hi_out UnexpectedEof hi_outputs).
Defined.

(** The guest reads a frame with [rest] bytes after it. *)
Definition guest_gets (tty : bool) (wrote : option nat) (d : list Z) (rest : nat) (s : inbound) : inbound :=
  guest_input tty wrote (Some (FRAME_STDIN, d)) (length (written (up s)) - rest) s.

Lemma guest_gets_step tty wrote d rest s : g_on s = true ->
  recv_frame (Reader (drop (up_pos s) (written (up s))) UnexpectedEof) = (Ok (FRAME_STDIN, d), Reader rest UnexpectedEof) ->
  input_step tty s (guest_gets tty wrote d (length rest) s).
Proof. intros Hg Hr. exact (Guest_reads tty s wrote _ d _ _ Hg Hr). Qed.

Lemma typed_step tty d s : h_on s = true -> d `prefix_of` h_left s -> (length d <= 4096)%nat ->
  input_step tty s (host_round (mkPolled 1 false None true (Got d) false) s).
Proof. intros. by apply Host_polls. Qed.

(** Two bytes are typed, then the input ends. *)
Definition typed (d : list Z) : polled := mkPolled 1 false None true (Got d) false.
Definition to_child : inbound :=
  let s := host_round (typed []) (host_round (typed [108; 115]) (start_in [108; 115] None)) in
  guest_gets false None [] 0 (guest_gets false None [108; 115] 5 s).

Lemma to_child_inputs : inputs false (start_in [108; 115] None) to_child.
Proof.
  unfold to_child. eapply Inputs_step; [|by apply (guest_gets_step false _ _ [])].
  eapply Inputs_step; [|by apply (guest_gets_step false _ _ end_frame)].
  eapply Inputs_step; [|apply typed_step; [done|by exists []|cbn; lia]].
  eapply Inputs_step; [|apply typed_step; [done|by exists []|cbn; lia]].
  apply Inputs_refl.
Qed.

Lemma exec_input_witness :
  inputs false (start_in [108; 115] None) to_child /\ g_eof to_child = true /\
  child_in to_child `prefix_of` [108; 115] /\ (g_eof to_child = true -> child_in to_child ++ h_left to_child = [108; 115]).
Proof. split; [apply to_child_inputs|]. split; [reflexivity|]. exact (exec_input [108; 115] None to_child to_child_inputs). Defined.

(** With a terminal a write that is short loses the rest of the frame: of [a b] and [c] the child gets [a c]. *)
Definition short_write : inbound :=
  let s := host_round (typed [99]) (host_round (typed [97; 98]) (start_in [97; 98; 99] None)) in
  guest_gets true (Some 1%nat) [99] 0 (guest_gets true (Some 1%nat) [97; 98] 6 s).

Example short_write_loses : inputs true (start_in [97; 98; 99] None) short_write /\ child_in short_write = [97; 99].
Proof.
  split; [|reflexivity]. unfold short_write.
  eapply Inputs_step; [|by apply (guest_gets_step true _ _ [])].
  eapply Inputs_step; [|by apply (guest_gets_step true _ _ (encode FRAME_STDIN [99]))].
  eapply Inputs_step; [|apply typed_step; [done|by exists []|cbn; lia]].
  eapply Inputs_step; [|apply typed_step; [done|by exists [99]|cbn; lia]].
  apply Inputs_refl.
Qed.

(** [poll] interrupted by the signal of a resize ends the input thread without a frame that ends the input. *)
Example interrupted_poll_ends_input :
  host_round (mkPolled (-1) true (Some (24, 80)) true (Got [97]) false) (start_in [97] None)
  = mkInbound [97] false (Writer [] None) 0 true false [] [].
Proof. reflexivity. Qed.

(** A child that could not be started: the client shows the message and exits with 1. *)
Lemma exec_failed_result message e : fits message ->
  run_guest_frames (Reader (written (exec_failed message (Writer [] None))) e) = Some (1, [Stderr message], Reader [] e).
Proof.
  intros Hm. unfold exec_failed. rewrite send_frame_spec. cbn [room]. rewrite send_frame_spec. cbn [room snd written app].
  rewrite <- (app_nil_r (_ ++ _)), <- app_assoc. rewrite <- (app_nil_r (encode FRAME_STDERR message)).
  apply (run_guest_frames_session [Stderr message] 1 [] e); [by repeat constructor|lia].
Qed.
