(* ===== verification/ExecFlow.v ===== *)
(** Exec sessions whose connection fills up ([pelagos-guest/src/main.rs], [FdWriter] and the threads of
    [handle_exec_piped] and [handle_exec_tty]): a write waits for the host to read, and the thread that waits holds
    the lock of the writer, so the other threads wait for it.  The rounds of [ExecSession] are taken apart into the
    steps of a frame: take the lock, write some bytes, give the lock back. *)

From S2P Require Import Prelude Wire ExecSession.

#[local] Open Scope Z_scope.

(** * Steps *)

(** Who has the lock: the thread of an output with the number of bytes it has read, or the handler with the exit code. *)
Inductive turn : Type := Out_turn (n : nat) | Err_turn (n : nat) | Exit_turn (code : Z).

(** The session as the complete frames leave it, with no limit of the connection until it broke; who has the lock and how
    many bytes of his frame are written; the bytes the host has read; whether the host has gone or the connection is
    broken. *)
Record session := mkSession { core : outbound; lock : option (turn * nat); taken : nat; gone : bool }.

Definition start_session (tty : bool) : session := mkSession (start_out tty None) None 0 false.

(** What a holder of the lock sends, and the round of [ExecSession] that is done when it is sent.  A thread reads its pipe
    before it asks for the lock; as nobody else reads the pipe, the read is put where the lock is taken. *)
Definition ready (t : turn) (s : outbound) : Prop :=
  match t with
  | Out_turn n => can_read n (p_out s)
  | Err_turn n => can_read n (p_err s)
  | Exit_turn code => finished s = false /\ reading (p_out s) = false /\ reading (p_err s) = false /\ child s = Some code
  end.
Definition frame (t : turn) (s : outbound) : list Z :=
  match t with
  | Out_turn n => encode FRAME_STDOUT (take n (held (p_out s)))
  | Err_turn n => encode FRAME_STDERR (take n (held (p_err s)))
  | Exit_turn code => encode FRAME_EXIT (exit_payload code)
  end.
Definition perform (t : turn) (s : outbound) : outbound :=
  match t with Out_turn n => forward_out n s | Err_turn n => forward_err n s | Exit_turn code => guest_exit code s end.

(** A connection that takes [r] more bytes. *)
Definition limit (r : option nat) (s : outbound) : outbound :=
  mkOutbound (p_out s) (p_err s) (child s) (Writer (written (down s)) r) (finished s).

(** The bytes that were written and not read by the host. *)
Definition in_flight (s : session) : nat :=
  length (written (down (core s))) + match lock s with Some (_, j) => j | None => 0 end - taken s.

(** The threads of the guest; the connection holds [cap] bytes. *)
Inductive thread_step (cap : nat) : session -> session -> Prop :=
| Locks s t : lock s = None -> ready t (core s) -> thread_step cap s (mkSession (core s) (Some (t, 0%nat)) (taken s) (gone s))
| Writes s t j k : lock s = Some (t, j) -> gone s = false -> (0 < k)%nat -> (j + k <= length (frame t (core s)))%nat ->
    (in_flight s + k <= cap)%nat -> thread_step cap s (mkSession (core s) (Some (t, (j + k)%nat)) (taken s) (gone s))
| Unlocks s t j : lock s = Some (t, j) -> j = length (frame t (core s)) ->
    thread_step cap s (mkSession (perform t (core s)) None (taken s) (gone s))
| Fails s t j : lock s = Some (t, j) -> gone s = true -> (j < length (frame t (core s)))%nat ->
    thread_step cap s (mkSession (perform t (limit (Some j) (core s))) None (taken s) (gone s))
| Out_ends s : at_end (p_out (core s)) ->
    thread_step cap s (mkSession (set_out (stop_reading (p_out (core s))) (core s)) (lock s) (taken s) (gone s))
| Err_ends s : at_end (p_err (core s)) ->
    thread_step cap s (mkSession (set_err (stop_reading (p_err (core s))) (core s)) (lock s) (taken s) (gone s)).

(** The host reads some bytes, or goes away. *)
Inductive host_step : session -> session -> Prop :=
| Host_reads s m : gone s = false -> (0 < m <= in_flight s)%nat -> host_step s (mkSession (core s) (lock s) (taken s + m) (gone s))
| Host_leaves s : gone s = false -> host_step s (mkSession (core s) (lock s) (taken s) true).

(** A run, with the number of steps of the threads. *)
Inductive runs (cap : nat) : nat -> session -> session -> Prop :=
| Runs_refl s : runs cap 0 s s
| Runs_thread n s1 s2 s3 : runs cap n s1 s2 -> thread_step cap s2 s3 -> runs cap (S n) s1 s3
| Runs_host n s1 s2 s3 : runs cap n s1 s2 -> host_step s2 s3 -> runs cap n s1 s3
| Runs_child n s1 s2 c : runs cap n s1 s2 -> child_step (core s2) c -> runs cap n s1 (mkSession c (lock s2) (taken s2) (gone s2)).

(** The child is over and nobody has its outputs open. *)
Definition child_over (s : outbound) : Prop :=
  is_Some (child s) /\ writers (p_out s) = false /\ writers (p_err s) = false.

(** No more steps than this are left: every byte to forward needs at most a frame of its own, every thread ends, the exit
    frame has nine bytes; those that were made of the frame being written are done. *)
Definition work (s : session) : nat :=
  8 * (length (held (p_out (core s))) + length (held (p_err (core s))))
  + Nat.b2n (reading (p_out (core s))) + Nat.b2n (reading (p_err (core s))) + 11 * Nat.b2n (negb (finished (core s)))
  - match lock s with Some (_, j) => S j | None => 0 end.

(** * Lemmas *)

Lemma frame_length t s : ready t s -> length (frame t s) = match t with Out_turn n | Err_turn n => 5 + n | Exit_turn _ => 9 end%nat.
Proof.
  destruct t as [n|n|code]; intros H; [..|done]; destruct H as (_ & _ & H); unfold frame, encode; cbn [length];
    rewrite length_app, length_take; cbn; lia.
Qed.

(** Who has the lock has something to send, and has written no more than that. *)
Definition lock_ok (s : session) : Prop :=
  match lock s with Some (t, j) => ready t (core s) /\ (j <= length (frame t (core s)))%nat | None => True end.

Lemma put_ready n d p : can_read n p -> can_read n (put d p) /\ take n (held (put d p)) = take n (held p).
Proof. intros (Hr & Hn & Hl). cbn. rewrite take_app_le by done. repeat split; cbn; try done; try lia. rewrite length_app. lia. Qed.

Lemma child_step_ready t s s' : child_step s s' -> ready t s -> ready t s' /\ frame t s' = frame t s.
Proof.
  intros H Hr. destruct t as [n|n|code]; cbn [ready frame] in *.
  - assert (can_read n (p_out s') /\ take n (held (p_out s')) = take n (held (p_out s))) as [? ->]; [|done].
    destruct H; cbn [p_out set_out set_err]; try done. by apply put_ready.
  - assert (can_read n (p_err s') /\ take n (held (p_err s')) = take n (held (p_err s))) as [? ->]; [|done].
    destruct H; cbn [p_err set_out set_err]; try done. by apply put_ready.
  - split; [|done]. destruct Hr as (? & ? & ? & ?). by destruct H; try congruence.
Qed.

Lemma ready_step t s : ready t s -> output_step s (perform t s).
Proof. destruct t; cbn [ready perform]; intros H; [by apply Forwards_out|by apply Forwards_err|destruct H as (? & ? & ? & ?); by apply Exits]. Qed.

(** ** The frames are those of [ExecSession] *)

Lemma perform_down t s : down (perform t s) =
  match room (down s) with
  | None => Writer (written (down s) ++ frame t s) None
  | Some k => Writer (written (down s) ++ take k (frame t s)) (Some (k - length (frame t s))%nat)
  end.
Proof.
  destruct t; cbn [perform]; unfold forward_out, forward_err, guest_exit, forward; rewrite send_frame_spec; destruct (room (down s)); done.
Qed.

(** A limit that is not reached changes nothing. *)
Lemma send_enough w t d r : room w = None ->
  send_frame (Writer (written w) (Some (length (encode t d) + r)%nat)) t d = (true, Writer (written w ++ encode t d) (Some r)) /\
  send_frame w t d = (true, Writer (written w ++ encode t d) None).
Proof.
  intros Hr. rewrite !send_frame_spec, Hr. cbn [room written]. rewrite take_ge by lia. rewrite (proj2 (Nat.leb_le _ _)) by lia.
  split; [|done]. do 3 f_equal. lia.
Qed.

Lemma perform_enough t r s : room (down s) = None -> perform t (limit (Some (length (frame t s) + r)%nat) s) = limit (Some r) (perform t s).
Proof.
  intros Hr. destruct t as [n|n|code]; cbn [perform frame]; unfold forward_out, forward_err, guest_exit, forward;
    cbn [limit down p_out p_err child finished].
  - by destruct (send_enough (down s) FRAME_STDOUT (take n (held (p_out s))) r Hr) as [-> ->].
  - by destruct (send_enough (down s) FRAME_STDERR (take n (held (p_err s))) r Hr) as [-> ->].
  - by destruct (send_enough (down s) FRAME_EXIT (exit_payload code) r Hr) as [-> ->].
Qed.

Lemma limit_child r s s' : child_step s s' -> child_step (limit r s) (limit r s').
Proof.
  destruct 1 as [s d Hw|s d Hw|s|s|s code Hc Hz]; [exact (Writes_out (limit r s) d Hw)|exact (Writes_err (limit r s) d Hw)
    |exact (Closes_out (limit r s))|exact (Closes_err (limit r s))|exact (Child_exits (limit r s) code Hc Hz)].
Qed.

Lemma limit_same r s : room (down s) = r -> limit r s = s.
Proof. intros <-. by destruct s as [? ? ? [] ?]. Qed.

Lemma child_step_down s s' : child_step s s' -> down s' = down s.
Proof. by destruct 1. Qed.

(** The core is a state of [ExecSession] for a connection that breaks where this one did. *)
Definition core_run (tty : bool) (s : session) : Prop :=
  (exists n, room (down (core s)) = None /\ outputs n (start_out tty None) (core s) /\
     forall r, outputs n (start_out tty (Some (length (written (down (core s))) + r)%nat)) (limit (Some r) (core s))) \/
  (exists n r, room (down (core s)) = Some 0%nat /\ gone s = true /\ outputs n (start_out tty (Some r)) (core s) /\
     match lock s with Some (_, j) => j = 0%nat | None => True end).

Lemma core_run_start tty : core_run tty (start_session tty).
Proof. left. exists 0%nat. split; [done|]. split; [apply Outputs_refl|]. intros r. apply Outputs_refl. Qed.

Lemma outputs_ready n s1 s2 t : outputs n s1 s2 -> ready t s2 -> outputs (S n) s1 (perform t s2).
Proof. intros H Ht. eapply Outputs_thread; [exact H|]. by apply ready_step. Qed.

Lemma thread_step_core tty cap s s' : lock_ok s -> thread_step cap s s' -> core_run tty s -> core_run tty s'.
Proof.
  intros Hok H Hc. unfold lock_ok in Hok. destruct H as [s t Hl Ht|s t j k Hl Hg Hk Hj Hf|s t j Hl Hj|s t j Hl Hg Hj|s He|s He];
    destruct Hc as [(n & Hr & Ho & Ha)|(n & r & Hr & Hg' & Ho & Hz)]; rewrite ?Hl in *; cbn [core lock gone] in *.
  - left. by exists n.
  - right. exists n, r. done.
  - left. by exists n.
  - congruence.
  - left. exists (S n). cbn [core]. rewrite perform_down, Hr. cbn [room written]. split; [done|].
    destruct Hok as [Ht _]. split; [by apply outputs_ready|].
    intros r. rewrite length_app, <- Nat.add_assoc, <- perform_enough by done. apply outputs_ready; [apply Ha|]. by destruct t.
  - exfalso. subst. destruct Hok as [Ht _]. apply frame_length in Ht. destruct t; lia.
  - right. exists (S n), (length (written (down (core s))) + j)%nat. cbn [core gone lock]. rewrite perform_down. cbn [room limit down].
    split; [f_equal; destruct t; cbn [frame limit p_out p_err] in *; lia|]. split; [done|]. split; [|done]. apply outputs_ready; [apply Ha|].
    destruct Hok as [Ht _]. by destruct t.
  - right. exists (S n), r. subst. cbn [core gone lock]. rewrite limit_same by done. rewrite perform_down, Hr. split; [done|]. split; [done|]. split; [|done].
    destruct Hok as [Ht _]. by apply outputs_ready.
  - left. exists (S n). cbn [core]. split; [done|]. split; [by eapply Outputs_thread, Ends_out|]. intros r.
    eapply Outputs_thread; [apply Ha|]. by apply (Ends_out (limit (Some r) (core s))).
  - right. exists (S n), r. split; [done|]. split; [done|]. split; [by eapply Outputs_thread, Ends_out|done].
  - left. exists (S n). cbn [core]. split; [done|]. split; [by eapply Outputs_thread, Ends_err|]. intros r.
    eapply Outputs_thread; [apply Ha|]. by apply (Ends_err (limit (Some r) (core s))).
  - right. exists (S n), r. split; [done|]. split; [done|]. split; [by eapply Outputs_thread, Ends_err|done].
Qed.

(** ** The steps that are left *)

(** A thread that has the lock is not at the end of its pipe, and that of another is not its own. *)
Lemma out_end_ready t s : at_end (p_out s) -> ready t s ->
  ready t (set_out (stop_reading (p_out s)) s) /\ frame t (set_out (stop_reading (p_out s)) s) = frame t s.
Proof.
  intros (Hr & Hh & _) Ht. destruct t as [n|n|code]; cbn [ready] in *; [|done|].
  - destruct Ht as (_ & Hn & Hl). rewrite Hh in Hl. cbn in Hl. lia.
  - destruct Ht as (_ & Ht & _). congruence.
Qed.

Lemma err_end_ready t s : at_end (p_err s) -> ready t s ->
  ready t (set_err (stop_reading (p_err s)) s) /\ frame t (set_err (stop_reading (p_err s)) s) = frame t s.
Proof.
  intros (Hr & Hh & _) Ht. destruct t as [n|n|code]; cbn [ready] in *; [done|..].
  - destruct Ht as (_ & Hn & Hl). rewrite Hh in Hl. cbn in Hl. lia.
  - destruct Ht as (_ & _ & Ht & _). congruence.
Qed.

Lemma thread_step_lock cap s s' : thread_step cap s s' -> lock_ok s -> lock_ok s'.
Proof.
  unfold lock_ok. intros H Hok. destruct H as [s t Hl Ht|s t j k Hl Hg Hk Hj Hf|s t j Hl Hj|s t j Hl Hg Hj|s He|s He]; cbn [lock core]; try done.
  - split; [done|lia].
  - rewrite Hl in Hok. split; [apply Hok|done].
  - destruct (lock s) as [[t j]|]; [|done]. destruct Hok as [Ht Hj], (out_end_ready t _ He Ht) as [? ->]. done.
  - destruct (lock s) as [[t j]|]; [|done]. destruct Hok as [Ht Hj], (err_end_ready t _ He Ht) as [? ->]. done.
Qed.

Lemma runs_lock cap n s s' : runs cap n s s' -> lock_ok s -> lock_ok s'.
Proof.
  induction 1 as [|n s1 s2 s3 _ IH H|n s1 s2 s3 _ IH H|n s1 s2 c _ IH H]; intros Hok; [done|by eapply thread_step_lock, IH| |].
  - specialize (IH Hok). by destruct H.
  - specialize (IH Hok). unfold lock_ok in *. cbn [lock core]. destruct (lock s2) as [[t j]|]; [|done].
    destruct IH as [Ht Hj], (child_step_ready t _ _ H Ht) as [? ->]. done.
Qed.

Lemma runs_core tty cap n s s' : runs cap n s s' -> lock_ok s -> core_run tty s -> core_run tty s'.
Proof.
  intros Hr Hok Hc. induction Hr as [|n s1 s2 s3 Hr IH H|n s1 s2 s3 Hr IH H|n s1 s2 c Hr IH H]; [done|..]; specialize (IH Hok Hc).
  - eapply thread_step_core; [by eapply runs_lock|done..].
  - destruct IH as [?|(n' & r & Hr' & Hg & Ho & Hz)]; [left; by destruct H|right; exists n', r; destruct H; congruence].
  - destruct IH as [(n' & Hr' & Ho & Ha)|(n' & r & Hr' & Hg & Ho & Hz)]; cbn [core gone lock] in *.
    + left. exists n'. cbn [core]. rewrite (child_step_down _ _ H). split; [done|]. split; [by eapply Outputs_child|].
      intros r. eapply Outputs_child; [apply Ha|by apply limit_child].
    + right. exists n', r. cbn [core gone lock]. rewrite (child_step_down _ _ H). split; [done|]. split; [done|]. split; [by eapply Outputs_child|done].
Qed.

(** Without the lock. *)
Definition rest (s : outbound) : nat :=
  8 * (length (held (p_out s)) + length (held (p_err s))) + Nat.b2n (reading (p_out s)) + Nat.b2n (reading (p_err s))
  + 11 * Nat.b2n (negb (finished s)).

Lemma perform_rest t s : ready t s -> (rest (perform t s) + (2 + length (frame t s)) <= rest s)%nat.
Proof.
  intros H. rewrite (frame_length t s H). destruct t as [n|n|code]; cbn [perform]; unfold forward_out, forward_err, guest_exit, forward;
    destruct (send_frame _ _ _) as [ok w]; unfold rest; cbn [ready p_out p_err finished held reading] in *.
  - destruct H as (-> & Hn & Hl). rewrite length_drop. destruct ok; cbn; lia.
  - destruct H as (-> & Hn & Hl). rewrite length_drop. destruct ok; cbn; lia.
  - destruct H as (-> & _). cbn. lia.
Qed.

Lemma perform_over t s : child_over s -> child_over (perform t s).
Proof. destruct t; cbn [perform]; unfold forward_out, forward_err, guest_exit, forward; by destruct (send_frame _ _ _). Qed.

Lemma thread_step_work cap s s' : thread_step cap s s' -> lock_ok s -> child_over (core s) ->
  child_over (core s') /\ (work s' < work s)%nat.
Proof.
  intros H Hok Hc. unfold work. fold (rest (core s)). fold (rest (core s')).
  assert (Hown : forall t j, lock s = Some (t, j) -> (1 + j < rest (core s))%nat).
  { unfold lock_ok in Hok. intros t j Hl. rewrite Hl in Hok. destruct Hok as [Ht Hj]. pose proof (perform_rest t _ Ht). lia. }
  unfold lock_ok in Hok. destruct H as [s t Hl Ht|s t j k Hl Hg Hk Hj Hf|s t j Hl Hj|s t j Hl Hg Hj|s He|s He]; cbn [core lock] in *; rewrite ?Hl in *.
  - split; [done|]. pose proof (perform_rest t _ Ht). lia.
  - split; [done|]. destruct Hok as [Ht _]. pose proof (perform_rest t _ Ht). lia.
  - split; [by apply perform_over|]. destruct Hok as [Ht _]. pose proof (perform_rest t _ Ht). lia.
  - split; [by apply perform_over|]. destruct Hok as [Ht _]. assert (Ht' : ready t (limit (Some j) (core s))) by by destruct t.
    pose proof (perform_rest t _ Ht'). change (rest (limit (Some j) (core s))) with (rest (core s)) in *.
    assert (frame t (limit (Some j) (core s)) = frame t (core s)) as Hf by by destruct t. rewrite Hf in *. lia.
  - split; [done|]. unfold rest in *. cbn. destruct He as (Hr & _). rewrite Hr in *. destruct (lock s) as [[t j]|]; [specialize (Hown t j eq_refl)|]; cbn in *; lia.
  - split; [done|]. unfold rest in *. cbn. destruct He as (Hr & _). rewrite Hr in *. destruct (lock s) as [[t j]|]; [specialize (Hown t j eq_refl)|]; cbn in *; lia.
Qed.

Lemma child_step_work s c : child_step (core s) c -> child_over (core s) ->
  child_over c /\ work (mkSession c (lock s) (taken s) (gone s)) = work s.
Proof. intros H (Hc & Hw & Hw'). destruct s as [k l t g]. cbn in *. destruct H; try congruence; try done. Qed.

Lemma runs_work cap n s s' : runs cap n s s' -> lock_ok s -> child_over (core s) -> child_over (core s') /\ (n + work s' <= work s)%nat.
Proof.
  intros Hr Hok Hc. induction Hr as [|n s1 s2 s3 Hr IH H|n s1 s2 s3 Hr IH H|n s1 s2 c Hr IH H]; [done|..]; destruct (IH Hok Hc) as [Hc2 Hw].
  - destruct (thread_step_work cap _ _ H (runs_lock _ _ _ _ Hr Hok) Hc2). split; [done|lia].
  - by destruct H.
  - destruct (child_step_work _ _ H Hc2) as [? ->]. done.
Qed.

(** ** Somebody can go on *)

Lemma perform_written t s : (length (written (down (perform t s))) <= length (written (down s)) + length (frame t s))%nat.
Proof. rewrite perform_down. destruct (room (down s)); cbn [written]; rewrite length_app, ?length_take; lia. Qed.

Lemma thread_step_flight cap s s' : thread_step cap s s' -> (in_flight s <= cap)%nat -> (in_flight s' <= cap)%nat.
Proof.
  intros H. unfold in_flight. destruct H as [s t Hl Ht|s t j k Hl Hg Hk Hj Hf|s t j Hl Hj|s t j Hl Hg Hj|s He|s He]; cbn [core lock taken]; rewrite ?Hl; try done.
  - unfold in_flight in Hf. rewrite Hl in Hf. lia.
  - pose proof (perform_written t (core s)). lia.
  - rewrite perform_down. cbn [room limit down written]. rewrite length_app, length_take. lia.
Qed.

Lemma runs_flight cap n s s' : runs cap n s s' -> (in_flight s <= cap)%nat -> (in_flight s' <= cap)%nat.
Proof.
  induction 1 as [|n s1 s2 s3 _ IH H|n s1 s2 s3 _ IH H|n s1 s2 c _ IH H]; intros Hf; [done|by eapply thread_step_flight, IH| |]; specialize (IH Hf).
  - destruct H; unfold in_flight in *; cbn [core lock taken]; lia.
  - unfold in_flight in *. cbn [core lock taken]. by rewrite (child_step_down _ _ H).
Qed.

(** The writer waits for the host: the connection is full, the host is there, and as soon as it reads or goes away a thread
    can go on. *)
Definition waits_for_host (cap : nat) (s : session) : Prop :=
  in_flight s = cap /\ gone s = false /\ (exists s', host_step s s') /\ forall s', host_step s s' -> exists s'', thread_step cap s' s''.

Lemma lock_free_progress cap s : lock s = None -> child_over (core s) -> finished (core s) = false -> exists s', thread_step cap s s'.
Proof.
  intros Hl ((code & Hc) & Hw & Hw') Hf.
  assert (Hp : forall p, writers p = false -> reading p = false \/ at_end p \/ can_read 1 p).
  { intros p Hp. destruct (reading p) eqn:Hr; [|by left]. destruct (held p) eqn:Hh; [by right; left|].
    right; right. repeat split; [done|lia|unfold BUF; lia|rewrite Hh; cbn; lia]. }
  destruct (Hp (p_out (core s)) Hw) as [Ho|[?|?]]; [|eexists; by apply Out_ends|eexists; eapply (Locks cap s (Out_turn 1%nat)); [exact Hl|eassumption]].
  destruct (Hp (p_err (core s)) Hw') as [He|[?|?]]; [|eexists; by apply Err_ends|eexists; eapply (Locks cap s (Err_turn 1%nat)); [exact Hl|eassumption]].
  eexists. by eapply (Locks cap s (Exit_turn code)).
Qed.

Lemma session_progress cap s : (0 < cap)%nat -> (in_flight s <= cap)%nat -> lock_ok s -> child_over (core s) ->
  finished (core s) = true \/ (exists s', thread_step cap s s') \/ waits_for_host cap s.
Proof.
  intros Hcap Hf Hok Hc. destruct (finished (core s)) eqn:Hfin; [by left|right]. unfold lock_ok in Hok.
  destruct (lock s) as [[t j]|] eqn:Hl; [|left; by apply lock_free_progress]. destruct Hok as [Ht Hj].
  destruct (decide (j = length (frame t (core s)))) as [Hd|Hd]; [left; eexists; by eapply Unlocks|].
  assert (Hlt : (j < length (frame t (core s)))%nat) by lia. destruct (gone s) eqn:Hg; [left; eexists; by eapply Fails|].
  destruct (decide (in_flight s = cap)) as [He|He]; [right|left; eexists; eapply (Writes cap s t j 1); [done..|lia|lia|lia]].
  split; [done|]. split; [done|]. split; [eexists; by apply Host_leaves|]. intros s' H. destruct H as [s m _ Hm|s _].
  - eexists. eapply (Writes cap _ t j 1); cbn [core lock gone]; [done..|lia|lia|]. unfold in_flight in *. cbn [core lock taken]. rewrite Hl in *. lia.
  - eexists. by eapply (Fails cap _ t j).
Qed.

(** * Property *)

(** C5: a session ends, with a connection that holds [cap] bytes and writes that wait with the lock of the writer in hand.
    What has been sent is at every time what the rounds of [ExecSession] send on a connection that breaks where this one
    did.  Once the child is over and nobody has its outputs open, the guest's threads make at most [work] more steps,
    however they take turns; and until the exit frame was sent or failed and the handler is over, one of them can go on, or
    the connection is full and they wait for the host: then one can go on as soon as the host reads something or goes
    away. *)
Theorem exec_ends cap tty k s m s' :
  (0 < cap)%nat -> runs cap k (start_session tty) s -> child_over (core s) -> runs cap m s s' ->
  (exists n room, outputs n (start_out tty room) (core s')) /\
  (m + work s' <= work s)%nat /\
  (finished (core s') = true \/ (exists s'', thread_step cap s' s'') \/ waits_for_host cap s').
Proof.
  intros Hcap Hk Hc Hm. assert (Hok : lock_ok s) by by eapply runs_lock. assert (Hf : (in_flight s <= cap)%nat) by (eapply runs_flight; [done|cbn; lia]).
  split; [|split].
  - destruct (runs_core tty cap _ _ _ Hm Hok) as [(n & _ & H & _)|(n & r & _ & _ & H & _)]; eauto. by eapply runs_core; [..|apply core_run_start].
  - by apply (runs_work cap m s s').
  - apply session_progress; [done|by eapply runs_flight|by eapply runs_lock|by apply (runs_work cap m s s')].
Qed.

(** ** A concrete session *)

(** A child writes a line feed, closes its outputs and exits with 0. *)
Definition late : session :=
  let s := set_out (put [10] (p_out (start_out false None))) (start_out false None) in
  let s := set_out (close (p_out s)) s in
  let s := set_err (close (p_err s)) s in
  mkSession (mkOutbound (p_out s) (p_err s) (Some 0) (down s) (finished s)) None 0 false.

Lemma child_goes cap c c' s : runs cap 0 s (mkSession c None 0 false) -> child_step c c' -> runs cap 0 s (mkSession c' None 0 false).
Proof. intros H Hc. exact (Runs_child cap 0 s _ c' H Hc). Qed.

Lemma late_runs cap : runs cap 0 (start_session false) late.
Proof.
  unfold late. set (s := set_err _ _). apply (child_goes cap s); [|by apply Child_exits]. unfold s.
  eapply child_goes; [|apply Closes_err]. eapply child_goes; [|apply Closes_out].
  eapply child_goes; [apply Runs_refl|by apply Writes_out].
Qed.

(** The thread of the errors ends, that of the output takes the lock and writes three bytes of its frame of six: on a
    connection that holds three bytes it waits for the host. *)
Definition full : session :=
  mkSession (set_err (stop_reading (p_err (core late))) (core late)) (Some (Out_turn 1, 3%nat)) 0 false.

Lemma full_runs : runs 3 3 late full.
Proof.
  set (c := set_err (stop_reading (p_err (core late))) (core late)).
  assert (H1 : thread_step 3 late (mkSession c None 0 false)) by by apply Err_ends.
  assert (H2 : thread_step 3 (mkSession c None 0 false) (mkSession c (Some (Out_turn 1, 0%nat)) 0 false)).
  { apply (Locks 3 (mkSession c None 0 false)); [done|]. repeat split; cbn; unfold BUF; lia. }
  assert (H3 : thread_step 3 (mkSession c (Some (Out_turn 1, 0%nat)) 0 false) full).
  { apply (Writes 3 (mkSession c (Some (Out_turn 1, 0%nat)) 0 false) _ 0 3); cbn; lia || done. }
  eauto using runs.
Qed.

Lemma exec_ends_witness :
  runs 3 0 (start_session false) late /\ child_over (core late) /\ runs 3 3 late full /\
  (3 + work full <= work late)%nat /\
  (finished (core full) = true \/ (exists s'', thread_step 3 full s'') \/ waits_for_host 3 full).
Proof.
  assert (Hc : child_over (core late)) by (repeat split; by eexists).
  split; [apply late_runs|]. split; [exact Hc|]. split; [apply full_runs|].
  destruct (exec_ends 3 false 0 late 3 full ltac:(lia) (late_runs 3) Hc full_runs) as (_ & H1 & H2). split; [exact H1|exact H2].
Defined.

(** While the host does not read, no thread can go on. *)
Example full_waits s : ~ thread_step 3 full s.
Proof.
  intros H. inversion H as [? t Hl|? t j k Hl Hg Hk Hj Hf|? t j Hl Hj|? t j Hl Hg|? He|? He]; clear H; try discriminate.
  - unfold in_flight in Hf. cbn in Hf. lia.
  - assert (t = Out_turn 1 /\ j = 3%nat) as [-> ->] by (cbn in Hl; split; congruence). by vm_compute in Hj.
  - destruct He as (_ & He & _). discriminate.
  - destruct He as (He & _). discriminate.
Qed.
