(* ===== verification/HostClient.v ===== *)
(** The commands of the host program that talk to the guest ([pelagos-mac/src/main.rs]): the request,
    the loops that read the reply, what they show and the exit code they give; the handshake of exec
    sessions.  The two ends are put together here. *)

From S2P Require Import Prelude RustStd Paths Json GuestProto GuestServer Wire.

#[local] Open Scope Z_scope.

(** * The terminal *)

(** What a command showed on its standard output and standard error. *)
Record screen := mkScreen { shown : str; shown_err : str }.

Definition show (k : StreamKind) (data : str) (s : screen) : screen :=
  match k with
  | GuestProto.Stdout => mkScreen (shown s ++ data) (shown_err s)
  | GuestProto.Stderr => mkScreen (shown s) (shown_err s ++ data)
  end.

Definition blank : screen := mkScreen [] [].

Section Client.
Context {J : Json}.
(** The JSON form of a response, validity of UTF-8, and pretty printing of a JSON value. *)
Context (parse_response : str -> option GuestResponse) (utf8 : str -> bool) (pretty : Json.Value -> str).

(** [read_line] and [trim_end]: the next line of the connection ([None] at its end or when it is not
    UTF-8), and what is left. *)
Definition next_line (s : str) : option str * str :=
  match s with
  | [] => (None, [])
  | _ => let '(l, rest) := take_line s in (if utf8 l then Some (trim_end l) else None, rest)
  end.

(** * Loops over the reply

    A loop has fuel for one line per round; the input has a byte for each. *)

(** The loop [passthrough_command], [build_command] and [cp_to_command] share. *)
Fixpoint relay_reply (fuel : nat) (s : str) (scr : screen) : Z * screen :=
  match fuel with
  | O => (1, scr)
  | S fuel =>
      match next_line s with
      | (None, _) => (1, scr)
      | (Some [], rest) => relay_reply fuel rest scr
      | (Some line, rest) =>
          match parse_response line with
          | Some (Stream k data) => relay_reply fuel rest (show k data scr)
          | Some (Exit exit) => (exit, scr)
          | Some (Error _) => (1, scr)
          | Some _ => relay_reply fuel rest scr
          | None => (1, scr)
          end
      end
  end.

(** [passthrough_command]: [sent] is whether the request could be written, [s] what the guest sends. *)
Definition passthrough_command (sent : bool) (s : str) : Z * screen :=
  if sent then relay_reply (S (length s)) s blank else (1, blank).

(** The loop of [inspect_image_command]: the exit code, or [None] for an early return of 1; and the
    standard output so far. *)
Fixpoint collect_reply (fuel : nat) (s : str) (buf : str) (scr : screen) : option Z * str * screen :=
  match fuel with
  | O => (Some 1, buf, scr)
  | S fuel =>
      match next_line s with
      | (None, _) => (Some 1, buf, scr)
      | (Some [], rest) => collect_reply fuel rest buf scr
      | (Some line, rest) =>
          match parse_response line with
          | Some (Stream GuestProto.Stderr data) => collect_reply fuel rest buf (show GuestProto.Stderr data scr)
          | Some (Stream GuestProto.Stdout data) => collect_reply fuel rest (buf ++ data) scr
          | Some (Exit exit) => (Some exit, buf, scr)
          | Some (Error _) => (None, buf, scr)
          | Some _ => collect_reply fuel rest buf scr
          | None => (None, buf, scr)
          end
      end
  end.

Definition find_image (reference : str) (images : list Json.Value) : option Json.Value :=
  List.find (fun img => bool_decide (and_then (get #"reference" img) as_str = Some reference)) images.

Definition inspect_image_command (sent : bool) (reference : str) (s : str) : Z * screen :=
  if negb sent then (1, blank)
  else
    let '(exit_code, stdout_buf, scr) := collect_reply (S (length s)) s [] blank in
    match exit_code with
    | None => (1, scr)
    | Some exit_code =>
        if negb (exit_code =? 0) then (exit_code, scr)
        else
          match and_then (from_str stdout_buf) as_array with
          | None => (1, scr)
          | Some images =>
              match find_image reference images with
              | Some img => (0, show GuestProto.Stdout (pretty img ++ [NL]) scr)
              | None => (1, show GuestProto.Stderr (#"Error: image not found: " ++ reference ++ [NL]) scr)
              end
          end
    end.

(** The first line of the reply. *)
Definition first_response (s : str) : option GuestResponse :=
  match next_line s with (Some line, _) => parse_response line | (None, _) => None end.

Definition ping_command (sent : bool) (s : str) : Z * screen :=
  if negb sent then (1, blank)
  else match first_response s with
       | Some (Pong true) => (0, show GuestProto.Stdout (#"pong" ++ [NL]) blank)
       | _ => (1, blank)
       end.

Definition kubernetes_status_command (sent : bool) (s : str) : Z * screen :=
  if negb sent then (1, blank)
  else match first_response s with
       | Some (KubernetesState running) =>
           (0, show GuestProto.Stdout ((if running then #"running" else #"stopped") ++ [NL]) blank)
       | _ => (1, blank)
       end.

Definition version_command (sent : bool) (s : str) : screen :=
  if negb sent then blank
  else match first_response s with
       | Some (VersionInfo guest runtime kernel) =>
           let line k v := k ++ v ++ [NL] in
           show GuestProto.Stdout
             (line #"pelagos-guest  " guest
              ++ match runtime with Some v => line #"pelagos        " v | None => [] end
              ++ match kernel with Some k => line #"kernel         " k | None => [] end) blank
       | _ => blank
       end.

(** [subscribe_command]: the lines are forwarded as they are. *)
Fixpoint forward_lines (fuel : nat) (s : str) : str :=
  match fuel with
  | O => []
  | S fuel =>
      match s with
      | [] => []
      | _ => let '(l, rest) := take_line s in if utf8 l then l ++ forward_lines fuel rest else []
      end
  end.
Definition subscribe_command (sent : bool) (s : str) : screen :=
  if sent then show GuestProto.Stdout (forward_lines (S (length s)) s) blank else blank.

(** * Exec sessions *)

(** The handshake of [exec_command]: [None] is a failure, otherwise the rest of the connection, which
    is in frames. *)
Fixpoint wait_ready (fuel : nat) (s : str) (scr : screen) : option str * screen :=
  match fuel with
  | O => (None, scr)
  | S fuel =>
      match next_line s with
      | (None, _) => (None, scr)
      | (Some [], rest) => wait_ready fuel rest scr
      | (Some line, rest) =>
          match parse_response line with
          | Some (Ready true) => (Some rest, scr)
          | Some (Error _) => (None, scr)
          | Some (Stream k data) => wait_ready fuel rest (show k data scr)
          | Some _ => wait_ready fuel rest scr
          | None => (None, scr)
          end
      end
  end.

Definition to_bytes (s : str) : list Z := map byte_of s.

(** [exec_command]: the exit code, what the handshake showed, and what the frames wrote. *)
Definition exec_command (sent : bool) (s : str) (ending : io_error) : Z * screen * list chunk :=
  if negb sent then (1, blank, [])
  else match wait_ready (S (length s)) s blank with
       | (None, scr) => (1, scr, [])
       | (Some rest, scr) =>
           match run_guest_frames (Reader (to_bytes rest) ending) with
           | Some (code, out, _) => (code, scr, out)
           | None => (1, scr, [])
           end
       end.

(** * Copying out of a container *)

(** The loop of [cp_from_command]: the exit code and the payloads extracted.  [extract] is whether
    [tar] takes a payload. *)
Fixpoint cp_from_reply (fuel : nat) (extract : str -> bool) (s : str) (got : list str) : Z * list str :=
  match fuel with
  | O => (1, got)
  | S fuel =>
      match next_line s with
      | (None, _) => (1, got)
      | (Some [], rest) => cp_from_reply fuel extract rest got
      | (Some line, rest) =>
          match parse_response line with
          | Some (RawBytes size) =>
              if extract (take size rest) then cp_from_reply fuel extract (drop size rest) (got ++ [take size rest])
              else (1, got)
          | Some (Error _) => (1, got)
          | Some (Exit exit) => (exit, got)
          | Some _ => cp_from_reply fuel extract rest got
          | None => (1, got)
          end
      end
  end.
Definition cp_from_command (sent : bool) (extract : str -> bool) (s : str) : Z * list str :=
  if sent then cp_from_reply (S (length s)) extract s [] else (1, []).

(** The directory [tar] extracts into. *)
Definition cp_dst_dir (is_dir : bool) (local_dst : str) : str :=
  if is_dir then local_dst else unwrap_or (parent local_dst) #".".

(** The directory and the name [cp_to_command] archives. *)
Definition cp_src (is_dir : bool) (local_src : str) : str * str :=
  if is_dir then (local_src, #".")
  else (match parent local_src with Some p => if bool_decide (p = []) then #"." else p | None => #"." end,
        unwrap_or (file_name local_src) local_src).
End Client.

(** * Lemmas *)

Lemma take_line_app l rest : NL ∉ l -> take_line (l ++ NL :: rest) = (l ++ [NL], rest).
Proof.
  induction l as [|c l IH]; intros Hl; cbn [app take_line]; [by rewrite decide_True|].
  apply not_elem_of_cons in Hl as [Hc Hl]. rewrite decide_False by congruence. by rewrite IH.
Qed.

Lemma trim_end_line l : tight l -> trim_end (l ++ [NL]) = l.
Proof.
  intros (a & b & t & Ha & Hb & Hl).
  assert (Hnl : forall s, trim_end (s ++ [NL]) = trim_end s) by (intros s; unfold trim_end; by rewrite rev_app_distr).
  rewrite Hnl. destruct Hl as [[-> <-]| ->]; [by apply (trim_end_graph a []) | by apply (trim_end_graph b (a :: t))].
Qed.

Lemma to_bytes_of_bytes l : bytes l -> to_bytes (map of_byte l) = l.
Proof. induction 1 as [|b l Hb Hl IH]; [done|]. unfold to_bytes in *. cbn. by rewrite byte_of_of_byte, IH. Qed.

(** ** Lines that were cut *)

Lemma strip_front_suffix len s : forall k, strip_front len k s `suffix_of` s.
Proof.
  induction s as [|a s IH]; intros k; cbn [strip_front]; [done|].
  destruct k as [|k]; [destruct (len (a :: s)) as [|k]|]; [done|apply suffix_cons_r, IH..].
Qed.

Lemma rev_strip_prefix len s : rev (strip_front len 0 (rev s)) `prefix_of` s.
Proof.
  destruct (strip_front_suffix len (rev s) 0) as [t Ht]. exists (rev t).
  by rewrite <- rev_app_distr, <- Ht, rev_involutive.
Qed.

Lemma take_line_last s : NL ∉ s -> take_line s = (s, []).
Proof.
  induction s as [|a s IH]; [done|]. intros [Ha Hs]%not_elem_of_cons. cbn [take_line].
  rewrite decide_False by congruence. by rewrite IH.
Qed.

Lemma cut_line l rest s : s `prefix_of` l ++ NL :: rest ->
  s `prefix_of` l \/ exists s', s = l ++ NL :: s' /\ s' `prefix_of` rest.
Proof.
  revert s. induction l as [|a l IH]; intros s Hs.
  - destruct s as [|b s]; [by left|]. apply prefix_cons_inv_1 in Hs as Hb. apply prefix_cons_inv_2 in Hs. subst.
    right. by exists s.
  - destruct s as [|b s]; [left; apply prefix_nil|]. cbn in Hs. apply prefix_cons_inv_1 in Hs as Hb.
    apply prefix_cons_inv_2 in Hs. subst b. destruct (IH s Hs) as [Hp|(s' & -> & Hp)].
    + left. by apply prefix_cons.
    + right. by exists s'.
Qed.

Lemma prefix_not_in {A} (x : A) l s : x ∉ l -> s `prefix_of` l -> x ∉ s.
Proof. intros Hl [t ->] Hs. apply Hl, elem_of_app. by left. Qed.

Section Wire.
Context (render : GuestResponse -> str) (parse_response : str -> option GuestResponse) (utf8 : str -> bool).
(** The JSON form of a response is one line that begins and ends with a brace; that of a response which is [fine], with
    numbers and strings of its types, is UTF-8 and read back. *)
Context (fine : GuestResponse -> Prop).
Context (parse_render : forall r, fine r -> parse_response (render r) = Some r).
Context (render_line : forall r, NL ∉ render r) (render_tight : forall r, tight (render r)).
Context (render_utf8 : forall r, fine r -> utf8 (render r ++ [NL]) = true).

(** Responses as they are sent. *)
Definition wire (rs : list GuestResponse) : str := concat (map (fun r => render r ++ [NL]) rs).

Lemma wire_app a b : wire (a ++ b) = wire a ++ wire b.
Proof. unfold wire. by rewrite map_app, concat_app. Qed.

Lemma render_not_nil r : render r <> [].
Proof. destruct (render_tight r) as (a & b & t & _ & _ & [[-> _]| ->]); discriminate. Qed.

Lemma next_line_wire r rest : fine r -> next_line utf8 (render r ++ NL :: rest) = (Some (render r), rest).
Proof.
  intros Hr. pose proof (take_line_app (render r) rest (render_line r)) as Ht. unfold next_line.
  destruct (render r ++ NL :: rest) as [|c s] eqn:E; [by destruct (render r)|].
  rewrite Ht, render_utf8 by done. by rewrite trim_end_line.
Qed.

Lemma wire_length rs : (length rs <= length (wire rs))%nat.
Proof.
  induction rs as [|r rs IH]; [done|]. change (wire (r :: rs)) with ((render r ++ [NL]) ++ wire rs).
  rewrite !length_app. cbn. lia.
Qed.

(** A round of a loop that has [render r] as its line. *)
Ltac one_line :=
  match goal with
  | |- context [next_line _ (wire (?r :: ?rs) ++ ?rest)] =>
      change (wire (r :: rs) ++ rest) with (((render r ++ [NL]) ++ wire rs) ++ rest);
      rewrite <- !app_assoc; cbn [app]; rewrite next_line_wire by done;
      let E := fresh in destruct (render r) eqn:E; [by destruct (render_not_nil r)|];
      rewrite <- E, parse_render by done
  end.

Definition shows (ps : list GuestResponse) (scr : screen) : screen :=
  mkScreen (shown scr ++ data_of GuestProto.Stdout ps) (shown_err scr ++ data_of GuestProto.Stderr ps).

Lemma shows_cons p ps scr :
  shows (p :: ps) scr = shows ps (match p with Stream k d => show k d scr | _ => scr end).
Proof. unfold shows, data_of. destruct p as [[|] d| | | | | | |]; cbn; by rewrite ?app_assoc. Qed.

(** * Properties *)

(** An exec session, from the handshake to the exit frame.  After any progress messages and the ready
    message, the rest of the connection is read as frames from its first byte on: the client shows the
    progress, writes exactly the payloads of the output frames in order, and gives the [i32] exit
    code. *)
Theorem exec_session ps cs code ending :
  pending ps -> Forall fine (ps ++ [Ready true]) -> Forall (fun c => fits (chunk_data c)) cs -> Forall (fun c => bytes (chunk_data c)) cs ->
  -2147483648 <= code < 2147483648 ->
  exec_command parse_response utf8 true
    (wire (ps ++ [Ready true])
     ++ map of_byte (flat_map chunk_frame cs ++ encode FRAME_EXIT (exit_payload code))) ending
  = (code, mkScreen (data_of GuestProto.Stdout ps) (data_of GuestProto.Stderr ps), cs).
Proof.
  intros Hp Hfine Hf Hb Hc. unfold exec_command. cbn [negb]. apply Forall_app in Hfine as [Hps Hready'%Forall_inv].
  set (frames := flat_map chunk_frame cs ++ encode FRAME_EXIT (exit_payload code)).
  assert (Hframes : bytes frames).
  { assert (Henc : forall t d, is_u8 t -> bytes d -> bytes (encode t d)).
    { intros t d Ht Hd. apply bytes_cons; [done|]. apply bytes_app; [apply to_be32_bytes|done]. }
    apply bytes_app.
    - clear -Hb Henc. induction Hb as [|x l Hx Hl IH]; [apply bytes_nil|]. cbn [flat_map]. apply bytes_app; [|done].
      destruct x; apply Henc; done.
    - apply Henc; [done | apply to_be32_bytes]. }
  assert (Hready : forall qs fuel scr, pending qs -> Forall fine qs -> (length qs < fuel)%nat ->
    wait_ready parse_response utf8 fuel (wire (qs ++ [Ready true]) ++ map of_byte frames) scr
    = (Some (map of_byte frames), shows qs scr)).
  { clear -parse_render render_line render_tight render_utf8 Hready'. induction qs as [|q qs IH]; intros fuel scr Hq Hqf Hl.
    - destruct fuel as [|fuel]; [lia|]. cbn [wait_ready app]. one_line. unfold shows. cbn. rewrite !app_nil_r.
      by destruct scr.
    - apply Forall_cons in Hq as [Hq Hqs]. apply Forall_cons in Hqf as [Hqf Hqsf]. destruct fuel as [|fuel]; [lia|]. cbn in Hl. cbn [app wait_ready]. one_line.
      rewrite shows_cons, <- IH with (fuel := fuel) by (done || lia). by destruct q. }
  rewrite Hready; [|done|done|].
  - rewrite to_bytes_of_bytes by done. unfold frames.
    pose proof (run_guest_frames_session cs code [] ending Hf Hc) as Hrun. rewrite app_nil_r in Hrun. by rewrite Hrun.
  - rewrite length_app. pose proof (wire_length (ps ++ [Ready true])) as Hl. rewrite length_app in Hl. cbn in Hl. lia.
Qed.

(** A payload is copied out byte for byte.  Whatever bytes the archive has, line breaks and text that
    looks like a response included, the client passes exactly them to [tar] and goes on with the
    response after them; if [tar] fails the exit code is 1. *)
Theorem copied_exactly extract raw exit rest : fine (RawBytes (length raw)) -> fine (Exit exit) ->
  cp_from_command parse_response utf8 true extract (wire [RawBytes (length raw)] ++ raw ++ wire [Exit exit] ++ rest)
  = if extract raw then (exit, [raw]) else (1, []).
Proof.
  intros Hraw Hexit. unfold cp_from_command. set (tail := raw ++ wire [Exit exit] ++ rest).
  assert (Hlen : (1 < length (wire [RawBytes (length raw)] ++ tail))%nat).
  { rewrite length_app. change (wire [RawBytes (length raw)]) with ((render (RawBytes (length raw)) ++ [NL]) ++ []).
    rewrite app_nil_r, length_app. pose proof (render_not_nil (RawBytes (length raw))).
    destruct (render (RawBytes (length raw))); [done|]. cbn. lia. }
  destruct (length (wire [RawBytes (length raw)] ++ tail)) as [|[|n]]; try lia.
  cbn [cp_from_reply]. one_line. change (wire [] ++ tail) with tail. unfold tail.
  rewrite take_app_length, drop_app_length. destruct (extract raw); [|done]. one_line. done.
Qed.
End Wire.

(** * Witnesses *)

Lemma exec_session_witness :
  exec_command of_braces (fun _ => true) true
    (wire to_braces [Stream GuestProto.Stderr #"pulling"; Ready true]
     ++ map of_byte (encode FRAME_STDOUT [104; 105] ++ encode FRAME_EXIT (exit_payload (-1)))) UnexpectedEof
  = (-1, mkScreen [] #"pulling", [Wire.Stdout [104; 105]]).
Proof.
  refine (exec_session to_braces of_braces (fun _ => true) (fun _ => True) (fun r _ => of_to_braces r) to_braces_line to_braces_tight
    (fun _ _ => eq_refl) [Stream GuestProto.Stderr #"pulling"] [Wire.Stdout [104; 105]] (-1) UnexpectedEof _ _ _ _ _).
  - repeat constructor.
  - repeat constructor.
  - repeat constructor.
  - repeat constructor; cbn; lia.
  - lia.
Defined.

Lemma copied_exactly_witness :
  cp_from_command of_braces (fun _ => true) true (fun _ => true)
    (wire to_braces [RawBytes 4] ++ (#"{}" ++ [NL; NL]) ++ wire to_braces [Exit 0] ++ []) = (0, [ #"{}" ++ [NL; NL]]).
Proof.
  exact (copied_exactly to_braces of_braces (fun _ => true) (fun _ => True) (fun r _ => of_to_braces r) to_braces_line to_braces_tight
    (fun _ _ => eq_refl) (fun _ => true) (#"{}" ++ [NL; NL]) 0 [] I I).
Defined.

(** A destination without a directory gives [tar] an empty directory name. *)
Example cp_dst_bare : cp_dst_dir false #"out.txt" = [].
Proof. vm_compute. reflexivity. Qed.
