(* ===== verification/Watcher.v ===== *)
(** The subscription of the daemon to the guest's container events (pelagos-mac/src/daemon.rs:
    [subscription_watcher_loop]), from the events the guest writes to the ports that are released. *)

From S2P Require Import Prelude RustStd JsonText GuestProto PortDaemon Protocol HostClient.
From S2P Require GuestEvents.

#[local] Open Scope Z_scope.

Section Watcher.
Context `{JT : JsonText}.

(** What the loop keeps: its map and the ports. *)
Definition known : Type := gmap str (list str) * PortState.

(** Lines until the connection ends or a line is no UTF-8; empty lines and lines that are no event are passed over. A
    round takes a byte at least. *)
Fixpoint watch_lines (fuel : nat) (s : str) (k : known) : known :=
  match fuel with
  | O => k
  | S fuel =>
      match next_line valid_utf8 s with
      | (None, _) => k
      | (Some [], rest) => watch_lines fuel rest k
      | (Some line, rest) =>
          watch_lines fuel rest (match read decode_watch line with Some e => watch e k.1 k.2 | None => k end)
      end
  end.

(** One connection: the events that arrive as [s]. *)
Definition watch_connection (s : str) (k : known) : known := watch_lines (S (length s)) s k.

(** ** The loop over connections

    The calls of the thread; [Events] is all that arrives on the connection until it ends. Other threads use the ports under
    their lock ([PortDaemon.step]); here they rest. *)
Inductive ev : Type := ConnectVsock | Write (line : str) | Events | Close | Sleep (seconds : Z).
Definition reply (e : ev) : Type := match e with ConnectVsock | Write _ => bool | Events => str | _ => unit end.
#[local] Abbreviation ask e := (call (R := reply) (S := known) e).
#[local] Abbreviation M A := (Sys ev reply known A).

(** Until a connection is made. *)
Fixpoint connect_again (fuel : nat) : M bool :=
  match fuel with
  | O => ret false
  | S fuel => made <- ask ConnectVsock ;; if (made : bool) then ret true else ask (Sleep 2) ;; connect_again fuel
  end.

Fixpoint subscription_watcher_loop (fuel : nat) : M unit :=
  match fuel with
  | O => ret tt
  | S fuel =>
      made <- connect_again (S fuel) ;;
      if negb made then ret tt else
      sent <- ask (Write SUBSCRIBE_LINE) ;;
      if negb (sent : bool) then ask Close ;; ask (Sleep 5) ;; subscription_watcher_loop fuel
      else
        s <- ask Events ;;
        k <- get_st ;;
        put_st (watch_connection s k) ;;
        ask Close ;;
        ask (Sleep 5) ;;
        subscription_watcher_loop fuel
  end.

(** The effect of events. *)
Definition learn (k : known) (e : GuestEvents.GuestEvent) : known := watch (watched e) k.1 k.2.
Definition learn_all (es : list GuestEvents.GuestEvent) (k : known) : known := fold_left learn es k.

(** What the guest writes. *)
Definition event_lines (es : list GuestEvents.GuestEvent) : str := concat (map (fun e => event_text e ++ [NL]) es).

(** * Lemmas *)

(** An event whose numbers and strings are of its types. *)
Definition sendable_event (e : GuestEvents.GuestEvent) : Prop := good_event e /\ jval_utf8 (encode_event e) = true.

Lemma event_utf8 e : sendable_event e -> valid_utf8 (event_text e ++ [NL]) = true.
Proof. intros [_ He]. by apply line_utf8. Qed.

Lemma event_line e : NL ∉ event_text e.
Proof. apply to_string_line. Qed.
Lemma event_tight e : tight (event_text e).
Proof. apply to_string_tight. Qed.

Lemma event_not_nil e : event_text e <> [].
Proof. destruct (event_tight e) as (a & b & t & _ & _ & [[-> _]| ->]); discriminate. Qed.

Lemma watch_lines_nil fuel k : watch_lines fuel [] k = k.
Proof. by destruct fuel. Qed.

Lemma watch_lines_event e rest fuel k : sendable_event e -> watch_lines (S fuel) (event_text e ++ NL :: rest) k = watch_lines fuel rest (learn k e).
Proof.
  intros He. cbn [watch_lines].
  rewrite (next_line_wire (fun _ => event_text e) valid_utf8 (fun _ => sendable_event e) (fun _ => event_line e) (fun _ => event_tight e)
    (fun _ => event_utf8 e) (Ready true)) by done.
  destruct (event_text e) as [|a t] eqn:E; [by destruct (event_not_nil e)|]. rewrite <- E, events_read by apply He. done.
Qed.

(** A last line without its line break counts if it is whole, and is passed over otherwise. *)
Lemma watch_lines_last e q fuel k : good_event e -> q `prefix_of` event_text e ->
  watch_lines fuel q k = k \/ q = event_text e /\ watch_lines fuel q k = learn k e.
Proof.
  intros He Hq. destruct fuel as [|fuel]; [by left|]. destruct q as [|a q]; [by left|]. cbn [watch_lines next_line].
  rewrite take_line_last by (eapply prefix_not_in; [apply event_line|done]). destruct (valid_utf8 (a :: q)); [|by left].
  assert (Ht : trim_end (a :: q) `prefix_of` a :: q) by apply rev_strip_prefix.
  destruct (trim_end (a :: q)) as [|b t] eqn:E; [left; apply watch_lines_nil|]. rewrite !watch_lines_nil.
  destruct (decide (b :: t = event_text e)) as [Heq|Hne].
  - right. split; [by apply (anti_symm prefix); [|rewrite <- Heq]|]. by rewrite Heq, events_read.
  - left. rewrite event_cut with (e := e); [done|done|by etrans|done].
Qed.

Lemma learn_all_cons e es k : learn_all (e :: es) k = learn_all es (learn k e).
Proof. done. Qed.

Lemma watch_lines_prefix es : Forall sendable_event es -> forall fuel s k, s `prefix_of` event_lines es -> (length s < fuel)%nat ->
  exists n, watch_lines fuel s k = learn_all (take n es) k /\ (s = event_lines es -> take n es = es).
Proof.
  induction 1 as [|e es He Hes IH]; intros fuel s k Hs Hf.
  { apply prefix_nil_inv in Hs. subst. exists 0%nat. by rewrite watch_lines_nil. }
  change (event_lines (e :: es)) with ((event_text e ++ [NL]) ++ event_lines es) in *. rewrite <- app_assoc in *.
  destruct (cut_line _ _ _ Hs) as [Hp|(s' & -> & Hp)].
  - apply proj1 in He. assert (Hne : s <> event_text e ++ [NL] ++ event_lines es).
    { intros ->. destruct Hp as [t Ht]. rewrite <- app_assoc in Ht. apply (f_equal length) in Ht. rewrite !length_app in Ht. cbn in Ht. lia. }
    destruct (watch_lines_last e s fuel k He Hp) as [->|[-> ->]]; [exists 0%nat|exists 1%nat]; (split; [done|]); by intros ?%Hne.
  - rewrite length_app in Hf. cbn in Hf. destruct fuel as [|fuel]; [lia|]. rewrite watch_lines_event by done.
    destruct (IH fuel s' (learn k e) Hp ltac:(lia)) as (n & H1 & H2). exists (S n). split; [exact H1|].
    intros Heq. apply app_inv_head in Heq. injection Heq as ->. cbn. by rewrite H2.
Qed.

(** ** What the events say of a container *)

(** The event tells of the container, with its ports. *)
Definition introduces (c : GuestEvents.ContainerSnapshot) (e : GuestEvents.GuestEvent) : Prop :=
  e = GuestEvents.ContainerStarted c \/
  exists cs r, e = GuestEvents.Snapshot cs r /\ c ∈ cs /\ NoDup (map GuestEvents.name cs).

(** The event tells nothing new of the containers named [n], except that one exited. *)
Definition quiet (n : str) (e : GuestEvents.GuestEvent) : Prop :=
  match e with
  | GuestEvents.Snapshot _ _ => False
  | GuestEvents.ContainerStarted c => GuestEvents.name c <> n
  | _ => True
  end.

(** None of the ports is active. *)
Definition released (specs : list str) (p : PortState) : Prop :=
  forall spec f, spec ∈ specs -> parse_port_spec spec = Some f -> active p !! host_port f = None.

Definition tracks (n : str) (specs : list str) (k : known) : Prop := k.1 !! n = Some specs \/ released specs k.2.

Definition release (p : PortState) (spec : str) : PortState :=
  match parse_port_spec spec with Some f => unregister_active (host_port f) p | None => p end.

Lemma unregister_active_lookup hp p q : active (unregister_active hp p) !! q = if decide (q = hp) then None else active p !! q.
Proof.
  unfold unregister_active. destruct (active p !! hp) eqn:E; case_decide; subst; cbn; try done.
  - apply lookup_delete_eq.
  - by apply lookup_delete_ne.
Qed.

Lemma release_none p spec q : active p !! q = None -> active (release p spec) !! q = None.
Proof. intros H. unfold release. destruct (parse_port_spec spec); [|done]. rewrite unregister_active_lookup. by case_decide. Qed.

Lemma release_all_none specs : forall p q, active p !! q = None -> active (fold_left release specs p) !! q = None.
Proof. induction specs as [|spec specs IH]; intros p q H; [done|]. cbn. by apply IH, release_none. Qed.

Lemma release_all specs : forall p, released specs (fold_left release specs p).
Proof.
  induction specs as [|spec specs IH]; intros p s f Hs Hf; [by apply elem_of_nil in Hs|]. cbn.
  apply elem_of_cons in Hs as [->|Hs]; [|by eapply IH]. apply release_all_none. unfold release. rewrite Hf, unregister_active_lookup.
  by rewrite decide_True.
Qed.

(** Events only take ports away, and only an exit does. *)
Lemma learn_none e k q : active k.2 !! q = None -> active (learn k e).2 !! q = None.
Proof.
  intros H. destruct e as [cs r|c|n x|ts]; try done. unfold learn. cbn. destruct (k.1 !! n); [|done]. cbn. by apply release_all_none.
Qed.

Lemma learn_all_none es : forall k q, active k.2 !! q = None -> active (learn_all es k).2 !! q = None.
Proof. induction es as [|e es IH]; intros k q H; [done|]. rewrite learn_all_cons. by apply IH, learn_none. Qed.

Lemma learn_all_taken es : forall k q, active (learn_all es k).2 !! q <> active k.2 !! q -> exists n x, GuestEvents.ContainerExited n x ∈ es.
Proof.
  induction es as [|e es IH]; intros k q H; [done|]. rewrite learn_all_cons in H.
  destruct e as [cs r|c|n x|ts]; [| |by exists n, x; left|]; (destruct (IH _ q H) as (n & x & Hin); exists n, x; by right).
Qed.

Lemma insert_ports_other m n c : c.1 <> n -> insert_ports m c !! n = m !! n.
Proof. intros H. unfold insert_ports. destruct c.2; [done|]. by apply lookup_insert_ne. Qed.

Lemma snapshot_ports cs n : forall m, n ∉ map GuestEvents.name cs -> fold_left insert_ports (map watched_container cs) m !! n = m !! n.
Proof.
  induction cs as [|c cs IH]; intros m H; [done|]. cbn in *. apply not_elem_of_cons in H as [Hc Hcs]. rewrite IH by done.
  by apply insert_ports_other.
Qed.

Lemma introduces_tracks c e k : introduces c e -> GuestEvents.ports c <> [] -> (learn k e).1 !! GuestEvents.name c = Some (GuestEvents.ports c).
Proof.
  intros [->|(cs & r & -> & Hc & Hnd)] Hp; unfold learn; cbn [watched watch fst snd].
  - unfold insert_ports. cbn. destruct (GuestEvents.ports c); [done|]. apply lookup_insert_eq.
  - generalize (∅ : gmap str (list str)). induction cs as [|d cs IH]; intros m; [by apply elem_of_nil in Hc|]. cbn in Hnd. apply NoDup_cons in Hnd as [Hd Hnd].
    cbn [map fold_left]. apply elem_of_cons in Hc as [->|Hc]; [|by apply IH]. rewrite snapshot_ports by done.
    unfold insert_ports. cbn. destruct (GuestEvents.ports d); [done|]. apply lookup_insert_eq.
Qed.

Lemma quiet_tracks n specs e k : quiet n e -> tracks n specs k -> tracks n specs (learn k e).
Proof.
  intros Hq [H|H]; [|right; intros spec f Hs Hf; by eapply learn_none, H].
  destruct e as [cs r|c|n' x|ts]; [done| | |by left].
  - left. unfold learn. cbn. by rewrite insert_ports_other.
  - unfold learn. cbn. destruct (k.1 !! n') as [specs'|] eqn:E; [|by left]. destruct (decide (n' = n)) as [->|Hne].
    + right. assert (specs' = specs) as -> by congruence. apply release_all.
    + left. cbn. by rewrite lookup_delete_ne.
Qed.

Lemma quiet_all_tracks n specs es : Forall (quiet n) es -> forall k, tracks n specs k -> tracks n specs (learn_all es k).
Proof. induction 1 as [|e es He Hes IH]; intros k Hk; [done|]. rewrite learn_all_cons. by apply IH, quiet_tracks. Qed.

Lemma exit_releases n specs x k : tracks n specs k -> released specs (learn k (GuestEvents.ContainerExited n x)).2.
Proof.
  intros [H|H]; [|intros spec f Hs Hf; by eapply learn_none, H]. unfold learn. cbn. rewrite H. apply release_all.
Qed.

Lemma learn_all_app a b k : learn_all (a ++ b) k = learn_all b (learn_all a k).
Proof. apply fold_left_app. Qed.

Lemma container_released c e a b x k : introduces c e -> Forall (quiet (GuestEvents.name c)) b ->
  released (GuestEvents.ports c) (learn_all (a ++ e :: b ++ [GuestEvents.ContainerExited (GuestEvents.name c) x]) k).2.
Proof.
  intros He Hb. destruct (decide (GuestEvents.ports c = [])) as [Hn|Hn].
  { rewrite Hn. intros spec f Hs. by apply elem_of_nil in Hs. }
  rewrite learn_all_app, learn_all_cons, learn_all_app, learn_all_cons. apply exit_releases, quiet_all_tracks; [done|]. left.
  by apply introduces_tracks.
Qed.

(** * Property *)

(** C20: the daemon's ports follow the guest's events.  However the connection cuts what the guest writes, the daemon
    does exactly what an initial part of the events says, all of them when all of it arrives.  When they told of a
    container, by its start or in a snapshot with distinct names, and then of its exit, and in between of nothing else of
    its name (no start and no snapshot), none of the ports it published is active any more after the exit; a port that was not active does not become active, and none
    is taken away unless some container exited. *)
Theorem watcher_follows es s k : Forall sendable_event es -> s `prefix_of` event_lines es ->
  let k' := watch_connection s k in
  exists n, k' = learn_all (take n es) k /\ (s = event_lines es -> take n es = es) /\
    (forall c e a b x, take n es = a ++ e :: b ++ [GuestEvents.ContainerExited (GuestEvents.name c) x] -> introduces c e ->
       Forall (quiet (GuestEvents.name c)) b -> released (GuestEvents.ports c) k'.2) /\
    (forall q, active k.2 !! q = None -> active k'.2 !! q = None) /\
    (forall q, active k'.2 !! q <> active k.2 !! q -> exists m x, GuestEvents.ContainerExited m x ∈ es).
Proof.
  intros Hes Hs k'. destruct (watch_lines_prefix es Hes (S (length s)) s k Hs ltac:(lia)) as (n & Hn & Hall).
  exists n. unfold k', watch_connection. rewrite Hn. split; [done|]. split; [done|]. split; [|split].
  - intros c e a b x -> He Hb. by apply container_released.
  - intros q. apply learn_all_none.
  - intros q Hq. destruct (learn_all_taken _ _ _ Hq) as (m & x & Hin). exists m, x. rewrite <- (take_drop n es). apply elem_of_app. by left.
Qed.

(** Over all connections: what is known and which ports are active is what initial parts of the streams said, one after
    the other; and the guest was sent the request to subscribe, and nothing else. *)
Definition see_written (e : ev) : reply e -> list str := match e with Write line => fun _ => [line] | _ => fun _ => [] end.

Lemma connect_again_silent fuel env k h : exists made h', connect_again fuel env k h = (made, (k, h')) /\
  seen see_written env h' = seen see_written env h.
Proof.
  revert h. induction fuel as [|fuel IH]; intros h; [by exists false, h|]. cbn [connect_again]. unfold bind at 1, call. destruct (env h ConnectVsock).
  - eexists _, _. split; [reflexivity|]. cbn. by rewrite app_nil_r.
  - unfold bind. destruct (IH (Sleep 2 :: ConnectVsock :: h)) as (made & h' & H1 & H2). exists made, h'. split; [exact H1|].
    rewrite H2. cbn. by rewrite !app_nil_r.
Qed.

Theorem subscriptions_follow (env : Env ev reply) :
  (forall h, exists es, Forall sendable_event es /\ env h Events `prefix_of` event_lines es) ->
  forall fuel k h, let '(_, (k', h')) := subscription_watcher_loop fuel env k h in
  (exists es, k' = learn_all es k) /\
  exists n, seen see_written env h' = seen see_written env h ++ repeat (command_text Subscribe ++ [NL]) n.
Proof.
  intros Henv. induction fuel as [|fuel IH]; intros k h; cbn [subscription_watcher_loop].
  { split; [by exists []|]. exists 0%nat. cbn. by rewrite app_nil_r. }
  unfold bind at 1. destruct (connect_again_silent (S fuel) env k h) as (made & h1 & -> & H1). destruct made; cbn [negb].
  2:{ split; [by exists []|]. exists 0%nat. cbn. by rewrite H1, app_nil_r. }
  assert (Hstep : forall k1 h2 x, seen see_written env h2 = seen see_written env h ++ [SUBSCRIBE_LINE] -> (exists es, k1 = learn_all es k) ->
    subscription_watcher_loop fuel env k1 h2 = x -> let '(_, (k', h')) := x in (exists es, k' = learn_all es k) /\
    exists n, seen see_written env h' = seen see_written env h ++ repeat (command_text Subscribe ++ [NL]) n).
  { intros k1 h2 x Hh [es ->] <-. specialize (IH (learn_all es k) h2). destruct (subscription_watcher_loop fuel env _ h2) as [? [k' h']].
    destruct IH as [[es' ->] [n Hn]]. split; [exists (es ++ es'); by rewrite learn_all_app|]. exists (S n).
    rewrite Hn, Hh, <- app_assoc, subscribe_line. done. }
  unfold bind at 1, call at 1. destruct (env h1 (Write SUBSCRIBE_LINE)) eqn:E; cbn [negb].
  - destruct (Henv (Write SUBSCRIBE_LINE :: h1)) as (es & Hes & Hp).
    destruct (watch_lines_prefix es Hes (S (length (env (Write SUBSCRIBE_LINE :: h1) Events))) _ k Hp ltac:(lia)) as (n & Hn & _).
    eapply Hstep; [| |reflexivity]; [cbn; rewrite !app_nil_r, H1; done|]. exists (take n es). exact Hn.
  - eapply Hstep; [| |reflexivity]; [cbn; rewrite !app_nil_r, H1; done|]. by exists [].
Qed.
End Watcher.

(** * Concrete runs *)

Definition web (ports : list str) : GuestEvents.ContainerSnapshot := GuestEvents.mkSnap #"web" #"running" 7 #"/r" #"t" None ports.
Definition published : PortState := snd (handle_daemon_cmd (RegisterPort 8080 80) new_ports).
Definition demo_events : list GuestEvents.GuestEvent :=
  [GuestEvents.Snapshot [] true; GuestEvents.ContainerStarted (web [ #"8080:80"]); GuestEvents.Heartbeat 5;
   GuestEvents.ContainerExited #"web" (Some 0)].

Lemma demo_events_good : Forall sendable_event demo_events.
Proof. repeat constructor; cbn; try done; try (unfold U64_MAX; lia). all: intros; simplify_eq; lia. Qed.

Lemma watcher_follows_witness :
  active (watch_connection (event_lines demo_events) (∅, published)).2 !! 8080 = None /\
  active published !! 8080 = Some 80.
Proof.
  split; [|reflexivity].
  destruct (watcher_follows demo_events (event_lines demo_events) (∅, published) demo_events_good)
    as (n & _ & Hall & Hrel & _); [done|].
  apply (Hrel (web [ #"8080:80"]) (GuestEvents.ContainerStarted (web [ #"8080:80"])) [GuestEvents.Snapshot [] true] [GuestEvents.Heartbeat 5] (Some 0))
    with (spec := #"8080:80") (f := mkForward 8080 80).
  - by rewrite Hall.
  - by left.
  - by repeat constructor.
  - by left.
  - reflexivity.
Defined.

(** A container that exits while the subscription is down keeps its port: the snapshot of the next connection takes the
    container out of the map, and nothing releases the port. *)
Example missed_exit_keeps_port :
  let k := watch_connection (event_lines [GuestEvents.ContainerStarted (web [ #"8080:80"])]) (∅, published) in
  let k := watch_connection (event_lines [GuestEvents.Snapshot [] true]) k in
  k.1 = ∅ /\ active k.2 !! 8080 = Some 80.
Proof. vm_compute. done. Qed.
