(* ===== verification/Clock.v ===== *)
(** The clock the host passes to the guest on the kernel command line ([daemon_args_from_cli] of
    [pelagos-mac/src/main.rs]): the date computed from the number of days since 1970, checked against the
    calendar. *)

From S2P Require Import Prelude RustStd.

#[local] Open Scope Z_scope.

(** * The clock *)

(** Year, month and day of a number of days since 1970-01-01. *)
Definition civil (days_since_epoch : Z) : Z * Z * Z :=
  let z := days_since_epoch + 719468 in
  let era := Z.quot (if 0 <=? z then z else z - 146096) 146097 in
  let doe := z - era * 146097 in
  let yoe := Z.quot (doe - Z.quot doe 1460 + Z.quot doe 36524 - Z.quot doe 146096) 365 in
  let y := yoe + era * 400 in
  let doy := doe - (365 * yoe + Z.quot yoe 4 - Z.quot yoe 100) in
  let mp := Z.quot (5 * doy + 2) 153 in
  let d := doy - Z.quot (153 * mp + 2) 5 + 1 in
  let m := if mp <? 10 then mp + 3 else mp - 9 in
  let y := if m <=? 2 then y + 1 else y in
  (y, m, d).

(** [{:0n}] *)
Definition pad (n : nat) (x : Z) : str := replicate (n - length (dec x)) "0"%char ++ dec x.

Definition clock_utc (now : Z) : str :=
  let '(year, month, day) := civil (now / 86400) in
  pad 4 year ++ #"-" ++ pad 2 month ++ #"-" ++ pad 2 day ++ #"T"
  ++ pad 2 ((now / 3600) mod 24) ++ #":" ++ pad 2 ((now / 60) mod 60) ++ #":" ++ pad 2 (now mod 60).

(** * The calendar *)

(** The next day of the calendar. *)
Definition leap (y : Z) : bool := (y mod 4 =? 0) && (negb (y mod 100 =? 0) || (y mod 400 =? 0)).
Definition days_in (y m : Z) : Z :=
  if m =? 2 then (if leap y then 29 else 28)
  else if (m =? 4) || (m =? 6) || (m =? 9) || (m =? 11) then 30 else 31.
Definition next_day (date : Z * Z * Z) : Z * Z * Z :=
  let '(y, m, d) := date in
  if d <? days_in y m then (y, m, d + 1) else if m <? 12 then (y, m + 1, 1) else (y + 1, 1, 1).

(** Linear arithmetic with division by constants. *)
Ltac div_lia := Z.to_euclidean_division_equations; lia.

(** The date of day [doe] of an era of 400 years that begins in March, and the parts of its computation:
    the year, its first day, and month and day from the day of the year ([true]: of the next year). *)
Definition era_year (doe : Z) : Z := (doe - doe / 1460 + doe / 36524 - doe / 146096) / 365.
Definition year_start (y : Z) : Z := 365 * y + y / 4 - y / 100.
Definition month_day (doy : Z) : bool * Z * Z :=
  let mp := (5 * doy + 2) / 153 in
  let m := if mp <? 10 then mp + 3 else mp - 9 in
  (m <=? 2, m, doy - (153 * mp + 2) / 5 + 1).
Definition in_year (y : Z) (x : bool * Z * Z) : Z * Z * Z :=
  let '(bump, m, d) := x in (if bump : bool then y + 1 else y, m, d).
Definition era_date (doe : Z) : Z * Z * Z := in_year (era_year doe) (month_day (doe - year_start (era_year doe))).

Lemma era_year_mono a b : 0 <= a -> a <= b -> era_year a <= era_year b.
Proof.
  intros Ha Hab. unfold era_year. apply Z.div_le_mono; [lia|].
  assert (E : forall x, x / 146096 = x / 36524 / 4) by (intros x; by rewrite Z.div_div by lia).
  rewrite !E. clear E. replace b with (a + Z.of_nat (Z.to_nat (b - a))) by lia.
  induction (Z.to_nat (b - a)) as [|k IH]; [by rewrite Z.add_0_r|].
  replace (a + Z.of_nat (S k)) with (a + Z.of_nat k + 1) by lia. set (c := a + Z.of_nat k) in *. clearbody c.
  assert (c + 1 - (c + 1) / 1460 >= c - c / 1460) by div_lia.
  assert (c / 36524 <= (c + 1) / 36524) by div_lia. set (q := c / 36524) in *. set (r := (c + 1) / 36524) in *.
  clearbody q r. assert (q - q / 4 <= r - r / 4) by div_lia. lia.
Qed.

Definition years : list Z := map Z.of_nat (seq 0 400).
Lemma in_years y : 0 <= y < 400 -> In y years.
Proof. intros Hy. unfold years. apply in_map_iff. exists (Z.to_nat y). split; [lia|]. apply in_seq. lia. Qed.

(** The year formula is right on the first and the last day of each year, and the leap years are the
    long ones. *)
Definition last_doy (y : Z) : Z := if leap (y + 1) then 365 else 364.
Lemma years_checked : forallb (fun y =>
  (era_year (year_start y) =? y) && (era_year (year_start y + last_doy y) =? y)
  && ((y =? 399) || (year_start (y + 1) =? year_start y + last_doy y + 1))) years = true.
Proof. vm_compute. reflexivity. Qed.

Lemma year_checked y : 0 <= y < 400 ->
  era_year (year_start y) = y /\ era_year (year_start y + last_doy y) = y /\
  (y = 399 \/ year_start (y + 1) = year_start y + last_doy y + 1).
Proof.
  intros Hy%in_years. pose proof (proj1 (forallb_forall _ _) years_checked y Hy) as H. cbn beta in H.
  rewrite !andb_true_iff, orb_true_iff, !Z.eqb_eq in H. tauto.
Qed.

(** Every day of an era is a day of one of its years. *)
Lemma era_split doe : 0 <= doe < 146097 -> exists y, 0 <= y < 400 /\ year_start y <= doe <= year_start y + last_doy y.
Proof.
  intros Hd.
  assert (H : forall n : nat, (n <= 399)%nat -> doe <= year_start (Z.of_nat n) + last_doy (Z.of_nat n) ->
    exists y, 0 <= y < 400 /\ year_start y <= doe <= year_start y + last_doy y).
  { induction n as [|n IH]; intros Hn Hle.
    - exists 0. split; [lia|]. split; [change (year_start 0) with 0; lia | exact Hle].
    - destruct (Z_lt_le_dec doe (year_start (Z.of_nat (S n)))) as [Hlt|Hge]; [|exists (Z.of_nat (S n)); lia].
      apply IH; [lia|]. destruct (year_checked (Z.of_nat n) ltac:(lia)) as (_ & _ & [E|E]); [lia|].
      replace (Z.of_nat (S n)) with (Z.of_nat n + 1) in Hlt by lia. lia. }
  apply (H 399%nat); [lia|]. change (year_start (Z.of_nat 399) + last_doy (Z.of_nat 399)) with 146096. lia.
Qed.

Lemma era_date_year y doy : 0 <= y < 400 -> 0 <= doy <= last_doy y ->
  era_date (year_start y + doy) = in_year y (month_day doy).
Proof.
  intros Hy Hd. destruct (year_checked y Hy) as (H1 & H2 & _).
  assert (H0 : 0 <= year_start y) by (unfold year_start; div_lia).
  assert (E : era_year (year_start y + doy) = y).
  { pose proof (era_year_mono (year_start y) (year_start y + doy) ltac:(lia) ltac:(lia)).
    pose proof (era_year_mono (year_start y + doy) (year_start y + last_doy y) ltac:(lia) ltac:(lia)). lia. }
  unfold era_date. rewrite E. f_equal. f_equal. lia.
Qed.

(** The next day within a year that begins in March, given whether it ends with a leap day. *)
Definition next_in_year (is_leap : bool) (x : bool * Z * Z) : bool * Z * Z :=
  let '(bump, m, d) := x in
  let len := if m =? 2 then (if is_leap then 29 else 28)
             else if (m =? 4) || (m =? 6) || (m =? 9) || (m =? 11) then 30 else 31 in
  if d <? len then (bump, m, d + 1) else if m <? 12 then (bump, m + 1, 1) else (true, 1, 1).

Definition bumped (x : bool * Z * Z) : bool := let '(bump, m, _) := x in eqb bump (m <=? 2).

Lemma months_checked : forallb (fun n =>
  let doy := Z.of_nat n in
  bumped (month_day doy)
  && bool_decide (next_in_year true (month_day doy) = (if doy =? 365 then (true, 3, 1) else month_day (doy + 1)))
  && ((doy =? 365) || bool_decide (next_in_year false (month_day doy) = (if doy =? 364 then (true, 3, 1) else month_day (doy + 1)))))
  (seq 0 366) = true.
Proof. vm_compute. reflexivity. Qed.

Lemma month_checked (is_leap : bool) doy : 0 <= doy <= (if is_leap then 365 else 364) ->
  bumped (month_day doy) = true /\
  next_in_year is_leap (month_day doy)
  = (if doy =? (if is_leap then 365 else 364) then (true, 3, 1) else month_day (doy + 1)).
Proof.
  intros Hd. assert (Hin : In (Z.to_nat doy) (seq 0 366)) by (apply in_seq; destruct is_leap; lia).
  pose proof (proj1 (forallb_forall _ _) months_checked _ Hin) as H. cbv beta zeta in H.
  rewrite Z2Nat.id in H by lia. rewrite !andb_true_iff in H. destruct H as [[H1 H2] H3]. split; [done|].
  destruct is_leap; [by eapply bool_decide_eq_true_1|].
  apply orb_true_iff in H3 as [H3|H3]; [apply Z.eqb_eq in H3; lia | by eapply bool_decide_eq_true_1].
Qed.

Lemma next_day_in_year y x : bumped x = true ->
  next_day (in_year y x) = in_year y (next_in_year (leap (y + 1)) x).
Proof.
  destruct x as [[bump m] d]. unfold bumped. intros Hb%eqb_prop. subst bump.
  unfold next_day, in_year, next_in_year, days_in. destruct (Z.leb_spec m 2); destruct (Z.eqb_spec m 2); try lia;
    repeat (case_goal; try reflexivity); bool_arith.
Qed.

Lemma leap_shift y k : leap (y + 400 * k) = leap y.
Proof.
  unfold leap. replace ((y + 400 * k) mod 4) with (y mod 4) by div_lia.
  replace ((y + 400 * k) mod 100) with (y mod 100) by div_lia. by replace ((y + 400 * k) mod 400) with (y mod 400) by div_lia.
Qed.

Definition shift_years (k : Z) (date : Z * Z * Z) : Z * Z * Z := let '(y, m, d) := date in (y + 400 * k, m, d).

Lemma next_day_shift k date : next_day (shift_years k date) = shift_years k (next_day date).
Proof.
  destruct date as [[y m] d]. unfold next_day, shift_years, days_in. rewrite leap_shift.
  repeat case_goal; refine (f_equal2 pair (f_equal2 pair _ _) _); lia.
Qed.

Lemma civil_era n : 0 <= n ->
  civil n = shift_years ((n + 719468) / 146097) (era_date ((n + 719468) mod 146097)).
Proof.
  intros Hn. unfold civil. destruct (Z.leb_spec 0 (n + 719468)); [|lia].
  rewrite !(Z.quot_div_nonneg (n + 719468)) by lia.
  assert (E : n + 719468 - (n + 719468) / 146097 * 146097 = (n + 719468) mod 146097) by div_lia. rewrite E.
  set (era := (n + 719468) / 146097). set (doe := (n + 719468) mod 146097).
  assert (Hd : 0 <= doe < 146097) by (apply Z.mod_pos_bound; lia).
  destruct (era_split doe Hd) as (y & Hy & Hs). clearbody doe era. clear E.
  rewrite !(Z.quot_div_nonneg doe) by lia. rewrite (Z.quot_div_nonneg (doe - _ + _ - _)) by div_lia.
  change ((doe - doe / 1460 + doe / 36524 - doe / 146096) / 365) with (era_year doe).
  unfold era_date. assert (Ey : era_year doe = y).
  { destruct (year_checked y Hy) as (H1 & H2 & _). assert (0 <= year_start y) by (unfold year_start; div_lia).
    pose proof (era_year_mono (year_start y) doe ltac:(lia) ltac:(lia)).
    pose proof (era_year_mono doe (year_start y + last_doy y) ltac:(lia) ltac:(lia)). lia. }
  rewrite Ey. rewrite !(Z.quot_div_nonneg y) by lia. fold (year_start y).
  assert (0 <= doe - year_start y) by lia. set (doy := doe - year_start y) in *. clearbody doy.
  rewrite !(Z.quot_div_nonneg (5 * doy + 2)) by lia.
  assert (0 <= (5 * doy + 2) / 153) by (apply Z.div_pos; lia). rewrite (Z.quot_div_nonneg (153 * _ + 2)) by lia.
  unfold shift_years, in_year, month_day. repeat case_goal; refine (f_equal2 pair (f_equal2 pair _ _) _); lia.
Qed.

(** C30: the date passed to the guest is the date.  Day 0 is 1 January 1970, and the date computed for each
    further day is the day after in the Gregorian calendar, leap years included, for every number of
    days. *)
Theorem clock_date_correct n :
  0 <= n -> civil 0 = (1970, 1, 1) /\ civil (n + 1) = next_day (civil n).
Proof.
  intros Hn. split; [reflexivity|]. rewrite !civil_era by lia.
  set (z := n + 719468). replace (n + 1 + 719468) with (z + 1) by lia.
  assert (Hz : 0 <= z) by lia. clearbody z. clear Hn n.
  destruct (era_split (z mod 146097)) as (y & Hy & Hs); [by apply Z.mod_pos_bound|].
  set (doy := z mod 146097 - year_start y). assert (Hdoy : 0 <= doy <= last_doy y) by lia.
  replace (z mod 146097) with (year_start y + doy) by lia.
  rewrite era_date_year, next_day_shift, next_day_in_year by (done || by apply (month_checked (leap (y + 1)))).
  rewrite (proj2 (month_checked (leap (y + 1)) doy Hdoy)). fold (last_doy y).
  assert (Hmod : z mod 146097 = year_start y + doy) by lia. clearbody doy.
  assert (Hend : year_start y + last_doy y <= 146096 /\ (y <> 399 -> year_start (y + 1) = year_start y + last_doy y + 1)).
  { destruct (year_checked y Hy) as (_ & _ & [->|E]); [by vm_compute|]. split; [|done].
    destruct (decide (y = 399)) as [->|]; [by vm_compute|].
    assert (year_start (y + 1) <= 146097) by (unfold year_start; div_lia). lia. }
  destruct (Z.eqb_spec doy (last_doy y)) as [E|E].
  - destruct (decide (y = 399)) as [->|Hne].
    + change (last_doy 399) with 365 in E. change (year_start 399) with 145731 in Hmod.
      replace ((z + 1) / 146097) with (z / 146097 + 1) by div_lia. replace ((z + 1) mod 146097) with 0 by div_lia.
      change (era_date 0) with (0, 3, 1). unfold shift_years, in_year. refine (f_equal2 pair (f_equal2 pair _ _) _); lia.
    + destruct Hend as [Hend Hnext]. specialize (Hnext Hne). assert (y + 1 < 400) by lia.
      assert (year_start (y + 1) <= 146096) by (unfold year_start; div_lia).
      replace ((z + 1) / 146097) with (z / 146097) by div_lia.
      replace ((z + 1) mod 146097) with (year_start (y + 1) + 0) by div_lia.
      rewrite era_date_year by (try lia; unfold last_doy; case_goal; lia). reflexivity.
  - replace ((z + 1) / 146097) with (z / 146097) by div_lia.
    replace ((z + 1) mod 146097) with (year_start y + (doy + 1)) by div_lia.
    by rewrite era_date_year by (done || lia).
Qed.

Lemma clock_date_correct_witness : civil (19782 + 1) = next_day (civil 19782) /\ civil 19782 = (2024, 2, 29).
Proof. split; [exact (proj2 (clock_date_correct 19782 ltac:(lia))) | reflexivity]. Defined.

Example clock_utc_example : clock_utc 1709251199 = #"2024-02-29T23:59:59".
Proof. vm_compute. reflexivity. Qed.
