(* ===== verification/HostCli.v ===== *)
(** From the command line to the daemon's arguments and back ([pelagos-mac/src/main.rs],
    [pelagos-mac/src/daemon.rs]): discovery of the virtual machine's files, the shared directories, the
    clock on the kernel command line, and the arguments of the daemon subprocess, which parses them
    again. *)

From S2P Require Import Prelude RustStd Paths VmState PortDaemon Clock.

#[local] Open Scope Z_scope.

(** * What the program sees of the host *)

Record host := mkHost {
  xdg_data_home : option str; home : option str; exe : option str;
  exists_ : str -> bool; unix_secs : Z; profile_cfg : VmProfileConfig }.

(** [pelagos_base] *)
Definition pelagos_base (e : host) : option str :=
  match xdg_data_home e with
  | Some x => Some (path_join x #"pelagos")
  | None => match home e with Some h => Some (path_join h #".local/share/pelagos") | None => None end
  end.

Definition pelagos_volumes_host_path (e : host) (profile : str) : str :=
  path_join
    (match pelagos_base e with
     | Some base => profile_dir base profile
     | None => path_join (unwrap_or (home e) #"/tmp") #".local/share/pelagos"
     end) #"volumes".

(** * Arguments *)

(** The options of the command line that [daemon_args_from_cli] reads. *)
Record Cli := mkCli {
  cli_profile : str; cli_kernel : option str; cli_initrd : option str; cli_disk : option str;
  cli_cmdline : str; cli_memory : option Z; cli_cpus : option Z;
  cli_volumes : list str; cli_ports : list str; cli_extra_disks : list str }.

Record DaemonArgs := mkArgs {
  a_kernel : str; a_initrd : option str; a_disk : str; a_cmdline : str;
  a_memory_mib : Z; a_cpus : Z; a_shares : list VirtiofsShare; a_ports : list PortForward;
  a_profile : str; a_extra_disks : list str }.

(** * Discovery *)

Definition find_exists (e : host) (paths : list str) : option str := List.find (exists_ e) paths.

(** The kernel and the initial file system of the first directory that has a kernel. *)
Fixpoint find_kernel (e : host) (dirs : list str) : option (str * option str) :=
  match dirs with
  | [] => None
  | dir :: dirs =>
      match find_exists e (map (path_join dir) [ #"vmlinuz"; #"ubuntu-vmlinuz"]) with
      | Some kernel => Some (kernel, find_exists e (map (path_join dir) [ #"initramfs.gz"; #"initramfs-custom.gz"]))
      | None => find_kernel e dirs
      end
  end.

(** [discover_vm_artifacts]: kernel, initial file system, disk. *)
Definition discover_vm_artifacts (e : host) : option (str * option str * str) :=
  match exe e with
  | None => None
  | Some binary =>
      match parent binary with
      | None => None
      | Some bin_dir =>
          let kernel_dirs := map (path_join bin_dir) [ #"../share/pelagos-mac"; #"share/pelagos-mac"; #"../../../out"] in
          match find_kernel e kernel_dirs with
          | None => None
          | Some (kernel, initrd) =>
              let disk_dirs := match pelagos_base e with Some b => [b] | None => [] end ++ kernel_dirs in
              match find_exists e (map (fun d => path_join d #"root.img") disk_dirs) with
              | None => None
              | Some disk => Some (kernel, initrd, disk)
              end
          end
      end
  end.

(** * Shares *)

(** The entry [i] of [parse_volumes]; [None]: the program exits with an error. *)
Definition parse_volume (e : host) (i : nat) (spec : str) : option VirtiofsShare :=
  match splitn 3 ":" spec with
  | host_path :: container :: rest =>
      if exists_ e host_path
      then Some (mkShare host_path (#"share" ++ dec (Z.of_nat i)) (bool_decide (rest = [ #"ro"])) container)
      else None
  | _ => None
  end.
Fixpoint parse_volumes_from (e : host) (i : nat) (volumes : list str) : option (list VirtiofsShare) :=
  match volumes with
  | [] => Some []
  | v :: volumes =>
      match parse_volume e i v with
      | None => None
      | Some s => match parse_volumes_from e (S i) volumes with Some l => Some (s :: l) | None => None end
      end
  end.
Definition parse_volumes (e : host) : list str -> option (list VirtiofsShare) := parse_volumes_from e 0.

(** [v.split(':').next()] *)
Definition volume_host (v : str) : str := match split_once ":" v with Some (h, _) => h | None => v end.

Definition under_home (e : host) (v : str) : bool :=
  match home e with
  | None => false
  | Some h => bool_decide (volume_host v = h) || starts_with (h ++ #"/") (volume_host v)
  end.

Definition outside (e : host) (volumes : list str) : list str := List.filter (fun v => negb (under_home e v)) volumes.

Definition home_already_present (e : host) (volumes : list str) : bool :=
  match home e, volumes with
  | Some h, v :: _ => bool_decide (v = h ++ #":")
  | _, _ => false
  end.

Definition build_virtiofs_shares (e : host) (volumes : list str) : option (list VirtiofsShare) :=
  parse_volumes e
    (match volumes with
     | v :: vs => if home_already_present e volumes then v :: outside e vs
                  else match home e with Some h => [h ++ #":"] | None => [] end ++ outside e volumes
     | [] => match home e with Some h => [h ++ #":"] | None => [] end
     end).

(** * Ports *)

Fixpoint parse_ports (ports : list str) : option (list PortForward) :=
  match ports with
  | [] => Some []
  | spec :: ports =>
      match parse_port_spec spec, parse_ports ports with
      | Some p, Some l => Some (p :: l)
      | _, _ => None
      end
  end.

(** * The clock on the kernel command line *)

Definition clocked (e : host) (base_cmdline : str) : str :=
  if contains #"clock.utc=" base_cmdline then base_cmdline
  else base_cmdline ++ #" clock.utc=" ++ clock_utc (unix_secs e).

(** * The daemon's arguments *)

Definition is_none {A} (o : option A) : bool := match o with None => true | Some _ => false end.

Definition volumes_share (e : host) (profile : str) : VirtiofsShare :=
  mkShare (pelagos_volumes_host_path e profile) #"pelagos-volumes" false #"/var/lib/pelagos/volumes".

(** [daemon_args_from_cli]; [None]: the program exits with an error. *)
Definition daemon_args_from_cli (e : host) (cli : Cli) : option DaemonArgs :=
  let cfg := profile_cfg e in
  let discovered :=
    if (is_none (cli_kernel cli) && is_none (kernel cfg)) || (is_none (cli_disk cli) && is_none (disk cfg))
    then discover_vm_artifacts e else None in
  match or_else (or_else (cli_kernel cli) (kernel cfg)) (option_map (fun d => fst (fst d)) discovered) with
  | None => None
  | Some kern =>
      match or_else (or_else (cli_disk cli) (disk cfg)) (option_map snd discovered) with
      | None => None
      | Some dsk =>
          match build_virtiofs_shares e (cli_volumes cli), parse_ports (cli_ports cli) with
          | Some shares, Some ports =>
              Some (mkArgs kern
                (or_else (or_else (cli_initrd cli) (initrd cfg)) (match discovered with Some (_, i, _) => i | None => None end))
                dsk (clocked e (unwrap_or (cmdline cfg) (cli_cmdline cli)))
                (unwrap_or (or_else (cli_memory cli) (memory cfg)) 4096)
                (unwrap_or (or_else (cli_cpus cli) (cpus cfg)) 2)
                (volumes_share e (cli_profile cli) :: shares) ports (cli_profile cli) (cli_extra_disks cli))
          | _, _ => None
          end
      end
  end.

(** A share as a volume option. *)
Definition show_share (s : VirtiofsShare) : str :=
  host_path s ++ #":" ++ container_path s ++ (if read_only s then #":ro" else []).

(** [daemon_subprocess_args] *)
Definition daemon_subprocess_args (a : DaemonArgs) : list str :=
  (if bool_decide (a_profile a = #"default") then [] else [ #"--profile"; a_profile a])
  ++ [ #"--kernel"; a_kernel a; #"--disk"; a_disk a]
  ++ (match a_initrd a with Some i => [ #"--initrd"; i] | None => [] end)
  ++ [ #"--cmdline"; a_cmdline a; #"--memory"; dec (a_memory_mib a); #"--cpus"; dec (a_cpus a)]
  ++ flat_map (fun s => [ #"--volume"; show_share s]) (a_shares a)
  ++ flat_map (fun p => [ #"--port"; show_port_spec p]) (a_ports a)
  ++ flat_map (fun d => [ #"--extra-disk"; d]) (a_extra_disks a)
  ++ [ #"vm-daemon-internal"].

(** [build_cmdline_from_parts] *)
Definition build_cmdline_from_parts (base : str) (shares : list VirtiofsShare) : str :=
  match shares with
  | [] => base
  | _ => base ++ #" virtiofs.tags=" ++ join #"," (map tag shares)
  end.
Definition build_cmdline (a : DaemonArgs) : str := build_cmdline_from_parts (a_cmdline a) (a_shares a).

(** * Compose files and copied paths *)

(** The names in the [(env "NAME")] calls of a compose file, in order. *)
Definition NEEDLE : str := #"(env " ++ [DQ].
Fixpoint env_names (fuel : nat) (search : str) : list str :=
  match fuel with
  | O => []
  | S fuel =>
      match find_sub NEEDLE search with
      | None => []
      | Some start =>
          let search := drop (start + length NEEDLE) search in
          match split_once DQ search with
          | Some (name, rest) => (if bool_decide (name = []) then [] else [name]) ++ env_names fuel rest
          | None => env_names fuel search
          end
      end
  end.

(** [collect_compose_env]: the variables of those names that are set. *)
Definition collect_compose_env (content : option str) (var : str -> option str) : gmap str str :=
  match content with
  | None => ∅
  | Some c => fold_left (fun m name => match var name with Some v => <[name := v]> m | None => m end)
                (env_names (S (length c)) c) ∅
  end.

(** [compose_project_name]; [lower] is [str::to_lowercase]. *)
Definition compose_project_name (lower : str -> str) (file : str) (project_flag : option str) : str :=
  match project_flag with
  | Some p => p
  | None =>
      match match parent file with Some p => file_name p | None => None end with
      | Some n => lower n
      | None => #"default"
      end
  end.

(** [parse_container_path] *)
Definition parse_container_path (s : str) : option (str * str) :=
  if starts_with #"/" s || starts_with #"." s || bool_decide (s = #"-") then None
  else match split_once ":" s with
       | None => None
       | Some (container, path) =>
           if bool_decide (container = []) || bool_decide (path = []) then None else Some (container, path)
       end.

(** * The subprocess's command line *)

(** The value of an option, and of one that can be repeated. *)
Definition values (flag : str) (opts : list (str * str)) : list str :=
  omap (fun fv => if bool_decide (fst fv = flag) then Some (snd fv) else None) opts.
Definition value (flag : str) (opts : list (str * str)) : option str := head (values flag opts).

(** What the options mean to [Cli]: the value on the command line, or of the environment variable the option names, or the
    default. *)
Definition read_options (var : str -> option str) (opts : list (str * str)) : Cli :=
  mkCli (unwrap_or (value #"--profile" opts) #"default") (or_else (value #"--kernel" opts) (var #"PELAGOS_KERNEL"))
    (or_else (value #"--initrd" opts) (var #"PELAGOS_INITRD")) (or_else (value #"--disk" opts) (var #"PELAGOS_DISK"))
    (unwrap_or (or_else (value #"--cmdline" opts) (var #"PELAGOS_CMDLINE")) #"console=hvc0 random.trust_cpu=on")
    (match value #"--memory" opts with Some v => parse_usize v | None => None end)
    (match value #"--cpus" opts with Some v => parse_usize v | None => None end)
    (values #"--volume" opts) (values #"--port" opts) (values #"--extra-disk" opts).

(** The options [daemon_subprocess_args] writes. *)
Definition options (a : DaemonArgs) : list (str * str) :=
  (if bool_decide (a_profile a = #"default") then [] else [(#"--profile", a_profile a)])
  ++ [(#"--kernel", a_kernel a); (#"--disk", a_disk a)]
  ++ (match a_initrd a with Some i => [(#"--initrd", i)] | None => [] end)
  ++ [(#"--cmdline", a_cmdline a); (#"--memory", dec (a_memory_mib a)); (#"--cpus", dec (a_cpus a))]
  ++ map (fun s => (#"--volume", show_share s)) (a_shares a)
  ++ map (fun p => (#"--port", show_port_spec p)) (a_ports a)
  ++ map (fun d => (#"--extra-disk", d)) (a_extra_disks a).

Definition spell (opts : list (str * str)) : list str := flat_map (fun '(f, v) => [f; v]) opts.

(** * Lemmas *)

Lemma subprocess_args_options a : daemon_subprocess_args a = spell (options a) ++ [ #"vm-daemon-internal"].
Proof.
  assert (Hm : forall {A} (f : A -> str) (g : str) l, spell (map (fun x => (g, f x)) l) = flat_map (fun x => [g; f x]) l).
  { intros A f g l. induction l as [|x l IH]; [done|]. unfold spell in *. cbn. by rewrite IH. }
  assert (Ha : forall a b, spell (a ++ b) = spell a ++ spell b) by (intros; apply flat_map_app).
  unfold daemon_subprocess_args, options. rewrite !Ha, !Hm, <- !app_assoc.
  destruct (bool_decide (a_profile a = #"default")), (a_initrd a); reflexivity.
Qed.

Lemma values_app f a b : values f (a ++ b) = values f a ++ values f b.
Proof. apply omap_app. Qed.
Lemma values_map {A} f g (h : A -> str) l :
  values f (map (fun x => (g, h x)) l) = if bool_decide (g = f) then map h l else [].
Proof.
  unfold values. induction l as [|x l IH]; [by case_bool_decide|]. cbn. case_bool_decide; cbn; by rewrite IH.
Qed.

(** Decides the comparisons of literal flags. *)
Ltac decide_flags :=
  repeat match goal with
         | |- context [bool_decide (?x = ?y)] =>
             first [ rewrite (bool_decide_eq_true_2 (x = y)) by reflexivity
                   | rewrite (bool_decide_eq_false_2 (x = y)) by discriminate ]
         end.

Lemma read_options_options var a : read_options var (options a)
  = mkCli (a_profile a) (Some (a_kernel a)) (or_else (a_initrd a) (var #"PELAGOS_INITRD")) (Some (a_disk a)) (a_cmdline a)
      (parse_usize (dec (a_memory_mib a))) (parse_usize (dec (a_cpus a)))
      (map show_share (a_shares a)) (map show_port_spec (a_ports a)) (a_extra_disks a).
Proof.
  unfold read_options, value, options. rewrite !values_app, !values_map, (map_id (a_extra_disks a)).
  case_bool_decide as Hp; destruct (a_initrd a); cbv [values omap list_omap fst snd]; decide_flags;
    cbn [app head unwrap_or or_else]; rewrite ?app_nil_r; by rewrite ?Hp.
Qed.

(** ** Shares *)

Lemma volume_host_app h t : ":"%char ∉ h -> volume_host (h ++ ":"%char :: t) = h.
Proof. intros Hh. unfold volume_host. by rewrite split_once_app. Qed.

(** What a parsed volume was. *)
Lemma parse_volume_inv e i v s : parse_volume e i v = Some s ->
  (":"%char ∉ host_path s) /\ (":"%char ∉ container_path s) /\ exists_ e (host_path s) = true /\
  tag s = #"share" ++ dec (Z.of_nat i) /\ volume_host v = host_path s.
Proof.
  unfold parse_volume, volume_host. cbn [splitn]. destruct (split_once ":" v) as [[hp t]|] eqn:E1; [|done].
  apply split_once_inv in E1 as [-> Hh]. destruct (split_once ":" t) as [[c r]|] eqn:E2.
  - apply split_once_inv in E2 as [-> Hc]. case_goal; [|done]. intros [= <-]. done.
  - case_goal; [|done]. intros [= <-]. split_and!; try done. cbn.
    clear -E2. induction t as [|a t IH]; [apply not_elem_of_nil|]. cbn in E2. case_decide; [done|].
    apply not_elem_of_cons. split; [done|]. apply IH. by destruct (split_once ":" t) as [[]|].
Qed.

(** A share printed as a volume is parsed back. *)
Lemma parse_show_share e i s :
  (":"%char ∉ host_path s) -> (":"%char ∉ container_path s) -> exists_ e (host_path s) = true ->
  tag s = #"share" ++ dec (Z.of_nat i) -> parse_volume e i (show_share s) = Some s.
Proof.
  destruct s as [hp t ro c]. cbn [host_path tag container_path read_only]. intros Hh Hc He ->.
  unfold parse_volume, show_share. cbn [host_path tag container_path read_only splitn].
  change #":" with [":"%char]. cbn [app]. rewrite split_once_app by done. destruct ro.
  - change #":ro" with (":"%char :: #"ro"). rewrite split_once_app by done. by rewrite He.
  - rewrite app_nil_r, split_once_none by done. by rewrite He.
Qed.

Lemma parse_volumes_round e e' vs : (forall p, exists_ e' p = exists_ e p) -> forall i l,
  parse_volumes_from e i vs = Some l -> parse_volumes_from e' i (map show_share l) = Some l.
Proof.
  intros He. induction vs as [|v vs IH]; intros i l; cbn [parse_volumes_from]; [by intros [= <-]|].
  destruct (parse_volume e i v) as [s|] eqn:Ev; [|done].
  destruct (parse_volumes_from e (S i) vs) as [l'|] eqn:El; [|done]. intros [= <-].
  apply parse_volume_inv in Ev as (H1 & H2 & H3 & H4 & _).
  cbn [map parse_volumes_from]. rewrite parse_show_share by (done || by rewrite He). by rewrite (IH _ _ El).
Qed.

(** The hosts of the parsed shares are those of the volumes. *)
Lemma parse_volumes_outside e vs : forall i l, parse_volumes_from e i vs = Some l ->
  Forall (fun v => under_home e v = false) vs -> Forall (fun s => under_home e (show_share s) = false) l.
Proof.
  induction vs as [|v vs IH]; intros i l; cbn [parse_volumes_from]; [intros [= <-] _; constructor|].
  destruct (parse_volume e i v) as [s|] eqn:Ev; [|done].
  destruct (parse_volumes_from e (S i) vs) as [l'|] eqn:El; [|done]. intros [= <-] Hvs.
  apply Forall_cons in Hvs as [Hv Hvs]. apply Forall_cons. split; [|by eapply IH].
  apply parse_volume_inv in Ev as (H1 & _ & _ & _ & H5). unfold under_home in *. rewrite H5 in Hv.
  destruct (home e) as [h|]; [|done]. unfold show_share. change #":" with [":"%char]. cbn [app]. by rewrite volume_host_app.
Qed.

Lemma outside_all e vs : Forall (fun v => under_home e v = false) vs -> outside e vs = vs.
Proof. induction 1 as [|v vs Hv Hvs IH]; [done|]. unfold outside in *. cbn. by rewrite Hv, IH. Qed.

Lemma outside_forall e vs : Forall (fun v => under_home e v = false) (outside e vs).
Proof.
  unfold outside. apply Forall_forall. intros v Hv. apply list_elem_of_In, filter_In in Hv as [_ Hv].
  by apply negb_true_iff.
Qed.

(** With a home directory, the shares are the home directory and the volumes outside it. *)
Lemma build_shares_eq e h volumes : home e = Some h ->
  exists outs, build_virtiofs_shares e volumes = parse_volumes e ((h ++ #":") :: outs) /\
    Forall (fun v => under_home e v = false) outs.
Proof.
  intros Hh. unfold build_virtiofs_shares, home_already_present. rewrite Hh.
  destruct volumes as [|v vs]; [exists []; split; [done|constructor]|]. case_bool_decide as Hv.
  - subst v. exists (outside e vs). split; [done|apply outside_forall].
  - exists (outside e (v :: vs)). split; [done|apply outside_forall].
Qed.

(** The daemon's volumes directory lies in the home directory. *)
Definition volumes_in_home (e : host) (profile : str) : Prop :=
  exists h t, home e = Some h /\ (":"%char ∉ h) /\ pelagos_volumes_host_path e profile = h ++ #"/" ++ t /\ (":"%char ∉ t).

Lemma shares_stable e e' profile volumes l :
  home e' = home e -> (forall p, exists_ e' p = exists_ e p) -> volumes_in_home e profile ->
  build_virtiofs_shares e volumes = Some l ->
  build_virtiofs_shares e' (map show_share (volumes_share e profile :: l)) = Some l.
Proof.
  intros Hhome Hex (h & t & Hh & Hc & Hvol & Ht) Hl.
  assert (Hu : forall v, under_home e' v = under_home e v) by (intros; unfold under_home; by rewrite Hhome).
  assert (Hout : forall vs, outside e' vs = outside e vs).
  { intros vs. unfold outside. apply List.filter_ext. intros v. by rewrite Hu. }
  destruct (build_shares_eq e h volumes Hh) as (outs & Hbuild & Houts). rewrite Hbuild in Hl.
  unfold parse_volumes in Hl. pose proof (parse_volumes_round e e' _ Hex _ _ Hl) as Hround.
  cbn [parse_volumes_from] in Hl. destruct (parse_volume e 0 (h ++ #":")) as [s0|] eqn:E0; [|done].
  destruct (parse_volumes_from e 1 outs) as [ls|] eqn:El; [|done]. injection Hl as <-.
  assert (Hs0 : show_share s0 = h ++ #":").
  { unfold parse_volume in E0. cbn [splitn] in E0. change #":" with [":"%char] in E0.
    rewrite split_once_app in E0 by done. cbn [split_once] in E0. case_hyp E0; [|done]. injection E0 as <-. done. }
  set (v0 := show_share (volumes_share e profile)).
  assert (Hv0 : volume_host v0 = h ++ #"/" ++ t).
  { unfold v0, show_share, volumes_share. cbn [host_path]. rewrite Hvol. change #":" with [":"%char]. cbn [app].
    apply volume_host_app. rewrite !not_elem_of_app. split; [done|]. split; [by apply not_in_literal|done]. }
  unfold build_virtiofs_shares, home_already_present. rewrite Hhome, Hh. cbn [map].
  rewrite bool_decide_eq_false_2.
  - fold v0. rewrite Hs0, Hout. unfold outside. cbn [List.filter].
    assert (under_home e v0 = true) as ->.
    { unfold under_home. rewrite Hh, Hv0, app_assoc, starts_with_app. apply orb_true_r. }
    assert (under_home e (h ++ #":") = true) as ->.
    { unfold under_home. rewrite Hh. change #":" with [":"%char]. rewrite volume_host_app by done.
      by rewrite bool_decide_eq_true_2. }
    cbn [negb]. fold (outside e (map show_share ls)). rewrite outside_all.
    + cbn [map] in Hround. rewrite Hs0 in Hround. exact Hround.
    + apply Forall_map. eapply Forall_impl; [eapply parse_volumes_outside; eauto|]. done.
  - fold v0. intros E. rewrite E in Hv0. change #":" with [":"%char] in Hv0. rewrite volume_host_app in Hv0 by done.
    apply (f_equal (length (A := ascii))) in Hv0. rewrite !length_app in Hv0. cbn in Hv0. lia.
Qed.

(** ** Ports and the command line *)

Lemma parse_port_spec_bound s f : parse_port_spec s = Some f ->
  0 <= host_port f <= U16_MAX /\ 0 <= PortDaemon.container_port f <= U16_MAX.
Proof.
  unfold parse_port_spec, parse_u16. intros H.
  repeat match type of H with context [match ?x with _ => _ end] => destruct x eqn:? end; simplify_eq; cbn;
    repeat match goal with E : parse_uint _ _ = Some _ |- _ => apply parse_uint_bound in E; [|done] end; done.
Qed.

Lemma parse_ports_round ports l : parse_ports ports = Some l -> parse_ports (map show_port_spec l) = Some l.
Proof.
  revert l. induction ports as [|p ports IH]; intros l; cbn [parse_ports]; [by intros [= <-]|].
  destruct (parse_port_spec p) as [f|] eqn:Ef; [|done]. destruct (parse_ports ports) as [l'|]; [|done]. intros [= <-].
  apply parse_port_spec_bound in Ef as [H1 H2]. cbn [map parse_ports]. rewrite parse_show_port_spec by done.
  by rewrite (IH l').
Qed.

Lemma contains_app p a b : contains p (a ++ p ++ b) = true.
Proof.
  assert (H : exists n, find_sub p (a ++ p ++ b) = Some n).
  { induction a as [|c a (n & IH)].
    - exists 0%nat. cbn [app]. destruct (p ++ b) eqn:E; cbn [find_sub]; rewrite <- E, starts_with_app; done.
    - cbn [app find_sub]. destruct (starts_with p _); [by exists 0%nat|]. exists (S n). by rewrite IH. }
  unfold contains. by destruct H as [n ->].
Qed.

Lemma clocked_twice e e' base : clocked e' (clocked e base) = clocked e base.
Proof.
  unfold clocked at 2 3. destruct (contains #"clock.utc=" base) eqn:E; unfold clocked.
  - by rewrite E.
  - generalize (clock_utc (unix_secs e)) (clock_utc (unix_secs e')). intros c c'.
    replace (#" clock.utc=" ++ c) with (#" " ++ #"clock.utc=" ++ c) by reflexivity.
    by rewrite app_assoc, contains_app.
Qed.

(** ** Compose files *)

Lemma find_sub_some p s n : find_sub p s = Some n -> exists t, drop n s = p ++ t.
Proof.
  revert n. induction s as [|c s IH]; intros n; cbn [find_sub]; unfold starts_with.
  - destruct (strip_prefix p []) as [t|] eqn:E; [|done]. intros [= <-]. apply strip_prefix_inv in E. by exists t.
  - destruct (strip_prefix p (c :: s)) as [t|] eqn:E; [intros [= <-]; apply strip_prefix_inv in E; by exists t|].
    destruct (find_sub p s) as [m|]; [|done]. intros [= <-]. by apply IH.
Qed.

Lemma drop_is_suffix (n : nat) (s : str) : exists a, s = a ++ drop n s.
Proof. exists (take n s). by rewrite take_drop. Qed.

(** Only variables that a compose file names are taken from the environment. *)
Lemma env_names_referenced fuel : forall s name, name ∈ env_names fuel s ->
  exists a b, s = a ++ NEEDLE ++ name ++ DQ :: b.
Proof.
  induction fuel as [|fuel IH]; intros s name; cbn [env_names]; [by intros ?%elem_of_nil|].
  destruct (find_sub NEEDLE s) as [n|] eqn:Ef; [|by intros ?%elem_of_nil].
  apply find_sub_some in Ef as [t Ht]. rewrite <- drop_drop, Ht, drop_app_length.
  destruct (drop_is_suffix n s) as [a Ha]. rewrite Ht in Ha. rewrite Ha.
  destruct (split_once DQ t) as [[nm rest]|] eqn:Es.
  - apply split_once_inv in Es as [-> _]. rewrite elem_of_app. intros [Hin|Hin].
    + case_bool_decide; [by apply elem_of_nil in Hin|]. apply list_elem_of_singleton in Hin as ->. by exists a, rest.
    + apply IH in Hin as (a' & b & ->). exists (a ++ NEEDLE ++ nm ++ DQ :: a'), b.
      rewrite <- !app_assoc. cbn [app]. by rewrite <- ?app_assoc.
  - intros Hin. apply IH in Hin as (a' & b & ->). exists (a ++ NEEDLE ++ a'), b. by rewrite <- !app_assoc.
Qed.

Lemma compose_env_referenced c var name v : collect_compose_env (Some c) var !! name = Some v ->
  var name = Some v /\ exists a b, c = a ++ NEEDLE ++ name ++ DQ :: b.
Proof.
  unfold collect_compose_env. pose proof (env_names_referenced (S (length c)) c name) as Hn. revert Hn.
  generalize (env_names (S (length c)) c) as l. intros l.
  assert (H : forall m : gmap str str, fold_left (fun m name => match var name with Some v => <[name := v]> m | None => m end) l m !! name
    = Some v -> m !! name = Some v \/ (name ∈ l /\ var name = Some v)).
  { induction l as [|x l IH]; intros m; cbn [fold_left]; [by left|]. intros Hf. apply IH in Hf as [Hf|[Hf Hv]].
    - destruct (var x) as [vx|] eqn:Ex; [|by left]. apply lookup_insert_Some in Hf as [[-> ->]|[_ Hf]]; [|by left].
      right. split; [left|done].
    - right. split; [by right|done]. }
  intros Hn Hf. apply H in Hf as [Hf|[Hin Hv]]; [by rewrite lookup_empty in Hf|]. split; [done|]. by apply Hn.
Qed.

(** * Properties *)

(** What is written for the command line parser: numbers of the machine's width, and no value that is empty or begins with
    a dash. *)
Definition spellable (a : DaemonArgs) : Prop :=
  0 <= a_memory_mib a <= U64_MAX /\ 0 <= a_cpus a <= U64_MAX /\
  Forall (fun fv => snd fv <> [] /\ starts_with #"-" (snd fv) = false) (options a).

(** The variables of the environment that options name are not empty. *)
Definition variables_ok (var : str -> option str) : Prop :=
  Forall (fun name => var name <> Some []) [ #"PELAGOS_KERNEL"; #"PELAGOS_INITRD"; #"PELAGOS_DISK"; #"PELAGOS_CMDLINE"].

Section Clap.
(** The command line parser, given the environment: it reads the options that [daemon_subprocess_args] writes; and
    whatever the command line, an option that names a variable has a value when the variable is set. *)
Context (clap : (str -> option str) -> list str -> option Cli).
Context (clap_options : forall var a, variables_ok var -> spellable a ->
  clap var (spell (options a) ++ [ #"vm-daemon-internal"]) = Some (read_options var (options a))).
Context (clap_variable : forall var argv c, clap var argv = Some c -> cli_initrd c = None -> var #"PELAGOS_INITRD" = None).

(** C24: the daemon is started with the arguments the client computed.  The subprocess inherits the client's
    environment, parses its command line and computes the arguments again, later, from the same profile.  If the
    profile sets no kernel command line ([cmdline=] in vm.conf), the daemon's volumes directory lies in the home
    directory, and no value is empty or begins with a dash, the result is exactly the client's: same shares with the
    same tags, ports, disks, clock and sizes.  So a second client with the same options finds the mounts it asks for. *)
Theorem daemon_args_stable var argv e e' cli a :
  clap var argv = Some cli -> variables_ok var -> daemon_args_from_cli e cli = Some a ->
  home e' = home e -> xdg_data_home e' = xdg_data_home e -> (forall p, exists_ e' p = exists_ e p) ->
  profile_cfg e' = profile_cfg e ->
  volumes_in_home e (cli_profile cli) -> cmdline (profile_cfg e) = None -> spellable a ->
  exists c, clap var (daemon_subprocess_args a) = Some c /\ daemon_args_from_cli e' c = Some a.
Proof.
  intros Hclap Hvar Ha Hhome Hxdg Hex Hcfg Hvol Hcmd Hspell. pose proof (clap_variable _ _ _ Hclap) as Hinitrd.
  exists (read_options var (options a)). rewrite subprocess_args_options. split; [by apply clap_options|].
  destruct Hspell as (Hmem & Hcpu & _). rewrite read_options_options. unfold parse_usize. rewrite !parse_uint_dec by (unfold U64_MAX in *; lia).
  assert (Hvs : forall p, volumes_share e' p = volumes_share e p).
  { intros p. unfold volumes_share, pelagos_volumes_host_path, pelagos_base. by rewrite Hhome, Hxdg. }
  unfold daemon_args_from_cli in Ha.
  set (disc := if _ || _ then discover_vm_artifacts e else None) in Ha.
  destruct (or_else (or_else (cli_kernel cli) _) _) as [kern|]; [|done].
  destruct (or_else (or_else (cli_disk cli) _) _) as [dsk|]; [|done].
  destruct (build_virtiofs_shares e (cli_volumes cli)) as [shares|] eqn:Es; [|done].
  destruct (parse_ports (cli_ports cli)) as [ports|] eqn:Ep; [|done]. injection Ha as <-.
  unfold daemon_args_from_cli. cbn [a_kernel a_initrd a_disk a_cmdline a_memory_mib a_cpus a_shares a_ports a_profile
    a_extra_disks cli_kernel cli_initrd cli_disk cli_cmdline cli_memory cli_cpus cli_volumes cli_ports cli_profile
    cli_extra_disks is_none andb orb or_else unwrap_or].
  rewrite (shares_stable e e' _ _ _ Hhome Hex Hvol Es), (parse_ports_round _ _ Ep), Hvs, Hcfg, Hcmd.
  cbn [unwrap_or]. rewrite clocked_twice. do 2 f_equal.
  clearbody disc. destruct (cli_initrd cli); [|rewrite Hinitrd by done]; destruct (initrd (profile_cfg e)), disc as [[[? [i|]] ?]|]; reflexivity.
Qed.
End Clap.

(** * Witnesses *)

(** A parser for alternating options and values. *)
Fixpoint pairs (argv : list str) : list (str * str) :=
  match argv with f :: v :: rest => (f, v) :: pairs rest | _ => [] end.
Definition demo_clap (var : str -> option str) (argv : list str) : option Cli := Some (read_options var (pairs argv)).

Lemma pairs_spell opts x : pairs (spell opts ++ [x]) = opts.
Proof. induction opts as [|[f v] opts IH]; [done|]. unfold spell in *. cbn [flat_map app pairs]. by rewrite IH. Qed.

Lemma demo_clap_options var a : demo_clap var (spell (options a) ++ [ #"vm-daemon-internal"]) = Some (read_options var (options a)).
Proof. unfold demo_clap. by rewrite pairs_spell. Qed.

Lemma demo_clap_variable var argv c : demo_clap var argv = Some c -> cli_initrd c = None -> var #"PELAGOS_INITRD" = None.
Proof. intros [= <-]. unfold read_options. cbn [cli_initrd]. by destruct (value #"--initrd" (pairs argv)). Qed.

Definition demo_host (xdg : option str) (now : Z) : host :=
  mkHost xdg (Some #"/Users/me") (Some #"/opt/bin/pelagos") (fun _ => true) now default_config.

Definition demo_cli : Cli :=
  mkCli #"default" (Some #"/k") None (Some #"/d") #"console=hvc0" None (Some 4) [ #"/Users/me/src:/src"; #"/data:/data:ro"]
    [ #"8080:80"] [].

Definition demo_args : DaemonArgs :=
  mkArgs #"/k" None #"/d" #"console=hvc0 clock.utc=2024-02-29T23:59:59" 4096 4
    [mkShare #"/Users/me/.local/share/pelagos/volumes" #"pelagos-volumes" false #"/var/lib/pelagos/volumes";
     mkShare #"/Users/me" #"share0" false []; mkShare #"/data" #"share1" true #"/data"]
    [mkForward 8080 80] #"default" [].

(** The kernel and the disk come from the environment. *)
Definition demo_var (name : str) : option str :=
  if bool_decide (name = #"PELAGOS_KERNEL") then Some #"/k" else if bool_decide (name = #"PELAGOS_DISK") then Some #"/d" else None.
Definition demo_argv : list str :=
  [ #"--cmdline"; #"console=hvc0"; #"--cpus"; #"4"; #"--volume"; #"/Users/me/src:/src"; #"--volume"; #"/data:/data:ro"; #"--port"; #"8080:80"; #"ping"].

Lemma demo_spellable : spellable demo_args.
Proof. split; [cbn; unfold U64_MAX; lia|]. split; [cbn; unfold U64_MAX; lia|]. by repeat constructor. Qed.

Lemma daemon_args_stable_witness : demo_clap demo_var demo_argv = Some demo_cli /\ exists c,
  demo_clap demo_var (daemon_subprocess_args demo_args) = Some c /\
  daemon_args_from_cli (demo_host None 1709251260) c = Some demo_args.
Proof.
  split; [vm_compute; reflexivity|].
  apply (daemon_args_stable demo_clap (fun var a _ _ => demo_clap_options var a) demo_clap_variable demo_var demo_argv
    (demo_host None 1709251199) (demo_host None 1709251260) demo_cli demo_args).
  - vm_compute. reflexivity.
  - by repeat constructor.
  - vm_compute. reflexivity.
  - reflexivity.
  - reflexivity.
  - reflexivity.
  - reflexivity.
  - exists #"/Users/me", #".local/share/pelagos/volumes". split; [reflexivity|]. split; [by apply not_in_literal|].
    split; [reflexivity | by apply not_in_literal].
  - reflexivity.
  - exact demo_spellable.
Defined.

(** With a data directory outside the home directory the subprocess adds the volumes directory a second
    time: what it persists is not what clients ask for, and every later command is refused. *)
Example volumes_outside_home :
  let e := demo_host (Some #"/Volumes/data") 0 in
  exists a b, daemon_args_from_cli e demo_cli = Some a /\
    daemon_args_from_cli e (read_options (fun _ => None) (options a)) = Some b /\ a_shares b <> a_shares a.
Proof.
  eexists _, _. split; [vm_compute; reflexivity|]. split; [vm_compute; reflexivity|]. discriminate.
Qed.

(** So does a kernel command line in vm.conf: the client uses it as it is, with the clock appended, and the subprocess takes
    the profile's again and the clock of its own time. *)
Example cmdline_in_profile :
  let e now := mkHost None (Some #"/Users/me") (Some #"/opt/bin/pelagos") (fun _ => true) now
    (mkConfig None None None None None Vsock (Some #"console=hvc0") None) in
  exists a b, daemon_args_from_cli (e 0) demo_cli = Some a /\
    daemon_args_from_cli (e 1) (read_options (fun _ => None) (options a)) = Some b /\ a_cmdline b <> a_cmdline a.
Proof.
  eexists _, _. split; [vm_compute; reflexivity|]. split; [vm_compute; reflexivity|]. discriminate.
Qed.
