(* ===== verification/Daemon.v ===== *)
(** The life of a daemon ([run] of [pelagos-mac/src/daemon.rs]): start-up, accept loop, shutdown, and what
    happens when two of them start at once. *)

From S2P Require Import Prelude RustStd Paths VmState Vm PortDaemon HostCli.

#[local] Open Scope Z_scope.

(** * The machine's configuration *)

(** [build_vm_config], with what loading the profile's configuration gives. *)
Definition build_vm_config (args : DaemonArgs) (loaded : result VmProfileConfig io_error) : result VmConfig str :=
  let profile_conf := match loaded with Ok c => c | Err _ => default_config end in
  let guest_ip := default DEFAULT_GUEST_IP (vm_ip profile_conf) in
  let b := set_guest_ip guest_ip (set_cpus (a_cpus args) (set_memory_mib (a_memory_mib args)
             (set_cmdline (build_cmdline args) (set_disk (a_disk args) (set_kernel (a_kernel args) builder))))) in
  let b := match a_initrd args with Some initrd => set_initrd initrd b | None => b end in
  let b := fold_left (fun b s => virtiofs (host_path s) (tag s) (read_only s) b) (a_shares args) b in
  let b := fold_left (fun b p => extra_disk p b) (a_extra_disks args) b in
  build b.

(** * Calls to the outside *)

Inductive ev : Type :=
| OpenState | DaemonAlive | ClearState
| LoadProfile (profile : str)
| BootVm (config : VmConfig)
| BindSock | BindConsole | SpawnConsoleRelay
| WritePid | WriteMounts (shares : list VirtiofsShare) | WriteExtraDisks (disks : list str)
| StartWatcher | InstallSigterm
| CurrentExe | Exists (path : str)
| ShutdownFlag                    (* the flag that the signal handler sets *)
| PollListener | Accept | SpawnHandler
| StopVm
| DropVm.                         (* stops the machine once more when no handler has it *)

Definition reply (e : ev) : Type :=
  match e with
  | OpenState | BootVm _ | BindSock | BindConsole | WritePid | WriteMounts _ | WriteExtraDisks _ | Accept | StopVm => result unit str
  | DaemonAlive | Exists _ | ShutdownFlag => bool
  | LoadProfile _ => result VmProfileConfig io_error
  | CurrentExe => result str str
  | PollListener => (Z * bool)%type
  | ClearState | SpawnConsoleRelay | StartWatcher | InstallSigterm | SpawnHandler | DropVm => unit
  end.

Abbreviation ask e := (call (R := reply) (S := PortState) e).

Inductive outcome : Type := Exited (code : Z) | Panicked.

Definition D (A : Type) : Type := Sys ev reply PortState A.

(** * The accept loop *)

Definition U32 : Z := 4294967296.

Definition binary_gone : D bool :=
  exe <- ask CurrentExe ;;
  match exe with
  | Ok p => there <- ask (Exists p) ;; ret (negb there)
  | Err _ => ret false
  end.

(** [None] is the fuel running out: the loop itself only ends by a shutdown. *)
Fixpoint accept_loop (fuel : nat) (loop_tick : Z) : D (option outcome) :=
  match fuel with
  | O => ret None
  | S fuel =>
      let loop_tick := (loop_tick + 1) mod U32 in
      gone <- (if loop_tick mod 30 =? 0 then binary_gone else ret false) ;;
      shutdown <- (if (gone : bool) then ret true else ask ShutdownFlag) ;;
      if (shutdown : bool) then ask StopVm ;; ask DropVm ;; ask ClearState ;; ret (Some (Exited 0))
      else
        p <- ask PollListener ;;
        let '(n, pollin) := p in
        if n <=? 0 then accept_loop fuel loop_tick else
        if negb pollin then accept_loop fuel loop_tick else
        unix <- ask Accept ;;
        match unix with
        | Err _ => accept_loop fuel loop_tick
        | Ok _ => ask SpawnHandler ;; accept_loop fuel loop_tick
        end
  end.

(** * [run] *)

Definition run (fuel : nat) (args : DaemonArgs) : D (option outcome) :=
  state <- ask OpenState ;;
  match state with
  | Err _ => ret (Some Panicked)
  | Ok _ =>
      alive <- ask DaemonAlive ;;
      if (alive : bool) then ret (Some (Exited 1)) else
      ask ClearState ;;
      loaded <- ask (LoadProfile (a_profile args)) ;;
      match build_vm_config args loaded with
      | Err _ => ret (Some Panicked)
      | Ok config =>
          vm <- ask (BootVm config) ;;
          match vm with
          | Err _ => ret (Some (Exited 1))
          | Ok _ =>
              listener <- ask BindSock ;;
              match listener with
              | Err _ => ret (Some (Exited 1))
              | Ok _ =>
                  console_listener <- ask BindConsole ;;
                  match console_listener with
                  | Err _ => ret (Some (Exited 1))
                  | Ok _ =>
                      ask SpawnConsoleRelay ;;
                      ask WritePid ;;
                      ask (WriteMounts (a_shares args)) ;;
                      ask (WriteExtraDisks (a_extra_disks args)) ;;
                      put_st (pre_register (a_ports args) new_ports) ;;
                      ask StartWatcher ;;
                      ask InstallSigterm ;;
                      accept_loop fuel 0
                  end
              end
          end
      end
  end.

(** * What is seen *)

Inductive op : Type :=
| Looked (alive : bool) | Cleared | Booted (config : VmConfig) (ok : bool) | BoundSock (ok : bool) | BoundConsole (ok : bool)
| WrotePid (ok : bool) | WroteMounts (shares : list VirtiofsShare) (ok : bool) | WroteDisks (disks : list str) (ok : bool)
| Watching | Handling | AskedToStop (ok : bool).

Definition see (e : ev) : reply e -> list op :=
  match e return reply e -> list op with
  | DaemonAlive => fun b => [Looked b]
  | ClearState => fun _ => [Cleared]
  | BootVm c => fun r => [Booted c (is_ok (r : result unit str))]
  | BindSock => fun r => [BoundSock (is_ok (r : result unit str))]
  | BindConsole => fun r => [BoundConsole (is_ok (r : result unit str))]
  | WritePid => fun r => [WrotePid (is_ok (r : result unit str))]
  | WriteMounts l => fun r => [WroteMounts l (is_ok (r : result unit str))]
  | WriteExtraDisks l => fun r => [WroteDisks l (is_ok (r : result unit str))]
  | StartWatcher => fun _ => [Watching]
  | SpawnHandler => fun _ => [Handling]
  | StopVm => fun r => [AskedToStop (is_ok (r : result unit str))]
  | _ => fun _ => []
  end.

(** The configuration of the machine that a daemon boots. *)
Definition config_of (args : DaemonArgs) (ip : list Z) : VmConfig :=
  mkVmConfig (a_kernel args) (a_initrd args) (build_cmdline args) (a_disk args) (a_extra_disks args) (a_cpus args)
    (a_memory_mib args) 1024 (map (fun s => (host_path s, tag s, read_only s)) (a_shares args)) false ip.

(** The end of a daemon that serves: none yet, or the machine is asked to stop, whatever comes of it, and the files are
    cleared. *)
Definition ending (r : option outcome) (last : list op) : Prop :=
  r = None /\ last = [] \/ r = Some (Exited 0) /\ exists stopped, last = [AskedToStop stopped; Cleared].

(** The lives of a daemon. *)
Inductive life (args : DaemonArgs) : option outcome -> list op -> Prop :=
| No_state : life args (Some Panicked) []
| Other_daemon : life args (Some (Exited 1)) [Looked true]
| No_machine ip : life args (Some (Exited 1)) [Looked false; Cleared; Booted (config_of args ip) false]
| No_socket ip : life args (Some (Exited 1)) [Looked false; Cleared; Booted (config_of args ip) true; BoundSock false]
| No_console ip : life args (Some (Exited 1))
    [Looked false; Cleared; Booted (config_of args ip) true; BoundSock true; BoundConsole false]
| Serves ip pid_ok mounts_ok disks_ok (served : list op) (r : option outcome) (last : list op) : Forall (eq Handling) served ->
    ending r last ->
    life args r ([Looked false; Cleared; Booted (config_of args ip) true; BoundSock true; BoundConsole true;
      WrotePid pid_ok; WroteMounts (a_shares args) mounts_ok; WroteDisks (a_extra_disks args) disks_ok; Watching] ++ served ++ last).

(** * Lemmas *)

Lemma fold_virtiofs shares : forall b, fold_left (fun b s => virtiofs (host_path s) (tag s) (read_only s) b) shares b
  = mkBuilder (b_kernel b) (b_initrd b) (b_cmdline b) (b_disk b) (b_extra_disks b) (b_cpus b) (b_memory_mib b) (b_vsock_port b)
      (b_virtiofs_shares b ++ map (fun s => (host_path s, tag s, read_only s)) shares) (b_rosetta b) (b_guest_ip b).
Proof.
  induction shares as [|s shares IH]; intros b; cbn [fold_left map]; [rewrite app_nil_r; by destruct b|].
  rewrite IH. cbn. by rewrite <- app_assoc.
Qed.

Lemma fold_extra_disk paths : forall b, fold_left (fun b p => extra_disk p b) paths b
  = mkBuilder (b_kernel b) (b_initrd b) (b_cmdline b) (b_disk b) (b_extra_disks b ++ paths) (b_cpus b) (b_memory_mib b) (b_vsock_port b)
      (b_virtiofs_shares b) (b_rosetta b) (b_guest_ip b).
Proof.
  induction paths as [|p paths IH]; intros b; cbn [fold_left]; [rewrite app_nil_r; by destruct b|].
  rewrite IH. cbn. by rewrite <- app_assoc.
Qed.

(** The builder never fails, and keeps everything in order. *)
Lemma build_vm_config_of args loaded : exists ip, build_vm_config args loaded = Ok (config_of args ip) /\
  ip = match loaded with Ok c => default DEFAULT_GUEST_IP (vm_ip c) | Err _ => DEFAULT_GUEST_IP end.
Proof.
  exists (match loaded with Ok c => default DEFAULT_GUEST_IP (vm_ip c) | Err _ => DEFAULT_GUEST_IP end). split; [|done].
  unfold build_vm_config, config_of. rewrite fold_extra_disk, fold_virtiofs. by destruct (a_initrd args), loaded.
Qed.

Definition loop_life (r : option outcome) (os : list op) : Prop :=
  exists served last, os = served ++ last /\ Forall (eq Handling) served /\ ending r last.

Lemma loop_life_end : loop_life None [].
Proof. exists [], []. repeat split; [constructor|by left]. Qed.

Lemma loop_life_more r os : loop_life r os -> loop_life r (Handling :: os).
Proof. intros (served & last & -> & Hs & Hl). exists (Handling :: served), last. repeat split; [by constructor|done]. Qed.

Lemma binary_gone_silent : silent see binary_gone.
Proof. unfold binary_gone. silent_go. Qed.

Lemma accept_loop_life fuel : forall tick, adds see (accept_loop fuel tick) loop_life.
Proof.
  induction fuel as [|fuel IH]; intros tick; cbn [accept_loop]; [apply adds_ret, loop_life_end|]. cbv zeta.
  apply adds_silent; [destruct (_ =? 0); [apply binary_gone_silent|apply silent_ret]|]. intros gone.
  apply adds_silent; [destruct (gone : bool); silent_go|]. intros shutdown. destruct (shutdown : bool).
  - eapply adds_bind_known; [refine (adds_call see StopVm (fun r os => os = [AskedToStop (is_ok r)]) _); done|]. intros stopped os ->.
    apply adds_silent; [silent_go|]. intros u.
    eapply adds_bind_known; [refine (adds_call see ClearState (fun _ os => os = [Cleared]) _); done|]. intros u' os ->.
    apply adds_ret. exists [], [AskedToStop (is_ok stopped); Cleared]. repeat split; [constructor|]. right. split; [done|by eexists].
  - apply adds_silent; [silent_go|]. intros [n pollin]. destruct (n <=? 0); [apply IH|]. destruct pollin; cbn [negb]; [|apply IH].
    apply adds_silent; [silent_go|]. intros [[]|e]; [|apply IH].
    eapply adds_bind_known; [refine (adds_call see SpawnHandler (fun _ os => os = [Handling]) _); done|]. intros u os ->.
    eapply adds_weaken; [apply IH|]. intros r os. apply loop_life_more.
Qed.

Lemma run_life fuel args : adds see (run fuel args) (life args).
Proof.
  unfold run. apply adds_silent; [silent_go|]. intros [[]|e]; [|apply adds_ret; constructor].
  eapply adds_bind_known; [refine (adds_call see DaemonAlive (fun b os => os = [Looked b]) _); done|]. intros alive os ->.
  destruct (alive : bool); [apply adds_ret; constructor|].
  eapply adds_bind_known; [refine (adds_call see ClearState (fun _ os => os = [Cleared]) _); done|]. intros u os ->.
  apply adds_silent; [silent_go|]. intros loaded. destruct (build_vm_config_of args loaded) as (ip & -> & _).
  eapply adds_bind_known; [refine (adds_call see (BootVm _) (fun r os => os = [Booted (config_of args ip) (is_ok r)]) _); done|].
  intros [[]|e] os ->; [|apply adds_ret; constructor].
  eapply adds_bind_known; [refine (adds_call see BindSock (fun r os => os = [BoundSock (is_ok r)]) _); done|].
  intros [[]|e] os ->; [|apply adds_ret; constructor].
  eapply adds_bind_known; [refine (adds_call see BindConsole (fun r os => os = [BoundConsole (is_ok r)]) _); done|].
  intros [[]|e] os ->; [|apply adds_ret; constructor].
  apply adds_silent; [silent_go|]. intros u1.
  eapply adds_bind_known; [refine (adds_call see WritePid (fun r os => os = [WrotePid (is_ok r)]) _); done|]. intros u2 os ->.
  eapply adds_bind_known; [refine (adds_call see (WriteMounts _) (fun r os => os = [WroteMounts (a_shares args) (is_ok r)]) _); done|]. intros u3 os ->.
  eapply adds_bind_known; [refine (adds_call see (WriteExtraDisks _) (fun r os => os = [WroteDisks (a_extra_disks args) (is_ok r)]) _); done|]. intros u4 os ->.
  apply adds_silent; [silent_go|]. intros u5.
  eapply adds_bind_known; [refine (adds_call see StartWatcher (fun _ os => os = [Watching]) _); done|]. intros u6 os ->.
  apply adds_silent; [silent_go|]. intros u7. eapply adds_weaken; [apply accept_loop_life|].
  intros r os (served & last & -> & Hs & Hl). by apply Serves.
Qed.

(** The next round in which the program's file is looked for. *)
Lemma tick_next t : 0 <= t < U32 -> (t + 1) mod U32 mod 30 <> 0 ->
  (t + 1) mod U32 = t + 1 /\ (t + 1) mod 30 = t mod 30 + 1 /\ t mod 30 < 29.
Proof.
  intros Ht Hn. unfold U32 in *. destruct (decide (t = 4294967295)) as [-> |Hne]; [by destruct Hn|].
  assert (H : (t + 1) mod 4294967296 = t + 1) by (apply Z.mod_small; lia). rewrite H in *. split; [done|].
  pose proof (Z.div_mod t 30). pose proof (Z.mod_pos_bound t 30). assert (t mod 30 <> 29).
  { intros He. apply Hn. replace (t + 1) with ((t / 30 + 1) * 30) by lia. apply Z.mod_mul. lia. }
  split; [|lia]. symmetry. apply (Z.mod_unique _ _ (t / 30)); lia.
Qed.

(** The program's file is gone, or the signal arrived. *)
Definition told_to_end (env : Env ev reply) : Prop :=
  (forall h, exists p, env h CurrentExe = Ok p) /\ (forall h p, env h (Exists p) = false) \/ (forall h, env h ShutdownFlag = true).

Lemma accept_loop_ends env : told_to_end env -> forall fuel t s h, 0 <= t < U32 -> 30 - t mod 30 <= Z.of_nat fuel ->
  fst (accept_loop fuel t env s h) = Some (Exited 0).
Proof.
  intros He. induction fuel as [|fuel IH]; intros t s h Ht Hf; [pose proof (Z.mod_pos_bound t 30); lia|].
  cbn [accept_loop]. cbv zeta. destruct ((t + 1) mod U32 mod 30 =? 0) eqn:Etick; bool_arith.
  - unfold binary_gone. cbn -[accept_loop]. destruct He as [[Hexe Hgone]|Hflag].
    + destruct (Hexe h) as [p ->]. cbn -[accept_loop]. by rewrite Hgone.
    + destruct (env h CurrentExe) as [p|e]; cbn -[accept_loop]; [destruct (env _ (Exists p))|]; cbn -[accept_loop]; by rewrite ?Hflag.
  - destruct (tick_next t Ht Etick) as (Hn & Hm & Hlt). rewrite Hn.
    assert (Hrest : forall s h, fst (accept_loop fuel (t + 1) env s h) = Some (Exited 0)).
    { intros s' h'. apply IH; [|lia]. rewrite <- Hn. apply Z.mod_pos_bound. done. }
    cbn -[accept_loop]. destruct (env h ShutdownFlag); cbn -[accept_loop]; [done|].
    destruct (env _ PollListener) as [n pollin]. destruct (n <=? 0); [apply Hrest|]. destruct pollin; cbn -[accept_loop]; [|apply Hrest].
    destruct (env _ Accept) as [[]|e]; cbn -[accept_loop]; apply Hrest.
Qed.

(** * Properties *)

(** C35: the life of a daemon.  Whatever the outside does: it looks for another daemon first and does nothing
    then; it clears the stale files and boots the machine its arguments describe, every share and disk in
    order; the PID, the shares and the disks are written, or tried to be, only after the machine runs and both
    sockets are bound, and before any connection is served; it ends with 1 when one of the steps before fails, and
    with 0 only after it asked the machine to stop, whose result is ignored, and cleared its files, after which it
    does nothing. *)
Theorem daemon_life fuel args env s h :
  exists os, seen see env (snd (snd (run fuel args env s h))) = seen see env h ++ os /\ life args (fst (run fuel args env s h)) os.
Proof. exact (run_life fuel args env s h). Qed.

(** A daemon leaves.  When its program's file has disappeared, or the signal to terminate has arrived, the
    accept loop ends with 0 within 30 rounds, at whatever point of the tick, its wrap-around included, and
    whatever the connections do; a round lasts at most the second of its poll. *)
Theorem daemon_leaves env fuel t s h : told_to_end env -> 0 <= t < U32 -> (30 <= fuel)%nat ->
  fst (accept_loop fuel t env s h) = Some (Exited 0).
Proof. intros He Ht Hf. apply accept_loop_ends; [done|done|]. pose proof (Z.mod_pos_bound t 30). lia. Qed.

(** An idle daemon whose program is removed. *)
Definition removed_env : Env ev reply := fun h e =>
  match e return reply e with
  | OpenState | BootVm _ | BindSock | BindConsole | WritePid | WriteMounts _ | WriteExtraDisks _ | Accept | StopVm => Ok tt
  | DaemonAlive | Exists _ | ShutdownFlag => false
  | LoadProfile _ => Err NotFound
  | CurrentExe => Ok #"/bin/pelagos"
  | PollListener => (0, false)
  | ClearState | SpawnConsoleRelay | StartWatcher | InstallSigterm | SpawnHandler | DropVm => tt
  end.

Lemma daemon_leaves_witness : told_to_end removed_env /\ 0 <= 4294967290 < U32 /\ (30 <= 30)%nat /\
  fst (accept_loop 30 4294967290 removed_env new_ports []) = Some (Exited 0).
Proof.
  assert (He : told_to_end removed_env) by (left; split; [intros h; by exists #"/bin/pelagos"|done]).
  assert (Ht : 0 <= 4294967290 < U32) by (unfold U32; lia).
  split; [exact He|]. split; [exact Ht|]. split; [lia|].
  exact (daemon_leaves removed_env 30 4294967290 new_ports [] He Ht (le_n 30)).
Defined.

(** * Two daemons at once *)

(** How far the start-up of a daemon is. *)
Inductive stage : Type := Begin | Looking | Booting | Binding | Writing | Serving | Failed.

(** The profile's files, the daemons by their PID, and those whose machine was started. *)
Record profile := mkProfile { disk_files : fs; stages : gmap Z stage; machines : list Z }.

Definition set_stage (p : Z) (g : stage) (w : profile) : profile := mkProfile (disk_files w) (<[p := g]> (stages w)) (machines w).
Definition with_files (f : fs) (w : profile) : profile := mkProfile f (stages w) (machines w).
(** [kill(pid, 0)]: the daemon was started and has not failed. *)
Definition alive (w : profile) (pid : Z) : bool :=
  match stages w !! pid with Some Failed | None => false | Some _ => true end.

(** The next step of the start-up of the daemon [p], as in [run]. *)
Definition start_step (s : StateDir) (p : Z) (w : profile) : profile :=
  match stages w !! p with
  | Some Begin => if is_daemon_alive (alive w) s (disk_files w) then set_stage p Failed w else set_stage p Looking w
  | Some Looking => set_stage p Booting (with_files (clear s (disk_files w)) w)
  | Some Booting => set_stage p Binding (mkProfile (disk_files w) (stages w) (p :: machines w))
  | Some Binding =>
      match files (disk_files w) !! sock_file s with
      | Some _ => set_stage p Failed w                    (* the address is in use *)
      | None => set_stage p Writing (with_files (snd (write_file (sock_file s) [] (disk_files w))) w)
      end
  | Some Writing => set_stage p Serving (with_files (snd (write_pid p s (disk_files w))) w)
  | _ => w
  end.

Fixpoint schedule (s : StateDir) (ps : list Z) (w : profile) : profile :=
  match ps with [] => w | p :: ps => schedule s ps (start_step s p w) end.

Definition two_starting : profile := mkProfile (mkFs ∅ None ∅) {[ 10 := Begin; 20 := Begin ]} [].
Definition demo_state : StateDir := open_profile #"/d" #"default".

(** Two clients start a daemon each before the first has written its PID: both look, both boot a machine on the
    same disk, and both serve; the second took the socket's name from the first. *)
Example two_machines :
  let w := schedule demo_state [10; 20; 10; 10; 10; 10; 20; 20; 20; 20] two_starting in
  stages w !! 10 = Some Serving /\ stages w !! 20 = Some Serving /\ machines w = [20; 10].
Proof. vm_compute. repeat split; reflexivity. Qed.

(** A daemon that begins when another has written its PID and lives does not start a machine. *)
Example second_refused :
  let w := schedule demo_state [10; 10; 10; 10; 10; 20; 20; 20; 20] two_starting in
  stages w !! 20 = Some Failed /\ machines w = [10].
Proof. vm_compute. repeat split; reflexivity. Qed.
