(* ===== verification/DaemonStart.v ===== *)
(** How a client gets its daemon (pelagos-mac/src/daemon.rs: [ensure_running]): the running one when it was started
    with the same mounts, or a new one, whose socket it waits for; and the files that tell, as JSON. *)

From S2P Require Import Prelude RustStd Paths JsonText PortDaemon VmState Protocol HostCli.

#[local] Open Scope Z_scope.

(** * The files of the running daemon *)

(** [VirtiofsShare]; paths are UTF-8. *)
Definition encode_share (s : VirtiofsShare) : jval :=
  JObj (fld #"host_path" (JStr (host_path s)) ++ fld #"tag" (JStr (tag s)) ++ fld #"read_only" (JBool (read_only s))
        ++ fld #"container_path" (JStr (container_path s))).
Definition share_fields : D VirtiofsShare :=
  host_path <~ required #"host_path" dec_str ;;
  tag <~ required #"tag" dec_str ;;
  read_only <~ required #"read_only" dec_bool ;;
  container_path <~ required #"container_path" dec_str ;;
  dret (mkShare host_path tag read_only container_path).
Definition decode_share : jval -> option VirtiofsShare := struct share_fields.

(** * Calls to the outside

    [Elsewhere] is what other processes made of the profile's files up to then. *)
Inductive ev : Type :=
| OpenState | Helper | Elsewhere | Processes | CurrentExe
| CreateLog (path : str)
| RustLog                          (* [None]: not set; [Some None]: not UTF-8 *)
| Spawn (exe : str) (args : list str) (log level : str)
| SockExists | Now | Sleep (ms : Z).
Definition reply (e : ev) : Type :=
  match e with
  | OpenState | CreateLog _ | Spawn _ _ _ _ => result unit io_error
  | Helper => result unit str
  | Elsewhere => fs
  | Processes => Z -> bool
  | CurrentExe => result str io_error
  | RustLog => option (option str)
  | SockExists => bool
  | Now => Z
  | Sleep _ => unit
  end.
#[local] Abbreviation ask e := (call (R := reply) (S := fs) e).
#[local] Abbreviation M A := (Sys ev reply fs A).

Inductive outcome : Type := Returned (r : result unit io_error) | Panicked.

(** [None] is the fuel running out. *)
Fixpoint wait_for_socket (fuel : nat) (deadline : Z) : M (option outcome) :=
  match fuel with
  | O => ret None
  | S fuel =>
      there <- ask SockExists ;;
      if (there : bool) then ret (Some (Returned (Ok tt))) else
      now <- ask Now ;;
      if deadline <=? now then ret (Some (Returned (Err TimedOut))) else
      ask (Sleep 200) ;;
      wait_for_socket fuel deadline
  end.

Section Start.
Context `{JT : JsonText} (base : str).

Definition shares_to_json (l : list VirtiofsShare) : str := to_string (JArr (map encode_share l)).
Definition shares_of_json : str -> option (list VirtiofsShare) := read (dec_vec decode_share).
Definition disks_to_json (l : list str) : str := to_string (enc_strs l).
Definition disks_of_json : str -> option (list str) := read dec_strs.

Definition spawn_daemon (fuel : nat) (args : DaemonArgs) : M (option outcome) :=
  let fails e := ret (Some (Returned (Err e))) in
  exe <- ask CurrentExe ;;
  match exe with
  | Err e => fails e
  | Ok exe =>
      let log_path := path_join (profile_dir base (a_profile args)) #"daemon.log" in
      log_file <- ask (CreateLog log_path) ;;
      match log_file with
      | Err e => fails e
      | Ok _ =>
          rust_log <- ask RustLog ;;
          match rust_log with
          | Some None => ret (Some Panicked)
          | _ =>
              let level := match rust_log with Some (Some level) => level | _ => #"info" end in
              child <- ask (Spawn exe (daemon_subprocess_args args) log_path level) ;;
              match child with
              | Err e => fails e
              | Ok _ => now <- ask Now ;; wait_for_socket fuel (now + START_TIMEOUT_MS)
              end
          end
      end
  end.

Definition ensure_running (fuel : nat) (args : DaemonArgs) : M (option outcome) :=
  let fails e := ret (Some (Returned (Err e))) in
  let state := open_profile base (a_profile args) in
  opened <- ask OpenState ;;
  match opened with
  | Err e => fails e
  | Ok _ =>
      helper <- ask Helper ;;
      match helper with
      | Err _ => fails OtherError
      | Ok _ =>
          f <- ask Elsewhere ;;
          let '(ip, f) := ensure_vm_ip base (a_profile args) f in
          put_st f ;;
          match ip with
          | Err _ => fails OtherError
          | Ok _ =>
              f <- ask Elsewhere ;;
              alive <- ask Processes ;;
              match fst (decide_running shares_of_json disks_of_json alive state (a_shares args) (a_extra_disks args) f) with
              | UseRunning => ret (Some (Returned (Ok tt)))
              | Refuse e => fails e
              | Start =>
                  f <- ask Elsewhere ;;
                  put_st (clear state f) ;;
                  spawn_daemon fuel args
              end
          end
      end
  end.

(** * Lemmas *)

Lemma dec_enc_share s : decode_share (encode_share s) = Some s.
Proof. apply struct_gets. destruct s. unfold share_fields, required. gets_all. Qed.

Lemma shares_json l : shares_of_json (shares_to_json l) = Some l.
Proof.
  unfold shares_of_json, shares_to_json. rewrite (read_object (dec_vec decode_share)).
  - apply dec_vec_map, Forall_forall. intros s _. apply dec_enc_share.
  - unfold readable. apply (within_arr 126), Forall_forall. intros s _. unfold encode_share. rewrite (within_obj 125). sizes.
Qed.

Lemma disks_json l : disks_of_json (disks_to_json l) = Some l.
Proof.
  unfold disks_of_json, disks_to_json. rewrite (read_object dec_strs); [apply dec_enc_strs|]. unfold readable. apply (within_strs 126).
Qed.

(** ** What is seen: daemons that are started, and looks at the socket *)

Inductive op : Type := Spawned (exe : str) (args : list str) (log level : str) | Saw (there : bool).
Definition see (e : ev) : reply e -> list op :=
  match e return reply e -> list op with
  | Spawn exe args log level => fun _ => [Spawned exe args log level]
  | SockExists => fun b => [Saw b]
  | _ => fun _ => []
  end.

(** Rounds of the wait: not there, then there or given up. *)
Definition waited (n : nat) (r : result unit io_error) (os : list op) : Prop :=
  r = Ok tt /\ os = repeat (Saw false) n ++ [Saw true] \/ r = Err TimedOut /\ os = repeat (Saw false) (S n).

Lemma waited_more n r os : waited n r os -> waited (S n) r (Saw false :: os).
Proof. intros [[-> ->]|[-> ->]]; [by left|by right]. Qed.

(** The clock moves on at least as much as is slept. *)
Definition slept (h : list ev) : Z := foldr (fun e t => t + match e with Sleep ms => ms | _ => 0 end) 0 h.
Definition clock_runs (env : Env ev reply) : Prop := forall h h', env h Now + slept h' <= env (h' ++ h) Now.

Lemma wait_ends env (Hclock : clock_runs env) : forall fuel deadline (f : fs) h, deadline - env h Now <= 200 * (Z.of_nat fuel - 1) -> (0 < fuel)%nat ->
  exists n r h', wait_for_socket fuel deadline env f h = (Some (Returned r), (f, h')) /\ (n < fuel)%nat /\
    exists os, seen see env h' = seen see env h ++ os /\ waited n r os.
Proof.
  induction fuel as [|fuel IH]; intros deadline f h Hd Hf; [lia|]. cbn [wait_for_socket]. unfold bind, call, ret.
  destruct (env h SockExists) eqn:Es.
  { exists 0%nat, (Ok tt), (SockExists :: h). split; [done|]. split; [lia|]. exists [Saw true]. cbn. rewrite Es. split; [done|by left]. }
  destruct (Z.leb_spec deadline (env (SockExists :: h) Now)).
  { exists 0%nat, (Err TimedOut), (Now :: SockExists :: h). split; [done|]. split; [lia|]. exists [Saw false]. cbn. rewrite Es, app_nil_r.
    split; [done|by right]. }
  pose proof (Hclock h [Sleep 200; Now; SockExists]) as Ht. pose proof (Hclock h [SockExists]) as H1. cbn in Ht, H1.
  destruct (IH deadline f (Sleep 200 :: Now :: SockExists :: h)) as (n & r & h' & Hw & Hn & os & Hos & Hwait); [lia|lia|].
  exists (S n), r, h'. split; [exact Hw|]. split; [lia|]. exists (Saw false :: os). split; [|by apply waited_more].
  rewrite Hos. cbn. by rewrite Es, !app_nil_r, <- app_assoc.
Qed.

(** * Properties *)

(** C15: a daemon is used for what it was started with.  When the profile's files are those that a daemon of process [pid]
    left, a client finds it while the process lives: it uses it exactly if it wants the same shares and extra disks,
    as paths, and refuses otherwise; in both cases it starts nothing and takes no file away. *)
Theorem daemon_reused fuel args (env : Env ev reply) f h pid shares disks f0 alive ip :
  broken f0 = ∅ -> 0 < pid <= 2147483647 -> alive pid = true ->
  let s := open_profile base (a_profile args) in
  let f1 := persist shares_to_json disks_to_json pid shares disks s f0 in
  (forall h, env h OpenState = Ok tt) -> (forall h, env h Helper = Ok tt) -> (forall h, env h Elsewhere = f1) ->
  (forall h, env h Processes = alive) -> fst (ensure_vm_ip base (a_profile args) f1) = Ok ip ->
  let '(r, (f', h')) := ensure_running fuel args env f h in
  r = Some (Returned (if same_shares shares (a_shares args) && same_paths disks (a_extra_disks args) then Ok tt else Err AlreadyExists)) /\
  f' = snd (ensure_vm_ip base (a_profile args) f1) /\ seen see env h' = seen see env h.
Proof.
  intros Hb Hpid Hal s f1 Hopen Hhelp Helse Hproc Hip.
  pose proof (proj1 (persisted_decision shares_to_json shares_of_json disks_to_json disks_of_json shares_json disks_json base (a_profile args) alive pid
    shares disks (a_shares args) (a_extra_disks args) f0 Hb Hpid) Hal) as Hd. cbv zeta in Hd. fold s f1 in Hd.
  unfold ensure_running, bind, call, ret, put_st. rewrite Hopen, Hhelp, Helse.
  destruct (ensure_vm_ip base (a_profile args) f1) as [ip' f2]. cbn [fst snd] in Hip |- *. rewrite Hip, Helse, Hproc. fold s. rewrite Hd. cbn [fst].
  destruct (_ && _); cbn; by rewrite !app_nil_r.
Qed.

(** C16: otherwise a daemon is started, once, and waited for.  When no daemon lives, and the state directory, the helper,
    the subnet and the program's own path are found, the log can be created, RUST_LOG is UTF-8 if it is set, the process
    can be started and the clock runs at least as far as is slept: the client takes the files of an earlier daemon away and
    starts the program once, with the arguments that mean the same configuration, a log of its own and the level of
    RUST_LOG, [info] if it is not set; it returns within 301 rounds, with success exactly if the socket was there at the
    last look, and after 60 seconds otherwise. *)
Theorem daemon_started fuel args (env : Env ev reply) f h exe rust_log :
  let s := open_profile base (a_profile args) in
  let log := path_join (profile_dir base (a_profile args)) #"daemon.log" in
  let level := match rust_log with Some (Some level) => level | _ => #"info" end in
  (forall h, env h OpenState = Ok tt) -> (forall h, env h Helper = Ok tt) ->
  (forall h, exists ip, fst (ensure_vm_ip base (a_profile args) (env h Elsewhere)) = Ok ip) ->
  (forall h h', is_daemon_alive (env h Processes) s (env h' Elsewhere) = false) ->
  (forall h, env h CurrentExe = Ok exe) -> (forall h, env h (CreateLog log) = Ok tt) -> (forall h, env h RustLog = rust_log) -> rust_log <> Some None ->
  (forall h, env h (Spawn exe (daemon_subprocess_args args) log level) = Ok tt) -> clock_runs env -> (301 <= fuel)%nat ->
  let '(r, (f', h')) := ensure_running fuel args env f h in
  exists n res os, r = Some (Returned res) /\ (n < fuel)%nat /\ waited n res os /\
    seen see env h' = seen see env h ++ Spawned exe (daemon_subprocess_args args) log level :: os /\
    (forall q, q ∈ [pid_file s; sock_file s; console_sock_file s; mounts_file s; ports_file s; extra_disks_file s] -> files f' !! q = None).
Proof.
  intros s log level Hopen Hhelp Hip Hdead Hexe Hlog Hrl Hset Hsp Hclock Hfuel.
  unfold ensure_running, spawn_daemon, bind, call, ret, put_st. rewrite Hopen, Hhelp. fold s log.
  destruct (Hip (Helper :: OpenState :: h)) as [ip Ei]. destruct (ensure_vm_ip base (a_profile args) (env _ Elsewhere)) as [ip' f2]. cbn [fst] in Ei. rewrite Ei.
  unfold decide_running. rewrite Hdead. cbn [fst]. rewrite Hexe, Hlog, Hrl.
  assert (Hwaits : forall f h1, exists n r h', wait_for_socket fuel (env h1 Now + START_TIMEOUT_MS) env f (Now :: h1) = (Some (Returned r), (f, h')) /\
    (n < fuel)%nat /\ exists os, seen see env h' = seen see env (Now :: h1) ++ os /\ waited n r os).
  { intros f3 h1. apply (wait_ends env Hclock); [|lia]. pose proof (Hclock h1 [Now]) as Ht. cbn in Ht. unfold START_TIMEOUT_MS. lia. }
  destruct rust_log as [[l|]|]; [|done|]; rewrite Hsp; clear Hset; set (fc := clear s _); set (h1 := Spawn _ _ _ _ :: _);
    destruct (Hwaits fc h1) as (n & r & h' & Hw & Hn & os & Hos & Hwait); rewrite Hw; exists n, r, os; split_and!; try done.
  1, 3: rewrite Hos; unfold h1; cbn; by rewrite !app_nil_r, <- app_assoc.
  all: intros q Hq; unfold fc, clear, remove_file; cbn [files]; rewrite !lookup_delete_None;
    rewrite !elem_of_cons, elem_of_nil in Hq; destruct Hq as [->|[->|[->|[->|[->|[->|[]]]]]]]; tauto.
Qed.
End Start.

(** * Concrete runs, with [compact_json] *)

(** A profile with these files; processes that live; a socket that is there after 400 ms. *)
Definition demo_env (f : fs) (alive : bool) (rust_log : option (option str)) : Env ev reply := fun h e =>
  match e return reply e with
  | OpenState | CreateLog _ | Spawn _ _ _ _ => Ok tt
  | Helper => Ok tt
  | Elsewhere => f
  | Processes => fun _ => alive
  | CurrentExe => Ok #"/usr/local/bin/pelagos"
  | RustLog => rust_log
  | SockExists => 400 <=? slept h
  | Now => slept h
  | Sleep _ => tt
  end.

Definition left_files : fs :=
  persist shares_to_json disks_to_json 42 (a_shares demo_args) [ #"/x" ] (open_profile #"/d" (a_profile demo_args)) (mkFs ∅ (Some []) ∅).

Lemma daemon_reused_witness :
  fst (ensure_running #"/d" 400 demo_args (demo_env left_files true None) left_files []) = Some (Returned (Err AlreadyExists)).
Proof.
  assert (Hr : 0 < 42 <= 2147483647) by lia.
  destruct (fst (ensure_vm_ip #"/d" (a_profile demo_args) left_files)) as [ip|] eqn:Eip; [|vm_compute in Eip; discriminate].
  pose proof (daemon_reused #"/d" 400 demo_args (demo_env left_files true None) left_files [] 42 (a_shares demo_args) [ #"/x" ]
    (mkFs ∅ (Some []) ∅) (fun _ => true) ip eq_refl Hr eq_refl (fun _ => eq_refl) (fun _ => eq_refl) (fun _ => eq_refl) (fun _ => eq_refl) Eip) as H.
  destruct (ensure_running _ _ _ _ _ _) as [r [f' h']]. exact (proj1 H).
Defined.

Lemma slept_app a b : slept (a ++ b) = slept a + slept b.
Proof. unfold slept. induction a as [|e a IH]; [done|]. cbn in *. lia. Qed.

Lemma demo_clock f alive l : clock_runs (demo_env f alive l).
Proof. intros h h'. cbn. rewrite slept_app. lia. Qed.

Lemma daemon_started_witness :
  let '(r, (f', h')) := ensure_running #"/d" 400 demo_args (demo_env left_files false None) left_files [] in
  exists n res os, r = Some (Returned res) /\ waited n res os /\ files f' !! #"/d/vm.pid" = None.
Proof.
  assert (Hip : forall h, exists ip, fst (ensure_vm_ip #"/d" (a_profile demo_args) (demo_env left_files false None h Elsewhere)) = Ok ip).
  { intros h. destruct (fst (ensure_vm_ip #"/d" (a_profile demo_args) left_files)) as [ip|] eqn:Eip; [by exists ip|vm_compute in Eip; discriminate]. }
  assert (Hdead : forall h h' : list ev, is_daemon_alive (demo_env left_files false None h Processes) (open_profile #"/d" (a_profile demo_args))
    (demo_env left_files false None h' Elsewhere) = false) by (intros h h'; vm_compute; reflexivity).
  assert (Hfuel : (301 <= 400)%nat) by (apply Nat.leb_le; vm_compute; reflexivity).
  pose proof (daemon_started #"/d" 400 demo_args (demo_env left_files false None) left_files [] #"/usr/local/bin/pelagos" None (fun _ => eq_refl)
    (fun _ => eq_refl) Hip Hdead (fun _ => eq_refl) (fun _ => eq_refl) (fun _ => eq_refl) ltac:(done) (fun _ => eq_refl) (demo_clock _ _ _) Hfuel) as H.
  cbv zeta in H. revert H. destruct (ensure_running _ _ _ _ _ _) as [r [f' h']]. intros (n & res & os & Hr & _ & Hw & _ & Hf).
  exists n, res, os. split; [done|]. split; [done|]. apply Hf. left.
Defined.

Example started_after_looks :
  let '(r, (_, h')) := ensure_running #"/d" 400 demo_args (demo_env left_files false None) left_files [] in
  r = Some (Returned (Ok tt)) /\ skipn 1 (seen see (demo_env left_files false None) h') = [Saw false; Saw false; Saw true].
Proof. vm_compute. split; reflexivity. Qed.

(** A value of RUST_LOG that is not UTF-8 ends the client after it took the old files away. *)
Example log_level_panics : fst (ensure_running #"/d" 400 demo_args (demo_env left_files false (Some None)) left_files []) = Some Panicked.
Proof. vm_compute. reflexivity. Qed.

(** What is written for a share. *)
Example share_text : shares_to_json [mkShare #"/Users/me" #"share0" false #"/data"] =
  json #"[{'host_path':'/Users/me','tag':'share0','read_only':false,'container_path':'/data'}]".
Proof. vm_compute. reflexivity. Qed.
