(* ===== verification/Bless.v ===== *)
(** The installation of the privileged helper ([pelagos-mac/src/bless.rs]): the search for its binary, the
    command that is run with administrator rights, and the wait for its socket. *)

From S2P Require Import Prelude RustStd Paths.

#[local] Open Scope Z_scope.

(** * Constants *)

Definition PFCTL_SOCK : str := #"/var/run/pelagos-pfctl.sock".
Definition HELPER_LABEL : str := #"com.pelagos.pfctl".
Definition PLIST_TMP : str := #"/tmp/com.pelagos.pfctl.plist".
Definition SCRIPT_TMP : str := #"/tmp/pelagos-install-pfctl.sh".

Definition quoted (s : str) : str := DQ :: s ++ [DQ].
Definition LAUNCHD_PLIST : str :=
  unlines [
    #"<?xml version=" ++ quoted #"1.0" ++ #" encoding=" ++ quoted #"UTF-8" ++ #"?>";
    #"<!DOCTYPE plist PUBLIC " ++ quoted #"-//Apple//DTD PLIST 1.0//EN";
    #"    " ++ quoted #"http://www.apple.com/DTDs/PropertyList-1.0.dtd" ++ #">";
    #"<plist version=" ++ quoted #"1.0" ++ #">";
    #"<dict>";
    #"    <key>Label</key>";
    #"    <string>com.pelagos.pfctl</string>";
    #"    <key>ProgramArguments</key>";
    #"    <array>";
    #"        <string>/Library/PrivilegedHelperTools/com.pelagos.pfctl</string>";
    #"    </array>";
    #"    <key>RunAtLoad</key>";
    #"    <true/>";
    #"    <key>KeepAlive</key>";
    #"    <true/>";
    #"    <key>StandardOutPath</key>";
    #"    <string>/var/log/pelagos-pfctl.log</string>";
    #"    <key>StandardErrorPath</key>";
    #"    <string>/var/log/pelagos-pfctl.log</string>";
    #"</dict>";
    #"</plist>"].

(** * The command *)

Definition hex_digit (n : Z) : ascii := of_byte (if n <? 10 then 48 + n else 87 + n).
Definition hex (n : Z) : str := if n <? 16 then [hex_digit n] else [hex_digit (n / 16); hex_digit (n mod 16)].

(** The [Debug] form of a string; characters beyond ASCII are taken for printable. *)
Definition debug_char (c : ascii) : str :=
  if bool_decide (c = DQ) then #"\" ++ [DQ]
  else if bool_decide (c = "\"%char) then #"\\"
  else if bool_decide (c = NL) then #"\n"
  else if bool_decide (c = CR) then #"\r"
  else if byte_of c =? 9 then #"\t"
  else if byte_of c =? 0 then #"\0"
  else if (byte_of c <? 32) || (byte_of c =? 127) then #"\u{" ++ hex (byte_of c) ++ #"}"
  else [c].
Definition debug_str (s : str) : str := quoted (flat_map debug_char s).

Definition single_quoted (s : str) : str := #"'" ++ s ++ #"'".
Definition shell_cmd (helper : str) : str :=
  single_quoted SCRIPT_TMP ++ #" " ++ single_quoted helper ++ #" " ++ single_quoted PLIST_TMP.
Definition applescript (helper : str) : str :=
  #"do shell script " ++ debug_str (shell_cmd helper) ++ #" with administrator privileges".

(** * Calls to the outside *)

Inductive ev : Type :=
| IsSocket (path : str) | CurrentExe | Exists (path : str) | Canonicalize (path : str)
| WriteFile (path text : str) | SetMode (path : str) (mode : Z) | RemoveFile (path : str)
| Osascript (script : str)           (* whether it succeeded, its error output *)
| NowMillis | Sleep (millis : Z).

Definition reply (e : ev) : Type :=
  match e with
  | IsSocket _ | Exists _ => bool
  | CurrentExe | Canonicalize _ => result str str
  | WriteFile _ _ | SetMode _ _ => result unit str
  | Osascript _ => result (bool * str) str
  | NowMillis => Z
  | RemoveFile _ | Sleep _ => unit
  end.

Abbreviation ask e := (call (R := reply) (S := unit) e).
Definition IO (A : Type) : Type := Sys ev reply unit (result A str).

Section Bless.
(** The install script, embedded from [scripts/install-pfctl-daemon.sh]. *)
Context (INSTALL_SCRIPT : str).

(** * Operations

    The texts of errors leave out the instructions for the user. *)

Definition pfctl_socket_present : Sys ev reply unit bool := ask (IsSocket PFCTL_SOCK).

Definition not_found : str := #"privileged helper not found.".

Definition find_helper_binary : IO str :=
  exe <-? ask CurrentExe ;;
  match parent exe with
  | None => ret (Err #"cannot determine exe directory")
  | Some exe_dir =>
      let dev_path := path_join (path_join exe_dir #"Contents/Library/LaunchServices") HELPER_LABEL in
      dev <- ask (Exists dev_path) ;;
      if (dev : bool) then ret (Ok dev_path) else
      let brew_path := path_join (path_join exe_dir #"../share/pelagos-mac") HELPER_LABEL in
      p <- ask (Canonicalize brew_path) ;;
      match p with
      | Ok p => there <- ask (Exists p) ;; if (there : bool) then ret (Ok p) else ret (Err not_found)
      | Err _ => ret (Err not_found)
      end
  end.

(** [wait_for_socket]; [None] is the fuel running out. *)
Fixpoint wait_until (fuel : nat) (deadline : Z) : Sys ev reply unit (option (result unit str)) :=
  match fuel with
  | O => ret None
  | S fuel =>
      present <- pfctl_socket_present ;;
      if (present : bool) then ret (Some (Ok tt)) else
      now <- ask NowMillis ;;
      if deadline <=? now then ret (Some (Err #"helper installed but its socket did not appear"))
      else (ask (Sleep 200) ;; wait_until fuel deadline)
  end.
Definition wait_for_socket (fuel : nat) (timeout : Z) : Sys ev reply unit (option (result unit str)) :=
  now <- ask NowMillis ;; wait_until fuel (now + timeout).

(** What is run as root, and what comes before it. *)
Definition run_installer : IO (bool * str) :=
  helper_src <-? find_helper_binary ;;
  ask (WriteFile PLIST_TMP LAUNCHD_PLIST) ;;?
  ask (WriteFile SCRIPT_TMP INSTALL_SCRIPT) ;;?
  ask (SetMode SCRIPT_TMP 493) ;;?
  output <- ask (Osascript (applescript helper_src)) ;;
  match output with
  | Err e => ret (Err (#"osascript: " ++ e))
  | Ok o => ret (Ok o)
  end.

Definition install_helper (fuel : nat) : Sys ev reply unit (option (result unit str)) :=
  r <- run_installer ;;
  match r with
  | Err e => ret (Some (Err e))
  | Ok (success, stderr) =>
      ask (RemoveFile PLIST_TMP) ;;
      ask (RemoveFile SCRIPT_TMP) ;;
      if negb success then ret (Some (Err (#"privileged install failed: " ++ stderr)))
      else wait_for_socket fuel 5000
  end.

Definition ensure_pfctl_blessed (fuel : nat) : Sys ev reply unit (option (result unit str)) :=
  present <- pfctl_socket_present ;;
  if (present : bool) then ret (Some (Ok tt)) else install_helper fuel.

(** * What is seen *)

Inductive op : Type := Present (b : bool) | Wrote (path text : str) | Ran (script : str) | Removed (path : str).
Definition see (e : ev) : reply e -> list op :=
  match e return reply e -> list op with
  | IsSocket _ => fun b => [Present b]
  | WriteFile p t => fun _ => [Wrote p t]
  | Osascript s => fun _ => [Ran s]
  | RemoveFile p => fun _ => [Removed p]
  | _ => fun _ => []
  end.

Definition prepared : list op := [Wrote PLIST_TMP LAUNCHD_PLIST; Wrote SCRIPT_TMP INSTALL_SCRIPT].

(** The polls of the socket: all negative but the last one of a success. *)
Definition polled (r : option (result unit str)) (os : list op) : Prop :=
  exists n, os = replicate n (Present false) ++ match r with Some (Ok _) => [Present true] | _ => [] end.

Inductive blessed : option (result unit str) -> list op -> Prop :=
| There : blessed (Some (Ok tt)) [Present true]
| Not_run e os : os `prefix_of` prepared -> blessed (Some (Err e)) (Present false :: os)
| Not_started e helper : blessed (Some (Err e)) (Present false :: prepared ++ [Ran (applescript helper)])
| Refused e helper : blessed (Some (Err e)) (Present false :: prepared ++ [Ran (applescript helper); Removed PLIST_TMP; Removed SCRIPT_TMP])
| Installed r helper polls : polled r polls ->
    blessed r (Present false :: prepared ++ [Ran (applescript helper); Removed PLIST_TMP; Removed SCRIPT_TMP] ++ polls).

(** * Lemmas *)

Lemma find_helper_silent : silent see find_helper_binary.
Proof. unfold find_helper_binary. silent_go. Qed.

Lemma run_installer_adds : adds see run_installer (fun r os => match r with
  | Ok _ => exists helper, os = prepared ++ [Ran (applescript helper)]
  | Err _ => os `prefix_of` prepared \/ exists helper, os = prepared ++ [Ran (applescript helper)] end).
Proof.
  unfold run_installer. apply adds_silent; [apply find_helper_silent|]. intros [helper|e]; [|apply adds_ret; left; apply prefix_nil].
  eapply adds_bind_known; [refine (adds_call see (WriteFile _ _) (fun _ os => os = [Wrote PLIST_TMP LAUNCHD_PLIST]) _); done|].
  intros [[]|e] os ->; [|apply adds_ret; left; by eexists].
  eapply adds_bind_known; [refine (adds_call see (WriteFile _ _) (fun _ os => os = [Wrote SCRIPT_TMP INSTALL_SCRIPT]) _); done|].
  intros [[]|e] os ->; [|apply adds_ret; left; by exists []].
  apply adds_silent; [silent_go|]. intros [[]|e]; [|apply adds_ret; left; by exists []].
  eapply adds_bind_known; [refine (adds_call see (Osascript _) (fun _ os => os = [Ran (applescript helper)]) _); done|].
  intros [o|e] os ->; apply adds_ret; [by exists helper|right; by exists helper].
Qed.

Lemma wait_until_adds fuel deadline : adds see (wait_until fuel deadline) polled.
Proof.
  induction fuel as [|fuel IH]; cbn [wait_until]; [apply adds_ret; by exists 0%nat|].
  eapply adds_bind_known; [refine (adds_call see (IsSocket _) (fun b os => os = [Present b]) _); done|]. intros [] os ->.
  - apply adds_ret. by exists 0%nat.
  - apply adds_silent; [silent_go|]. intros now. destruct (deadline <=? now); [apply adds_ret; by exists 1%nat|].
    apply adds_silent; [silent_go|]. intros u. eapply adds_weaken; [apply IH|]. intros r os [n ->]. by exists (S n).
Qed.

Lemma install_helper_adds fuel : adds see (install_helper fuel) (fun r os => blessed r (Present false :: os)).
Proof.
  unfold install_helper. eapply adds_bind_known; [apply run_installer_adds|]. intros [[success stderr]|e] os H.
  - destruct H as [helper ->].
    eapply adds_bind_known; [refine (adds_call see (RemoveFile _) (fun _ os => os = [Removed PLIST_TMP]) _); done|]. intros u os ->.
    eapply adds_bind_known; [refine (adds_call see (RemoveFile _) (fun _ os => os = [Removed SCRIPT_TMP]) _); done|]. intros u' os ->.
    destruct success; cbn [negb].
    + unfold wait_for_socket. apply adds_silent; [silent_go|]. intros now. eapply adds_weaken; [apply wait_until_adds|].
      intros r os Hp. rewrite <- !app_assoc. by apply (Installed r helper os).
    + apply adds_ret. rewrite <- !app_assoc. apply (Refused _ helper).
  - apply adds_ret. rewrite app_nil_r. destruct H as [H|[helper ->]]; [by apply Not_run|apply Not_started].
Qed.

(** The time slept. *)
Fixpoint slept (h : list ev) : Z :=
  match h with
  | [] => 0
  | Sleep n :: h => n + slept h
  | _ :: h => slept h
  end.
Definition clock_counts (env : Env ev reply) (t0 : Z) : Prop := forall h, t0 + slept h <= env h NowMillis.

Lemma wait_until_ends fuel env t0 deadline : clock_counts env t0 -> forall s h,
  deadline <= t0 + slept h + 200 * Z.of_nat fuel -> fst (wait_until (S fuel) deadline env s h) <> None.
Proof.
  intros Hc. induction fuel as [|fuel IH]; intros s h Hd; [|remember (S fuel) as f]; cbn -[Z.leb Z.of_nat wait_until];
    cbn [wait_until]; unfold pfctl_socket_present, bind at 1, call at 1; (destruct (env h _); [done|]); unfold bind at 1, call at 1.
  - specialize (Hc (IsSocket PFCTL_SOCK :: h)). cbn [slept] in Hc. rewrite (proj2 (Z.leb_le _ _)) by lia. done.
  - destruct (deadline <=? _); [done|]. unfold bind at 1, call at 1. subst f. apply IH. cbn [slept]. lia.
Qed.

(** ** The command as the shell sees it *)

(** A string literal of AppleScript, from behind its opening quote. *)
Fixpoint read_literal (s : str) : option str :=
  match s with
  | [] => None
  | c :: s =>
      if bool_decide (c = DQ) then Some []
      else if bool_decide (c = "\"%char) then
        match s with
        | [] => None
        | d :: s => option_map (cons (if bool_decide (d = "n"%char) then NL else if bool_decide (d = "r"%char) then CR
                                      else if bool_decide (d = "t"%char) then of_byte 9 else d)) (read_literal s)
        end
      else option_map (cons c) (read_literal s)
  end.

(** The words of a shell command with single quotes; [word] is the word being read, if any. *)
Fixpoint sh_words (in_quotes : bool) (word : option str) (s : str) : list str :=
  match s with
  | [] => match word with Some w => [w] | None => [] end
  | c :: s =>
      if bool_decide (c = "'"%char) then sh_words (negb in_quotes) (Some (default [] word)) s
      else if negb in_quotes && bool_decide (c = " "%char) then
        match word with Some w => w :: sh_words false None s | None => sh_words false None s end
      else sh_words in_quotes (Some (default [] word ++ [c])) s
  end.

(** Printable characters of ASCII. *)
Definition printable (c : ascii) : Prop := 32 <= byte_of c < 127.

Lemma read_debug s rest : Forall printable s -> read_literal (flat_map debug_char s ++ DQ :: rest) = Some s.
Proof.
  induction 1 as [|c s Hc Hs IH]; [done|]. cbn [flat_map]. rewrite <- app_assoc. unfold debug_char at 1.
  case_bool_decide as H1; [subst; cbn -[flat_map]; by rewrite IH|].
  case_bool_decide as H2; [subst; cbn -[flat_map]; by rewrite IH|].
  case_bool_decide as H3; [subst; by destruct Hc|]. case_bool_decide as H4; [subst; by destruct Hc|].
  unfold printable in Hc. rewrite (proj2 (Z.eqb_neq _ 9)), (proj2 (Z.eqb_neq _ 0)) by lia.
  rewrite (proj2 (Z.ltb_ge _ 32)), (proj2 (Z.eqb_neq _ 127)) by lia. cbn [orb app read_literal].
  rewrite !bool_decide_eq_false_2 by done. by rewrite IH.
Qed.

Lemma sh_word p w rest : ("'"%char ∉ p) -> sh_words true (Some w) (p ++ rest) = sh_words true (Some (w ++ p)) rest.
Proof.
  revert w. induction p as [|c p IH]; intros w Hp; [by rewrite app_nil_r|]. apply not_elem_of_cons in Hp as [Hc Hp].
  cbn [app sh_words]. rewrite bool_decide_eq_false_2 by done. cbn [negb andb default]. rewrite IH by done. by rewrite <- app_assoc.
Qed.

Lemma sh_quoted p rest : ("'"%char ∉ p) -> sh_words false None (single_quoted p ++ rest) = sh_words false (Some p) rest.
Proof.
  intros Hp. unfold single_quoted. rewrite <- !app_assoc. cbn [app sh_words String.list_ascii_of_string]. cbn [negb default].
  rewrite bool_decide_eq_true_2 by done. rewrite sh_word by done. cbn. done.
Qed.

(** * Properties *)

(** The helper is installed at most once, and cleanly.  Whatever the outside does: if the socket is there
    nothing else happens; otherwise the script is run at most once, after both files were written, and
    success is only reported after the socket was seen; once the script has been run to its end both
    temporary files are removed, before anything else happens.  With a clock that shows at least the time slept,
    26 rounds are enough for the wait. *)
Theorem bless_effect fuel env h : (exists os,
    seen see env (snd (snd (ensure_pfctl_blessed fuel env tt h))) = seen see env h ++ os /\
    blessed (fst (ensure_pfctl_blessed fuel env tt h)) os) /\
  (forall t0 now, clock_counts env t0 -> now <= t0 + slept h -> fst (wait_until 26 (now + 5000) env tt h) <> None).
Proof.
  split.
  - refine ((_ : adds see (ensure_pfctl_blessed fuel) blessed) env tt h). unfold ensure_pfctl_blessed.
    eapply adds_bind_known; [refine (adds_call see (IsSocket _) (fun b os => os = [Present b]) _); done|].
    intros [] os ->; [apply adds_ret; constructor|]. apply install_helper_adds.
  - intros t0 now Hc Hn. apply (wait_until_ends 25 env t0); [done|]. lia.
Qed.
End Bless.

(** C36: root runs what is meant.  For every path of the helper of printable ASCII characters without a single
    quote, the AppleScript literal reads as the shell command, and the shell splits that into the install script,
    the helper and the property list, whatever spaces, quotes, backslashes or dollar signs the path has. *)
Theorem install_command helper : Forall printable helper -> ("'"%char ∉ helper) ->
  exists rest, applescript helper = #"do shell script " ++ [DQ] ++ rest /\
    read_literal rest = Some (shell_cmd helper) /\
    sh_words false None (shell_cmd helper) = [SCRIPT_TMP; helper; PLIST_TMP].
Proof.
  intros Hp Hq. exists (flat_map debug_char (shell_cmd helper) ++ DQ :: #" with administrator privileges").
  split; [unfold applescript, debug_str, quoted; cbn [app]; by rewrite <- !app_assoc|]. split.
  - apply read_debug. unfold shell_cmd, single_quoted. repeat (apply Forall_app; split); try done;
      repeat (apply List.Forall_cons; [split; vm_compute; congruence|]); apply List.Forall_nil.
  - unfold shell_cmd. rewrite sh_quoted by (vm_compute; set_solver). change (#" " ++ ?x) with (" "%char :: x).
    cbn [sh_words]. rewrite bool_decide_eq_false_2 by done. cbn [negb andb]. rewrite bool_decide_eq_true_2 by done.
    rewrite sh_quoted by done. cbn [sh_words app String.list_ascii_of_string]. rewrite bool_decide_eq_false_2 by done. cbn [negb andb].
    rewrite bool_decide_eq_true_2 by done. rewrite <- (app_nil_r (single_quoted PLIST_TMP)).
    by rewrite sh_quoted by (vm_compute; set_solver).
Qed.

Definition demo_helper : str := #"/Users/a b/$x" ++ [DQ] ++ #"\c/com.pelagos.pfctl".

Lemma install_command_witness : Forall printable demo_helper /\ ("'"%char ∉ demo_helper) /\
  exists rest, applescript demo_helper = #"do shell script " ++ [DQ] ++ rest /\
    read_literal rest = Some (shell_cmd demo_helper) /\
    sh_words false None (shell_cmd demo_helper) = [SCRIPT_TMP; demo_helper; PLIST_TMP].
Proof.
  assert (Hp : Forall printable demo_helper).
  { repeat (apply List.Forall_cons; [split; vm_compute; congruence|]). apply List.Forall_nil. }
  assert (Hq : "'"%char ∉ demo_helper) by (apply (bool_decide_eq_false_1 _); vm_compute; reflexivity).
  split; [exact Hp|]. split; [exact Hq|]. exact (install_command demo_helper Hp Hq).
Defined.

(** The comment says that the paths hold no single quote; the helper's path comes from the directory of the
    program, and a quote in it ends the word: here root runs the installer with [/x/] and further words. *)
Example quote_in_path :
  sh_words false None (shell_cmd #"/x/' -c 'id/com.pelagos.pfctl") = [SCRIPT_TMP; #"/x/"; #"-c"; #"id/com.pelagos.pfctl"; PLIST_TMP].
Proof. vm_compute. reflexivity. Qed.

(** When osascript itself cannot be started the temporary files stay. *)
Definition no_osascript : Env ev reply := fun h e =>
  match e return reply e with
  | IsSocket _ => false
  | CurrentExe => Ok #"/bin/pelagos"
  | Exists _ => true
  | Canonicalize p => Ok p
  | WriteFile _ _ | SetMode _ _ => Ok tt
  | Osascript _ => Err #"not found"
  | NowMillis => slept h
  | RemoveFile _ | Sleep _ => tt
  end.
Example files_left :
  List.filter (fun o => match o with Removed _ => true | _ => false end)
    (seen see no_osascript (snd (snd (ensure_pfctl_blessed #"script" 26 no_osascript tt [])))) = [].
Proof. vm_compute. reflexivity. Qed.
