(* ===== verification/HostMain.v ===== *)
(** The command dispatch of the host program ([pelagos-mac/src/main.rs]: the command line's types, [main],
    [send_daemon_cmd], [connect_or_exit], the [vm] commands and the commands that prepare files for the
    guest). *)

From S2P Require Import Prelude RustStd Paths Json Wire VmState PortDaemon GuestProto HostClient Clock HostCli.

#[local] Open Scope Z_scope.

(** * The command line *)

Record RunArgs := mkRun {
  r_image : str; r_args : list str; r_name : option str; r_detach : bool; r_env : list str; r_labels : list str;
  r_interactive : bool; r_tty : bool; r_network : list str; r_dns : list str }.

Inductive ComposeSubcmd : Type :=
| Up (file : str) (project : option str) (foreground : bool)
| Down (file : str) (project : option str) (remove_volumes : bool)
| ComposePs (file : str) (project : option str)
| ComposeLogs (file : str) (project : option str) (follow : bool) (service : option str).

Inductive ImageCmd : Type :=
| Ls (json : bool)
| Pull (reference : str)
| ImgRm (reference : str)
| Tag (source target : str)
| ImgInspect (reference : str)
| Login (registry : str) (username : option str) (password_stdin : bool)
| Logout (registry : str).

Inductive VmCommands : Type :=
| VmStart | VmStop | VmStatus | VmShell | VmConsole | VmSsh (extra : list str) | VmLs
| VmInit (vm_data : option str) (force : bool).

Inductive KubernetesCmd : Type := KStatus | KStart | KStop.

Inductive Commands : Type :=
| Run (r : RunArgs)
| Exec (container : str) (args : list str) (tty : bool) (user workdir : option str)
| Ps (all json : bool)
| Logs (name : str) (follow : bool)
| Inspect (name : str)
| Container_Prune
| Start (name : str) (interactive : bool) (cmd : list str)
| Stop (name : str)
| Restart (name : str) (time : Z)
| Rm (name : str) (force : bool)
| Ping
| Version
| Subscribe
| Build (tag file : str) (build_args : list str) (no_cache : bool) (target : option str) (context : str)
| Image (cmd : ImageCmd)
| Volume (sub : str) (name : option str)
| Network (sub : str) (args : list str)
| Compose (sub : ComposeSubcmd)
| Cp (src dst : str)
| Vm (sub : VmCommands)
| Kubernetes (sub : KubernetesCmd)
| VmDaemonInternal
| SshRelayProxy (port : Z).

(** * Calls out of the program *)

Inductive ev : Type :=
(** [daemon::ensure_running], [daemon::run] and the relays, which are components of their own *)
| EnsureRunning (a : DaemonArgs)
| RunDaemon (a : DaemonArgs)
| RelaySsh (port : Z)
| ConsoleSession (sock : str)
(** a connection to the daemon; one line asked and answered; a request or a file sent to the guest;
    everything the guest sends until it closes *)
| Connect
| Ask (line : str)
| Send (cmd : GuestCommand)
| SendFile (path : str)
| Receive
(** the terminal *)
| IsTty
| Show (s : screen)
| ShowFrames (l : list chunk)
| Print (s : str)
| Eprint (s : str)
| ReadLine
| PromptPassword
(** processes *)
| Signal0 (pid : Z)
| Terminate (pid : Z)
| Status (prog : str) (argv : list str)
| Output (prog : str) (argv : list str)
| Untar (dir : str)
(** files and directories *)
| ReadFile (path : str)
| WriteFile (path text : str)
| Exists (path : str)
| IsDir (path : str)
| Canonicalize (path : str)
| CreateDirs (path : str)
| RemoveDirs (path : str)
| CopyFile (src dst : str)
| FileSize (path : str)
| RemoveFile (path : str)
| ListDirs (path : str)
(** time, in the units of the source *)
| NowMicros
| NowMillis
| Sleep (millis : Z).

Record output := mkOutput { out_err : str; out_code : option Z }.

Definition reply (e : ev) : Type :=
  match e with
  | EnsureRunning _ | Connect | CreateDirs _ | WriteFile _ _ | CopyFile _ _ => result unit str
  | RunDaemon _ | RelaySsh _ => Z
  | ConsoleSession _ => result Z str
  | Ask _ | ReadLine | PromptPassword | ReadFile _ | Canonicalize _ => result str str
  | Send _ | SendFile _ | IsTty | Signal0 _ | Exists _ | IsDir _ => bool
  | Receive => (str * Wire.io_error)%type
  | Status _ _ => result (option Z) str
  | Output _ _ => result output str
  | Untar _ => str -> bool                              (* whether a payload is extracted *)
  | FileSize _ => result nat str
  | ListDirs _ => option (list str)
  | NowMicros | NowMillis => Z
  | Show _ | ShowFrames _ | Print _ | Eprint _ | Terminate _ | RemoveDirs _ | RemoveFile _ | Sleep _ => unit
  end.

Abbreviation ask e := (call (R := reply) (S := unit) e).

(** A command ends the process with a code ([Err]) or goes on. *)
Definition M (A : Type) : Type := Sys ev reply unit (result A Z).
(** Functions that return an [io::Result]. *)
Definition IO (A : Type) : Type := Sys ev reply unit (result A str).

Definition ok {A X} (a : A) : Sys ev reply unit (result A X) := ret (Ok a).
Definition exit {A} (code : Z) : M A := ret (Err code).
Definition fail {A} (e : str) : IO A := ret (Err e).
Definition println (s : str) : Sys ev reply unit unit := ask (Print (s ++ [NL])).
Definition eprintln (s : str) : Sys ev reply unit unit := ask (Eprint (s ++ [NL])).

(** [if let Err(e) = m { log; process::exit(1) }] *)
Definition or_exit {A} (m : IO A) : M A :=
  r <- m ;; match r with Ok a => ok a | Err _ => exit 1 end.

Section Main.
Context {J : Json}.
(** The codecs (serde), case mapping, decoding and the traversal order of hash maps. *)
Context (parse_response : str -> option GuestResponse) (utf8 : str -> bool) (pretty : Json.Value -> str).
Context (cmd_text : DaemonCmd -> str) (parse_reply : str -> option DaemonResponse).
Context (lower lossy : str -> str) (order : gmap str str -> list (str * str)).
(** What the process finds: its host, the variables, the working directory, its version, the options. *)
Context (e : host) (var : str -> option str) (cwd : option str) (temp_dir mac_version : str) (cli : Cli).

#[local] Abbreviation profile := (cli_profile cli).

(** * The profile's state *)

Definition profile_path : option str := b ← pelagos_base e; Some (profile_dir b profile).

(** [StateDir::open_profile] of a profile *)
Definition open_named (name : str) : IO StateDir :=
  match pelagos_base e with
  | None => fail #"$HOME not set"
  | Some b => ask (CreateDirs (profile_dir b name)) ;;? ok (open_profile b name)
  end.
Definition open_state : IO StateDir := open_named profile.

(** [StateDir::running_pid] *)
Definition running_pid (s : StateDir) : Sys ev reply unit (option Z) :=
  text <- ask (ReadFile (pid_file s)) ;;
  match (text : result str str) with
  | Err _ => ret None
  | Ok t =>
      match parse_u32 (trim t) with
      | None => ret None
      | Some pid => alive <- ask (Signal0 (as_i32 pid)) ;; ret (if (alive : bool) then Some pid else None)
      end
  end.

Definition is_daemon_alive (s : StateDir) : Sys ev reply unit bool :=
  pid <- running_pid s ;; ret (bool_decide (is_Some pid)).

(** [VmProfileConfig::load(..)]; a missing file is the default configuration, and so is an error after
    [unwrap_or_default]. *)
Definition load_config (name : str) : Sys ev reply unit VmProfileConfig :=
  match pelagos_base e with
  | None => ret default_config
  | Some b =>
      text <- ask (ReadFile (conf_path b name)) ;;
      ret (match (text : result str str) with Ok t => parse_config t | Err _ => default_config end)
  end.

(** * Reaching the daemon and the guest *)

Definition daemon_args : M DaemonArgs :=
  match daemon_args_from_cli e cli with Some a => ok a | None => exit 1 end.

(** The lines every command that needs the machine starts with. *)
Definition ensure_running : M DaemonArgs :=
  a <-? daemon_args ;;
  or_exit (ask (EnsureRunning a)) ;;?
  ok a.

Definition connect_or_exit : M unit := or_exit (ask Connect).

(** What the guest answers, if it was asked. *)
Definition receive_if (sent : bool) : Sys ev reply unit (str * Wire.io_error) :=
  if sent then ask Receive else ret ([], UnexpectedEof).

(** A request on the connection and the command that handles the reply, with the exit code it gives. *)
Definition converse (cmd : GuestCommand) (handle : bool -> str -> Z * screen) : M unit :=
  sent <- ask (Send cmd) ;;
  answer <- receive_if sent ;;
  let '(code, scr) := handle sent (fst answer) in
  ask (Show scr) ;;
  exit code.

Definition passthrough (cmd : GuestCommand) : M unit := converse cmd (passthrough_command parse_response utf8).

(** [exec_command]; the terminal's mode and the thread that sends the input are not part of it. *)
Definition session (cmd : GuestCommand) : M unit :=
  sent <- ask (Send cmd) ;;
  answer <- receive_if sent ;;
  let '(code, scr, out) := exec_command parse_response utf8 sent (fst answer) (snd answer) in
  ask (Show scr) ;;
  ask (ShowFrames out) ;;
  exit code.

(** Most commands: the machine, a connection, one request. *)
Definition on_vm (k : M unit) : M unit := ensure_running ;;? connect_or_exit ;;? k.

(** [tty || isatty(stdout)] *)
Definition want_tty (tty : bool) : M bool :=
  if tty then ok true else b <- ask IsTty ;; ok (b : bool).

(** * Commands to the daemon itself *)

Definition send_daemon_cmd (cmd : DaemonCmd) : IO unit :=
  ask Connect ;;?
  line <-? ask (Ask (cmd_text cmd ++ [NL])) ;;
  match parse_reply (trim line) with
  | Some RespOk => ok tt
  | Some (RespErr message) => fail message
  | None => fail #"invalid response"
  end.

Fixpoint register_ports (specs : list str) : M unit :=
  match specs with
  | [] => ok tt
  | spec :: specs =>
      match parse_port_spec spec with
      | None => register_ports specs
      | Some pf =>
          or_exit (send_daemon_cmd (RegisterPort (host_port pf) (PortDaemon.container_port pf))) ;;?
          register_ports specs
      end
  end.

Definition unregister_port (hp : Z) : Sys ev reply unit unit := send_daemon_cmd (UnregisterPort hp) ;; ret tt.

Definition host_ports (specs : list str) : list Z := omap (fun spec => host_port <$> parse_port_spec spec) specs.

(** The loop of [compose]: what was registered is taken back when a registration fails. *)
Fixpoint register_or_roll_back (specs : list str) (registered : list Z) : M (list Z) :=
  match specs with
  | [] => ok registered
  | spec :: specs =>
      match parse_port_spec spec with
      | None => register_or_roll_back specs registered
      | Some pf =>
          r <- send_daemon_cmd (RegisterPort (host_port pf) (PortDaemon.container_port pf)) ;;
          match r with
          | Ok _ => register_or_roll_back specs (registered ++ [host_port pf])
          | Err _ => for_each registered unregister_port ;; exit 1
          end
      end
  end.

(** * [run] *)

(** The guest's mount for one [-v] option. *)
Definition guest_mount (home : str) (shares : list VirtiofsShare) (spec : str) : option GuestMount :=
  match splitn 3 ":" spec with
  | host_path :: container_path :: _ =>
      if negb (bool_decide (home = [])) && (bool_decide (host_path = home) || starts_with (home ++ #"/") host_path)
      then Some (mkMount #"share0" (unwrap_or (strip_prefix (home ++ #"/") host_path) []) container_path)
      else
        share ← List.find (fun s => bool_decide (components (VmState.host_path s) = components host_path)) shares;
        Some (mkMount (VmState.tag share) [] container_path)
  | _ => None
  end.
Definition guest_mounts (a : DaemonArgs) : list GuestMount :=
  omap (guest_mount (unwrap_or (home e) []) (a_shares a)) (cli_volumes cli).

(** The environment of the container: later values replace earlier ones. *)
Definition env_map (env : list str) : gmap str str :=
  fold_left (fun m kv => match split_once "=" kv with Some (k, v) => <[k := v]> m | None => m end) env ∅.

Definition launch (r : RunArgs) (mounts : list GuestMount) : Launch :=
  mkLaunch (r_image r) (r_args r) (order (env_map (r_env r))) mounts (r_name r) (r_labels r) (cli_ports cli)
    (Some (unwrap_or (head (r_network r)) #"pasta")) (r_dns r).

Definition run (r : RunArgs) : M unit :=
  a <-? ensure_running ;;
  register_ports (cli_ports cli) ;;?
  if r_interactive r || r_tty r then
    tty <-? want_tty (r_tty r) ;;
    connect_or_exit ;;?
    session (GuestProto.Exec (launch r (guest_mounts a)) tty)
  else
    connect_or_exit ;;?
    code <- passthrough (GuestProto.Run (launch r (guest_mounts a)) (r_detach r)) ;;
    (if r_detach r then ret tt else for_each (host_ports (cli_ports cli)) unregister_port) ;;
    ret code.

(** * [compose] *)

(** File, project, subcommand and its options. *)
Definition compose_parts (sub : ComposeSubcmd) : str * option str * str * list str :=
  match sub with
  | Up file project foreground => (file, project, #"up", if foreground then [ #"--foreground"] else [])
  | Down file project remove_volumes => (file, project, #"down", if remove_volumes then [ #"--volumes"] else [])
  | ComposePs file project => (file, project, #"ps", [])
  | ComposeLogs file project follow service =>
      (file, project, #"logs", (if follow then [ #"--follow"] else []) ++ match service with Some s => [s] | None => [] end)
  end.

Definition abs_compose_file (file : str) : str :=
  if is_absolute file then file else path_join (unwrap_or cwd #".") file.

(** The path of a file under the home directory in the guest. *)
Definition vm_file_of (home abs_file : str) : str :=
  #"/mnt/share0/" ++ trim_start_matches "/" (lossy (unwrap_or (path_strip_prefix abs_file home) abs_file)).

Definition compose (sub : ComposeSubcmd) : M unit :=
  let '(file, project, subcommand_name, extra_args) := compose_parts sub in
  let abs_file := abs_compose_file file in
  let home := unwrap_or (HostCli.home e) [] in
  if bool_decide (home = []) || negb (path_starts_with abs_file home) then
    eprintln (#"error: compose file " ++ abs_file ++ #" is outside $HOME — only paths under $HOME are accessible in the VM without a restart") ;;
    exit 1
  else
    let vm_file := vm_file_of home abs_file in
    let working_dir := lossy (unwrap_or (parent vm_file) #"/mnt/share0") in
    ensure_running ;;?
    let project_name := compose_project_name lower abs_file project in
    registered_ports <-? register_or_roll_back (cli_ports cli) [] ;;
    (if bool_decide (registered_ports = []) then ret tt
     else send_daemon_cmd (TrackComposeProject project_name registered_ports) ;; ret tt) ;;
    content <- ask (ReadFile abs_file) ;;
    let compose_env := collect_compose_env (match (content : result str str) with Ok c => Some c | Err _ => None end) var in
    connect_or_exit ;;?
    code <- passthrough (GuestProto.Compose subcommand_name vm_file working_dir project extra_args (order compose_env)) ;;
    send_daemon_cmd (UnregisterComposePorts project_name) ;;
    ret code.

(** * Images *)

(** [image_login_command] up to its request. *)
Definition login_username (username : option str) : M str :=
  match username with
  | Some u => ok u
  | None =>
      ask (Eprint #"Username: ") ;;
      u <- ask ReadLine ;;
      match (u : result str str) with
      | Ok u => if bool_decide (trim u = []) then eprintln #"error: username is required" ;; exit 1 else ok (trim u)
      | Err _ => eprintln #"error: username is required" ;; exit 1
      end
  end.

Definition login_password (password_stdin : bool) : M str :=
  p <- (if password_stdin then ask ReadLine else ask PromptPassword : Sys ev reply unit (result str str)) ;;
  match p with
  | Ok p => ok (if password_stdin then trim_end_matches CR (trim_end_matches NL p) else p)
  | Err err =>
      eprintln (if password_stdin then #"error: failed to read password from stdin"
                else #"error: failed to read password: " ++ err) ;;
      exit 1
  end.

Definition image_login_command (registry : str) (username : option str) (password_stdin : bool) : M unit :=
  username <-? login_username username ;;
  password <-? login_password password_stdin ;;
  passthrough (ImageLogin registry username password).

Definition image_command (cmd : ImageCmd) : M unit :=
  match cmd with
  | Ls json => passthrough (ImageLs json)
  | Pull reference => passthrough (ImagePull reference)
  | ImgRm reference => passthrough (ImageRm reference)
  | Tag source target => passthrough (ImageTag source target)
  | ImgInspect reference =>
      converse (ImageInspect reference)
        (fun sent s => inspect_image_command parse_response utf8 pretty sent reference s)
  | Login registry username password_stdin => image_login_command registry username password_stdin
  | Logout registry => passthrough (ImageLogout registry)
  end.

(** * [build] and [cp] *)

(** [Command::status()] with success. *)
Definition run_ok (prog : str) (argv : list str) : M unit :=
  r <- ask (Status prog argv) ;;
  if bool_decide ((r : result (option Z) str) = Ok (Some 0)) then ok tt else exit 1.

(** The same, with a directory that is removed when it fails. *)
Definition or_clean_up {A} (scratch : str) (m : M A) : M A :=
  r <- m ;;
  match r with
  | Ok a => ok a
  | Err code => ask (RemoveDirs scratch) ;; ret (Err code)
  end.

(** The context and the name of the Dockerfile in it: a Dockerfile outside the context is copied into a
    copy of the context. *)
Definition build_context (dockerfile context : str) : M (str * str) :=
  if is_absolute dockerfile && negb (path_starts_with dockerfile context) then
    ts <- ask NowMicros ;;
    let scratch := path_join temp_dir (#"pelagos-ctx-prep-" ++ dec ts) in
    or_exit (ask (CreateDirs scratch)) ;;?
    or_clean_up scratch (run_ok #"cp" [ #"-a"; context ++ #"/."; scratch]) ;;?
    let name := unwrap_or (file_name dockerfile) #"Dockerfile" in
    or_clean_up scratch (or_exit (ask (CopyFile dockerfile (path_join scratch name)))) ;;?
    ok (scratch, name)
  else ok (context, unwrap_or (file_name dockerfile) dockerfile).

(** The size of a file, which is removed when it cannot be found out. *)
Definition size_or_exit (path : str) : M nat :=
  r <- ask (FileSize path) ;;
  match (r : result nat str) with Ok n => ok n | Err _ => ask (RemoveFile path) ;; exit 1 end.

(** The request and the archive after it, which is removed in any case, and the loop over the reply. *)
Definition send_archive (cmd : GuestCommand) (path : str) : M unit :=
  sent <- ask (Send cmd) ;;
  if negb (sent : bool) then ask (RemoveFile path) ;; exit 1
  else
    copied <- ask (SendFile path) ;;
    ask (RemoveFile path) ;;
    if negb (copied : bool) then exit 1
    else
      answer <- ask Receive ;;
      let '(code, scr) := passthrough_command parse_response utf8 true (fst (answer : str * Wire.io_error)) in
      ask (Show scr) ;;
      exit code.

Definition build_command (tag dockerfile : str) (build_args : list str) (no_cache : bool) (context : str) : M unit :=
  c <-? build_context dockerfile context ;;
  let '(effective_context, dockerfile_name) := c in
  ts <- ask NowMicros ;;
  let tar_path := path_join temp_dir (#"pelagos-ctx-" ++ dec ts ++ #".tar.gz") in
  tarred <- run_ok #"tar" [ #"czf"; tar_path; #"-C"; effective_context; #"."] ;;
  (if bool_decide (components effective_context = components context) then ret tt
   else ask (RemoveDirs effective_context)) ;;
  match tarred with
  | Err code => exit code
  | Ok _ =>
      context_size <-? size_or_exit tar_path ;;
      send_archive (GuestProto.Build tag dockerfile_name build_args no_cache context_size) tar_path
  end.

Definition cp_to (local_src container dst : str) : M unit :=
  ts <- ask NowMicros ;;
  let tar_path := path_join temp_dir (#"pelagos-cp-" ++ dec ts ++ #".tar") in
  is_dir <- ask (IsDir local_src) ;;
  let '(tar_dir, tar_name) := cp_src is_dir local_src in
  run_ok #"tar" [ #"cf"; tar_path; #"-C"; tar_dir; tar_name] ;;?
  data_size <-? size_or_exit tar_path ;;
  send_archive (CpTo container dst data_size) tar_path.

(** The directory and the extraction are asked for before the reply is read; they only matter when it
    announces a payload. *)
Definition cp_from (container src local_dst : str) : M unit :=
  sent <- ask (Send (CpFrom container src)) ;;
  answer <- receive_if sent ;;
  is_dir <- ask (IsDir local_dst) ;;
  extract <- ask (Untar (cp_dst_dir is_dir local_dst)) ;;
  exit (fst (cp_from_command parse_response utf8 sent extract (fst answer))).

Definition cp (src dst : str) : M unit :=
  match parse_container_path src with
  | Some (container, src_path) => cp_from container src_path dst
  | None =>
      match parse_container_path dst with
      | Some (container, dst_path) => cp_to src container dst_path
      | None => exit 1
      end
  end.

(** * [ping] *)

Definition VM_SSH_PORT : Z := 22.

(** [state::global_ssh_key_file] *)
Definition global_ssh_key_file : option str := b ← pelagos_base e; Some (path_join b #"vm_key").

(** The options of every [ssh] call. *)
Definition ssh_options (ssh_key : str) : list str :=
  [ #"-i"; ssh_key; #"-o"; #"StrictHostKeyChecking=no"; #"-o"; #"UserKnownHostsFile=/dev/null"; #"-o"; #"LogLevel=ERROR";
    #"-o"; #"ControlMaster=no"].

Definition ping_args (ssh_key exe : str) : list str :=
  let proxy_cmd := exe ++ #" --profile " ++ profile ++ #" ssh-relay-proxy " ++ dec VM_SSH_PORT in
  ssh_options ssh_key ++ [ #"-o"; #"ConnectTimeout=30"; #"-o"; #"ProxyCommand=" ++ proxy_cmd; #"root@vm"; #"true"].

(** What [ssh] said when it failed. *)
Definition report_error (progress : str) (out : result output str) : Sys ev reply unit unit :=
  match out with
  | Ok o =>
      let msg := trim (lossy (out_err o)) in
      if bool_decide (msg = []) then ret tt else ask (Eprint (progress ++ #"s): " ++ msg ++ [NL]))
  | Err _ => ret tt
  end.

(** Attempts until one succeeds or the deadline is over; [None]: out of fuel. *)
Fixpoint ping_attempts (fuel : nat) (attempt : Z) (argv : list str) (start deadline : Z) : Sys ev reply unit (option Z) :=
  match fuel with
  | O => ret None
  | S fuel =>
      now <- ask NowMillis ;;
      let progress := [CR] ++ #"[ping] attempt " ++ dec attempt ++ #" (" ++ dec ((now - start) / 1000) in
      ask (Eprint (progress ++ #"s elapsed) ...")) ;;
      out <- ask (Output #"ssh" argv) ;;
      if match (out : result output str) with Ok o => bool_decide (out_code o = Some 0) | Err _ => false end then
        ask (Eprint [NL]) ;; println #"pong" ;; ret (Some 0)
      else
        report_error progress out ;;
        now <- ask NowMillis ;;
        if deadline <=? now then ask (Eprint [NL]) ;; ret (Some 1)
        else ask (Sleep 15000) ;; ping_attempts fuel (attempt + 1) argv start deadline
  end.

Definition PING_MILLIS : Z := 600 * 1000.

Definition ping_ssh (fuel : nat) : M unit :=
  match global_ssh_key_file, exe e with
  | Some ssh_key, Some exe =>
      start <- ask NowMillis ;;
      code <- ping_attempts fuel 1 (ping_args ssh_key exe) start (start + PING_MILLIS) ;;
      exit (unwrap_or code 1)
  | _, _ => exit 1
  end.

Definition ping (fuel : nat) : M unit :=
  ensure_running ;;?
  cfg <- load_config profile ;;
  match ping_mode cfg with
  | Ssh => ping_ssh fuel
  | Vsock => connect_or_exit ;;? converse GuestProto.Ping (ping_command parse_response utf8)
  end.

(** * [vm] *)

(** Waiting until the daemon is gone: whether it is, by the deadline; [None]: out of fuel. *)
Fixpoint wait_gone (fuel : nat) (s : StateDir) (deadline : Z) : Sys ev reply unit (option bool) :=
  match fuel with
  | O => ret None
  | S fuel =>
      now <- ask NowMillis ;;
      if deadline <=? now then ret (Some false)
      else
        pid <- running_pid s ;;
        match pid with
        | None => ret (Some true)
        | Some _ => ask (Sleep 100) ;; wait_gone fuel s deadline
        end
  end.

Definition STOP_MILLIS : Z := 45 * 1000.

Definition wait_for_exit (fuel : nat) (s : StateDir) : Sys ev reply unit (option bool) :=
  start <- ask NowMillis ;;
  wait_gone fuel s (start + STOP_MILLIS).

Definition vm_stop (fuel : nat) : M unit :=
  s <-? or_exit open_state ;;
  pid <- running_pid s ;;
  match pid with
  | None => println #"no VM running" ;; ok tt
  | Some pid =>
      ask (Terminate (as_i32 pid)) ;;
      println (#"sent SIGTERM to daemon (pid " ++ dec pid ++ #")") ;;
      wait_for_exit fuel s ;;
      ok tt
  end.

Definition vm_status : M unit :=
  s <-? or_exit open_state ;;
  pid <- running_pid s ;;
  match pid with
  | None => println #"stopped" ;; exit 1
  | Some pid => println (#"running (pid " ++ dec pid ++ #")") ;; ok tt
  end.

(** One line of [vm ls]. *)
Definition ls_line (name access mem cpus status : str) : str :=
  join #"  " [pad_right 10 name; pad_right 10 access; pad_left 7 mem; pad_left 5 cpus; pad_right 20 status].
Definition ls_row (name : str) (cfg : VmProfileConfig) (pid : option Z) : str :=
  ls_line name (match ping_mode cfg with Ssh => #"ssh" | Vsock => #"vsock/shell" end)
    (match memory cfg with Some m => dec m ++ #" MB" | None => #"-" end)
    (match cpus cfg with Some c => dec c | None => #"-" end)
    (match pid with Some p => #"running (pid " ++ dec p ++ #")" | None => #"stopped" end).
Definition ls_header : list str :=
  [ls_line #"PROFILE" #"ACCESS" #"MEMORY" #"CPUS" #"STATUS";
   join #"  " (map (fun n => replicate n "-"%char) [10; 10; 7; 5; 20]%nat)].

Definition profile_row (name : str) : Sys ev reply unit str :=
  s <- open_named name ;;
  pid <- (match s with Ok s => running_pid s | Err _ => ret None end : Sys ev reply unit (option Z)) ;;
  cfg <- load_config name ;;
  ret (ls_row name cfg pid).
Fixpoint profile_rows (names : list str) : Sys ev reply unit (list str) :=
  match names with
  | [] => ret []
  | n :: names => r <- profile_row n ;; rs <- profile_rows names ;; ret (r :: rs)
  end.

Definition vm_ls : M unit :=
  match pelagos_base e with
  | None => exit 1
  | Some base =>
      first <- profile_row #"default" ;;
      dirs <- ask (ListDirs (path_join base #"profiles")) ;;
      rows <- profile_rows (sort_strs (map lossy (unwrap_or (dirs : option (list str)) []))) ;;
      for_each (ls_header ++ first :: rows) println ;;
      ok tt
  end.

(** [vm ssh] once the machine runs. *)
Definition ssh_session (extra : list str) : M unit :=
  match global_ssh_key_file with
  | None => eprintln #"error: $HOME not set" ;; exit 1
  | Some ssh_key =>
      found <- ask (Exists ssh_key) ;;
      if negb (found : bool) then
        eprintln (#"error: SSH key not found at " ++ ssh_key ++ #". Rebuild the VM image with 'make image'.") ;; exit 1
      else
        cfg <- load_config profile ;;
        let guest_ip := unwrap_or (vm_ip cfg) DEFAULT_GUEST_IP in
        status <- ask (Status #"ssh" (ssh_options ssh_key ++ [ #"root@" ++ show_ipv4 guest_ip] ++ extra)) ;;
        match (status : result (option Z) str) with
        | Ok code => exit (unwrap_or code 1)
        | Err err => eprintln (#"ssh: " ++ err) ;; exit 1
        end
  end.

Definition vm_ssh (extra : list str) : M unit :=
  s <-? or_exit open_state ;;
  alive <- is_daemon_alive s ;;
  if alive then ssh_session extra else ensure_running ;;? ssh_session extra.

Definition vm_console : M unit :=
  ensure_running ;;?
  s <- open_state ;;
  match s with
  | Err err => eprintln (#"error: " ++ err) ;; exit 1
  | Ok s =>
      found <- ask (Exists (console_sock_file s)) ;;
      if negb (found : bool) then eprintln #"error: console socket not found (daemon may still be starting)" ;; exit 1
      else
        code <- ask (ConsoleSession (console_sock_file s)) ;;
        match (code : result Z str) with
        | Ok code => exit code
        | Err err => eprintln (#"console connect: " ++ err) ;; exit 1
        end
  end.

(** * [vm init] *)

(** The first of the paths that exists. *)
Fixpoint first_existing (paths : list str) : Sys ev reply unit (option str) :=
  match paths with
  | [] => ret None
  | p :: paths => found <- ask (Exists p) ;; if (found : bool) then ret (Some p) else first_existing paths
  end.
Definition existing_or {A} (err : str) (paths : list str) (k : str -> IO A) : IO A :=
  p <- first_existing paths ;;
  match p with Some p => k p | None => fail err end.

(** Step 0: a running machine is left alone. *)
Definition refuse_running : IO unit :=
  s <- open_state ;;
  match s with
  | Err _ => ok tt
  | Ok s =>
      pid <- running_pid s ;;
      match pid with
      | Some pid => fail (#"VM is running (pid " ++ dec pid ++ #"). Stop it first with 'pelagos vm stop', then re-run "
                            ++ #"'pelagos vm init', or pass --force to stop it automatically.")
      | None => ok tt
      end
  end.

(** Steps 1 and 2: kernel and initial file system for the configuration, and the disk. *)
Definition init_artifacts (vm_data : option str) : IO (option str * option str * str) :=
  match vm_data with
  | Some p =>
      dir <-? ask (Canonicalize p) ;;
      existing_or (#"vmlinuz not found in " ++ dir) (map (path_join dir) [ #"vmlinuz"; #"ubuntu-vmlinuz"]) (fun kernel =>
        initrd <- first_existing (map (path_join dir) [ #"initramfs.gz"; #"initramfs-custom.gz"]) ;;
        existing_or (#"root.img not found in " ++ dir) [path_join dir #"root.img"] (fun disk =>
          ok (Some kernel, initrd, disk)))
  | None =>
      match exe e with
      | None => fail #"cannot locate binary"
      | Some binary =>
          match parent binary with
          | None => fail #"binary has no parent directory"
          | Some bin_dir =>
              existing_or (#"root.img not found. Specify --vm-data <dir> or run "
                           ++ #"'brew install pelagos-containers/tap/pelagos-mac' first.")
                (map (fun d => path_join (path_join bin_dir d) #"root.img")
                   [ #"../share/pelagos-mac"; #"share/pelagos-mac"; #"../../../out"])
                (fun disk => ok (None, None, disk))
          end
      end
  end.

(** Step 3b: a running machine is stopped. *)
Definition stop_running (fuel : nat) : IO unit :=
  s <- open_state ;;
  match s with
  | Err _ => ok tt
  | Ok s =>
      pid <- running_pid s ;;
      match pid with
      | None => ok tt
      | Some pid =>
          println (#"Stopping running VM (pid " ++ dec pid ++ #") …") ;;
          ask (Terminate (as_i32 pid)) ;;
          wait_for_exit fuel s ;;
          running_pid s ;;
          ok tt
      end
  end.

(** Step 4: the text of [vm.conf]. *)
Definition conf_text (dst_disk : str) (kernel initrd : option str) : str :=
  #"# vm.conf — written by pelagos vm init" ++ [NL]
  ++ #"# kernel and initrd are discovered automatically from the Homebrew" ++ [NL]
  ++ #"# pkgshare unless overridden here (e.g. via --vm-data for dev builds)." ++ [NL]
  ++ #"disk   = " ++ dst_disk ++ [NL]
  ++ match kernel with Some k => #"kernel = " ++ k ++ [NL] | None => [] end
  ++ match initrd with Some i => #"initrd = " ++ i ++ [NL] | None => [] end.

Definition copy_disk (force : bool) (state_dir src dst : str) : IO unit :=
  present <- ask (Exists dst) ;;
  if negb (present : bool) || force then
    ask (Print (#"Copying root.img to " ++ state_dir ++ #" … ")) ;;
    ask (CopyFile src dst) ;;?
    println #"done" ;; ok tt
  else println (#"root.img already present at " ++ dst ++ #" — reusing") ;; ok tt.

Definition vm_init (fuel : nat) (vm_data : option str) (force : bool) : IO unit :=
  (if force then ok tt else refuse_running) ;;?
  artifacts <-? init_artifacts vm_data ;;
  let '(kernel_for_conf, initrd_for_conf, src_disk) := artifacts in
  match profile_path with
  | None => fail #"$HOME not set"
  | Some state_dir =>
      ask (CreateDirs state_dir) ;;?
      let dst_disk := path_join state_dir #"root.img" in
      let vm_conf := path_join state_dir #"vm.conf" in
      configured <- ask (Exists vm_conf) ;;
      if (configured : bool) && negb force
      then fail (#"vm.conf already exists at " ++ vm_conf ++ #". Use --force to overwrite.")
      else
        (if force then stop_running fuel else ok tt) ;;?
        copy_disk force state_dir src_disk dst_disk ;;?
        ask (WriteFile vm_conf (conf_text dst_disk kernel_for_conf initrd_for_conf)) ;;?
        println (#"Wrote " ++ vm_conf) ;;
        let pelagos := if bool_decide (profile = #"default") then #"pelagos" else #"pelagos --profile " ++ profile in
        println [] ;;
        println #"VM initialised. To verify:" ;;
        println (#"  " ++ pelagos ++ #" ping   # cold-boots the VM with the new image, should print 'pong'") ;;
        println (#"  " ++ pelagos ++ #" run alpine echo hello  # should print 'hello'") ;;
        ok tt
  end.

(** * The rest of the dispatch *)

Definition vm_command (fuel : nat) (sub : VmCommands) : M unit :=
  match sub with
  | VmStart => ensure_running ;;? println #"running" ;; ok tt
  | VmStop => vm_stop fuel
  | VmStatus => vm_status
  | VmShell => tty <-? want_tty false ;; on_vm (session (Shell tty))
  | VmConsole => vm_console
  | VmSsh extra => vm_ssh extra
  | VmLs => vm_ls
  | VmInit vm_data force =>
      r <- vm_init fuel vm_data force ;;
      match r with Ok _ => ok tt | Err err => eprintln (#"error: " ++ err) ;; exit 1 end
  end.

Definition exec (container : str) (args : list str) (tty : bool) (workdir : option str) : M unit :=
  tty <-? want_tty tty ;;
  on_vm (session (ExecInto container args [] tty workdir)).

(** [open_profile(..).map(is_daemon_alive).unwrap_or(false)] *)
Definition alive_or_false : Sys ev reply unit bool :=
  s <- open_state ;;
  match s with Ok s => is_daemon_alive s | Err _ => ret false end.

Definition subscribe : M unit :=
  alive <- alive_or_false ;;
  if negb alive then exit 0
  else
    connect_or_exit ;;?
    sent <- ask (Send GuestProto.Subscribe) ;;
    answer <- receive_if sent ;;
    ask (Show (subscribe_command utf8 sent (fst answer))) ;;
    ok tt.

Definition kubernetes (sub : KubernetesCmd) : M unit :=
  connect_or_exit ;;?
  match sub with
  | KStatus => converse KubernetesStatus (kubernetes_status_command parse_response utf8)
  | KStart => passthrough KubernetesStart
  | KStop => passthrough KubernetesStop
  end.

Definition version : M unit :=
  println (#"pelagos-mac  " ++ mac_version) ;;
  alive <- alive_or_false ;;
  if negb alive then ok tt
  else
    c <- ask Connect ;;
    match (c : result unit str) with
    | Err _ => ok tt
    | Ok _ =>
        sent <- ask (Send GuestProto.Version) ;;
        answer <- receive_if sent ;;
        ask (Show (version_command parse_response utf8 sent (fst answer))) ;;
        ok tt
    end.

(** [ps] asks a running daemon only. *)
Definition ps (all json : bool) : M unit :=
  s <-? or_exit open_state ;;
  alive <- is_daemon_alive s ;;
  if negb alive then exit 0 else connect_or_exit ;;? passthrough (GuestProto.Ps all json).

Definition start (name : str) (interactive : bool) (cmd : list str) : M unit :=
  ensure_running ;;?
  connect_or_exit ;;?
  if interactive then want_tty false ;;? session (GuestProto.Start name interactive cmd)
  else passthrough (GuestProto.Start name interactive cmd).

(** What [volume] and [network] answer without a daemon; [created] is the name of a new one. *)
Definition without_daemon (sub : str) (created : option str) : M unit :=
  if bool_decide (sub = #"create") then
    match created with Some n => println n | None => ret tt end ;; exit 0
  else if bool_decide (sub = #"ls") || bool_decide (sub = #"rm") then exit 0
  else exit 1.

Definition if_running (no_daemon k : M unit) : M unit :=
  s <-? or_exit open_state ;;
  alive <- is_daemon_alive s ;;
  if negb alive then no_daemon else on_vm k.

Definition volume (sub : str) (name : option str) : M unit :=
  if_running (without_daemon sub name) (passthrough (GuestProto.Volume sub name)).
Definition network (sub : str) (args : list str) : M unit :=
  if_running (without_daemon sub (last args)) (passthrough (GuestProto.Network sub args)).

Definition dispatch (fuel : nat) (command : Commands) : M unit :=
  match command with
  | VmDaemonInternal => a <-? daemon_args ;; code <- ask (RunDaemon a) ;; exit code
  | SshRelayProxy port => code <- ask (RelaySsh port) ;; exit code
  | Vm sub => vm_command fuel sub
  | Run r => run r
  | Exec container args tty _ workdir => exec container args tty workdir
  | Subscribe => subscribe
  | Kubernetes sub => kubernetes sub
  | Ping => ping fuel
  | Version => version
  | Ps all json => ps all json
  | Logs name follow => on_vm (passthrough (GuestProto.Logs name follow))
  | Inspect name => on_vm (passthrough (ContainerInspect name))
  | Container_Prune => on_vm (passthrough ContainerPrune)
  | Start name interactive cmd => start name interactive cmd
  | Stop name => on_vm (passthrough (GuestProto.Stop name))
  | Restart name time => on_vm (passthrough (GuestProto.Restart name time))
  | Rm name force => on_vm (passthrough (GuestProto.Rm name force))
  | Build tag file build_args no_cache _ context => on_vm (build_command tag file build_args no_cache context)
  | Image cmd => on_vm (image_command cmd)
  | Volume sub name => volume sub name
  | Network sub args => network sub args
  | Compose sub => compose sub
  | Cp src dst => on_vm (cp src dst)
  end.

(** The exit code of the process. *)
Definition main (fuel : nat) (command : Commands) : Sys ev reply unit Z :=
  r <- dispatch fuel command ;; ret (match r with Ok _ => 0 | Err code => code end).
End Main.

(** [only_go], through the ends of commands. *)
Ltac go := unfold or_exit, println, eprintln, ok, exit, fail; only_go.
