(* ===== verification/HostConsole.v ===== *)
(** The console session of the host ([console_proxy] of [pelagos-mac/src/main.rs]): one loop that polls the
    standard input and the console's socket.  Ctrl-] detaches; without a terminal the console is drained for
    two seconds after the end of the input. *)

From S2P Require Import Prelude RustStd.

#[local] Open Scope Z_scope.

(** * Calls out of the program *)

(** [poll] of both descriptors: its result, and for each descriptor whether there is input and whether it was
    hung up or is in error. *)
Record polled := mkPolled { ready : Z; in_ready : bool; in_hup : bool; out_ready : bool; out_hup : bool }.

Inductive ev : Type :=
| IsTty
| Now                                          (* nanoseconds *)
| Poll (watch_stdin : bool) (timeout : Z)
| ReadStdin | WriteConsole (d : list Z)
| ReadConsole | WriteStdout (d : list Z).

(** A read that is at its end or fails gives [[]]; a write gives the number of bytes or -1. *)
Definition reply (e : ev) : Type :=
  match e with
  | IsTty => bool
  | Now | WriteConsole _ | WriteStdout _ => Z
  | Poll _ _ => polled
  | ReadStdin | ReadConsole => list Z
  end.

Abbreviation ask e := (call (R := reply) (S := unit) e).
Definition P (A : Type) : Type := Sys ev reply unit A.

(** * The loop *)

(** The loop's variables: whether the input is over, and the end of the draining once it is known. *)
Definition vars : Type := bool * option Z.

Definition NANOS : Z := 1000000000.
Definition CTRL_BRACKET : Z := 29.

(** The timeout of the next [poll]; [None] leaves the loop. *)
Definition drain_timeout (is_tty : bool) (v : vars) : P (option (Z * vars)) :=
  let '(stdin_done, drain_until) := v in
  if stdin_done then
    if is_tty then ret None else
    deadline <- match drain_until with
                | Some d => ret d
                | None => now <- ask Now ;; ret (now + 2 * NANOS)
                end ;;
    now <- ask Now ;;
    let rem := Z.max 0 (deadline - now) in
    if rem =? 0 then ret None else ret (Some (rem / 1000000, (stdin_done, Some deadline)))
  else ret (Some (-1, v)).

(** From the console to the standard output; then the console's hang-up. *)
Definition console_to_stdout (p : polled) (v : vars) : P (option vars) :=
  let hup := if out_hup p then ret None else ret (Some v) in
  if out_ready p then
    d <- ask ReadConsole ;;
    match d with
    | [] => ret None
    | _ => w <- ask (WriteStdout d) ;; if w <? 0 then ret None else hup
    end
  else hup.

(** One round after a successful [poll]. *)
Definition console_round (p : polled) (v : vars) : P (option vars) :=
  let '(stdin_done, drain_until) := v in
  let rest := console_to_stdout p (stdin_done || in_hup p, drain_until) in
  if negb stdin_done && in_ready p then
    d <- ask ReadStdin ;;
    match d with
    | [] => ret (Some (true, drain_until))
    | _ => if bool_decide (CTRL_BRACKET ∈ d) then ret None else (ask (WriteConsole d) ;; rest)
    end
  else rest.

(** The loop; [None] is the fuel running out. *)
Fixpoint console_loop (fuel : nat) (is_tty : bool) (v : vars) : P (option Z) :=
  match fuel with
  | O => ret None
  | S fuel =>
      t <- drain_timeout is_tty v ;;
      match t with
      | None => ret (Some 0)
      | Some (timeout, v) =>
          p <- ask (Poll (negb (fst v)) timeout) ;;
          if ready p <=? 0 then ret (Some 0) else
          r <- console_round p v ;;
          match r with
          | None => ret (Some 0)
          | Some v => console_loop fuel is_tty v
          end
      end
  end.

Definition console_proxy (fuel : nat) : P (option Z) :=
  is_tty <- ask IsTty ;; console_loop fuel is_tty (false, None).

(** * What is seen *)

(** A block that was read, and a write with its result: of a block offered it takes the first bytes, none if it fails. *)
Inductive io : Type := Took (d : list Z) | Wrote (d : list Z) (n : Z).

Definition see_in (e : ev) : reply e -> list io :=
  match e return reply e -> list io with
  | ReadStdin => fun d => [Took d]
  | WriteConsole d => fun n => [Wrote d n]
  | _ => fun _ => []
  end.
Definition see_out (e : ev) : reply e -> list io :=
  match e return reply e -> list io with
  | ReadConsole => fun d => [Took d]
  | WriteStdout d => fun n => [Wrote d n]
  | _ => fun _ => []
  end.

(** The bytes that were read, and those that the writes took. *)
Definition taken (os : list io) : list Z := flat_map (fun o => match o with Took d => d | Wrote _ _ => [] end) os.
Definition reached (os : list io) : list Z := flat_map (fun o => match o with Took _ => [] | Wrote d n => take (Z.to_nat n) d end) os.

(** No write was short or failed. *)
Definition complete (os : list io) : Prop := Forall (fun o => match o with Took _ => True | Wrote d n => n = Z.of_nat (length d) end) os.

(** The standard input: every block without Ctrl-] is offered to the console in one write, whose result does not matter,
    until the end of the input or a block with Ctrl-]. *)
Definition passed (bs : list (list Z * Z)) : list io := flat_map (fun b => [Took b.1; Wrote b.1 b.2]) bs.
Definition typed (stdin_done : bool) (os : list io) : Prop :=
  exists bs tail, os = passed bs ++ tail /\ Forall (fun b => b.1 <> [] /\ CTRL_BRACKET ∉ b.1) bs /\
    (stdin_done = true -> bs = [] /\ tail = []) /\
    (tail = [] \/ exists d, tail = [Took d] /\ (d = [] \/ CTRL_BRACKET ∈ d)).

(** The console's output: every block is offered to the standard output in one write, until its end or a write that fails. *)
Inductive shown : list io -> Prop :=
| Shown_nothing : shown []
| Shown_end : shown [Took []]
| Shown_fails d n : d <> [] -> n < 0 -> shown [Took d; Wrote d n]
| Shown_block d n os : d <> [] -> 0 <= n -> shown os -> shown (Took d :: Wrote d n :: os).

(** * Lemmas *)

Lemma typed_nil b : typed b [].
Proof. exists [], []. repeat split; [constructor|by left]. Qed.
Lemma typed_one b d n os : d <> [] -> CTRL_BRACKET ∉ d -> typed b os -> typed false (Took d :: Wrote d n :: os).
Proof.
  intros Hd Hc (bs & tail & -> & Hf & _ & Ht). exists ((d, n) :: bs), tail. split; [done|]. split; [by constructor|]. by split.
Qed.
Lemma typed_more b os : typed b os -> typed false os.
Proof. intros (ds & tail & ? & ? & _ & ?). exists ds, tail. by split. Qed.
Lemma typed_done os : typed true os -> os = [].
Proof. intros (ds & tail & -> & _ & Hd & _). by destruct (Hd eq_refl) as [-> ->]. Qed.
Lemma typed_last d : d = [] \/ CTRL_BRACKET ∈ d -> typed false [Took d].
Proof. intros Hd. exists [], [Took d]. split; [done|]. split; [constructor|]. split; [done|]. right. by exists d. Qed.

Lemma write_all_taken (d : list Z) n : n = Z.of_nat (length d) -> take (Z.to_nat n) d = d.
Proof. intros ->. rewrite take_ge by lia. done. Qed.

(** Without short and failing writes everything arrives. *)
Lemma typed_reached b os : typed b os -> complete os -> exists rest, taken os = reached os ++ rest /\ (rest = [] \/ CTRL_BRACKET ∈ rest).
Proof.
  intros (bs & tail & -> & _ & _ & Ht). clear b. induction bs as [|[d n] bs IH]; intros Hc.
  - cbn [passed flat_map app] in *. destruct Ht as [->|(d & -> & Hd)]; [exists []; split; [done|by left]|].
    exists d. cbn. rewrite app_nil_r. by split.
  - cbn [passed flat_map app fst snd] in Hc. apply Forall_cons in Hc as [_ Hc]. apply Forall_cons in Hc as [Hn Hc].
    destruct (IH Hc) as (rest & Hr & Hrest). exists rest. split; [|done].
    change (d ++ taken (passed bs ++ tail) = (take (Z.to_nat n) d ++ reached (passed bs ++ tail)) ++ rest).
    by rewrite write_all_taken, <- app_assoc, Hr.
Qed.

Lemma shown_reached os : shown os -> complete os -> reached os = taken os.
Proof.
  induction 1 as [| |d n Hd Hn|d n os Hd Hn Hs IH]; intros Hc; [done..| |]; apply Forall_cons in Hc as [_ Hc]; apply Forall_cons in Hc as [Hw Hc].
  - lia.
  - change (take (Z.to_nat n) d ++ reached os = d ++ taken os). by rewrite write_all_taken, IH.
Qed.

#[local] Hint Resolve typed_nil : core.
#[local] Hint Constructors shown : core.

Lemma drain_timeout_silent see tty v : (forall r, see Now r = []) -> silent (O := io) see (drain_timeout tty v).
Proof.
  intros Hs. destruct v as [[] until]; cbn [drain_timeout]; [|apply silent_ret]. destruct tty; [apply silent_ret|].
  apply silent_bind; [destruct until; [apply silent_ret|apply silent_bind; [apply silent_call, Hs|intros ?; apply silent_ret]]|].
  intros d. apply silent_bind; [apply silent_call, Hs|]. intros now. cbv zeta. case_match; apply silent_ret.
Qed.

(** The timeout keeps the variables that are known. *)
Lemma drain_timeout_vars tty v : adds see_in (drain_timeout tty v) (fun r os => os = [] /\ forall t v', r = Some (t, v') -> fst v' = fst v).
Proof.
  destruct v as [[] until]; cbn [drain_timeout]; [|apply adds_ret; split; [done|by intros ? ? [= <- <-]]].
  destruct tty; [by apply adds_ret|]. apply adds_silent; [destruct until; silent_go|]. intros d.
  apply adds_silent; [silent_go|]. intros now. cbv zeta. case_match; apply adds_ret; [done|]. split; [done|by intros ? ? [= <- <-]].
Qed.

Lemma console_to_stdout_in p v : adds see_in (console_to_stdout p v) (fun r os => os = [] /\ forall v', r = Some v' -> v' = v).
Proof.
  unfold console_to_stdout. destruct (out_ready p).
  - apply adds_silent; [silent_go|]. intros [|b d]; [by apply adds_ret|].
    apply adds_silent; [silent_go|]. intros w. destruct (w <? 0); [by apply adds_ret|].
    destruct (out_hup p); apply adds_ret; [done|]. split; [done|by intros ? [= <-]].
  - destruct (out_hup p); apply adds_ret; [done|]. split; [done|by intros ? [= <-]].
Qed.

(** What a round does to the input: it ends the session, or passes at most a block on, or sees the end. *)
Definition round_in (v : vars) (r : option vars) (os : list io) : Prop :=
  match r with
  | None => typed (fst v) os
  | Some v' => (os = [] /\ (fst v = true -> fst v' = true)) \/
      (fst v = false /\ exists d n, os = [Took d; Wrote d n] /\ d <> [] /\ CTRL_BRACKET ∉ d) \/
      (fst v = false /\ os = [Took []] /\ fst v' = true)
  end.

Lemma console_round_in p v : adds see_in (console_round p v) (round_in v).
Proof.
  destruct v as [b until]. unfold console_round. destruct (negb b && in_ready p)%bool eqn:E.
  - assert (b = false) as -> by (by destruct b).
    eapply adds_bind; [refine (adds_call see_in ReadStdin (fun d os => os = [Took d]) _); done|].
    intros [|x d]; [apply adds_ret; intros os ->; right; right; done|].
    case_bool_decide as Hd; [apply adds_ret; intros os ->; apply typed_last; by right|].
    eapply adds_bind; [refine (adds_call see_in (WriteConsole _) (fun n os => os = [Wrote (x :: d) n]) _); done|]. intros n.
    eapply adds_weaken; [apply console_to_stdout_in|]. intros r os [-> Hr] os2 -> os1 ->. cbn [app].
    destruct r as [v'|]; [right; left; split; [done|]; by exists (x :: d), n|]. apply (typed_one true); auto.
  - eapply adds_weaken; [apply console_to_stdout_in|]. intros [v'|] os [-> Hr]; [left|apply typed_nil].
    split; [done|]. rewrite (Hr v' eq_refl). cbn. by intros ->.
Qed.

Lemma console_loop_in fuel : forall tty v, adds see_in (console_loop fuel tty v) (fun _ os => typed (fst v) os).
Proof.
  induction fuel as [|fuel IH]; intros tty v; cbn [console_loop]; [apply adds_ret, typed_nil|].
  eapply adds_bind; [apply drain_timeout_vars|]. intros [[timeout v1]|]; [|apply adds_ret; by intros os [-> _]].
  apply adds_silent; [silent_go|]. intros p. case_match; [apply adds_ret; by intros os [-> _]|].
  eapply adds_bind; [apply console_round_in|]. intros [v2|].
  - eapply adds_weaken; [apply IH|]. intros u os2 Ht os1 Hr os [-> Hv]. rewrite <- (Hv _ _ eq_refl). cbn [app].
    destruct Hr as [[-> Hd]|[(Hb & d & n & -> & Hne & Hc)|(Hb & -> & Hd)]]; cbn [app].
    + destruct (fst v1) eqn:E1; [rewrite (Hd eq_refl) in Ht; done|by eapply typed_more, Ht].
    + rewrite Hb. by eapply typed_one, Ht.
    + rewrite Hb. rewrite Hd in Ht. rewrite (typed_done _ Ht). apply typed_last. by left.
  - apply adds_ret. intros os1 Hr os [-> Hv]. rewrite app_nil_r. cbn [app]. by rewrite <- (Hv _ _ eq_refl).
Qed.

(** A round passes at most a block on; it ends the session when the write fails or the console is at its end. *)
Definition round_out (r : option vars) (os : list io) : Prop :=
  os = [] \/ (exists d n, os = [Took d; Wrote d n] /\ d <> [] /\ (n < 0 -> r = None)) \/ (os = [Took []] /\ r = None).

Lemma console_to_stdout_out p v : adds see_out (console_to_stdout p v) round_out.
Proof.
  unfold console_to_stdout. destruct (out_ready p); [|destruct (out_hup p); apply adds_ret; by left].
  eapply adds_bind; [refine (adds_call see_out ReadConsole (fun d os => os = [Took d]) _); done|].
  intros [|x d]; [apply adds_ret; intros os ->; by right; right|].
  eapply adds_bind; [refine (adds_call see_out (WriteStdout _) (fun n os => os = [Wrote (x :: d) n]) _); done|].
  intros w. destruct (w <? 0) eqn:E; [|destruct (out_hup p)]; apply adds_ret; intros os1 -> os ->; right; left; exists (x :: d), w;
    (split; [done|]); (split; [done|]); bool_arith; intros; done || lia.
Qed.

Lemma console_round_out p v : adds see_out (console_round p v) round_out.
Proof.
  destruct v as [b until]. unfold console_round. case_match; [|apply console_to_stdout_out].
  apply adds_silent; [silent_go|]. intros [|x d]; [apply adds_ret; by left|].
  case_bool_decide; [apply adds_ret; by left|]. apply adds_silent; [silent_go|]. intros u. apply console_to_stdout_out.
Qed.

Lemma console_loop_out fuel : forall tty v, adds see_out (console_loop fuel tty v) (fun _ os => shown os).
Proof.
  induction fuel as [|fuel IH]; intros tty v; cbn [console_loop]; [by apply adds_ret|].
  apply adds_silent; [by apply drain_timeout_silent|]. intros [[timeout v1]|]; [|by apply adds_ret].
  apply adds_silent; [silent_go|]. intros p. case_match; [by apply adds_ret|].
  eapply adds_bind; [apply console_round_out|]. intros [v2|].
  - eapply adds_weaken; [apply IH|]. intros u os2 Hs os1 [-> |[(d & n & -> & Hd & Hn)|[_ [=]]]]; [done|]. apply Shown_block; [done| |done].
    destruct (Z.lt_ge_cases n 0) as [Hz|Hz]; [by apply Hn in Hz|done].
  - apply adds_ret. intros os1 [-> |[(d & n & -> & Hd & Hn)|[-> _]]]; rewrite app_nil_r; [done| |apply Shown_end].
    destruct (Z.lt_ge_cases n 0) as [Hz|Hz]; [by apply Shown_fails|]. apply Shown_block; [done|done|apply Shown_nothing].
Qed.

(** * Draining *)

Inductive tick : Type := Clock (t : Z) | Wait (watch_stdin : bool) (timeout : Z).
Definition see_time (e : ev) : reply e -> list tick :=
  match e return reply e -> list tick with
  | Now => fun t => [Clock t]
  | Poll w t => fun _ => [Wait w t]
  | _ => fun _ => []
  end.

(** No wait begins at or after the deadline or lasts beyond it, and the standard input is not watched. *)
Inductive drained (deadline : Z) : list tick -> Prop :=
| Drained_out_of_fuel : drained deadline []
| Drained_over t : drained deadline [Clock t]
| Drained_wait t timeout os : t < deadline -> 0 <= timeout -> t + timeout * 1000000 <= deadline ->
    drained deadline os -> drained deadline (Clock t :: Wait false timeout :: os).

Lemma console_round_time p until : adds see_time (console_round p (true, until)) (fun r os => os = [] /\ (r = None \/ r = Some (true, until))).
Proof.
  unfold console_round, console_to_stdout. cbn [negb andb orb]. destruct (out_ready p).
  - apply adds_silent; [silent_go|]. intros [|x d]; [apply adds_ret; auto|].
    apply adds_silent; [silent_go|]. intros w. case_match; [apply adds_ret; auto|]. destruct (out_hup p); apply adds_ret; auto.
  - destruct (out_hup p); apply adds_ret; auto.
Qed.

(** The timeout of a [poll] ends before the deadline. *)
Lemma drain_timeout_time deadline : adds see_time (drain_timeout false (true, Some deadline)) (fun r os =>
  exists t, os = [Clock t] /\ (r = None \/ (t < deadline /\ r = Some ((deadline - t) / 1000000, (true, Some deadline))))).
Proof.
  cbn [drain_timeout]. change (bind (ret deadline) ?k) with (k deadline).
  eapply adds_bind; [refine (adds_call see_time Now (fun t os => os = [Clock t]) _); done|]. intros t. cbv zeta beta.
  case_match; apply adds_ret; intros os ->; exists t; (split; [done|]); [by left|]. bool_arith.
  right. split; [lia|]. by rewrite Z.max_r by lia.
Qed.

Lemma console_loop_time fuel deadline : adds see_time (console_loop fuel false (true, Some deadline)) (fun _ os => drained deadline os).
Proof.
  induction fuel as [|fuel IH]; cbn [console_loop]; [apply adds_ret; constructor|].
  eapply adds_bind_known; [apply drain_timeout_time|]. intros r os (t & -> & [-> |[Ht ->]]); [apply adds_ret; apply Drained_over|].
  assert (Hwait : forall os, drained deadline os -> drained deadline (Clock t :: Wait false ((deadline - t) / 1000000) :: os)).
  { intros os Hd. apply Drained_wait; [done|apply Z.div_pos; lia| |done]. pose proof (Z.mul_div_le (deadline - t) 1000000). lia. }
  eapply adds_bind_known; [refine (adds_call see_time (Poll _ _) (fun _ os => os = [Wait false _]) _); done|].
  intros p os ->. case_match; [apply adds_ret, Hwait; constructor|].
  eapply adds_bind_known; [apply console_round_time|]. intros r os [-> [-> | ->]]; [apply adds_ret, Hwait; constructor|].
  eapply adds_weaken; [apply IH|]. intros u os. apply Hwait.
Qed.

(** * Properties *)

(** C32: a console session passes everything on once.  Whatever the terminal, the console and [poll] do, and however
    many rounds are made: every block that is read from the standard input is offered to the console in one write, in
    order, up to the end of the input or a block with Ctrl-], which is not given on; every block that is read from the
    console is offered to the standard output in one write, in order, up to its end or a write that fails.  No block is
    offered twice and nothing else is; and when no write is short or fails, what arrives is exactly what was read. *)
Theorem console_transparent fuel env h :
  (exists os, seen see_in env (snd (snd (console_proxy fuel env tt h))) = seen see_in env h ++ os /\ typed false os /\
     (complete os -> exists rest, taken os = reached os ++ rest /\ (rest = [] \/ CTRL_BRACKET ∈ rest))) /\
  (exists os, seen see_out env (snd (snd (console_proxy fuel env tt h))) = seen see_out env h ++ os /\ shown os /\
     (complete os -> reached os = taken os)).
Proof.
  split.
  - assert (H : adds see_in (console_proxy fuel) (fun _ os => typed false os)).
    { apply adds_silent; [silent_go|]. intros tty. apply console_loop_in. }
    destruct (H env tt h) as (os & ? & Ht). exists os. split; [done|]. split; [done|]. by apply (typed_reached false).
  - assert (H : adds see_out (console_proxy fuel) (fun _ os => shown os)).
    { apply adds_silent; [silent_go|]. intros tty. apply console_loop_out. }
    destruct (H env tt h) as (os & ? & Hs). exists os. split; [done|]. split; [done|]. by apply shown_reached.
Qed.

(** Draining is over in time.  When the input is over and the end of the draining is known, no wait
    begins at or after that end or lasts beyond it, whatever the clock shows, and the standard input
    is not watched any more. *)
Theorem console_drains fuel env h deadline :
  exists os, seen see_time env (snd (snd (console_loop fuel false (true, Some deadline) env tt h))) = seen see_time env h ++ os
    /\ drained deadline os.
Proof. exact (console_loop_time fuel deadline env tt h). Qed.

(** ** Concrete sessions *)

Definition count (f : ev -> bool) (h : list ev) : nat := length (List.filter f h).
Definition is_read (e : ev) : bool := match e with ReadStdin => true | _ => false end.
Definition is_now (e : ev) : bool := match e with Now => true | _ => false end.

(** A pipe with [input] whose writer is gone: [poll] reports input as long as there is some and it is watched,
    and the hang-up all the time; a read takes at most the buffer.  The clock shows half a second more each
    time. *)
Definition piped (input : list Z) : Env ev reply := fun h e =>
  match e with
  | IsTty => false
  | Now => NANOS / 2 * Z.of_nat (count is_now h)
  | Poll w _ => mkPolled 1 (w && negb (bool_decide (drop (4096 * count is_read h) input = []))) true false false
  | ReadStdin => take 4096 (drop (4096 * count is_read h) input)
  | WriteConsole d | WriteStdout d => Z.of_nat (length d)
  | ReadConsole => []
  end.

Definition is_drain (e : ev) : bool := match e with Poll false _ => true | _ => false end.

(** Of 4100 bytes the console gets the first 4096: with the hang-up the input counts as over although there
    is more to read. *)
Example rest_of_pipe_lost :
  fst (console_proxy 20 (piped (replicate 4100 97)) tt []) = Some 0 /\
  length (reached (seen see_in (piped (replicate 4100 97)) (snd (snd (console_proxy 20 (piped (replicate 4100 97)) tt []))))) = 4096%nat.
Proof. split; vm_compute; reflexivity. Qed.

(** While it drains, [poll] still reports the hang-up of the standard input at once, so the loop does not
    wait: it spins until the clock shows that the two seconds are over. *)
Example drain_spins :
  fst (console_proxy 20 (piped [97]) tt []) = Some 0 /\
  count is_drain (snd (snd (console_proxy 20 (piped [97]) tt []))) = 3%nat.
Proof. split; vm_compute; reflexivity. Qed.

(** A console that takes one byte of each write: of [a b] and [c] it gets [a c], and the session goes on. *)
Definition slow_console : Env ev reply := fun h e =>
  match e with
  | IsTty => true
  | Now => 0
  | Poll _ _ => mkPolled 1 true false false false
  | ReadStdin => nth (count is_read h) [[97; 98]; [99]] []
  | WriteConsole d => 1
  | WriteStdout d => Z.of_nat (length d)
  | ReadConsole => []
  end.

Example short_write_lost :
  fst (console_proxy 20 slow_console tt []) = Some 0 /\
  seen see_in slow_console (snd (snd (console_proxy 20 slow_console tt []))) = [Took [97; 98]; Wrote [97; 98] 1; Took [99]; Wrote [99] 1; Took []] /\
  reached (seen see_in slow_console (snd (snd (console_proxy 20 slow_console tt [])))) = [97; 99].
Proof. split_and!; vm_compute; reflexivity. Qed.
