(* ===== verification/Terminal.v ===== *)
(** The terminal of the host during an exec or console session ([pelagos-mac/src/main.rs]): raw mode and its end
    ([enter_raw_mode], [restore_terminal], their use in [exec_command] and [vm console]), and the way of a new
    window size from the signal handler through the pipe and the input thread to the guest
    ([install_sigwinch_handler], [sigwinch_handler]). *)

From S2P Require Import Prelude RustStd.

#[local] Open Scope Z_scope.

(** * Raw mode *)

Section RawMode.
(** Terminal attributes, [mem::zeroed], and the C library's [cfmakeraw]. *)
Context {termios : Type} (zeroed : termios) (cfmakeraw : termios -> termios).
(** What else the program calls. *)
Context {E : Type} {R : E -> Type}.

(** Standard input: its attributes if it is a terminal. *)
Definition T (A : Type) : Type := Sys E R (option termios) A.

Definition tcgetattr (t : termios) : T termios := s <- get_st ;; ret (match s with Some a => a | None => t end).
Definition tcsetattr (a : termios) : T unit := s <- get_st ;; put_st (match s with Some _ => Some a | None => None end).

Definition enter_raw_mode : T termios :=
  t <- tcgetattr zeroed ;;
  tcsetattr (cfmakeraw t) ;;
  ret t.
Definition restore_terminal (saved : termios) : T unit := tcsetattr saved.

(** The end of [exec_command], with [session] for the threads and the reading of frames, and [vm console], with
    [session] for [console_proxy]. *)
Definition in_raw_mode (tty : bool) (session : T Z) : T Z :=
  saved <- (if tty then t <- enter_raw_mode ;; ret (Some t) else ret None : T (option termios)) ;;
  exit_code <- session ;;
  (match saved with Some t => restore_terminal t | None => ret tt end : T unit) ;;
  ret exit_code.

(** The terminal is given back.  Whatever happens in a session, it runs with the terminal in raw mode, if there is
    one and a terminal was asked for, and afterwards the terminal has the attributes it had before; the exit
    code is the session's. *)
Theorem terminal_restored (tty : bool) (session : T Z) (env : Env E R) s h : steady session ->
  let inside := if tty then cfmakeraw <$> s else s in
  in_raw_mode tty session env s h = (fst (session env inside h), (s, snd (snd (session env inside h)))).
Proof.
  intros Hs. unfold in_raw_mode, enter_raw_mode, restore_terminal, tcgetattr, tcsetattr, bind, get_st, put_st, ret.
  destruct tty, s as [a|]; cbn; specialize (Hs env);
    match goal with |- context [session env ?x h] => specialize (Hs x h); destruct (session env x h) as [r [s' h']] end;
    cbn in *; by subst.
Qed.
End RawMode.

(** * Window sizes *)

Definition STDIN_FILENO : Z := 0.

(** [create_pipe]: the descriptors that [pipe] stored, which are the initial ones when it failed. *)
Definition create_pipe (made : option (Z * Z)) : Z * Z :=
  let fds := [0; 0] in
  let fds := match made with Some (r, w) => [r; w] | None => fds end in
  (nth 0 fds 0, nth 1 fds 0).

(** Without a pipe the input thread takes the bytes of the standard input for signals, and the handler writes
    to it. *)
Example create_pipe_fails : create_pipe None = (STDIN_FILENO, STDIN_FILENO).
Proof. reflexivity. Qed.

(** The input thread is in [poll], or has read the byte of the pipe and not yet the window's size, or is over. *)
Inductive stage : Type := Polling | Drained | Over.

(** The window, the bytes in the pipe, [SIGWINCH_PIPE_W], the thread, the size the guest was last told, and
    whether the window changed since the handler was installed. *)
Record window := mkWindow {
  size : Z * Z; piped : nat; pipe_w : Z; thread : stage; told : option (Z * Z); changed : bool }.

Definition sigwinch_handler (w : window) : window :=
  if 0 <=? pipe_w w then mkWindow (size w) (S (piped w)) (pipe_w w) (thread w) (told w) (changed w) else w.
Definition install_sigwinch_handler (write_fd : Z) (w : window) : window :=
  mkWindow (size w) (piped w) write_fd (thread w) (told w) (changed w).

(** The window gets a new size and the process its signal. *)
Definition resize (s : Z * Z) (w : window) : window :=
  sigwinch_handler (mkWindow s (piped w) (pipe_w w) (thread w) (told w) (changed w || (0 <=? pipe_w w))).
(** A round of the input thread: the byte of the pipe, then the size and its frame ([sent]: the ioctl and the
    write succeed). *)
Definition drain (w : window) : window :=
  mkWindow (size w) (pred (piped w)) (pipe_w w) Drained (told w) (changed w).
Definition tell (sent : bool) (w : window) : window :=
  mkWindow (size w) (piped w) (pipe_w w) Polling (if sent then Some (size w) else told w) (changed w).
Definition thread_over (w : window) : window :=
  mkWindow (size w) (piped w) (pipe_w w) Over (told w) (changed w).

(** [lossless]: no ioctl or write fails. *)
Inductive window_step (lossless : bool) (w : window) : window -> Prop :=
| Resizes s : window_step lossless w (resize s w)
| Drains : thread w = Polling -> (0 < piped w)%nat -> window_step lossless w (drain w)
| Tells sent : thread w = Drained -> (lossless = true -> sent = true) -> window_step lossless w (tell sent w)
| Ends : thread w = Polling -> window_step lossless w (thread_over w).

(** A session's begin: the pipe is made and the handler installed before the thread is. *)
Definition session_begins (s : Z * Z) (write_fd : Z) : window :=
  install_sigwinch_handler write_fd (mkWindow s 0 (-1) Polling None false).

Definition window_reachable (lossless : bool) (w : window) : Prop :=
  exists s write_fd, 0 <= write_fd /\ rtc (window_step lossless) (session_begins s write_fd) w.

Definition window_inv (w : window) : Prop :=
  0 <= pipe_w w /\ (changed w = true -> thread w = Over \/ (0 < piped w)%nat \/ thread w = Drained \/ told w = Some (size w)).

Lemma window_step_inv w w' : window_step true w w' -> window_inv w -> window_inv w'.
Proof.
  intros Hs [Hw Hi]. destruct Hs as [s|Hp Hb|sent Hd Hsent|Hp].
  - unfold resize, sigwinch_handler. cbn. destruct (0 <=? pipe_w w) eqn:E; [|bool_arith; lia]. split; [done|]. cbn. intros _. right. left. lia.
  - split; [done|]. cbn. intros _. right. right. by left.
  - split; [done|]. cbn. rewrite (Hsent eq_refl). intros _. auto.
  - split; [done|]. cbn. intros _. by left.
Qed.

(** The guest learns the last size.  However resizes and rounds of the input thread take turns, as long as nothing
    fails: once the window changed during a session, the guest has been told the size the window has now, or
    the thread still has a byte to read or the size to send, or is over. *)
Theorem last_size_told w : window_reachable true w -> changed w = true ->
  thread w = Over \/ (0 < piped w)%nat \/ thread w = Drained \/ told w = Some (size w).
Proof.
  intros (s & fd & Hfd & Hr) Hc. enough (window_inv w) as [_ H] by auto.
  assert (H0 : window_inv (session_begins s fd)) by (split; [done|]; cbn; done).
  revert H0. generalize (session_begins s fd), w, Hr. clear. induction 1 as [x|x y z H1 _ IH]; [done|]. intros H. by eapply IH, window_step_inv.
Qed.

(** A resize in the middle of a round: the byte is read, the window changes again, the size is sent. *)
Definition resized_twice : window := tell true (resize (50, 132) (drain (resize (24, 80) (session_begins (25, 80) 4)))).

Lemma last_size_told_witness : window_reachable true resized_twice /\ changed resized_twice = true /\
  (thread resized_twice = Over \/ (0 < piped resized_twice)%nat \/ thread resized_twice = Drained \/ told resized_twice = Some (size resized_twice)).
Proof.
  assert (Hr : window_reachable true resized_twice).
  { exists (25, 80), 4. split; [done|]. eapply rtc_l; [apply (Resizes _ _ (24, 80))|].
    eapply rtc_l; [apply Drains; [done|cbn; lia]|]. eapply rtc_l; [apply (Resizes _ _ (50, 132))|].
    eapply rtc_l; [by apply (Tells _ _ true)|]. apply rtc_refl. }
  split; [exact Hr|]. split; [reflexivity|]. exact (last_size_told resized_twice Hr eq_refl).
Defined.

(** The guest is never told the size the window has when the session begins: with nothing to do for the thread, the
    terminal of the guest still has no size. *)
Example first_size_untold : window_reachable true (session_begins (25, 80) 4) /\
  piped (session_begins (25, 80) 4) = 0%nat /\ thread (session_begins (25, 80) 4) = Polling /\ told (session_begins (25, 80) 4) = None.
Proof. split; [exists (25, 80), 4; split; [done|apply rtc_refl]|]. done. Qed.
