(* ===== verification/HostMachine.v ===== *)
(** When the commands of the host program ([pelagos-mac/src/main.rs]) look for the daemon, start the machine
    and talk to it. *)

From S2P Require Import Prelude RustStd Paths Json Wire VmState PortDaemon GuestProto HostClient HostCli HostMain.

#[local] Open Scope Z_scope.

(** * When the machine is started *)

(** What is seen of the machine: whether a process had the daemon's number, whether the machine was
    started with success, connections and requests. *)
Inductive vm_op : Type :=
| Probe (alive : bool)
| Started (ok : bool)
| Talk (request : option GuestCommand).

#[export] Instance Talk_free_dec o : Decision (exists r, o = Talk r).
Proof. destruct o; [right; by intros []..|left; by eexists]. Defined.

Definition see_vm (e : ev) : reply e -> list vm_op :=
  match e return reply e -> list vm_op with
  | Signal0 _ => fun alive => [Probe alive]
  | EnsureRunning _ => fun r => [Started (is_ok (r : result unit str))]
  | Connect => fun _ => [Talk None]
  | Send cmd => fun _ => [Talk (Some cmd)]
  | _ => fun _ => []
  end.

Definition is_probe (o : vm_op) : Prop := match o with Probe _ => True | _ => False end.
Definition is_talk (o : vm_op) : Prop := match o with Talk _ => True | _ => False end.


Section Talks.
Context {J : Json} (parse_response : str -> option GuestResponse) (utf8 : str -> bool) (pretty : Json.Value -> str).
Context (cmd_text : DaemonCmd -> str) (parse_reply : str -> option DaemonResponse).
Context (lower lossy : str -> str) (order : gmap str str -> list (str * str)).
Context (e : host) (var : str -> option str) (cwd : option str) (temp_dir mac_version : str) (cli : Cli).

(** Programs that only talk to the daemon and the guest, and programs that only look for it. *)
#[local] Abbreviation talks m := (only see_vm is_talk m).
#[local] Abbreviation probes m := (only see_vm is_probe m).

Lemma talks_send_daemon_cmd cmd : talks (send_daemon_cmd cmd_text parse_reply cmd).
Proof. unfold send_daemon_cmd. go. Qed.
#[local] Hint Resolve talks_send_daemon_cmd : sys_db.

Lemma talks_unregister_port hp : talks (unregister_port cmd_text parse_reply hp).
Proof. unfold unregister_port. go. Qed.
#[local] Hint Resolve talks_unregister_port : sys_db.

Lemma talks_register_ports specs : talks (register_ports cmd_text parse_reply specs).
Proof. induction specs as [|spec specs IH]; cbn [register_ports]; go. Qed.

Lemma talks_register_or_roll_back specs : forall registered, talks (register_or_roll_back cmd_text parse_reply specs registered).
Proof. induction specs as [|spec specs IH]; intros registered; cbn [register_or_roll_back]; go. Qed.

Lemma talks_receive_if sent : talks (receive_if sent).
Proof. unfold receive_if. go. Qed.
#[local] Hint Resolve talks_register_ports talks_register_or_roll_back talks_receive_if : sys_db.

Lemma talks_converse cmd handle : talks (converse cmd handle).
Proof. unfold converse. go. Qed.
#[local] Hint Resolve talks_converse : sys_db.

Lemma talks_passthrough cmd : talks (passthrough parse_response utf8 cmd).
Proof. unfold passthrough. go. Qed.

Lemma talks_session cmd : talks (session parse_response utf8 cmd).
Proof. unfold session. go. Qed.

Lemma talks_want_tty tty : talks (want_tty tty).
Proof. unfold want_tty. go. Qed.

Lemma talks_connect_or_exit : talks connect_or_exit.
Proof. unfold connect_or_exit. go. Qed.

Lemma talks_load_config name : talks (load_config e name).
Proof. unfold load_config. go. Qed.
#[local] Hint Resolve talks_passthrough talks_session talks_want_tty talks_connect_or_exit talks_load_config : sys_db.

Lemma talks_image_command cmd : talks (image_command parse_response utf8 pretty cmd).
Proof. unfold image_command, image_login_command, login_username, login_password. go. Qed.

Lemma talks_run_ok prog argv : talks (run_ok prog argv).
Proof. unfold run_ok. go. Qed.
#[local] Hint Resolve talks_run_ok : sys_db.

Lemma talks_send_archive cmd path : talks (send_archive parse_response utf8 cmd path).
Proof. unfold send_archive. go. Qed.
Lemma talks_size_or_exit path : talks (size_or_exit path).
Proof. unfold size_or_exit. go. Qed.
#[local] Hint Resolve talks_send_archive talks_size_or_exit : sys_db.

Lemma talks_build_command tag dockerfile build_args no_cache context :
  talks (build_command parse_response utf8 temp_dir tag dockerfile build_args no_cache context).
Proof. unfold build_command, build_context, or_clean_up. go. Qed.

Lemma talks_cp src dst : talks (cp parse_response utf8 temp_dir src dst).
Proof. unfold cp, cp_from, cp_to. go. Qed.

Lemma talks_ping_attempts fuel : forall attempt argv start deadline, talks (ping_attempts lossy fuel attempt argv start deadline).
Proof. induction fuel as [|fuel IH]; intros; cbn [ping_attempts]; unfold report_error; go. Qed.
#[local] Hint Resolve talks_ping_attempts : sys_db.

Lemma talks_ping_ssh fuel : talks (ping_ssh lossy e cli fuel).
Proof. unfold ping_ssh. go. Qed.
#[local] Hint Resolve talks_image_command talks_build_command talks_cp talks_ping_ssh : sys_db.

(** ** The phases of a command *)

(** The machine is looked for, started and talked to, in this order; it is only talked to after it was
    started or found, or when the command does not care ([free]). *)
Definition phased (never asks free : bool) (os : list vm_op) : Prop :=
  exists looks starts talk, os = looks ++ starts ++ talk /\ Forall is_probe looks /\ Forall is_talk talk
    /\ (starts = [] \/ exists b, starts = [Started b] /\ never = false /\ (asks = true -> Probe true ∈ looks))
    /\ (talk = [] \/ starts = [Started true] \/ (starts = [] /\ Probe true ∈ looks) \/ free = true).











Lemma phased_weaken os : phased false true false os -> phased false false false os.
Proof.
  intros (l & s & t & -> & Hl & Ht & Hs & Hk). exists l, s, t. split; [done|]. do 2 (split; [done|]). split; [|done].
  destruct Hs as [->|(b & -> & _ & H)]; [by left|]. right. by exists b.
Qed.

(** ** Looking for the daemon *)

Lemma running_pid_adds s : adds see_vm (running_pid s) (fun pid os => Forall is_probe os /\ (is_Some pid -> Probe true ∈ os)).
Proof.
  unfold running_pid. eapply adds_silent; [refine (silent_call see_vm _ _); done|]. intros [t|x].
  - destruct (parse_u32 (trim t)) as [pid|]; [|apply adds_ret; split; [constructor|by intros []]].
    eapply adds_bind; [refine (adds_call see_vm (Signal0 _) (fun (b : bool) os => os = [Probe b]) _); done|].
    intros b. apply adds_ret. intros os ->. split; [by repeat constructor|]. destruct (b : bool); [|by intros []].
    intros _. left.
  - apply adds_ret. split; [constructor|by intros []].
Qed.


Lemma open_named_silent name : silent see_vm (open_named e name).
Proof. unfold open_named, fail, ok. silent_go. Qed.
#[local] Hint Resolve open_named_silent : sys_db.



(** ** Programs that only look for the daemon *)

Lemma probes_running_pid s : probes (running_pid s).
Proof. eapply adds_weaken; [apply running_pid_adds|]. by intros a os [? _]. Qed.
Lemma probes_open_named name : probes (open_named e name).
Proof. eapply adds_weaken; [apply open_named_silent|]. intros a os ->. constructor. Qed.

#[local] Hint Resolve probes_running_pid probes_open_named : sys_db.

Lemma probes_wait_gone fuel s : forall deadline, probes (wait_gone fuel s deadline).
Proof. induction fuel as [|fuel IH]; intros deadline; cbn [wait_gone]; go. Qed.
#[local] Hint Resolve probes_wait_gone : sys_db.

Lemma probes_wait_for_exit fuel s : probes (wait_for_exit fuel s).
Proof. unfold wait_for_exit. go. Qed.
#[local] Hint Resolve probes_wait_for_exit : sys_db.


Lemma probes_profile_row name : probes (profile_row e name).
Proof. unfold profile_row, load_config. go. Qed.
#[local] Hint Resolve probes_profile_row : sys_db.
Lemma probes_profile_rows names : probes (profile_rows e names).
Proof. induction names; cbn [profile_rows]; go. Qed.
#[local] Hint Resolve probes_profile_rows : sys_db.

Lemma probes_first_existing paths : probes (first_existing paths).
Proof. induction paths; cbn [first_existing]; go. Qed.
#[local] Hint Resolve probes_first_existing : sys_db.
Lemma probes_init_artifacts vm_data : probes (init_artifacts e vm_data).
Proof. unfold init_artifacts, existing_or. go. Qed.
Lemma probes_copy_disk force dir src dst : probes (copy_disk force dir src dst).
Proof. unfold copy_disk, println. go. Qed.
Lemma probes_stop_running fuel : probes (stop_running e cli fuel).
Proof. unfold stop_running, open_state. go. Qed.
Lemma probes_refuse_running : probes (refuse_running e cli).
Proof. unfold refuse_running, open_state. go. Qed.
#[local] Hint Resolve probes_init_artifacts probes_copy_disk probes_stop_running probes_refuse_running : sys_db.

(** ** All commands *)

#[local] Abbreviation dispatch_ fuel command := (dispatch parse_response utf8 pretty cmd_text parse_reply lower lossy order e var cwd
  temp_dir mac_version cli fuel command).













End Talks.
