(* ===== verification/HostPorts.v ===== *)
(** Published ports: what [run] and [compose] ([pelagos-mac/src/main.rs]) ask of the daemon, put together with
    the daemon's own handler of these requests. *)

From S2P Require Import Prelude RustStd Paths Json JsonText Wire VmState PortDaemon GuestProto Protocol HostClient HostCli HostMain.

#[local] Open Scope Z_scope.

(** * Published ports *)

Section Ports.
Context {J : Json} `{JT : JsonText} (parse_response : str -> option GuestResponse) (utf8 : str -> bool).
Context (lower lossy : str -> str) (order : gmap str str -> list (str * str)).
Context (e : host) (var : str -> option str) (cwd : option str) (cli : Cli).

(** The texts of [Protocol]; the daemon reads a line as its [handle_connection] does. *)
#[local] Abbreviation cmd_text := daemon_text.
#[local] Abbreviation parse_reply := (read decode_reply).
Definition parse_cmd (line : str) : option DaemonCmd := read decode_daemon (trim_end (lossy line)).
#[local] Abbreviation reply_line r := (reply_text r ++ [NL]).

(** [String::from_utf8_lossy] loses nothing of UTF-8. *)
Context (lossy_text : forall s, valid_utf8 s = true -> lossy s = s).

(** A command whose numbers and strings are of its types. *)
Definition sendable_cmd (c : DaemonCmd) : Prop := good_daemon c /\ jval_utf8 (encode_daemon c) = true.

Lemma parse_cmd_text c : sendable_cmd c -> parse_cmd (cmd_text c ++ [NL]) = Some c.
Proof.
  intros [Hc Hu]. unfold parse_cmd. rewrite lossy_text, trim_end_line by (apply to_string_tight || by apply line_utf8).
  by apply daemon_read.
Qed.

Lemma register_sendable hp cp : u16 hp /\ u16 cp -> sendable_cmd (RegisterPort hp cp).
Proof. by split. Qed.
Lemma unregister_sendable hp : u16 hp -> sendable_cmd (UnregisterPort hp).
Proof. by split. Qed.
Lemma track_sendable project hps : valid_utf8 project = true -> Forall u16 hps -> sendable_cmd (TrackComposeProject project hps).
Proof.
  intros Hp Hu. split; [done|]. unfold encode_daemon. cbn [daemon_fields fst snd fld app jval_utf8 forallb]. rewrite Hp.
  assert (forallb jval_utf8 (map JNum hps) = true) as -> by (clear Hu; induction hps; done). done.
Qed.
Lemma untrack_sendable project : valid_utf8 project = true -> sendable_cmd (UnregisterComposePorts project).
Proof. intros Hp. split; [done|]. unfold encode_daemon. cbn [daemon_fields fst snd fld app jval_utf8 forallb]. by rewrite Hp. Qed.

Lemma parse_reply_text r : parse_reply (trim (reply_line r)) = Some r.
Proof.
  assert (Ht : tight (reply_text r)) by apply to_string_tight. destruct Ht as (a & b & t & Ha & Hb & Hl).
  assert (E : trim (reply_line r) = reply_text r); [|rewrite E; apply reply_read].
  unfold trim. assert (trim_start (reply_line r) = reply_line r) as ->.
  { destruct Hl as [[-> _]| ->]; by apply trim_start_graph. }
  apply trim_end_line. by exists a, b, t.
Qed.

(** The commands the daemon gets and the requests the guest gets. *)
Inductive port_op : Type := Cmd (c : DaemonCmd) | Asked (request : GuestCommand).
Definition see_port (ev : ev) : reply ev -> list port_op :=
  match ev return reply ev -> list port_op with
  | Ask line => fun _ => match parse_cmd line with Some c => [Cmd c] | None => [] end
  | Send request => fun _ => [Asked request]
  | _ => fun _ => []
  end.

(** The daemon's port state after commands. *)
Definition serve (p : PortState) (o : port_op) : PortState :=
  match o with Cmd c => snd (handle_daemon_cmd c p) | Asked _ => p end.
Definition served (p : PortState) (os : list port_op) : PortState := fold_left serve os p.

(** The daemon is there and answers as [handle_daemon_cmd] does, in the state it has after all that was
    asked so far, starting from [p]. *)
Definition serves (p : PortState) (env : Env ev reply) : Prop :=
  (forall h, env h Connect = Ok tt) /\
  forall h line c, parse_cmd line = Some c ->
    env h (Ask line) = Ok (reply_line (fst (handle_daemon_cmd c (served p (seen see_port env h))))).

Definition io_of (r : DaemonResponse) : result unit str := match r with RespOk => Ok tt | RespErr m => Err m end.

Lemma send_served p env cmd s h : serves p env -> sendable_cmd cmd ->
  exists h', send_daemon_cmd cmd_text parse_reply cmd env s h
    = (io_of (fst (handle_daemon_cmd cmd (served p (seen see_port env h)))), (s, h'))
    /\ seen see_port env h' = seen see_port env h ++ [Cmd cmd].
Proof using lossy_text.
  intros [Hc Ha] Hgood. exists (Ask (cmd_text cmd ++ [NL]) :: Connect :: h). split.
  - unfold send_daemon_cmd, try, bind, call. rewrite Hc. rewrite (Ha _ _ _ (parse_cmd_text cmd Hgood)).
    cbn [seen see_port]. rewrite app_nil_r, parse_reply_text. by destruct (fst _).
  - cbn [seen see_port]. by rewrite parse_cmd_text, app_nil_r by done.
Qed.

Lemma served_app p os os' : served p (os ++ os') = served (served p os) os'.
Proof. apply fold_left_app. Qed.

(** ** What requests do to the active ports *)

(** [m] is [m0] with the forwards [pfs]. *)
Definition published (m0 : gmap Z Z) (pfs : list PortForward) (m : gmap Z Z) : Prop :=
  Forall (fun pf => m !! host_port pf = Some (PortDaemon.container_port pf)) pfs /\
  forall k, k ∉ map host_port pfs -> m !! k = m0 !! k.

Lemma published_nil m : published m [] m.
Proof. by split. Qed.

Lemma published_snoc m0 pfs m pf : published m0 pfs m -> host_port pf ∉ map host_port pfs ->
  published m0 (pfs ++ [pf]) (<[host_port pf := PortDaemon.container_port pf]> m).
Proof.
  intros [Hin Hout] Hnew. split.
  - apply Forall_app. split; [|by rewrite Forall_singleton, lookup_insert_eq].
    rewrite Forall_forall in *. intros q Hq. rewrite lookup_insert_ne; [auto|].
    intros Heq. apply Hnew. rewrite Heq. by apply list_elem_of_fmap_2.
  - intros k Hk. rewrite map_app in Hk. apply not_elem_of_app in Hk as [H1 H2]. rewrite lookup_insert_ne; [auto|].
    intros <-. apply H2. left.
Qed.

Definition delete_all (hps : list Z) (m : gmap Z Z) : gmap Z Z := fold_left (fun m hp => delete hp m) hps m.

Lemma delete_all_lookup hps : forall m k, delete_all hps m !! k = if bool_decide (k ∈ hps) then None else m !! k.
Proof.
  induction hps as [|hp hps IH]; intros m k; cbn; [done|]. unfold delete_all in IH. rewrite IH.
  destruct (decide (k = hp)) as [->|Hne].
  - rewrite lookup_delete_eq. rewrite (bool_decide_eq_true_2 (hp ∈ hp :: hps)) by left. by case_bool_decide.
  - rewrite lookup_delete_ne by done. rewrite (bool_decide_ext (k ∈ hp :: hps) (k ∈ hps)); [done|].
    rewrite elem_of_cons. tauto.
Qed.

Lemma published_removed m0 pfs m : published m0 pfs m -> Forall (fun pf => m0 !! host_port pf = None) pfs ->
  delete_all (map host_port pfs) m = m0.
Proof.
  intros [_ Hout] Hfree. apply map_eq. intros k. rewrite delete_all_lookup. case_bool_decide as Hk; [|by apply Hout].
  apply list_elem_of_fmap in Hk as (pf & -> & Hpf). rewrite Forall_forall in Hfree. symmetry. by apply Hfree.
Qed.

Lemma active_register hp cp p : active p !! hp = None ->
  fst (handle_daemon_cmd (RegisterPort hp cp) p) = RespOk
  /\ active (snd (handle_daemon_cmd (RegisterPort hp cp) p)) = <[hp := cp]> (active p).
Proof. intros H. cbn. by rewrite H. Qed.

Lemma active_unregister hp p : active (snd (handle_daemon_cmd (UnregisterPort hp) p)) = delete hp (active p).
Proof. cbn. destruct (active p !! hp) eqn:E; [done|]. symmetry. by apply delete_id. Qed.

Lemma active_unregister_active hps : forall p, active (fold_left (fun p hp => unregister_active hp p) hps p) = delete_all hps (active p).
Proof.
  induction hps as [|hp hps IH]; intros p; [done|]. cbn [fold_left]. rewrite IH. unfold delete_all. cbn [fold_left]. f_equal.
  unfold unregister_active. destruct (active p !! hp) eqn:E; [done|]. symmetry. by apply delete_id.
Qed.

Definition unregisters (hps : list Z) : list port_op := map (fun hp => Cmd (UnregisterPort hp)) hps.

Lemma active_unregisters hps : forall p, active (served p (unregisters hps)) = delete_all hps (active p).
Proof.
  induction hps as [|hp hps IH]; intros p; [done|]. unfold served, delete_all, unregisters in *. cbn [map fold_left serve].
  rewrite IH. by rewrite active_unregister.
Qed.

Definition is_cmd (o : port_op) : Prop := match o with Cmd _ => True | Asked _ => False end.

(** ** The programs *)

Lemma unregister_served p env hps s : serves p env -> Forall u16 hps -> forall h,
  exists h', for_each hps (unregister_port cmd_text parse_reply) env s h = (tt, (s, h'))
    /\ seen see_port env h' = seen see_port env h ++ unregisters hps.
Proof using lossy_text.
  intros Hs Hu. induction Hu as [|hp hps Hhp Hu IH]; intros h; [exists h; cbn; by rewrite app_nil_r|].
  destruct (send_served p env (UnregisterPort hp) s h Hs (unregister_sendable hp Hhp)) as (h1 & H1 & H2). destruct (IH h1) as (h2 & H3 & H4).
  exists h2. split.
  - cbn [for_each]. unfold unregister_port at 1. unfold bind. rewrite H1. exact H3.
  - by rewrite H4, H2, <- app_assoc.
Qed.

Definition forwards (specs : list str) : list PortForward := omap parse_port_spec specs.
Lemma host_ports_forwards specs : host_ports specs = map host_port (forwards specs).
Proof. unfold host_ports, forwards. induction specs as [|spec specs IH]; [done|]. cbn. destruct (parse_port_spec spec); cbn; by rewrite IH. Qed.

Lemma parse_port_spec_u16 spec pf : parse_port_spec spec = Some pf -> u16 (host_port pf) /\ u16 (PortDaemon.container_port pf).
Proof.
  assert (Hp : forall x n, parse_u16 x = Some n -> u16 n) by (intros x n; by apply parse_uint_bound).
  unfold parse_port_spec. intros H. repeat case_hyp H; simplify_eq; cbn; split; by eapply Hp.
Qed.

Lemma forwards_u16 specs : Forall u16 (map host_port (forwards specs)).
Proof.
  unfold forwards. induction specs as [|spec specs IH]; [constructor|]. cbn. destruct (parse_port_spec spec) as [pf|] eqn:E; [|done].
  constructor; [by eapply parse_port_spec_u16|done].
Qed.

Lemma register_served p env s specs : serves p env -> forall done h m0, published m0 done (active (served p (seen see_port env h))) ->
  NoDup (map host_port (done ++ forwards specs)) -> Forall (fun pf => m0 !! host_port pf = None) (forwards specs) ->
  exists h' os, register_ports cmd_text parse_reply specs env s h = (Ok tt, (s, h'))
    /\ seen see_port env h' = seen see_port env h ++ os /\ Forall is_cmd os
    /\ published m0 (done ++ forwards specs) (active (served p (seen see_port env h'))).
Proof using lossy_text.
  intros Hs. induction specs as [|spec specs IH]; intros dn h m0 Hp Hnd Hfree; cbn [register_ports].
  - exists h, []. cbn [forwards omap list_omap]. rewrite !app_nil_r. repeat split; try done; apply Hp.
  - unfold forwards in *. cbn [omap list_omap] in *. destruct (parse_port_spec spec) as [pf|] eqn:Epf; [|by apply IH].
    apply Forall_cons in Hfree as [Hpf Hfree].
    assert (Hnew : host_port pf ∉ map host_port dn).
    { rewrite map_app, NoDup_app in Hnd. destruct Hnd as (_ & Hd & _). intros Hin. apply (Hd _ Hin). left. }
    destruct (send_served p env (RegisterPort (host_port pf) (PortDaemon.container_port pf)) s h Hs (register_sendable _ _ (parse_port_spec_u16 _ _ Epf))) as (h1 & H1 & H2).
    assert (Hidle : active (served p (seen see_port env h)) !! host_port pf = None) by (rewrite (proj2 Hp _ Hnew); done).
    destruct (active_register _ (PortDaemon.container_port pf) _ Hidle) as [Ha Hb]. rewrite Ha in H1.
    destruct (IH (dn ++ [pf]) h1 m0) as (h2 & os & H3 & H4 & H5 & H6).
    + rewrite H2, served_app. cbn [served fold_left serve]. fold (served p (seen see_port env h)). rewrite Hb. by apply published_snoc.
    + by rewrite <- app_assoc.
    + done.
    + exists h2, (Cmd (RegisterPort (host_port pf) (PortDaemon.container_port pf)) :: os). split; [|split; [|split]].
      * unfold try at 1, or_exit, bind. rewrite H1. exact H3.
      * by rewrite H4, H2, <- app_assoc.
      * by constructor.
      * by rewrite <- app_assoc in H6.
Qed.

(** A port that can be registered, or whose registration is refused. *)
Definition free_or_refused (m0 : gmap Z Z) (pf : PortForward) : Prop :=
  forall cp, m0 !! host_port pf = Some cp -> cp <> PortDaemon.container_port pf.

Definition projects (p : PortState) (os : list port_op) : gmap str (list Z) := compose_projects (served p os).

Lemma projects_unregisters p os hps : projects p (os ++ unregisters hps) = projects p os.
Proof.
  unfold projects. rewrite served_app. generalize (served p os). induction hps as [|hp hps IH]; intros q; [done|].
  unfold served in *. cbn [unregisters map fold_left serve]. rewrite IH. cbn. by destruct (active q !! hp).
Qed.

Lemma roll_back_served p env s specs : serves p env -> forall dn h m0, Forall u16 (map host_port dn) ->
  published m0 dn (active (served p (seen see_port env h))) -> NoDup (map host_port (dn ++ forwards specs)) ->
  Forall (fun pf => m0 !! host_port pf = None) dn -> Forall (free_or_refused m0) (forwards specs) ->
  exists h' r, register_or_roll_back cmd_text parse_reply specs (map host_port dn) env s h = (r, (s, h'))
    /\ projects p (seen see_port env h') = projects p (seen see_port env h)
    /\ match r with
       | Ok hps => exists pfs, hps = map host_port pfs /\ Forall u16 hps /\ published m0 pfs (active (served p (seen see_port env h')))
                     /\ Forall (fun pf => m0 !! host_port pf = None) pfs
       | Err _ => active (served p (seen see_port env h')) = m0
       end.
Proof using lossy_text.
  intros Hs. induction specs as [|spec specs IH]; intros dn h m0 Hu Hp Hnd Hdn Hfree; cbn [register_or_roll_back].
  { exists h, (Ok (map host_port dn)). split; [done|]. split; [done|]. by exists dn. }
  unfold forwards in *. cbn [omap list_omap] in *. destruct (parse_port_spec spec) as [pf|] eqn:Epf; [|by apply IH].
  apply Forall_cons in Hfree as [Hpf Hfree].
  assert (Hnew : host_port pf ∉ map host_port dn).
  { rewrite map_app, NoDup_app in Hnd. destruct Hnd as (_ & Hd & _). intros Hin. apply (Hd _ Hin). left. }
  set (q := served p (seen see_port env h)) in *.
  assert (Hq : active q !! host_port pf = m0 !! host_port pf) by (by apply Hp).
  destruct (send_served p env (RegisterPort (host_port pf) (PortDaemon.container_port pf)) s h Hs (register_sendable _ _ (parse_port_spec_u16 _ _ Epf))) as (h1 & H1 & H2).
  fold q in H1. unfold bind. rewrite H1.
  destruct (m0 !! host_port pf) as [cp|] eqn:Em.
  - (* refused: roll back *)
    assert (Hr : handle_daemon_cmd (RegisterPort (host_port pf) (PortDaemon.container_port pf)) q
                 = (RespErr (#"port " ++ dec (host_port pf) ++ #" is already registered to container port " ++ dec cp), q)).
    { cbn. rewrite Hq. rewrite (proj2 (Z.eqb_neq _ _)); [done|]. by apply Hpf. }
    rewrite Hr. cbn [fst io_of].
    assert (Hsame : served p (seen see_port env h1) = q).
    { rewrite H2, served_app. fold q. unfold served. cbn [fold_left serve]. by rewrite Hr. }
    destruct (unregister_served p env (map host_port dn) s Hs Hu h1) as (h2 & H3 & H4). rewrite H3.
    exists h2, (Err 1). split; [done|]. split.
    + rewrite H4, projects_unregisters. unfold projects. by rewrite Hsame.
    + rewrite H4, served_app, Hsame, active_unregisters. by eapply published_removed.
  - (* accepted *)
    destruct (active_register _ (PortDaemon.container_port pf) q Hq) as [Ha Hb]. rewrite Ha. cbn [io_of].
    assert (Hst : served p (seen see_port env h1) = snd (handle_daemon_cmd (RegisterPort (host_port pf) (PortDaemon.container_port pf)) q)).
    { by rewrite H2, served_app. }
    destruct (IH (dn ++ [pf]) h1 m0) as (h2 & r & H3 & H4 & H5).
    + rewrite map_app. apply Forall_app. split; [done|]. constructor; [by eapply parse_port_spec_u16|constructor].
    + rewrite Hst, Hb. by apply published_snoc.
    + by rewrite <- app_assoc.
    + apply Forall_app. by rewrite Forall_singleton.
    + done.
    + rewrite map_app in H3. exists h2, r. split; [done|]. split; [|done]. rewrite H4. unfold projects. rewrite Hst.
      cbn. by rewrite Hq.
Qed.

(** ** Theorems *)

Lemma asked_adds cmd : adds see_port (passthrough parse_response utf8 cmd) (fun r os => os = [Asked cmd]).
Proof.
  unfold passthrough, converse. eapply adds_bind; [refine (adds_call see_port (Send cmd) (fun _ os => os = [Asked cmd]) _); done|].
  intros sent. eapply adds_silent; [unfold receive_if; silent_go|]. intros answer. destruct (passthrough_command _ _ _ _) as [code scr].
  eapply adds_silent; [refine (silent_call see_port _ _); done|]. intros []. apply adds_ret. by intros os ->.
Qed.

Lemma session_adds cmd : adds see_port (session parse_response utf8 cmd) (fun r os => os = [Asked cmd]).
Proof.
  unfold session. eapply adds_bind; [refine (adds_call see_port (Send cmd) (fun _ os => os = [Asked cmd]) _); done|].
  intros sent. eapply adds_silent; [unfold receive_if; silent_go|]. intros answer. destruct (exec_command _ _ _ _ _) as [[code scr] out].
  eapply adds_silent; [refine (silent_call see_port _ _); done|]. intros [].
  eapply adds_silent; [refine (silent_call see_port _ _); done|]. intros []. apply adds_ret. by intros os ->.
Qed.

Lemma steady_passthrough cmd : steady (passthrough parse_response utf8 cmd).
Proof. unfold passthrough, converse, receive_if, exit. steady_go. Qed.

Lemma ensure_runs (env : Env ev reply) a s h : daemon_args_from_cli e cli = Some a -> env h (EnsureRunning a) = Ok tt ->
  ensure_running e cli env s h = (Ok a, (s, EnsureRunning a :: h)).
Proof. intros Ha He. unfold ensure_running, daemon_args, or_exit, try, bind, call, ok, ret. rewrite Ha. by rewrite He. Qed.

Lemma connects p env s h : serves p env -> connect_or_exit env s h = (Ok tt, (s, Connect :: h)).
Proof. intros [Hc _]. unfold connect_or_exit, or_exit, bind, call. by rewrite Hc. Qed.

Lemma served_asked p os request : served p (os ++ [Asked request]) = served p os.
Proof. by rewrite served_app. Qed.

Lemma asked_run (m : M unit) cmd env s h : adds see_port m (fun _ os => os = [Asked cmd]) ->
  exists x s' h', m env s h = (x, (s', h')) /\ seen see_port env h' = seen see_port env h ++ [Asked cmd].
Proof.
  intros Hm. destruct (Hm env s h) as (os & H1 & ->). destruct (m env s h) as [x [s' h']]. by exists x, s', h'.
Qed.

Lemma connect_asked p env (m : M unit) cmd s h : serves p env -> adds see_port m (fun _ os => os = [Asked cmd]) ->
  exists x s' h', try connect_or_exit (fun _ => m) env s h = (x, (s', h'))
    /\ seen see_port env h' = seen see_port env h ++ [Asked cmd].
Proof.
  intros Hs Hm. unfold try, bind. rewrite (connects p env s h Hs). destruct (asked_run m cmd env s (Connect :: h) Hm) as (x & s' & h' & H1 & H2).
  exists x, s', h'. split; [done|]. rewrite H2. cbn [seen see_port]. by rewrite app_nil_r.
Qed.

Lemma want_tty_ok tty env s h : exists b s' h', want_tty tty env s h = (Ok b, (s', h')) /\ seen see_port env h' = seen see_port env h.
Proof.
  destruct tty; [by eexists _, _, _|]. unfold want_tty, bind, call, ok, ret. eexists _, _, _. split; [done|]. cbn. by rewrite app_nil_r.
Qed.

(** C26: the ports of a run are forwarded while the guest works for it, and given back.  When the published
    ports are distinct and free and the daemon answers as its handler does, the guest is asked after all of them are
    registered; then a run in the foreground leaves the daemon's active ports as they were before, and a
    detached or interactive one leaves them forwarded. *)
Theorem run_ports p env r a s h : serves p env ->
  daemon_args_from_cli e cli = Some a -> (forall h', env h' (EnsureRunning a) = Ok tt) ->
  let m0 := active (served p (seen see_port env h)) in
  let pfs := forwards (cli_ports cli) in
  NoDup (map host_port pfs) -> Forall (fun pf => m0 !! host_port pf = None) pfs ->
  let '(_, (_, h')) := run parse_response utf8 cmd_text parse_reply order e cli r env s h in
  exists before request after, seen see_port env h' = seen see_port env h ++ before ++ Asked request :: after
    /\ Forall is_cmd before
    /\ published m0 pfs (active (served p (seen see_port env h ++ before)))
    /\ (if r_detach r || r_interactive r || r_tty r then after = [] else active (served p (seen see_port env h')) = m0).
Proof using lossy_text.
  clear lower var cwd. intros Hs Ha He m0 pfs Hnd Hfree. unfold run. unfold try at 1. unfold bind at 1.
  rewrite (ensure_runs env a s h Ha (He h)).
  destruct (register_served p env s (cli_ports cli) Hs [] (EnsureRunning a :: h) m0) as (h1 & os & H1 & H2 & H3 & H4);
    [cbn [seen see_port]; rewrite app_nil_r; apply published_nil|done|done|].
  cbn [seen see_port app] in H2, H4. rewrite app_nil_r in H2. rewrite H2 in H4.
  unfold try at 1. unfold bind at 1. rewrite H1. cbn [fst snd].
  destruct (r_interactive r || r_tty r) eqn:Eit.
  - assert (Hor : r_detach r || r_interactive r || r_tty r = true) by (rewrite <- orb_assoc, Eit; apply orb_true_r).
    rewrite Hor. destruct (want_tty_ok (r_tty r) env s h1) as (tty & s2 & h2 & H5 & H6).
    unfold try at 1. unfold bind at 1. rewrite H5.
    destruct (connect_asked p env _ _ s2 h2 Hs (session_adds (GuestProto.Exec (launch order cli r (guest_mounts e cli a)) tty)))
      as (x & s3 & h3 & H7 & H8).
    rewrite H7. exists os, (GuestProto.Exec (launch order cli r (guest_mounts e cli a)) tty), [].
    rewrite H8, H6, H2, <- app_assoc. done.
  - destruct (asked_run _ _ env s (Connect :: h1) (asked_adds (GuestProto.Run (launch order cli r (guest_mounts e cli a)) (r_detach r))))
      as (x & s3 & h3 & H7 & H8).
    unfold try at 1. unfold bind at 1. rewrite (connects p env s h1 Hs). unfold bind at 1. rewrite H7.
    cbn [seen see_port] in H8. rewrite app_nil_r, H2 in H8. rewrite <- orb_assoc, Eit, orb_false_r.
    set (request := GuestProto.Run _ _) in *. destruct (r_detach r).
    + cbn. exists os, request, []. by rewrite H8, <- app_assoc.
    + destruct (unregister_served p env (host_ports (cli_ports cli)) s3 Hs ltac:(rewrite host_ports_forwards; apply forwards_u16) h3) as (h4 & H9 & H10).
      unfold bind at 1. rewrite H9. cbn [ret]. exists os, request, (unregisters (host_ports (cli_ports cli))).
      split; [by rewrite H10, H8, <- !app_assoc|]. split; [done|]. split; [done|].
      rewrite H10, H8, served_app, active_unregisters, served_asked, host_ports_forwards. by eapply published_removed.
Qed.

Lemma served_cmd p c : served p [Cmd c] = snd (handle_daemon_cmd c p).
Proof. done. Qed.

(** The project's ports are tracked unless there are none. *)
Lemma track_served p env s h project hps : serves p env -> valid_utf8 project = true -> Forall u16 hps -> projects p (seen see_port env h) !! project = None ->
  exists h', (if bool_decide (hps = []) then ret tt
              else send_daemon_cmd cmd_text parse_reply (TrackComposeProject project hps) ;; ret tt) env s h = (tt, (s, h'))
    /\ active (served p (seen see_port env h')) = active (served p (seen see_port env h))
    /\ unwrap_or (compose_projects (served p (seen see_port env h')) !! project) [] = hps.
Proof using lossy_text.
  intros Hs Hp Hu Hun. case_bool_decide as Hn.
  - exists h. unfold projects in Hun. by rewrite Hun, Hn.
  - destruct (send_served p env (TrackComposeProject project hps) s h Hs (track_sendable _ _ Hp Hu)) as (h1 & H1 & H2). exists h1.
    unfold bind. rewrite H1. split; [done|]. rewrite H2, served_app, served_cmd. split; [done|].
    cbn. by rewrite lookup_insert_eq.
Qed.

Lemma active_untrack project q hps : unwrap_or (compose_projects q !! project) [] = hps ->
  active (snd (handle_daemon_cmd (UnregisterComposePorts project) q)) = delete_all hps (active q).
Proof.
  cbn. destruct (compose_projects q !! project) as [ports|]; cbn; intros <-; [|done]. by rewrite active_unregister_active.
Qed.

(** C27: [compose] gives the daemon's ports back.  As long as the daemon can be reached and answers as its handler does,
    when the project is not tracked before, the published host ports are distinct and each is free or is taken for
    another container port, the active ports are the same after the command as before, whatever the machine, the
    guest and the files do: a refused registration takes the others back, and the end of the command, failed or not,
    releases the project's ports. *)
Theorem compose_restores_ports p env sub s h : serves p env ->
  let '(file, project, _, _) := compose_parts sub in
  let q := served p (seen see_port env h) in
  let pfs := forwards (cli_ports cli) in
  NoDup (map host_port pfs) -> Forall (free_or_refused (active q)) pfs ->
  valid_utf8 (compose_project_name lower (abs_compose_file cwd file) project) = true ->
  compose_projects q !! compose_project_name lower (abs_compose_file cwd file) project = None ->
  let '(_, (_, h')) := compose parse_response utf8 cmd_text parse_reply lower lossy order e var cwd cli sub env s h in
  active (served p (seen see_port env h')) = active q.
Proof using lossy_text.
  intros Hs. unfold compose. destruct (compose_parts sub) as [[[file project] name] extra]. cbv zeta.
  set (project_name := compose_project_name _ _ _). intros Hnd Hfree Hname Hun.
  destruct (bool_decide _ || _).
  { cbn -[served]. by rewrite ?app_nil_r. }
  unfold try at 1. unfold bind at 1.
  assert (Hen : silent see_port (ensure_running e cli)).
  { unfold ensure_running, daemon_args, or_exit, ok, exit. silent_go. }
  destruct (Hen env s h) as (os & H1 & ->). rewrite app_nil_r in H1.
  destruct (ensure_running e cli env s h) as [[a|x] [s1 h1]]; cbn [fst snd] in H1; [|cbn; by rewrite H1].
  destruct (roll_back_served p env s1 (cli_ports cli) Hs [] h1 (active (served p (seen see_port env h))))
    as (h2 & r & H2 & H3 & H4); [constructor|rewrite H1; apply published_nil|done|constructor|done|].
  unfold try at 1. unfold bind at 1. cbn [map] in H2. rewrite H2. destruct r as [hps|x]; [|cbn -[served]; by rewrite H4].
  destruct H4 as (pfs & -> & Hu & Hpub & Hm0).
  destruct (track_served p env s1 h2 project_name (map host_port pfs) Hs Hname Hu) as (h3 & H5 & H6 & H7);
    [by rewrite H3, H1|].
  unfold bind at 1. rewrite H5. unfold bind at 1. unfold call at 1. set (content := env h3 _). unfold try at 1. unfold bind at 1.
  rewrite (connects p env s1 _ Hs). set (request := GuestProto.Compose _ _ _ _ _ _).
  destruct (asked_run _ request env s1 (Connect :: ReadFile (abs_compose_file cwd file) :: h3) (asked_adds request)) as (x & s4 & h4 & H8 & H9).
  unfold bind at 1. rewrite H8. destruct (send_served p env (UnregisterComposePorts project_name) s4 h4 Hs (untrack_sendable _ Hname)) as (h5 & H10 & H11).
  unfold bind at 1. rewrite H10. cbn [ret]. rewrite H11, H9, served_app, served_asked. cbn [seen see_port]. rewrite !app_nil_r.
  rewrite served_cmd, (active_untrack _ _ (map host_port pfs)) by done. rewrite H6. by apply published_removed.
Qed.
End Ports.

(** * Witnesses *)

#[local] Abbreviation id_text := (fun s : str => s).
#[local] Abbreviation any_text := (fun _ : str => true).

(** What the daemon has been asked, as far as the history tells without the replies. *)
Fixpoint asked_so_far (h : list ev) : list port_op :=
  match h with
  | [] => []
  | Ask line :: h => asked_so_far h ++ match parse_cmd id_text line with Some c => [Cmd c] | None => [] end
  | Send request :: h => asked_so_far h ++ [Asked request]
  | _ :: h => asked_so_far h
  end.

Lemma seen_asked env h : seen (see_port id_text) env h = asked_so_far h.
Proof. induction h as [|[] h IH]; cbn [seen see_port asked_so_far]; rewrite ?IH, ?app_nil_r; done. Qed.

(** A host where everything works, and a daemon that starts with the ports [p]. *)
Definition demo_env (p : PortState) : Env ev reply := fun h e =>
  match e return reply e with
  | EnsureRunning _ | Connect | CreateDirs _ | WriteFile _ _ | CopyFile _ _ => Ok tt
  | RunDaemon _ | RelaySsh _ => 0
  | ConsoleSession _ => Ok 0
  | Ask line =>
      match parse_cmd id_text line with
      | Some c => Ok (reply_text (fst (handle_daemon_cmd c (served p (asked_so_far h)))) ++ [NL])
      | None => Err []
      end
  | ReadLine | PromptPassword | ReadFile _ => Ok []
  | Canonicalize p => Ok p
  | Send _ | SendFile _ | IsTty | IsDir _ => true
  | Exists path => negb (contains #"vm.conf" path)
  | Signal0 _ => false
  | Receive => (response_text (Exit 0) ++ [NL], UnexpectedEof)
  | Status _ _ => Ok (Some 0)
  | Output _ _ => Ok (mkOutput [] (Some 0))
  | Untar _ => fun _ => true
  | FileSize _ => Ok 1%nat
  | ListDirs _ => None
  | NowMicros | NowMillis => 0
  | Show _ | ShowFrames _ | Print _ | Eprint _ | Terminate _ | RemoveDirs _ | RemoveFile _ | Sleep _ => tt
  end.

Lemma demo_serves p : serves id_text p (demo_env p).
Proof.
  split; [done|]. intros h line c Hc. cbn [demo_env]. by rewrite Hc, seen_asked.
Qed.

Definition demo_run : RunArgs := mkRun #"alpine" [ #"sh"] None false [] [] false false [] [].

Lemma run_ports_witness :
  let '(_, (_, h')) := run (read decode_response) any_text daemon_text (read decode_reply) map_to_list (demo_host None 0) demo_cli demo_run
                         (demo_env new_ports) tt [] in
  exists before request after, seen (see_port id_text) (demo_env new_ports) h' = before ++ Asked request :: after
    /\ Forall is_cmd before
    /\ published ∅ (forwards [ #"8080:80"]) (active (served new_ports before))
    /\ active (served new_ports (seen (see_port id_text) (demo_env new_ports) h')) = ∅.
Proof.
  destruct (daemon_args_from_cli (demo_host None 0) demo_cli) as [a|] eqn:Ea; [|vm_compute in Ea; discriminate].
  pose proof (run_ports (read decode_response) any_text id_text map_to_list (demo_host None 0) demo_cli
    (fun _ _ => eq_refl) new_ports (demo_env new_ports) demo_run a tt [] (demo_serves new_ports) Ea) as H.
  cbv zeta in H. apply H; clear H.
  - done.
  - vm_compute. apply NoDup_singleton.
  - vm_compute. constructor; [done|constructor].
Defined.

Lemma compose_restores_ports_witness :
  let '(_, (_, h')) := compose (read decode_response) any_text daemon_text (read decode_reply) to_ascii_lowercase id_text map_to_list
      (demo_host None 0) (fun _ => None) None demo_cli (Up #"/Users/me/app/compose.reml" None false) (demo_env new_ports) tt [] in
  active (served new_ports (seen (see_port id_text) (demo_env new_ports) h')) = ∅.
Proof.
  pose proof (compose_restores_ports (read decode_response) any_text to_ascii_lowercase id_text map_to_list
    (demo_host None 0) (fun _ => None) None demo_cli (fun _ _ => eq_refl) new_ports
    (demo_env new_ports) (Up #"/Users/me/app/compose.reml" None false) tt [] (demo_serves new_ports)) as H.
  cbn [compose_parts] in H. cbv zeta in H. apply H; clear H.
  - vm_compute. apply NoDup_singleton.
  - vm_compute. constructor; [done|constructor].
  - reflexivity.
  - reflexivity.
Defined.

(** ** Port accounting that goes wrong *)

#[local] Abbreviation demo_active p h := (map_to_list (active (served p (seen (see_port id_text) (demo_env p) h)))).

#[local] Abbreviation demo_compose cli sub p := (compose (read decode_response) any_text daemon_text (read decode_reply) to_ascii_lowercase id_text
  map_to_list (demo_host None 0) (fun _ => None) None cli sub (demo_env p) tt []).

(** Listing a stack releases the ports of the running stack. *)
Definition stack_ports : PortState := mkPorts {[ 8080 := 80 ]} {[ #"app" := [8080] ]} ∅ [].
Example compose_ps_releases :
  let '(_, (_, h')) := demo_compose demo_cli (ComposePs #"/Users/me/app/compose.reml" None) stack_ports in
  demo_active stack_ports h' = [].
Proof. vm_compute. reflexivity. Qed.

Definition two_ports : Cli := mkCli #"default" (Some #"/k") None (Some #"/d") #"console=hvc0" None None [] [ #"8080:80"; #"9090:90"] [].

(** When the second port is refused, [run] leaves the first one registered. *)
Definition taken_port : PortState := mkPorts {[ 9090 := 1 ]} ∅ ∅ [].
Example run_keeps_first_port :
  let '(r, (_, h')) := run (read decode_response) any_text daemon_text (read decode_reply) map_to_list (demo_host None 0) two_ports demo_run
                         (demo_env taken_port) tt [] in
  r = Err 1 /\ demo_active taken_port h' = [(9090, 1); (8080, 80)].
Proof. vm_compute. split; reflexivity. Qed.

(** Rolling back also removes a forward that was there before. *)
Definition other_port : PortState := mkPorts {[ 8080 := 80; 9090 := 1 ]} ∅ ∅ [].
Example roll_back_takes_others :
  let '(r, (_, h')) := demo_compose two_ports (Up #"/Users/me/app/compose.reml" None false) other_port in
  r = Err 1 /\ demo_active other_port h' = [(9090, 1)].
Proof. vm_compute. split; reflexivity. Qed.
