(* ===== verification/HostVm.v ===== *)
(** The [vm] commands ([pelagos-mac/src/main.rs]): what [vm init] does to the profile's files, and the end of
    the waiting loops. *)

From S2P Require Import Prelude RustStd Paths Json Wire VmState PortDaemon GuestProto HostClient HostCli HostMain HostPorts.

#[local] Open Scope Z_scope.

(** * [vm init] *)

Inductive init_op : Type :=
| Running (alive : bool)
| Found (path : str) (there : bool)
| Killed (pid : Z)
| Copied (src dst : str) (done : bool)
| Wrote (path text : str) (done : bool).

Definition see_init (e : ev) : reply e -> list init_op :=
  match e return reply e -> list init_op with
  | Signal0 _ => fun alive => [Running alive]
  | Exists path => fun there => [Found path there]
  | Terminate pid => fun _ => [Killed pid]
  | CopyFile src dst => fun r => [Copied src dst (is_ok (r : result unit str))]
  | WriteFile path text => fun r => [Wrote path text (is_ok (r : result unit str))]
  | _ => fun _ => []
  end.

(** A step that changes no file; only a forced [vm init] ends a process. *)
Definition harmless (force : bool) (o : init_op) : Prop :=
  match o with Running _ | Found _ _ => True | Killed _ => force = true | _ => False end.

Definition plain_path (p : str) : Prop := tight p /\ NL ∉ p.
Definition plain_option (o : option str) : Prop := match o with Some p => plain_path p | None => True end.

Lemma conf_line a k v c : is_graph a = true -> a <> "#"%char -> "="%char ∉ a :: k -> tight v ->
  config_line c ((a :: k) ++ #"= " ++ v) = set_key (trim (a :: k)) v c.
Proof.
  intros Ha Hh Hk Hv. assert (Ht : tight [a]) by (apply tight_graph; [done|by repeat constructor]).
  unfold config_line. change ((a :: k) ++ #"= " ++ v) with ([a] ++ (k ++ #"= " ++ v)). rewrite (app_assoc k).
  rewrite trim_tight by (by apply tight_app). cbn [app]. rewrite decide_False by done.
  change (a :: (k ++ #"= ") ++ v) with ((a :: k ++ #"= ") ++ v).
  replace ((a :: k ++ #"= ") ++ v) with ((a :: k) ++ "="%char :: #" " ++ v) by (cbn; by rewrite <- app_assoc).
  rewrite split_once_app by done. change (trim (#" " ++ v)) with (trim v). by rewrite (trim_tight _ Hv).
Qed.

Definition initial_config (disk : str) (kernel initrd : option str) : VmProfileConfig :=
  mkConfig (Some disk) kernel initrd None None Vsock None None.

Lemma last_tight s t : tight t -> last (s ++ t) <> Some CR.
Proof.
  intros (a & b & u & Ha & Hb & Ht).
  assert (Hlast : exists w, t = w ++ [b]) by (destruct Ht as [[-> <-]| ->]; [by exists []|by exists (a :: u)]).
  destruct Hlast as [w ->]. rewrite app_assoc, last_snoc. intros [= ->]. done.
Qed.

(** The configuration [vm init] writes is read back. *)
Lemma conf_text_read disk kernel initrd : plain_path disk -> plain_option kernel -> plain_option initrd ->
  parse_config (conf_text disk kernel initrd) = initial_config disk kernel initrd.
Proof.
  intros Hd Hk Hi.
  set (ls := [ #"# vm.conf — written by pelagos vm init"; #"# kernel and initrd are discovered automatically from the Homebrew";
    #"# pkgshare unless overridden here (e.g. via --vm-data for dev builds)."; #"disk   = " ++ disk]
    ++ match kernel with Some k => [ #"kernel = " ++ k] | None => [] end ++ match initrd with Some i => [ #"initrd = " ++ i] | None => [] end).
  assert (Ht : conf_text disk kernel initrd = unlines ls).
  { unfold conf_text, ls, unlines. destruct kernel, initrd; cbn [app map concat]; by rewrite ?app_nil_r, <- ?app_assoc. }
  assert (Hline : forall a k v, (NL ∉ a :: k) -> plain_path v -> (NL ∉ (a :: k) ++ #"= " ++ v) /\ last ((a :: k) ++ #"= " ++ v) <> Some CR).
  { intros a k v Hk' [Hv Hn]. split.
    - rewrite !not_elem_of_app. split; [done|]. split; [by apply not_in_literal|done].
    - rewrite app_assoc. by apply last_tight. }
  rewrite Ht. unfold parse_config. rewrite lines_unlines.
  - unfold ls. rewrite !fold_left_app. cbn [fold_left].
    change (#"disk   = " ++ disk) with (("d"%char :: #"isk   ") ++ #"= " ++ disk).
    rewrite conf_line by (first [done|apply Hd|by apply not_in_literal]).
    destruct kernel as [k|]; cbn [fold_left].
    + change (#"kernel = " ++ k) with (("k"%char :: #"ernel ") ++ #"= " ++ k).
      rewrite (conf_line _ _ k) by (first [done|apply Hk|by apply not_in_literal]).
      destruct initrd as [i|]; cbn [fold_left]; [|done].
      change (#"initrd = " ++ i) with (("i"%char :: #"nitrd ") ++ #"= " ++ i).
      by rewrite (conf_line _ _ i) by (first [done|apply Hi|by apply not_in_literal]).
    + destruct initrd as [i|]; cbn [fold_left]; [|done].
      change (#"initrd = " ++ i) with (("i"%char :: #"nitrd ") ++ #"= " ++ i).
      by rewrite (conf_line _ _ i) by (first [done|apply Hi|by apply not_in_literal]).
  - unfold ls. rewrite !Forall_app, !Forall_cons. split.
    + repeat (split; [split; [by apply not_in_literal|done]|]). split; [by apply (Hline "d"%char #"isk   "); [apply not_in_literal|]|done].
    + split; [destruct kernel|destruct initrd]; rewrite ?Forall_singleton; try done.
      * by apply (Hline "k"%char #"ernel "); [apply not_in_literal|].
      * by apply (Hline "i"%char #"nitrd "); [apply not_in_literal|].
Qed.

(** The files' part: the disk is copied unless it is there and not forced, and then the configuration
    is written. *)
Definition files_written (force : bool) (dst conf : str) (good : bool) (os : list init_op) : Prop :=
  exists there copy write, os = Found dst there :: copy ++ write
    /\ (if there && negb force then copy = [] else exists src b, copy = [Copied src dst b] /\ (b = false -> write = []))
    /\ ((write = [] /\ good = false) \/ exists kernel initrd, write = [Wrote conf (conf_text dst kernel initrd) good]
          /\ (plain_path dst -> plain_option kernel -> plain_option initrd ->
              parse_config (conf_text dst kernel initrd) = initial_config dst kernel initrd)).

Section Init.
Context (e : host) (cli : Cli).

#[local] Abbreviation quiet force m := (only see_init (harmless force) m).

Lemma open_named_unseen name : silent see_init (open_named e name).
Proof. unfold open_named, fail, ok. silent_go. Qed.

Lemma running_pid_looks force s :
  adds see_init (running_pid s) (fun pid os => Forall (harmless force) os /\ (Running true ∈ os -> is_Some pid)).
Proof.
  unfold running_pid. eapply adds_silent; [refine (silent_call see_init _ _); done|]. intros [t|x].
  - destruct (parse_u32 (trim t)) as [pid|]; [|apply adds_ret; split; [constructor|by intros ?%elem_of_nil]].
    eapply adds_bind; [refine (adds_call see_init (Signal0 _) (fun (b : bool) os => os = [Running b]) _); done|].
    intros b. apply adds_ret. intros os ->. split; [by repeat constructor|]. rewrite app_nil_r.
    intros [= <-]%list_elem_of_singleton. by eexists.
  - apply adds_ret. split; [constructor|by intros ?%elem_of_nil].
Qed.

Lemma quiet_running_pid force s : quiet force (running_pid s).
Proof. eapply adds_weaken; [apply (running_pid_looks force)|]. by intros pid os [? _]. Qed.
Lemma quiet_open_named force name : quiet force (open_named e name).
Proof. eapply adds_weaken; [apply open_named_unseen|]. intros pid os ->. constructor. Qed.
#[local] Hint Resolve quiet_running_pid quiet_open_named : sys_db.

Lemma quiet_wait_gone fuel s : forall deadline, quiet true (wait_gone fuel s deadline).
Proof. induction fuel as [|fuel IH]; intros deadline; cbn [wait_gone]; go. Qed.
#[local] Hint Resolve quiet_wait_gone : sys_db.

Lemma quiet_stop_running fuel : quiet true (stop_running e cli fuel).
Proof. unfold stop_running, open_state, wait_for_exit. go. Qed.

Lemma refuse_running_looks :
  adds see_init (refuse_running e cli) (fun r os => Forall (harmless false) os /\ (Running true ∈ os -> is_ok r = false)).
Proof.
  unfold refuse_running, open_state. eapply adds_silent; [apply open_named_unseen|]. intros [s|x].
  - eapply adds_bind; [apply (running_pid_looks false)|]. intros [pid|]; apply adds_ret; intros os [Ho Hr]; rewrite app_nil_r; split; try done.
    by intros [? [=]]%Hr.
  - apply adds_ret. split; [constructor|by intros ?%elem_of_nil].
Qed.

Definition is_found (o : init_op) : Prop := match o with Found _ _ => True | _ => False end.
Lemma founds_first_existing paths : only see_init is_found (first_existing paths).
Proof. induction paths; cbn [first_existing]; go. Qed.
#[local] Hint Resolve founds_first_existing : sys_db.

Lemma founds_init_artifacts vm_data : only see_init is_found (init_artifacts e vm_data).
Proof. unfold init_artifacts, existing_or. go. Qed.

Lemma found_harmless force os : Forall is_found os -> Forall (harmless force) os /\ Running true ∉ os.
Proof.
  intros Ho. split.
  - eapply Forall_impl; [exact Ho|]. by intros [].
  - rewrite Forall_forall in Ho. by intros ?%Ho.
Qed.

(** The files' part of a command with the given end. *)
Lemma copy_disk_adds force dir src dst : adds see_init (copy_disk force dir src dst) (fun r os => exists there copy,
  os = Found dst there :: copy /\
  (if there && negb force then copy = [] /\ r = Ok tt else copy = [Copied src dst (is_ok r)])).
Proof.
  unfold copy_disk. eapply adds_bind; [refine (adds_call see_init (Exists dst) (fun (b : bool) os => os = [Found dst b]) _); done|].
  intros there. eapply adds_weaken with (P := fun r os => if (there : bool) && negb force then os = [] /\ r = Ok tt
    else os = [Copied src dst (is_ok r)]); [|intros r os H os' ->; by exists there, os].
  replace (negb (there : bool) || force) with (negb ((there : bool) && negb force)) by (by rewrite negb_andb, negb_involutive).
  destruct ((there : bool) && negb force); cbn [negb].
  - unfold println, ok. eapply adds_silent; [silent_go|]. intros []. by apply adds_ret.
  - eapply adds_silent; [refine (silent_call see_init _ _); done|]. intros [].
    eapply try_adds; [refine (adds_call see_init (CopyFile src dst) (fun r os => os = [Copied src dst (is_ok (r : result unit str))]) _); done| |].
    + by intros x os ->.
    + intros []. unfold println, ok. eapply adds_silent; [silent_go|]. intros []. apply adds_ret. by intros os ->.
Qed.

Lemma files_adds force dir src dst conf kernel initrd (k : IO unit) : silent see_init k -> (forall env s h, fst (k env s h) = Ok tt) ->
  adds see_init (copy_disk force dir src dst ;;? ask (WriteFile conf (conf_text dst kernel initrd)) ;;? k)
    (fun r os => files_written force dst conf (is_ok r) os).
Proof.
  intros Hk Hok. eapply try_adds; [apply copy_disk_adds| |].
  - intros x os (there & copy & -> & Hc). exists there, copy, []. rewrite app_nil_r. split; [done|].
    split; [|by left]. destruct (there && negb force); [by destruct Hc|]. by exists src, false.
  - intros [].
    assert (Hw : adds see_init (ask (WriteFile conf (conf_text dst kernel initrd)) ;;? k)
      (fun r os => os = [Wrote conf (conf_text dst kernel initrd) (is_ok r)])).
    { intros env s h. unfold try, bind, call. destruct (env h (WriteFile conf (conf_text dst kernel initrd))) as [[]|x] eqn:E.
      - destruct (Hk env s (WriteFile conf (conf_text dst kernel initrd) :: h)) as (os & H1 & ->). rewrite Hok.
        exists [Wrote conf (conf_text dst kernel initrd) true]. rewrite H1. cbn [seen see_init]. by rewrite E, app_nil_r.
      - exists [Wrote conf (conf_text dst kernel initrd) false]. cbn -[conf_text]. by rewrite E. }
    eapply adds_weaken; [exact Hw|]. intros r os -> os' (there & copy & -> & Hc).
    exists there, copy, [Wrote conf (conf_text dst kernel initrd) (is_ok r)]. split; [done|]. split.
    + destruct (there && negb force); [by destruct Hc|]. by exists src, true.
    + right. exists kernel, initrd. split; [done|]. apply conf_text_read.
Qed.

(** What a [vm init] that ends well ([good]) or not may do. *)
Definition init_effect (force good : bool) (os : list init_op) : Prop :=
  exists looking files, os = looking ++ files /\ Forall (harmless force) looking
    /\ ((files = [] /\ good = false) \/
        exists dir, profile_path e cli = Some dir
          /\ files_written force (path_join dir #"root.img") (path_join dir #"vm.conf") good files
          /\ (force = false -> (Running true ∉ looking) /\ Found (path_join dir #"vm.conf") false ∈ looking)).

Lemma init_stops force os : Forall (harmless force) os -> init_effect force false os.
Proof. intros Ho. exists os, []. rewrite app_nil_r. split; [done|]. split; [done|]. by left. Qed.

Lemma init_looks force good os os' : Forall (harmless force) os -> (force = false -> Running true ∉ os) ->
  init_effect force good os' -> init_effect force good (os ++ os').
Proof.
  intros Ho Hr (looking & files & -> & Hl & Hf). exists (os ++ looking), files. split; [by rewrite app_assoc|].
  split; [by apply Forall_app|]. destruct Hf as [Hf|(dir & Hd & Hw & Hfree)]; [by left|]. right. exists dir.
  split; [done|]. split; [done|]. intros Hforce. destruct (Hfree Hforce) as [H1 H2]. rewrite not_elem_of_app, elem_of_app. auto.
Qed.

(** C28: [vm init] does not harm a machine that runs or a profile that is set up.  Before anything is
    written it only looks around; without [--force] it goes on only if the daemon does not run and there
    is no [vm.conf], and ends no process.  Then the disk image is copied, unless it is there and not
    forced, and after that the configuration is written, once, exactly when the command succeeds; what
    it writes reads back as these files and no other setting. *)
Theorem vm_init_effect fuel vm_data force env s h :
  let '(r, (_, h')) := vm_init e cli fuel vm_data force env s h in
  exists os, seen see_init env h' = seen see_init env h ++ os /\ init_effect force (is_ok r) os.
Proof.
  cut (adds see_init (vm_init e cli fuel vm_data force) (fun r os => init_effect force (is_ok r) os)).
  { intros H. destruct (H env s h) as (os & H1 & H2). destruct (vm_init e cli fuel vm_data force env s h) as [r [s' h']]. by exists os. }
  unfold vm_init. eapply try_adds with (P := fun r os => Forall (harmless force) os /\ (is_ok r = true -> force = false -> Running true ∉ os)).
  { destruct force; [by apply adds_ret|]. eapply adds_weaken; [apply refuse_running_looks|]. intros r os [Ho Hr]. split; [done|].
    intros Hok _ Hin. rewrite Hr in Hok; done. }
  { intros x os [Ho _]. by apply init_stops. }
  intros []. eapply adds_weaken with (P := fun r os => init_effect force (is_ok r) os);
    [|intros r os Hi os' [Ho Hr]; apply init_looks; auto].
  eapply try_adds; [apply founds_init_artifacts|intros x os Ho; by apply init_stops, found_harmless|].
  intros [[kernel initrd] src]. eapply adds_weaken with (P := fun r os => init_effect force (is_ok r) os);
    [|intros r os Hi os' Ho; apply init_looks; [by apply found_harmless|intros _; by apply (found_harmless force)|done]].
  destruct (profile_path e cli) as [dir|] eqn:Ed; [|apply adds_ret; by apply init_stops].
  eapply try_silent; [refine (silent_call see_init _ _); done|intros x; by apply init_stops|]. intros [].
  eapply adds_bind; [refine (adds_call see_init (Exists _) (fun (b : bool) os => os = [Found (path_join dir #"vm.conf") b]) _); done|].
  intros configured. destruct ((configured : bool) && negb force) eqn:Ec.
  { apply adds_ret. intros os ->. apply init_stops. by repeat constructor. }
  eapply try_adds with (P := fun r os => Forall (harmless force) os /\ (force = false -> os = [])).
  { destruct force; [|by apply adds_ret]. eapply adds_weaken; [apply quiet_stop_running|]. by intros r os Ho. }
  { intros x os [Ho _] os' ->. apply init_stops. by constructor. }
  intros []. eapply adds_weaken; [apply files_adds|].
  - unfold println, ok. silent_go.
  - done.
  - intros r os Hw os1 [Ho1 Hn1] os2 ->. exists (Found (path_join dir #"vm.conf") configured :: os1), os.
    split; [done|]. split; [by constructor|]. right. exists dir. split; [done|]. split; [done|]. intros ->.
    rewrite (Hn1 eq_refl). rewrite andb_true_r in Ec. split; [by intros ?%list_elem_of_singleton|]. rewrite <- Ec. left.
Qed.
End Init.

(** * Waiting *)

Section Waiting.
Context (lossy : str -> str).

(** The time slept so far, and a clock that shows at least that, from [t0] on. *)
Fixpoint slept (h : list ev) : Z :=
  match h with
  | [] => 0
  | Sleep millis :: h => slept h + millis
  | _ :: h => slept h
  end.
Definition clock_counts (env : Env ev reply) (t0 : Z) : Prop := forall h, t0 + slept h <= env h NowMillis.

(** How much [m] sleeps. *)
Definition sleeps {A} (n : Z) (m : Sys ev reply unit A) : Prop := forall env s h, slept (snd (snd (m env s h))) = slept h + n.

Lemma running_pid_sleeps s : sleeps 0 (running_pid s).
Proof.
  intros env u h. unfold running_pid, bind, call. destruct (env h (ReadFile (pid_file s))) as [t|x]; cbn -[parse_u32 trim]; [|lia].
  destruct (parse_u32 (trim t)); cbn; lia.
Qed.

Lemma wait_gone_ends fuel env t0 st deadline : clock_counts env t0 -> forall s h,
  deadline <= t0 + slept h + 100 * Z.of_nat fuel -> fst (wait_gone (S fuel) st deadline env s h) <> None.
Proof.
  intros Hc. induction fuel as [|fuel IH]; intros s h Hd.
  - cbn [wait_gone]. unfold bind, call. specialize (Hc h). rewrite (proj2 (Z.leb_le _ _)) by lia. done.
  - remember (S fuel) as f. cbn [wait_gone]. unfold bind at 1. unfold call at 1. destruct (deadline <=? _); [done|].
    unfold bind at 1. pose proof (running_pid_sleeps st env s (NowMillis :: h)) as Hr. cbn [slept] in Hr.
    destruct (running_pid st env s (NowMillis :: h)) as [[pid|] [s1 h1]]; [|done]. cbn [fst snd] in Hr.
    unfold bind, call. subst f. apply IH. cbn [slept]. lia.
Qed.

Lemma report_error_sleeps progress out : sleeps 0 (report_error lossy progress out).
Proof.
  intros env s h. unfold report_error. destruct out as [o|x]; cbv zeta; [|cbn; lia]. case_bool_decide; cbn; lia.
Qed.

Lemma ping_attempts_end fuel argv env t0 start deadline : clock_counts env t0 -> forall attempt s h,
  deadline <= t0 + slept h + 15000 * Z.of_nat fuel ->
  fst (ping_attempts lossy (S fuel) attempt argv start deadline env s h) <> None.
Proof.
  intros Hc. induction fuel as [|fuel IH]; intros attempt s h Hd; [|remember (S fuel) as f]; cbn [ping_attempts]; cbv zeta;
    do 3 (unfold bind at 1; unfold call at 1);
    (destruct (match env _ (Output _ _) with Ok _ => _ | Err _ => _ end); [done|]); unfold bind at 1.
  - match goal with |- context [report_error lossy ?p ?o env s ?h1] => pose proof (report_error_sleeps p o env s h1) as Hr;
      destruct (report_error lossy p o env s h1) as [[] [s2 h2]] end.
    cbn [fst snd slept] in Hr. unfold bind at 1. unfold call at 1. specialize (Hc h2).
    rewrite (proj2 (Z.leb_le _ _)) by lia. done.
  - match goal with |- context [report_error lossy ?p ?o env s ?h1] => pose proof (report_error_sleeps p o env s h1) as Hr;
      destruct (report_error lossy p o env s h1) as [[] [s2 h2]] end.
    cbn [fst snd slept] in Hr. unfold bind at 1. unfold call at 1. destruct (deadline <=? _); [done|].
    unfold bind, call. subst f. apply IH. cbn [slept]. lia.
Qed.

(** The waiting loops end.  With a clock that shows at least the time slept, 451 rounds are enough for the
    wait for the daemon's end and 41 attempts for [ping] over ssh, whatever else happens: one of them
    succeeds or the deadline is seen. *)
Theorem waits_end env t0 st argv now s h : clock_counts env t0 -> now <= t0 + slept h ->
  fst (wait_gone 451 st (now + STOP_MILLIS) env s h) <> None /\
  fst (ping_attempts lossy 41 1 argv now (now + PING_MILLIS) env s h) <> None.
Proof.
  intros Hc Hn. split.
  - apply (wait_gone_ends 450 env t0); [done|]. unfold STOP_MILLIS. lia.
  - apply (ping_attempts_end 40 argv env t0); [done|]. unfold PING_MILLIS. lia.
Qed.
End Waiting.

(** * Witnesses *)

(** A daemon that never ends. *)
Definition stubborn_env : Env ev reply := fun h e =>
  match e return reply e with
  | NowMillis => slept h
  | Signal0 _ => true
  | ReadFile _ => Ok #"4242"
  | e => demo_env new_ports h e
  end.
Lemma waits_end_witness :
  fst (wait_gone 451 (open_profile #"/data" #"default") STOP_MILLIS stubborn_env tt []) <> None /\
  fst (ping_attempts (fun s => s) 41 1 [] 0 PING_MILLIS stubborn_env tt []) <> None.
Proof.
  apply (waits_end (fun s => s) stubborn_env 0 (open_profile #"/data" #"default") [] 0 tt []).
  - intros h. cbn. lia.
  - cbn. lia.
Defined.
Example stubborn_wait : fst (wait_gone 451 (open_profile #"/data" #"default") STOP_MILLIS stubborn_env tt []) = Some false.
Proof. vm_compute. reflexivity. Qed.
