(* ===== verification/Life.v ===== *)
(** The life of a command that runs in the guest: from the dispatch of the host program through the daemon's
    connection and relay to the handler of the guest, and all the way back, on connections that may break
    anywhere. *)

From S2P Require Import Prelude RustStd Paths Json JsonText GuestProto GuestBuild GuestServer Wire HostClient PortDaemon Protocol HostCli HostMain HostPorts Relays.

#[local] Open Scope Z_scope.

(** * The hops *)

(** The request of a command of the host that is one call in the guest. *)
Definition remote_request (command : Commands) : option GuestCommand :=
  match command with
  | Logs name follow => Some (GuestProto.Logs name follow)
  | Inspect name => Some (ContainerInspect name)
  | Start name false cmd => Some (GuestProto.Start name false cmd)
  | Stop name => Some (GuestProto.Stop name)
  | Restart name time => Some (GuestProto.Restart name time)
  | Rm name force => Some (GuestProto.Rm name force)
  | Image (Ls json) => Some (ImageLs json)
  | Image (Pull reference) => Some (ImagePull reference)
  | Image (ImgRm reference) => Some (ImageRm reference)
  | Image (Tag source target) => Some (ImageTag source target)
  | Image (Logout registry) => Some (ImageLogout registry)
  | _ => None
  end.

(** The subprocess that such a request runs in the guest. *)
Definition runtime_call (pelagos_bin : str) (c : GuestCommand) : option Command :=
  let run argv := Some (cmd0 pelagos_bin argv) in
  match c with
  | GuestProto.Logs name follow => run ([ #"logs"; name] ++ (if follow then [ #"--follow"] else []))
  | ContainerInspect name => run [ #"container"; #"inspect"; name]
  | GuestProto.Start name false cmd => run ([ #"start"; name] ++ (if bool_decide (cmd = []) then [] else #"--" :: cmd))
  | GuestProto.Stop name => run [ #"stop"; name]
  | GuestProto.Restart name time => run [ #"restart"; #"--time"; dec time; name]
  | GuestProto.Rm name force => run ([ #"rm"; name] ++ (if force then [ #"--force"] else []))
  | ImageLs json => run ([ #"image"; #"ls"] ++ (if json then [ #"--format"; #"json"] else []))
  | ImagePull reference => run [ #"image"; #"pull"; reference]
  | ImageRm reference => run [ #"image"; #"rm"; reference]
  | ImageTag source target => run [ #"image"; #"tag"; source; target]
  | ImageLogout registry => run [ #"image"; #"logout"; registry]
  | _ => None
  end.

Section Life.
Context {J : Json} `{JT : JsonText}.
(** What the programs find, and the wording of a parse error. *)
Context (pretty : Json.Value -> str) (lower lossy : str -> str).
Context (order guest_order : gmap str str -> list (str * str)).
Context (e : host) (var : str -> option str) (cwd : option str) (temp_dir mac_version : str) (cli : Cli).
Context (pelagos_bin version : str) (parse_int_error reason : str -> str).

(** Every reader takes UTF-8 only. *)
#[local] Abbreviation utf8 := valid_utf8.

(** The texts of [Protocol]. *)
#[local] Abbreviation render := response_text.
#[local] Abbreviation parse_response := (read decode_response).
#[local] Abbreviation cmd_text := daemon_text.
#[local] Abbreviation parse_reply := (read decode_reply).
#[local] Abbreviation parse_daemon := (read decode_daemon).
#[local] Abbreviation request := command_text.

Definition parse_command (line : str) : result GuestCommand str :=
  match read (decode_command guest_order) line with Some c => Ok c | None => Err (reason line) end.

#[local] Abbreviation host_main := (HostMain.main parse_response utf8 pretty cmd_text parse_reply lower lossy order e var cwd
  temp_dir mac_version cli).
#[local] Abbreviation guest_connection := (GuestServer.handle_connection pelagos_bin utf8 lossy version parse_int_error parse_command).

(** The responses of a guest that is given some input. *)
Definition guest_says (genv : Env GuestServer.ev GuestServer.reply) (input : str) : list GuestResponse :=
  seen see_response genv (snd (snd (guest_connection (S (length input)) genv input []))).

(** [answer] is what may come back for the request [c]: nothing; or the daemon's error; or an initial part of
    what the guest says to an initial part of the request, through the relay of the daemon. *)
Inductive carries (genv : Env GuestServer.ev GuestServer.reply) (c : GuestCommand) : str -> Prop :=
| Broken : carries genv c []
| Unreachable sent x answer : sent `prefix_of` request c ++ [NL] ->
    PortDaemon.handle_connection lossy parse_daemon false true sent = VsockError ->
    answer `prefix_of` vsock_error x ++ [NL] -> carries genv c answer
| Through sent replayed input r : sent `prefix_of` request c ++ [NL] ->
    PortDaemon.handle_connection lossy parse_daemon true true sent = Proxied replayed ->
    input `prefix_of` replayed ->
    reachable Proxy r -> total (down r) `prefix_of` to_bytes (wire render (guest_says genv input)) ->
    carries genv c (map of_byte (given (down r))).

(** What is shown on the terminal. *)
Definition see_screen (e : ev) : reply e -> list screen := match e with Show s => fun _ => [s] | _ => fun _ => [] end.

(** ** Lemmas: what the host makes of it *)

(** The error of a parser is a Rust string. *)
Context (reason_utf8 : forall line, utf8 (reason line) = true).

(** A response whose numbers and strings are of its types. *)
Definition sendable (r : GuestResponse) : Prop := good_response r /\ jval_utf8 (encode_response r) = true.

Lemma render_utf8 r : sendable r -> utf8 (render r ++ [NL]) = true.
Proof. intros [_ H]. by apply line_utf8. Qed.

Lemma render_line r : NL ∉ render r.
Proof. apply to_string_line. Qed.
Lemma render_tight r : tight (render r).
Proof. apply to_string_tight. Qed.

#[local] Abbreviation relay_reply := (relay_reply parse_response utf8).

(** The responses up to the last message. *)
Fixpoint listen (rs : list GuestResponse) (scr : screen) : Z * screen :=
  match rs with
  | [] => (1, scr)
  | Stream k data :: rs => listen rs (show k data scr)
  | Exit c :: _ => (c, scr)
  | Error _ :: _ => (1, scr)
  | _ :: rs => listen rs scr
  end.

Lemma relay_end fuel scr : relay_reply fuel [] scr = (1, scr).
Proof. by destruct fuel. Qed.

Lemma relay_stub fuel q scr : NL ∉ q -> (forall q', q' `prefix_of` q -> parse_response q' = None) ->
  relay_reply fuel q scr = (1, scr).
Proof.
  intros Hn Hq. destruct fuel as [|fuel]; [done|]. destruct q as [|a q]; [done|].
  cbn [HostClient.relay_reply next_line]. rewrite take_line_last by done. destruct (utf8 (a :: q)); [|done].
  destruct (trim_end (a :: q)) as [|b t] eqn:E; [apply relay_end|].
  rewrite Hq; [done|]. rewrite <- E. apply rev_strip_prefix.
Qed.

Lemma relay_line r rest fuel scr : sendable r -> relay_reply (S fuel) (render r ++ NL :: rest) scr =
  match r with
  | Stream k data => relay_reply fuel rest (show k data scr)
  | Exit c => (c, scr)
  | Error _ => (1, scr)
  | _ => relay_reply fuel rest scr
  end.
Proof.
  intros Hr. cbn [HostClient.relay_reply]. rewrite (next_line_wire render utf8 sendable render_line render_tight render_utf8) by done.
  destruct (render r) eqn:E; [by destruct (render_not_nil render render_tight r)|]. rewrite <- E, response_read by apply Hr. by destruct r.
Qed.

(** A last line without its line break is read all the same, if it has one in UTF-8. *)
Lemma relay_last r fuel scr : good_response r -> exists rs', rs' `prefix_of` [r] /\ relay_reply fuel (render r) scr = listen rs' scr.
Proof.
  intros Hgood. destruct fuel as [|fuel]; [exists []; split; [apply prefix_nil|done]|]. pose proof (render_not_nil render render_tight r).
  cbn [HostClient.relay_reply]. unfold next_line. destruct (render r) as [|a q] eqn:E; [done|]. rewrite <- E.
  rewrite take_line_last by apply render_line. destruct (utf8 (render r)); [|exists []; split; [apply prefix_nil|done]].
  assert (Ht : trim_end (render r) = render r).
  { destruct (render_tight r) as (x & y & t & Hx & Hy & [[Hr <-]|Hr]); rewrite Hr; [by apply (trim_end_graph x [])|].
    by apply (trim_end_graph y (x :: t)). }
  rewrite Ht, E, <- E, response_read by done. exists [r]. split; [done|]. destruct r; by rewrite ?relay_end.
Qed.

Lemma relay_listen rs : Forall sendable rs -> forall fuel s scr, s `prefix_of` wire render rs -> (length s < fuel)%nat ->
  exists rs', rs' `prefix_of` rs /\ relay_reply fuel s scr = listen rs' scr.
Proof.
  induction 1 as [|r rs Hr Hrs IH]; intros fuel s scr Hs Hf.
  { apply prefix_nil_inv in Hs. subst. exists []. split; [done|apply relay_end]. }
  change (wire render (r :: rs)) with ((render r ++ [NL]) ++ wire render rs) in Hs. rewrite <- app_assoc in Hs.
  destruct (cut_line _ _ _ Hs) as [Hp|(s' & -> & Hp)].
  - destruct (decide (s = render r)) as [->|Hne].
    + destruct (relay_last r fuel scr (proj1 Hr)) as (rs' & H1 & H2). exists rs'. split; [|done].
      etrans; [exact H1|]. apply prefix_cons, prefix_nil.
    + exists []. split; [apply prefix_nil|]. apply relay_stub; [eapply prefix_not_in; [apply render_line|done]|]. intros q Hq.
      apply (response_cut r); [apply Hr|by etrans|]. intros ->. apply Hne, (anti_symm prefix); done.
  - rewrite length_app in Hf. cbn in Hf. destruct fuel as [|fuel]; [lia|]. rewrite relay_line by done.
    destruct r as [k d|c|b|x|b|n|g rt k|b]; cbn [listen];
      try (destruct (IH fuel s' scr Hp ltac:(lia)) as (rs' & H1 & H2); eexists (_ :: rs'); split; [by apply prefix_cons|exact H2]).
    + destruct (IH fuel s' (show k d scr) Hp ltac:(lia)) as (rs' & H1 & H2). exists (Stream k d :: rs').
      split; [by apply prefix_cons|exact H2].
    + exists [Exit c]. split; [apply prefix_cons, prefix_nil|done].
    + exists [Error x]. split; [apply prefix_cons, prefix_nil|done].
Qed.

Lemma relay_all rs fuel scr : Forall sendable rs -> (length rs < fuel)%nat -> relay_reply fuel (wire render rs) scr = listen rs scr.
Proof.
  intros Hrs. revert fuel scr. induction Hrs as [|r rs Hr Hrs IH]; intros fuel scr Hf; [apply relay_end|].
  change (wire render (r :: rs)) with ((render r ++ [NL]) ++ wire render rs). rewrite <- app_assoc.
  cbn in Hf. destruct fuel as [|fuel]; [lia|]. cbn [app]. rewrite relay_line by done. destruct r; cbn [listen]; try done; apply IH; lia.
Qed.

(** ** Lemmas: what the guest says *)

(** The messages of a subprocess whose start is the call at [h]. *)
Definition replies (genv : Env GuestServer.ev GuestServer.reply) (h : list GuestServer.ev) (cmd : Command) : list GuestResponse :=
  match genv h (Spawn cmd) with
  | Err x => [Error x]
  | Ok p =>
      relayed 0 (merge (sched p) (reader_thread utf8 OutC (out p)) (reader_thread utf8 ErrC (err p)))
      ++ match waited p with Ok status => [Exit (code_of status)] | Err _ => [] end
  end.

#[local] Abbreviation seen_ := (seen see_response).

Lemma send_any r env s h : exists a h' l, send_response r env s h = (a, (s, h')) /\ seen_ env h' = seen_ env h ++ l /\
  l `prefix_of` [r] /\ (a = Ok tt -> l = [r]).
Proof.
  unfold send_response, ok_if, GuestServer.ok, GuestServer.fail. cbn. destruct (env h (Respond r)) eqn:E; eexists _, _, _; (split; [reflexivity|]);
    cbn; rewrite E; (split; [reflexivity|]); split; try done. apply prefix_nil.
Qed.

Lemma relay_any env s rx : forall n h, exists a h' l, GuestServer.relay n rx env s h = (a, (s, h')) /\
  seen_ env h' = seen_ env h ++ l /\ l `prefix_of` relayed n rx /\ (a = Ok tt -> l = relayed n rx).
Proof.
  assert (Hstep : forall m rest more n h, (forall h, exists a h' l, GuestServer.relay n rest env s h = (a, (s, h')) /\
      seen_ env h' = seen_ env h ++ l /\ l `prefix_of` more /\ (a = Ok tt -> l = more)) ->
    exists a h' l, (send_response m ;;? GuestServer.relay n rest) env s h = (a, (s, h')) /\
      seen_ env h' = seen_ env h ++ l /\ l `prefix_of` m :: more /\ (a = Ok tt -> l = m :: more)).
  { intros m rest more n h IH. unfold try, bind. destruct (send_any m env s h) as (a & h1 & l1 & -> & H1 & Hp & Ha).
    destruct a as [[]|[]].
    - destruct (IH h1) as (a & h2 & l2 & -> & H2 & Hp2 & Ha2). exists a, h2, (m :: l2). split; [done|].
      rewrite H2, H1, (Ha eq_refl), <- app_assoc. split; [done|]. split; [by apply prefix_cons|]. by intros ->%Ha2.
    - exists (Err tt), h1, l1. split; [done|]. split; [done|]. split; [|done]. etrans; [exact Hp|]. apply prefix_cons, prefix_nil. }
  induction rx as [|x rx IH]; intros n h; cbn [GuestServer.relay relayed].
  { exists (Ok tt), h, []. rewrite app_nil_r. destruct (2 <=? n)%nat; done. }
  destruct (2 <=? n)%nat; [exists (Ok tt), h, []; by rewrite app_nil_r|].
  destruct x as [d|d|]; [by apply Hstep..|apply IH].
Qed.

Lemma spawn_any cmd env s h : exists a h' l, spawn_and_stream utf8 cmd env s h = (a, (s, h')) /\
  seen_ env h' = seen_ env h ++ l /\ l `prefix_of` replies env h cmd.
Proof.
  unfold spawn_and_stream, replies. unfold bind at 1. cbn [call]. destruct (env h (Spawn cmd)) as [p|x] eqn:E.
  - unfold stream_child, try. unfold bind at 1.
    destruct (relay_any env s (merge (sched p) (reader_thread utf8 OutC (out p)) (reader_thread utf8 ErrC (err p))) 0 (Spawn cmd :: h))
      as (a & h1 & l1 & -> & H1 & Hp & Ha). cbn in H1. rewrite ?app_nil_r in H1. destruct a as [[]|[]].
    + rewrite (Ha eq_refl) in H1. destruct (waited p) as [st|[]].
      * destruct (send_any (Exit (code_of st)) env s h1) as (a & h2 & l2 & -> & H2 & Hp2 & _).
        eexists a, h2, (_ ++ l2). split; [done|]. rewrite H2, H1, <- app_assoc. split; [done|]. by apply prefix_app.
      * eexists _, h1, _. split; [done|]. split; [exact H1|]. by rewrite app_nil_r.
    + exists (Err tt), h1, l1. split; [done|]. split; [done|]. etrans; [exact Hp|]. by apply prefix_app_r.
  - destruct (send_any (Error x) env s (Spawn cmd :: h)) as (a & h1 & l & -> & H1 & Hp & _).
    cbn in H1. rewrite ?app_nil_r in H1. by exists a, h1, l.
Qed.

Lemma runtime_dispatch c cmd : runtime_call pelagos_bin c = Some cmd ->
  GuestServer.dispatch pelagos_bin utf8 lossy version parse_int_error c = goes_on (spawn_and_stream utf8 cmd).
Proof. destruct c; try discriminate; try (destruct interactive; [discriminate|]); intros Hc; injection Hc as <-; reflexivity. Qed.

Lemma remote_dispatch fuel command c : remote_request command = Some c ->
  HostMain.dispatch parse_response utf8 pretty cmd_text parse_reply lower lossy order e var cwd temp_dir mac_version cli fuel command
  = on_vm e cli (passthrough parse_response utf8 c).
Proof.
  destruct command; try discriminate; try (destruct interactive; [discriminate|]); try (destruct cmd; try discriminate);
    intros Hc; injection Hc as <-; reflexivity.
Qed.

(** Nothing more is said when nothing more is received. *)
Lemma connection_empty n env h : seen_ env (snd (snd (guest_connection n env [] h))) = seen_ env h.
Proof.
  destruct n as [|n]; [done|]. cbn [GuestServer.handle_connection]. unfold read_line, try, bind, call, GuestServer.fail, GuestServer.ok, ret, get_st.
  destruct (env h ReadFails) eqn:E; cbn; by rewrite app_nil_r.
Qed.

(** The text of a request is one line, and the guest reads such a request from it and nothing from a part of it. *)
Lemma request_line c : NL ∉ request c.
Proof. apply to_string_line. Qed.
Lemma request_tight c : tight (request c).
Proof. apply to_string_tight. Qed.

Lemma request_whole c cmd : runtime_call pelagos_bin c = Some cmd -> good_command c -> parse_command (request c) = Ok c.
Proof. intros Hc Hg. unfold parse_command. rewrite command_read by done. by destruct c. Qed.

Lemma request_part c q : good_command c -> q `prefix_of` request c -> q <> request c -> exists x, utf8 x = true /\ parse_command q = Err x.
Proof. intros Hg Hq Hne. unfold parse_command. rewrite (command_cut guest_order c) by done. eexists. split; [apply reason_utf8|done]. Qed.

Lemma trim_end_matches_tight c l : is_graph c = false -> tight l -> trim_end_matches c l = l.
Proof.
  intros Hc (a & b & t & Ha & Hb & Hl). assert (H : forall u, trim_end_matches c (u ++ [b]) = u ++ [b]).
  { intros u. unfold trim_end_matches. rewrite rev_app_distr. cbn [rev app strip_front one].
    rewrite decide_False by (intros ->; congruence). cbn [rev]. by rewrite rev_involutive. }
  destruct Hl as [[-> <-]| ->]; [apply (H [])|apply (H (a :: t))].
Qed.

Lemma trim_request l : tight l -> trim_end_matches CR (trim_end_matches NL (l ++ [NL])) = l.
Proof.
  intros Hl. replace (trim_end_matches NL (l ++ [NL])) with (trim_end_matches NL l)
    by (unfold trim_end_matches; by rewrite rev_app_distr).
  by rewrite (trim_end_matches_tight NL l), (trim_end_matches_tight CR l).
Qed.

(** What a handler makes of one line and nothing more. *)
Definition one_line (n : nat) (line : str) : GuestServer.M unit :=
  let line := trim_end_matches CR (trim_end_matches NL line) in
  if bool_decide (line = []) then guest_connection n
  else match parse_command line with
       | Err x => send_response (Error (#"parse error: " ++ x)) ;;? guest_connection n
       | Ok c => over <-? GuestServer.dispatch pelagos_bin utf8 lossy version parse_int_error c ;;
                 if (over : bool) then GuestServer.ok tt else guest_connection n
       end.

Lemma connection_line n env input h : input <> [] -> take_line input = (input, []) ->
  let h1 := ReadFails :: h in
  snd (snd (guest_connection (S n) env input h)) = h1 \/
  snd (snd (guest_connection (S n) env input h)) = snd (snd (one_line n input env [] h1)).
Proof.
  intros Hi Ht. cbn [GuestServer.handle_connection]. unfold read_line, try, bind, call, GuestServer.fail, GuestServer.ok, ret, get_st, put_st.
  destruct (env h ReadFails); cbn -[take_line]; [by left|]. destruct input as [|a i]; [done|]. rewrite Ht.
  destruct (utf8 (a :: i)); [right|by left]. reflexivity.
Qed.

Definition said (env : Env GuestServer.ev GuestServer.reply) (cmd : Command) (rs : list GuestResponse) : Prop :=
  exists rs', rs `prefix_of` rs' /\ ((exists h, rs' = replies env h cmd) \/ exists x, utf8 x = true /\ rs' = [Error x]).

Lemma said_nil env cmd : said env cmd [].
Proof. exists [Error []]. split; [apply prefix_nil|]. right. by exists []. Qed.

(** A whole request. *)
Lemma one_line_request n c cmd env line h : runtime_call pelagos_bin c = Some cmd -> parse_command (request c) = Ok c ->
  trim_end_matches CR (trim_end_matches NL line) = request c -> request c <> [] ->
  exists l h1, seen_ env (snd (snd (one_line n line env [] h))) = seen_ env h ++ l /\ l `prefix_of` replies env h1 cmd.
Proof.
  intros Hc Hp Ht Hne. unfold one_line. rewrite Ht, Hp, (runtime_dispatch c cmd Hc). cbv zeta.
  rewrite bool_decide_eq_false_2 by done. unfold goes_on, try, bind, GuestServer.ok, ret.
  destruct (spawn_any cmd env [] h) as (a & h1 & l & -> & H1 & H2). exists l, h.
  destruct a as [[]|[]]; cbn; [rewrite connection_empty|]; done.
Qed.

(** Part of a request. *)
Lemma one_line_part n cmd env line h : (trim_end_matches CR (trim_end_matches NL line) = [] \/
    exists x, utf8 x = true /\ parse_command (trim_end_matches CR (trim_end_matches NL line)) = Err x) ->
  exists l, seen_ env (snd (snd (one_line n line env [] h))) = seen_ env h ++ l /\ said env cmd l.
Proof.
  unfold one_line. cbv zeta. set (t := trim_end_matches CR (trim_end_matches NL line)). intros Ht. case_bool_decide as E.
  - exists []. rewrite connection_empty, app_nil_r. split; [done|apply said_nil].
  - destruct Ht as [->|(x & Hx & ->)]; [done|]. unfold try, bind.
    destruct (send_any (Error (#"parse error: " ++ x)) env [] h) as (a & h1 & l & -> & H1 & H2 & _). exists l.
    split; [by destruct a as [[]|[]]; cbn; [rewrite connection_empty|]|].
    eexists. split; [exact H2|]. right. eexists. split; [|reflexivity]. by apply valid_utf8_app.
Qed.

Lemma guest_says_said c cmd env input : runtime_call pelagos_bin c = Some cmd -> good_command c ->
  input `prefix_of` request c ++ [NL] -> said env cmd (guest_says env input).
Proof.
  intros Hc Hg Hi. pose proof (request_line c) as Hnl. pose proof (request_tight c) as Ht. pose proof (request_whole c cmd Hc Hg) as Hp.
  unfold guest_says. destruct (decide (input = [])) as [->|Hne].
  { rewrite connection_empty. apply said_nil. }
  assert (Hr : request c <> []) by (intros E; destruct Ht as (a & b & t & _ & _ & [[H _]|H]); rewrite H in E; by destruct t).
  assert (Hstrip : trim_end_matches CR (trim_end_matches NL (request c)) = request c) by by rewrite (trim_end_matches_tight NL), (trim_end_matches_tight CR).
  assert (Hwhole : forall n h, seen_ env h = [] -> trim_end_matches CR (trim_end_matches NL input) = request c ->
    said env cmd (seen_ env (snd (snd (one_line n input env [] h))))).
  { intros n h Hh Htr. destruct (one_line_request n c cmd env input h Hc Hp Htr Hr) as (l & h1 & -> & H2). rewrite Hh.
    exists (replies env h1 cmd). split; [done|]. left. by eexists. }
  assert (Hline : take_line input = (input, [])).
  { destruct (cut_line (request c) [] input Hi) as [Hq|(s' & -> & Hq)]; [apply take_line_last; by eapply prefix_not_in|].
    apply prefix_nil_inv in Hq. subst. by apply take_line_app. }
  destruct (connection_line (length input) env input [] Hne Hline) as [-> | ->]; [apply said_nil|].
  destruct (cut_line (request c) [] input Hi) as [Hq|(s' & -> & Hq)].
  - destruct (decide (input = request c)) as [Heq|Hneq]; [apply Hwhole; [done|by rewrite Heq]|].
    set (t := trim_end_matches CR (trim_end_matches NL input)).
    assert (Htp : t `prefix_of` input) by (etrans; apply rev_strip_prefix).
    destruct (one_line_part (length input) cmd env input [ReadFails]) as (l & -> & H2); [|exact H2].
    right. apply (request_part c); [done|by etrans|]. intros E. apply Hneq. apply (anti_symm prefix); [done|by rewrite <- E].
  - apply prefix_nil_inv in Hq. subst. apply Hwhole; [done|by apply trim_request].
Qed.

(** Exit codes have 32 bits, and errors are Rust strings. *)
Definition well_typed (genv : Env GuestServer.ev GuestServer.reply) : Prop :=
  (forall h cmd p z, genv h (Spawn cmd) = Ok p -> waited p = Ok (Some z) -> -2147483648 <= z <= 2147483647) /\
  (forall h cmd x, genv h (Spawn cmd) = Err x -> utf8 x = true).

Definition chunk_utf8 (x : Chunk) : Prop := match x with OutC d | ErrC d => utf8 d = true | DoneC => True end.

Lemma valid_lines_utf8 ls : Forall (fun l => utf8 l = true) (valid_lines utf8 ls).
Proof. induction ls as [|l ls IH]; [done|]. cbn. by destruct (utf8 l) eqn:E; [constructor|]. Qed.

Lemma reader_utf8 mk pipe : (forall d, chunk_utf8 (mk d) = (utf8 d = true)) -> Forall chunk_utf8 (reader_thread utf8 mk pipe).
Proof.
  intros Hmk. apply Forall_app. split; [|by repeat constructor]. apply Forall_map. eapply Forall_impl; [apply valid_lines_utf8|].
  intros l Hl. cbn. rewrite Hmk. by apply valid_utf8_app.
Qed.

Lemma merge_forall (P : Chunk -> Prop) sched : forall a b, Forall P a -> Forall P b -> Forall P (merge sched a b).
Proof.
  induction sched as [|[|] sched IH]; intros a b Ha Hb; cbn [merge]; [by apply Forall_app_2|..].
  - destruct a as [|x a]; [by apply IH|]. inversion Ha; subst. constructor; [done|]. by apply IH.
  - destruct a as [|x a], b as [|y b]; try (by apply IH); inversion Hb; subst; (constructor; [done|]); by apply IH.
Qed.

Lemma relayed_sendable rx : Forall chunk_utf8 rx -> forall n, Forall sendable (relayed n rx).
Proof.
  induction 1 as [|x rx Hx Hrx IH]; intros n; cbn [relayed]; [by destruct (2 <=? n)%nat|].
  destruct (2 <=? n)%nat; [done|]. destruct x as [d|d|]; [..|done]; (constructor; [|done]); (split; [done|]); cbn in *; by rewrite Hx.
Qed.

(** What a subprocess wrote, as responses. *)
Definition streamed (p : proc) : list GuestResponse :=
  relayed 0 (merge (sched p) (reader_thread utf8 OutC (out p)) (reader_thread utf8 ErrC (err p))).

Lemma streamed_sendable p : Forall sendable (streamed p).
Proof. by apply relayed_sendable, merge_forall; apply reader_utf8. Qed.

Lemma error_sendable x : utf8 x = true -> sendable (Error x).
Proof. intros Hx. split; [done|]. cbn. by rewrite Hx. Qed.

Lemma replies_sendable genv h cmd : well_typed genv -> Forall sendable (replies genv h cmd).
Proof.
  intros [Hf He]. unfold replies. destruct (genv h (Spawn cmd)) as [p|x] eqn:E; [|constructor; [by eapply error_sendable, He|done] ].
  apply Forall_app. split; [apply streamed_sendable|]. destruct (waited p) as [[z|]|] eqn:Ew; repeat constructor; cbn; try lia. all: by edestruct Hf.
Qed.

Lemma said_sendable genv cmd rs : well_typed genv -> said genv cmd rs -> Forall sendable rs.
Proof.
  intros Hf (rs' & [t Ht] & Hrs). assert (H : Forall sendable rs').
  { destruct Hrs as [[h ->]|(x & Hx & ->)]; [by apply replies_sendable|constructor; [by apply error_sendable|done] ]. }
  rewrite Ht in H. by apply Forall_app in H as [H _].
Qed.

(** ** Lemmas: from end to end *)

(** The text of what a pipe carried: its lines, each ended by a line break, up to the first that is not UTF-8. *)
Definition text (pipe : str) : str := unlines (valid_lines utf8 (lines pipe)).

(** Lines of UTF-8, each ended by a line feed with no carriage return before it: their text is what the pipe carried. *)
Definition whole_lines (pipe : str) : Prop :=
  exists ls, pipe = unlines ls /\ Forall (fun l => (NL ∉ l) /\ last l <> Some CR /\ utf8 l = true) ls.

Lemma text_whole pipe : whole_lines pipe -> text pipe = pipe.
Proof.
  intros (ls & -> & Hls). unfold text. rewrite lines_unlines by (eapply Forall_impl; [exact Hls|]; naive_solver).
  rewrite valid_lines_all; [done|]. eapply Forall_impl; [exact Hls|]. naive_solver.
Qed.

(** [s] is what is shown of a pipe. *)
Definition shown_as (pipe s : str) : Prop := s = text pipe /\ (whole_lines pipe -> s = pipe).

Lemma text_shown pipe : shown_as pipe (text pipe).
Proof. split; [done|apply text_whole]. Qed.

(** The exit code and the screen of a subprocess that ended. *)
Definition ended_as (env : Env GuestServer.ev GuestServer.reply) (cmd : Command) (code : Z) (scr : screen) : Prop :=
  exists h p status, env h (Spawn cmd) = Ok p /\ waited p = Ok status /\ code = code_of status /\
    shown_as (out p) (shown scr) /\ shown_as (err p) (shown_err scr).

(** A screen that shows no more than a subprocess wrote. *)
Definition part_of (env : Env GuestServer.ev GuestServer.reply) (cmd : Command) (scr : screen) : Prop :=
  scr = blank \/ exists h p, env h (Spawn cmd) = Ok p /\ shown scr `prefix_of` text (out p) /\ shown_err scr `prefix_of` text (err p).

Lemma listen_pending ps tail scr : pending ps -> listen (ps ++ tail) scr = listen tail (shows ps scr).
Proof.
  intros Hp. revert scr. induction Hp as [|r ps Hr Hp IH]; intros scr.
  { unfold shows. cbn. rewrite !app_nil_r. by destruct scr. }
  rewrite shows_cons, <- IH. by destruct r.
Qed.

Lemma data_of_prefix k ps qs : ps `prefix_of` qs -> data_of k ps `prefix_of` data_of k qs.
Proof. intros [t ->]. unfold data_of. rewrite omap_app, concat_app. by apply prefix_app_r. Qed.

Lemma subprocess_text p : let msgs := relayed 0 (merge (sched p) (reader_thread utf8 OutC (out p)) (reader_thread utf8 ErrC (err p))) in
  data_of GuestProto.Stdout msgs = text (out p) /\ data_of GuestProto.Stderr msgs = text (err p).
Proof.
  cbv zeta. unfold reader_thread.
  destruct (merge_threads (sched p) (map (fun l => l ++ [NL]) (valid_lines utf8 (lines (out p))))
    (map (fun l => l ++ [NL]) (valid_lines utf8 (lines (err p))))) as (pre & E & Hd & Hout & Herr).
  rewrite <- (map_map (fun l => l ++ [NL]) OutC), <- (map_map (fun l => l ++ [NL]) ErrC), E.
  destruct (relayed_until_done pre 0) as [-> ->]; [lia|]. by rewrite Hout, Herr.
Qed.

Lemma prefix_snoc {A} (s l : list A) x : s `prefix_of` l ++ [x] -> s `prefix_of` l \/ s = l ++ [x].
Proof.
  intros [t Ht]. destruct t as [|y t] using rev_ind; [right; by rewrite app_nil_r in Ht|left].
  rewrite app_assoc in Ht. apply app_inj_tail in Ht as [-> _]. by exists t.
Qed.

Definition fate (env : Env GuestServer.ev GuestServer.reply) (cmd : Command) (x : Z * screen) : Prop :=
  ended_as env cmd (fst x) (snd x) \/ fst x = 1 /\ part_of env cmd (snd x).

Lemma listen_part (env : Env GuestServer.ev GuestServer.reply) cmd h p ps : env h (Spawn cmd) = Ok p ->
  ps `prefix_of` relayed 0 (merge (sched p) (reader_thread utf8 OutC (out p)) (reader_thread utf8 ErrC (err p))) ->
  fate env cmd (listen ps blank).
Proof.
  intros E Hp. destruct (subprocess_text p) as [Ho He].
  assert (Hps : pending ps) by (destruct Hp as [t Ht]; pose proof (relayed_pending
    (merge (sched p) (reader_thread utf8 OutC (out p)) (reader_thread utf8 ErrC (err p))) 0) as H; rewrite Ht in H; by apply Forall_app in H as [H _]).
  rewrite <- (app_nil_r ps), listen_pending by done. right. split; [done|]. right. exists h, p. split; [done|].
  cbn. rewrite <- Ho, <- He. split; by apply data_of_prefix.
Qed.

Lemma listen_said env cmd rs : said env cmd rs -> fate env cmd (listen rs blank).
Proof.
  intros (rs' & Hrs & [[h ->]|(x & _ & ->)]).
  - unfold replies in Hrs. destruct (env h (Spawn cmd)) as [p|x] eqn:E.
    + destruct (waited p) as [status|[]] eqn:Ew; [|rewrite app_nil_r in Hrs; by eapply listen_part].
      apply prefix_snoc in Hrs as [Hrs| ->]; [by eapply listen_part|].
      rewrite listen_pending by apply relayed_pending. left. exists h, p, status. destruct (subprocess_text p) as [Ho He].
      split; [done|]. split; [done|]. split; [done|]. cbn [listen snd shows shown shown_err blank app].
      unfold streamed in *. rewrite Ho, He. split; apply text_shown.
    + right. apply (prefix_snoc _ []) in Hrs as [Hrs| ->]; [apply prefix_nil_inv in Hrs; subst|]; (split; [done|by left]).
  - right. apply (prefix_snoc _ []) in Hrs as [Hrs| ->]; [apply prefix_nil_inv in Hrs; subst|]; (split; [done|by left]).
Qed.

Lemma said_prefix env cmd rs rs' : rs `prefix_of` rs' -> said env cmd rs' -> said env cmd rs.
Proof. intros Hp (l & Hl & H). exists l. split; [by etrans|done]. Qed.

Lemma vsock_error_tight x : tight (vsock_error x).
Proof. rewrite vsock_error_object. apply to_string_tight. Qed.

Lemma vsock_error_line x : NL ∉ vsock_error x.
Proof. rewrite vsock_error_object. apply to_string_line. Qed.

(** The daemon's error ends the command with 1. *)
Lemma relay_vsock_error x s fuel : s `prefix_of` vsock_error x ++ [NL] -> relay_reply fuel s blank = (1, blank).
Proof.
  intros Hs. pose proof (vsock_error_line x) as Hl.
  destruct (cut_line _ [] s Hs) as [Hp|(s' & -> & Hp)].
  - apply relay_stub; [by eapply prefix_not_in|]. intros q Hq. apply (vsock_error_unread x). by etrans.
  - apply prefix_nil_inv in Hp. subst. destruct fuel as [|fuel]; [done|]. cbn [HostClient.relay_reply].
    unfold next_line. destruct (vsock_error x ++ [NL]) as [|a q] eqn:E; [done|]. rewrite <- E, take_line_app by done.
    destruct (utf8 _); [|done]. rewrite trim_end_line by apply vsock_error_tight.
    destruct (vsock_error x) as [|b t] eqn:E2; [done|]. rewrite (vsock_error_unread x) by by rewrite E2. done.
Qed.

Lemma of_to_bytes s : map of_byte (to_bytes s) = s.
Proof. unfold to_bytes. induction s as [|a s IH]; [done|]. cbn. by rewrite of_byte_byte_of, IH. Qed.

Lemma carries_fate env c cmd answer : runtime_call pelagos_bin c = Some cmd -> good_command c -> well_typed env -> carries env c answer ->
  fate env cmd (relay_reply (S (length answer)) answer blank).
Proof.
  intros Hc Hg Hf [|sent x answer' _ _ Ha|sent replayed input r Hs Hd Hi Hr Ht].
  - right. rewrite relay_end. split; [done|by left].
  - right. rewrite (relay_vsock_error x) by done. split; [done|by left].
  - pose proof (proxied_bytes_exact lossy parse_daemon true true sent) as He. rewrite Hd in He. subst replayed.
    apply relay_reachable_inv in Hr as (_ & (Hgt & _) & _).
    assert (Hp : map of_byte (given (down r)) `prefix_of` wire render (guest_says env input)).
    { rewrite <- (of_to_bytes (wire render (guest_says env input))). destruct Hgt as [t1 H1], Ht as [t2 H2]. rewrite H2, H1.
      rewrite !map_app, <- app_assoc. by apply prefix_app_r. }
    pose proof (guest_says_said c cmd env input Hc Hg ltac:(by etrans)) as Hsaid.
    destruct (relay_listen (guest_says env input) (said_sendable env cmd _ Hf Hsaid) (S (length (map of_byte (given (down r))))) _ blank Hp ltac:(lia)) as (rs' & H1 & ->).
    by apply listen_said, (said_prefix _ _ _ _ H1).
Qed.

(** ** Lemmas: the host *)

Lemma main_on_vm fuel command c henv h : remote_request command = Some c ->
  let '(code, (_, h')) := host_main fuel command henv tt h in
  exists scrs, seen see_screen henv h' = seen see_screen henv h ++ scrs /\
    (code = 1 /\ scrs = [] \/ code = 1 /\ scrs = [blank] \/
     exists h1, scrs = [snd (relay_reply (S (length (fst (henv h1 Receive)))) (fst (henv h1 Receive)) blank)] /\
       code = fst (relay_reply (S (length (fst (henv h1 Receive)))) (fst (henv h1 Receive)) blank)).
Proof.
  intros Hc. unfold host_main. unfold bind at 1. rewrite (remote_dispatch fuel command c Hc).
  unfold on_vm, ensure_running, HostMain.daemon_args, connect_or_exit, or_exit, passthrough, converse, receive_if, exit, ok, try, bind, call, ret.
  destruct (daemon_args_from_cli e cli) as [a|]; [|cbn; exists []; rewrite app_nil_r; by auto].
  destruct (henv h (EnsureRunning a)) as [[]|x] eqn:E1; [|cbn; exists []; rewrite ?app_nil_r; by auto].
  destruct (henv (EnsureRunning a :: h) Connect) as [[]|x] eqn:E2; [|cbn; exists []; rewrite ?app_nil_r; by auto].
  set (h2 := Connect :: EnsureRunning a :: h). destruct (henv h2 (Send c)) eqn:E3.
  - set (h3 := Send c :: h2). unfold passthrough_command.
    destruct (relay_reply (S (length (fst (henv h3 Receive)))) (fst (henv h3 Receive)) blank) as [code scr] eqn:Er.
    cbn -[HostClient.relay_reply]. exists [scr]. rewrite ?app_nil_r. split; [done|]. right. right. exists h3. by rewrite Er.
  - cbn. exists [blank]. rewrite ?app_nil_r. auto.
Qed.

(** * Properties *)

(** C1: a command never looks as if it succeeded when it did not.  For a command that is one call in the guest,
    whatever fails on the way (the start of the machine, the connections, the relay of the daemon, the reads and
    writes of the guest, the start of the subprocess; the request and the answer may be cut at any byte): either
    the host program exits with the code of a subprocess that ran to its end in the guest and has shown the text of
    what it wrote, each stream on its own: its lines up to the first that is not UTF-8, each ended by a line feed,
    which is what it wrote when it wrote whole lines of UTF-8 without carriage returns at their ends; or it exits
    with 1 and has shown an initial part of each text.  (Exit codes have 32 bits and error texts are UTF-8, as their
    types say.) *)
Theorem command_life fuel command c cmd (henv : Env ev reply) (genv : Env GuestServer.ev GuestServer.reply) h :
  remote_request command = Some c -> runtime_call pelagos_bin c = Some cmd -> good_command c -> well_typed genv ->
  (forall h, carries genv c (fst (henv h Receive))) ->
  let '(code, (_, h')) := host_main fuel command henv tt h in
  exists scrs, seen see_screen henv h' = seen see_screen henv h ++ scrs /\
    ((exists scr, scrs = [scr] /\ ended_as genv cmd code scr) \/ code = 1 /\ Forall (part_of genv cmd) scrs).
Proof.
  intros Hr Hc Hg Hf Hcar. pose proof (main_on_vm fuel command c henv h Hr) as Hm.
  destruct (host_main fuel command henv tt h) as [code [s' h']]. destruct Hm as (scrs & Hseen & Hcases). exists scrs. split; [done|].
  destruct Hcases as [[-> ->]|[[-> ->]|(h1 & -> & ->)]].
  - right. split; [done|constructor].
  - right. split; [done|]. constructor; [by left|constructor].
  - destruct (carries_fate genv c cmd _ Hc Hg Hf (Hcar h1)) as [He|[H1 H2]]; [left; by eexists|right; split; [done|by constructor]].
Qed.

(** ** When nothing fails *)

Lemma read_first_line_short l rest : NL ∉ l -> forall acc, Z.of_nat (length acc + length l) <= 64 * 1024 ->
  read_first_line acc (l ++ NL :: rest) = Some (acc ++ l ++ [NL], rest).
Proof.
  induction l as [|a l IH]; intros Hl acc Hlen; cbn [app read_first_line]; [by rewrite decide_True|].
  apply not_elem_of_cons in Hl as [Ha Hl]. rewrite decide_False by congruence.
  cbn [length] in Hlen. rewrite length_app. cbn [length].
  replace (64 * 1024 <? Z.of_nat (length acc + 1)) with false by (symmetry; apply Z.ltb_ge; lia).
  rewrite IH by (done || (rewrite length_app; cbn [length]; lia)). by rewrite <- app_assoc.
Qed.

Lemma guest_says_all (genv : Env GuestServer.ev GuestServer.reply) c cmd p status : runtime_call pelagos_bin c = Some cmd -> good_command c ->
  utf8 (request c ++ [NL]) = true -> (forall h, genv h ReadFails = false) -> writes_ok genv ->
  (forall h, genv h (Spawn cmd) = Ok p) -> waited p = Ok status ->
  exists h, guest_says genv (request c ++ [NL]) = replies genv h cmd.
Proof.
  intros Hc Hg Hu Hreads Hw Hs Hwait. pose proof (request_line c) as Hnl. pose proof (request_tight c) as Ht. pose proof (request_whole c cmd Hc Hg) as Hp.
  unfold guest_says. cbn [GuestServer.handle_connection].
  unfold read_line at 1, try, bind, call, GuestServer.fail, GuestServer.ok, ret, get_st, put_st. rewrite Hreads.
  destruct (request c ++ [NL]) as [|a q] eqn:Eq; [by destruct (request c)|]. rewrite <- Eq, take_line_app, Eq, Hu by done.
  rewrite <- Eq, trim_request, Hp, (runtime_dispatch c cmd Hc) by done. cbv zeta.
  rewrite bool_decide_eq_false_2 by (intros E; destruct Ht as (x & y & t & _ & _ & [[H _]|H]); rewrite H in E; by destruct t).
  exists [ReadFails]. unfold goes_on, spawn_and_stream, try, bind, call, GuestServer.ok, ret, replies, stream_child. rewrite Hs, Hwait.
  destruct (relay_ok genv [] (merge (sched p) (reader_thread utf8 OutC (out p)) (reader_thread utf8 ErrC (err p))) Hw 0 [Spawn cmd; ReadFails])
    as (h1 & H1 & H2). unfold try, bind. rewrite H1, (send_ok genv) by done. cbn [fst snd].
  rewrite connection_empty. cbn [seen]. rewrite H2. cbn. by rewrite Hw.
Qed.

(** C2: a command succeeds end to end.  When the machine and the daemon are there, the request is at most 64 KiB
    and no command of the daemon, and no connection fails, the host program exits with the code of the
    subprocess in the guest and has shown the text of what it wrote, each stream on its own: its lines up to the
    first that is not UTF-8, each ended by a line feed, which is all it wrote when it wrote whole lines of UTF-8
    without carriage returns at their ends. *)
Theorem command_succeeds fuel command c cmd (henv : Env ev reply) (genv : Env GuestServer.ev GuestServer.reply) h a p status r :
  remote_request command = Some c -> runtime_call pelagos_bin c = Some cmd -> good_command c -> well_typed genv ->
  daemon_args_from_cli e cli = Some a -> (forall h, henv h (EnsureRunning a) = Ok tt) -> (forall h, henv h Connect = Ok tt) ->
  (forall h, henv h (Send c) = true) -> (forall h, fst (henv h Receive) = map of_byte (given (down r))) ->
  Z.of_nat (length (request c)) <= 64 * 1024 -> (forall s, utf8 s = true -> lossy s = s) ->
  given (down r) = total (down r) ->
  (forall input, PortDaemon.handle_connection lossy parse_daemon true true (request c ++ [NL]) = Proxied input ->
     total (down r) = to_bytes (wire render (guest_says genv input))) ->
  utf8 (request c ++ [NL]) = true -> (forall h, genv h ReadFails = false) -> writes_ok genv ->
  (forall h, genv h (Spawn cmd) = Ok p) -> waited p = Ok status ->
  let '(code, (_, h')) := host_main fuel command henv tt h in
  code = code_of status /\
  exists scr, seen see_screen henv h' = seen see_screen henv h ++ [scr] /\
    shown_as (out p) (shown scr) /\ shown_as (err p) (shown_err scr).
Proof.
  intros Hr Hc Hg Hf Ha He1 He2 He3 He4 Hlen Hlossy Hgiven Htotal Hu Hreads Hw Hs Hwait.
  assert (Hin : PortDaemon.handle_connection lossy parse_daemon true true (request c ++ [NL]) = Proxied (request c ++ [NL])).
  { unfold PortDaemon.handle_connection. rewrite read_first_line_short by (done || apply request_line). cbn [app].
    by rewrite Hlossy, trim_end_line, command_not_daemon, app_nil_r by (done || apply request_tight). }
  apply Htotal in Hin as Ht. destruct (guest_says_all genv c cmd p status) as [h1 Hsay]; [done..|].
  rewrite Hsay in Ht. unfold replies in Ht. rewrite Hs, Hwait in Ht.
  pose proof (replies_sendable genv h1 cmd Hf) as Hgood. unfold replies in Hgood. rewrite Hs, Hwait in Hgood.
  set (rs := relayed 0 (merge (sched p) (reader_thread utf8 OutC (out p)) (reader_thread utf8 ErrC (err p)))) in *.
  assert (Hrelay : relay_reply (S (length (map of_byte (given (down r))))) (map of_byte (given (down r))) blank
    = (code_of status, mkScreen (text (out p)) (text (err p)))).
  { rewrite Hgiven, Ht, of_to_bytes, relay_all by (done || (pose proof (wire_length render (rs ++ [Exit (code_of status)])); lia)).
    rewrite listen_pending by apply relayed_pending. destruct (subprocess_text p) as [Ho Hr']. unfold shows. cbn.
    fold rs in Ho, Hr'. by rewrite Ho, Hr'. }
  unfold host_main. unfold bind at 1. rewrite (remote_dispatch fuel command c Hr).
  unfold on_vm, ensure_running, HostMain.daemon_args, connect_or_exit, or_exit, passthrough, converse, receive_if, exit, ok, try, bind, call, ret.
  rewrite Ha, He1, He2, He3. unfold passthrough_command. rewrite He4, Hrelay. cbn. rewrite ?app_nil_r.
  split; [done|]. eexists. split; [reflexivity|]. split; apply text_shown.
Qed.

End Life.

(** * Concrete runs: the texts are those of [compact_json] *)

(** Everything works on the host, and the connection gives [answer]. *)
Definition demo_host_env (answer : str) : Env ev reply := fun h e =>
  match e return reply e with Receive => (answer, UnexpectedEof) | e => HostPorts.demo_env new_ports h e end.

#[local] Abbreviation id_text := (fun s : str => s).
(** The parser's error. *)
Definition any_reason (line : str) : str := #"expected value".
Lemma any_reason_utf8 line : valid_utf8 (any_reason line) = true.
Proof. reflexivity. Qed.

Definition demo_request : str := command_text (GuestProto.Stop #"web").

Example demo_request_text : demo_request = #"{" ++ quote #"cmd" ++ #":" ++ quote #"stop" ++ #"," ++ quote #"name" ++ #":" ++ quote #"web" ++ #"}".
Proof. vm_compute. reflexivity. Qed.

Definition demo_says : list GuestResponse :=
  guest_says (J := tree_json []) id_text map_to_list #"pelagos" #"1" id_text any_reason GuestServer.demo_env (demo_request ++ [NL]).

(** The relay after it has copied [n] bytes of the answer. *)
Definition demo_relay (n : nat) : relay :=
  let r := open_relay true true true in
  let r := set_down (send (to_bytes (wire response_text demo_says)) (down r)) r in
  set_down (copy_round n (down r)) r.

Lemma demo_relay_reachable n : (0 < n <= length (to_bytes (wire response_text demo_says)))%nat -> reachable Proxy (demo_relay n).
Proof.
  intros Hn. exists 1%nat. unfold demo_relay. eapply Runs_relay; [|apply Down_step, Loop_copies; [done|exact Hn]].
  eapply Runs_peer; [|by apply Server_step, Source_sends]. apply Runs_refl.
Qed.

#[local] Abbreviation demo_main answer := (HostMain.main (J := tree_json []) (read decode_response) valid_utf8 (fun _ => []) daemon_text
  (read decode_reply) to_ascii_lowercase id_text map_to_list (demo_host None 0) (fun _ => None) None #"/tmp" #"1" demo_cli 0
  (Stop #"web") (demo_host_env answer) tt []).
#[local] Abbreviation demo_carries := (carries (J := tree_json []) id_text map_to_list #"pelagos" #"1" id_text any_reason
  GuestServer.demo_env (GuestProto.Stop #"web")).

Lemma demo_well_typed : well_typed GuestServer.demo_env.
Proof. split; [intros h cmd p z [= <-] [= <-]; lia|discriminate]. Qed.

(** Twenty bytes of the answer arrive. *)
Lemma demo_cut : demo_carries (map of_byte (given (down (demo_relay 20)))).
Proof.
  apply (Through _ _ _ _ _ _ _ _ (demo_request ++ [NL]) (demo_request ++ [NL]) (demo_request ++ [NL]) (demo_relay 20)).
  - done.
  - vm_compute. reflexivity.
  - done.
  - apply demo_relay_reachable. split; [lia|]. apply Nat.leb_le. vm_compute. reflexivity.
  - done.
Qed.

Lemma command_life_witness :
  let '(code, (_, h')) := demo_main (map of_byte (given (down (demo_relay 20)))) in
  exists scrs, seen see_screen (demo_host_env (map of_byte (given (down (demo_relay 20))))) h' = [] ++ scrs /\
    ((exists scr, scrs = [scr] /\ ended_as GuestServer.demo_env (cmd0 #"pelagos" [ #"stop"; #"web"]) code scr)
     \/ code = 1 /\ Forall (part_of GuestServer.demo_env (cmd0 #"pelagos" [ #"stop"; #"web"])) scrs).
Proof.
  exact (command_life (J := tree_json []) (fun _ => []) to_ascii_lowercase id_text map_to_list map_to_list
    (demo_host None 0) (fun _ => None) None #"/tmp" #"1" demo_cli #"pelagos" #"1" id_text any_reason any_reason_utf8
    0 (Stop #"web") (GuestProto.Stop #"web") (cmd0 #"pelagos" [ #"stop"; #"web"]) (demo_host_env _) GuestServer.demo_env []
    eq_refl eq_refl I demo_well_typed (fun _ => demo_cut)).
Defined.

(** There the exit code is 1, and it is that of the subprocess when everything arrives. *)
Example cut_is_failure : fst (demo_main (map of_byte (given (down (demo_relay 20))))) = 1.
Proof. vm_compute. reflexivity. Qed.

#[local] Abbreviation demo_whole := (demo_relay (length (to_bytes (wire response_text demo_says)))).
Definition demo_proc : proc := mkProc (#"one" ++ [NL] ++ #"two" ++ [NL]) (#"warning" ++ [NL]) [true; false] (Ok (Some 3)).

Lemma demo_whole_given : given (down demo_whole) = total (down demo_whole).
Proof. unfold demo_relay. cbn [down set_down copy_round given total waiting fresh send open_relay app negb]. by rewrite firstn_all. Qed.

Lemma demo_arrives input : PortDaemon.handle_connection id_text (read decode_daemon) true true (demo_request ++ [NL]) = Proxied input ->
  total (down demo_whole) = to_bytes (wire response_text
    (guest_says (J := tree_json []) id_text map_to_list #"pelagos" #"1" id_text any_reason GuestServer.demo_env input)).
Proof. intros Hin. vm_compute in Hin. injection Hin as <-. reflexivity. Qed.

Lemma demo_has_args : exists a, daemon_args_from_cli (demo_host None 0) demo_cli = Some a.
Proof. eexists. vm_compute. reflexivity. Qed.

Lemma demo_short : Z.of_nat (length (command_text (GuestProto.Stop #"web"))) <= 64 * 1024.
Proof. apply Z.leb_le. vm_compute. reflexivity. Qed.

Lemma command_succeeds_witness :
  let '(code, (_, h')) := demo_main (map of_byte (given (down demo_whole))) in
  code = code_of (Some 3) /\ exists scr, seen see_screen (demo_host_env (map of_byte (given (down demo_whole)))) h'
    = seen see_screen (demo_host_env (map of_byte (given (down demo_whole)))) [] ++ [scr] /\
    shown_as (out demo_proc) (shown scr) /\ shown_as (err demo_proc) (shown_err scr).
Proof.
  destruct demo_has_args as [a Ea].
  exact (command_succeeds (J := tree_json []) (fun _ => []) to_ascii_lowercase id_text map_to_list map_to_list
    (demo_host None 0) (fun _ => None) None #"/tmp" #"1" demo_cli #"pelagos" #"1" id_text any_reason
    0 (Stop #"web") (GuestProto.Stop #"web") (cmd0 #"pelagos" [ #"stop"; #"web"])
    (demo_host_env (map of_byte (given (down demo_whole)))) GuestServer.demo_env [] a demo_proc (Some 3) demo_whole
    eq_refl eq_refl I demo_well_typed Ea (fun _ => eq_refl) (fun _ => eq_refl) (fun _ => eq_refl) (fun _ => eq_refl)
    demo_short (fun _ _ => eq_refl) demo_whole_given demo_arrives eq_refl (fun _ => eq_refl) (fun _ _ => eq_refl) (fun _ => eq_refl) eq_refl).
Defined.

Example succeeds_shown : text (out demo_proc) = #"one" ++ [NL] ++ #"two" ++ [NL] /\
  text (err demo_proc) = #"warning" ++ [NL].
Proof. split; reflexivity. Qed.

(** Output that is not UTF-8 is lost from its line on, a carriage return before the line feed is dropped, and a last
    line without a line feed gets one. *)
Example text_of_binary : text (#"one" ++ [NL; of_byte 255; NL] ++ #"two" ++ [NL]) = #"one" ++ [NL].
Proof. vm_compute. reflexivity. Qed.
Example text_of_partial : text (#"one" ++ [CR; NL] ++ #"two") = #"one" ++ [NL] ++ #"two" ++ [NL].
Proof. vm_compute. reflexivity. Qed.

(** The error of the daemon is no response, so the host reports that it cannot be read, and not the error. *)
Example vsock_error_lost : read decode_response (vsock_error #"timed out") = None.
Proof. vm_compute. reflexivity. Qed.
