(* ===== verification/DockerConfig.v ===== *)
(** Configuration of the docker shim ([pelagos-docker/src/config.rs]): where the [pelagos] binary and the
    files of the virtual machine are found, and the arguments every invocation of [pelagos] starts with. *)

From S2P Require Import Prelude RustStd Paths.

#[local] Open Scope Z_scope.

(** * Data *)

Record Config := mkConfig {
  pelagos_bin : str; kernel : str; initrd : str; disk : str; cmdline : str; memory_mib : Z }.

#[export] Instance Config_eq_dec : EqDecision Config.
Proof. solve_decision. Defined.

(** What the program sees of the machine: [std::env::var(..).ok()], [read_to_string(..).ok()],
    [Path::exists], [Path::is_file] and [current_exe().ok()]. *)
Record machine := mkMachine {
  var : str -> option str; contents : str -> option str; exists_ : str -> bool; is_file : str -> bool;
  current_exe : option str }.

Definition DEFAULT_CMDLINE : str := #"console=hvc0 random.trust_cpu=on".

(** * Operations *)

(** The value of a line [key = value]. *)
Definition toml_value (key line : str) : option str :=
  match strip_prefix key (trim line) with
  | Some rest => trim_matches DQ ∘ trim <$> strip_prefix #"=" (trim rest)
  | None => None
  end.

(** [parse_toml_str]: the first line that gives the key a value. *)
Fixpoint first_value (key : str) (ls : list str) : option str :=
  match ls with
  | [] => None
  | line :: ls => match toml_value key line with Some v => Some v | None => first_value key ls end
  end.
Definition parse_toml_str (src key : str) : option str := first_value key (lines src).

Section Load.
Context (m : machine).

Definition config_file_path : option str :=
  base ← or_else (var m #"XDG_CONFIG_HOME") ((fun h => path_join h #".config") <$> var m #"HOME");
  Some (path_join (path_join base #"pelagos") #"config.toml").

(** The first directory of [PATH] with a file [pelagos]. *)
Fixpoint find_in (dirs : list str) : option str :=
  match dirs with
  | [] => None
  | dir :: dirs => let p := path_join dir #"pelagos" in if is_file m p then Some p else find_in dirs
  end.
Definition find_pelagos_on_path : option str := path ← var m #"PATH"; find_in (split_char ":" path).

(** The last step of all four sources: a configuration counts when its three files exist. *)
Definition with_artifacts (c : Config) : option Config :=
  if exists_ m (kernel c) && exists_ m (initrd c) && exists_ m (disk c) then Some c else None.

Definition memory_or_default (s : option str) : Z := unwrap_or (t ← s; parse_usize t) 4096.

Definition from_file : option Config :=
  path ← config_file_path;
  src ← contents m path;
  bin ← or_else (parse_toml_str src #"pelagos_bin") find_pelagos_on_path;
  kern ← parse_toml_str src #"kernel";
  ird ← parse_toml_str src #"initrd";
  dsk ← parse_toml_str src #"disk";
  with_artifacts (mkConfig bin kern ird dsk (unwrap_or (parse_toml_str src #"cmdline") DEFAULT_CMDLINE)
                    (memory_or_default (parse_toml_str src #"memory_mib"))).

Definition from_env : option Config :=
  bin ← or_else (var m #"PELAGOS_BIN") find_pelagos_on_path;
  kern ← var m #"PELAGOS_KERNEL";
  ird ← var m #"PELAGOS_INITRD";
  dsk ← var m #"PELAGOS_DISK";
  with_artifacts (mkConfig bin kern ird dsk (unwrap_or (var m #"PELAGOS_CMDLINE") DEFAULT_CMDLINE)
                    (memory_or_default (var m #"PELAGOS_MEMORY_MIB"))).

(** The files of a directory under their usual names. *)
Definition in_dir (bin dir : str) : Config :=
  mkConfig bin (path_join dir #"vmlinuz") (path_join dir #"initramfs-custom.gz") (path_join dir #"root.img")
    DEFAULT_CMDLINE (memory_or_default (var m #"PELAGOS_MEMORY_MIB")).

Definition from_path_sibling : option Config :=
  bin ← find_pelagos_on_path;
  dir ← parent bin;
  with_artifacts (in_dir bin dir).

Definition from_dev_out : option Config :=
  self_exe ← current_exe m;
  bin_dir ← parent self_exe;
  let sibling := path_join bin_dir #"pelagos" in
  bin ← (if is_file m sibling then Some sibling else find_pelagos_on_path);
  with_artifacts (in_dir bin #"out").

Definition load : result Config str :=
  match from_file with
  | Some cfg => Ok cfg
  | None =>
  match from_env with
  | Some cfg => Ok cfg
  | None =>
  match from_path_sibling with
  | Some cfg => Ok cfg
  | None =>
  match from_dev_out with
  | Some cfg => Ok cfg
  | None => Err (#"Cannot find VM image artifacts. Create ~/.config/pelagos/config.toml or run from "
                 ++ #"the repo root after 'make image'. See 'pelagos-docker --help' for details.")
  end end end end.
End Load.

(** [pelagos_prefix_args] *)
Definition pelagos_prefix_args (c : Config) : list str :=
  [ #"--kernel"; kernel c; #"--initrd"; initrd c; #"--disk"; disk c; #"--cmdline"; cmdline c;
    #"--memory"; dec (memory_mib c)].

Example parse_toml_basic :
  let src := #"kernel  = " ++ [DQ] ++ #"/usr/local/share/pelagos/vmlinuz" ++ [DQ; NL]
    ++ #"cmdline = " ++ [DQ] ++ #"console=hvc0 random.trust_cpu=on" ++ [DQ; NL] in
  map (parse_toml_str src) [ #"kernel"; #"cmdline"; #"missing"]
  = [Some #"/usr/local/share/pelagos/vmlinuz"; Some #"console=hvc0 random.trust_cpu=on"; None].
Proof. vm_compute. reflexivity. Qed.

(** * Properties *)

(** A line that sets [key]. *)
Definition setting (key v : str) : str := key ++ #" = " ++ [DQ] ++ v ++ [DQ].

(** A value between quotes that is read back: on one line, no quote at its ends. *)
Definition plain_value (v : str) : Prop := (NL ∉ v) /\ head v <> Some DQ /\ last v <> Some DQ.

Definition settings (c : Config) : list str :=
  [setting #"pelagos_bin" (pelagos_bin c); setting #"kernel" (kernel c); setting #"initrd" (initrd c);
   setting #"disk" (disk c); setting #"cmdline" (cmdline c); setting #"memory_mib" (dec (memory_mib c))].

Lemma trim_matches_quoted v : head v <> Some DQ -> last v <> Some DQ -> trim_matches DQ ([DQ] ++ v ++ [DQ]) = v.
Proof.
  intros Hh Hl. unfold trim_matches, trim_start_matches.
  assert (Hstart : strip_front (one DQ) 0 ([DQ] ++ v ++ [DQ]) = v ++ [DQ] \/ v = []).
  { destruct v as [|c v]; [by right|left]. cbn. destruct (decide (c = DQ)) as [->|]; [done|]. done. }
  destruct Hstart as [->| ->]; [|done].
  unfold trim_end_matches. rewrite rev_app_distr. cbn [rev app strip_front one].
  destruct (decide (DQ = DQ)); [|done].
  destruct v as [|c v _] using rev_ind; [done|]. rewrite last_snoc in Hl.
  rewrite rev_app_distr. cbn. destruct (decide (c = DQ)) as [->|]; [done|].
  cbn. by rewrite rev_involutive.
Qed.

Lemma setting_tight key v : tight key -> tight (setting key v).
Proof.
  intros H. unfold setting.
  replace (key ++ _) with (key ++ (#" = " ++ [DQ] ++ v) ++ [DQ]) by (cbn; by rewrite ?app_assoc).
  apply tight_app; [done|]. exists DQ, DQ, []. repeat split. by left.
Qed.

Lemma toml_value_setting key v : tight key -> plain_value v -> toml_value key (setting key v) = Some v.
Proof.
  intros Hk (_ & Hh & Hl). unfold toml_value. rewrite (trim_tight _ (setting_tight key v Hk)).
  unfold setting. rewrite strip_prefix_app.
  assert (Htight : tight ([DQ] ++ v ++ [DQ])).
  { exists DQ, DQ, v. split; [done|]. split; [done|]. by right. }
  assert (Heq : trim (#" = " ++ [DQ] ++ v ++ [DQ]) = #"= " ++ [DQ] ++ v ++ [DQ]).
  { change (trim (#"= " ++ [DQ] ++ v ++ [DQ]) = #"= " ++ [DQ] ++ v ++ [DQ]). apply trim_tight.
    apply (tight_app #"=" #" " ([DQ] ++ v ++ [DQ])); [|done]. exists "="%char, "="%char, []. repeat split. by left. }
  rewrite Heq. change (Some (trim_matches DQ (trim ([DQ] ++ v ++ [DQ]))) = Some v).
  rewrite (trim_tight _ Htight). f_equal. by apply trim_matches_quoted.
Qed.

(** A key all of whose lines agree has their value, wherever they are. *)
Lemma first_value_agree key ls l v : l ∈ ls -> toml_value key l = Some v ->
  Forall (fun l => toml_value key l = None \/ toml_value key l = Some v) ls -> first_value key ls = Some v.
Proof.
  induction ls as [|x ls IH]; [by intros ?%not_elem_of_nil|]. intros Hl Hv [[Hx|Hx] Hls]%Forall_cons; cbn; rewrite Hx; [|done].
  apply elem_of_cons in Hl as [->|Hl]; [congruence|]. by apply IH.
Qed.

(** The keys the program looks up. *)
Definition keys : list str := [ #"pelagos_bin"; #"kernel"; #"initrd"; #"disk"; #"cmdline"; #"memory_mib"].

Lemma keys_tight key : key ∈ keys -> tight key.
Proof.
  intros H. assert (forallb (fun k => negb (bool_decide (k = [])) && forallb is_graph k) keys = true) as Hk by reflexivity.
  rewrite forallb_forall in Hk. apply list_elem_of_In, Hk in H. apply andb_true_iff in H as [H1 H2].
  apply tight_graph; [by intros ->|]. rewrite forallb_forall in H2. apply Forall_forall.
  intros c Hc. by apply H2, list_elem_of_In.
Qed.

Lemma toml_value_other key key' v : key ∈ keys -> key' ∈ keys -> key <> key' -> toml_value key (setting key' v) = None.
Proof.
  intros Hk Hk' Hne. unfold toml_value. rewrite (trim_tight _ (setting_tight key' v (keys_tight _ Hk'))).
  unfold keys in *. rewrite !elem_of_cons, elem_of_nil in Hk, Hk'.
  destruct_or!; subst; done.
Qed.

(** The text of a setting is one line. *)
Lemma setting_line key v : key ∈ keys -> plain_value v -> (NL ∉ setting key v) /\ last (setting key v) <> Some CR.
Proof.
  intros Hk [Hn _]. assert (NL ∉ key).
  { assert (forallb (fun k => negb (existsb (Ascii.eqb NL) k)) keys = true) as Hc by reflexivity.
    rewrite forallb_forall in Hc. apply not_in_literal, negb_true_iff, Hc, list_elem_of_In, Hk. }
  unfold setting. split.
  - rewrite !not_elem_of_app. repeat split; try done; by apply not_in_literal.
  - rewrite !app_assoc, last_snoc. done.
Qed.

(** What [settings] sets. *)
Definition set_values (c : Config) : list (str * str) :=
  zip keys [pelagos_bin c; kernel c; initrd c; disk c; cmdline c; dec (memory_mib c)].

Lemma parse_settings c ls : Forall (fun kv => plain_value (snd kv)) (set_values c) -> ls ≡ₚ settings c ->
  Forall (fun kv => parse_toml_str (unlines ls) (fst kv) = Some (snd kv)) (set_values c).
Proof.
  intros Hp Hls.
  assert (Hset : settings c = map (fun kv => setting (fst kv) (snd kv)) (set_values c)) by reflexivity.
  assert (Hkeys : Forall (fun kv => fst kv ∈ keys) (set_values c)).
  { apply Forall_forall. intros [k v] [i Hi]%list_elem_of_lookup. apply (list_elem_of_lookup_2 _ i).
    unfold set_values in Hi. by apply lookup_zip_Some in Hi as [? _]. }
  assert (Hnd : NoDup (map fst (set_values c))).
  { change (NoDup keys). eapply bool_decide_unpack. vm_compute. exact I. }
  assert (Hlines : lines (unlines ls) = ls).
  { apply lines_unlines. rewrite Hls, Hset. apply Forall_map. eapply Forall_impl.
    - apply Forall_and; split; [exact Hkeys | exact Hp].
    - intros kv [??]. by apply setting_line. }
  unfold parse_toml_str. rewrite Hlines. apply Forall_forall. intros [k v] Hkv. cbn [fst snd].
  rewrite Forall_forall in Hkeys, Hp. pose proof (Hkeys _ Hkv) as Hk. pose proof (Hp _ Hkv) as Hv. cbn in Hk, Hv.
  apply (first_value_agree _ _ (setting k v)).
  - rewrite Hls, Hset. apply list_elem_of_fmap. by exists (k, v).
  - apply toml_value_setting; [by apply keys_tight|done].
  - rewrite Hls, Hset. apply Forall_map, Forall_forall. intros [k' v'] Hkv'. cbn [fst snd].
    destruct (decide (k = k')) as [<-|Hne]; [right|left; by apply toml_value_other; [|apply (Hkeys _ Hkv')|]].
    assert (v' = v) as ->; [|apply toml_value_setting; [by apply keys_tight|done]].
    apply list_elem_of_lookup in Hkv as [i Hi], Hkv' as [j Hj].
    assert (i = j) as <-; [|congruence].
    eapply NoDup_lookup; [exact Hnd| |]; by rewrite list_lookup_fmap, ?Hi, ?Hj.
Qed.

(** a configuration file is read back.  Whatever the order of its lines, a file that sets the six
    keys between quotes configures exactly those values, before any other source is asked, when the three
    files of the virtual machine exist. *)
Theorem config_file_loaded m c p ls :
  config_file_path m = Some p -> contents m p = Some (unlines ls) -> ls ≡ₚ settings c ->
  Forall (fun kv => plain_value (snd kv)) (set_values c) -> 0 <= memory_mib c <= U64_MAX ->
  exists_ m (kernel c) = true -> exists_ m (initrd c) = true -> exists_ m (disk c) = true ->
  load m = Ok c.
Proof.
  intros Hpath Hsrc Hls Hp Hmem Hk Hi Hd. pose proof (parse_settings c ls Hp Hls) as H.
  unfold set_values, keys in H. cbn [zip] in H. rewrite !Forall_cons in H. cbn [fst snd] in H.
  destruct H as (H1 & H2 & H3 & H4 & H5 & H6 & _).
  unfold load, from_file. rewrite Hpath. cbn [mbind option_bind]. rewrite Hsrc. cbn [mbind option_bind].
  rewrite H1, H2, H3, H4, H5, H6. cbn [mbind option_bind or_else unwrap_or].
  unfold memory_or_default, parse_usize. cbn [mbind option_bind]. rewrite parse_uint_dec by (unfold U64_MAX in *; lia).
  unfold with_artifacts. cbn [kernel initrd disk unwrap_or]. rewrite Hk, Hi, Hd. by destruct c.
Qed.

(** Whatever the source, a configuration is only used when its three files exist, and its memory is a
    machine integer; the sources are tried in the documented order. *)
Theorem loaded_artifacts_exist m c : load m = Ok c ->
  (exists_ m (kernel c) = true /\ exists_ m (initrd c) = true /\ exists_ m (disk c) = true)
  /\ 0 <= memory_mib c <= U64_MAX
  /\ head (omap id [from_file m; from_env m; from_path_sibling m; from_dev_out m]) = Some c.
Proof.
  intros H. assert (Hw : forall c', with_artifacts m c' = Some c -> c' = c /\
    exists_ m (kernel c) = true /\ exists_ m (initrd c) = true /\ exists_ m (disk c) = true).
  { unfold with_artifacts. intros c'. case_goal; [|done]. intros [= <-]. by bool_cases. }
  assert (Hmem : forall s, 0 <= memory_or_default s <= U64_MAX).
  { intros [s|]; unfold memory_or_default; cbn; [|unfold U64_MAX; lia]. unfold parse_usize.
    destruct (parse_uint U64_MAX s) as [n|] eqn:E; cbn; [|unfold U64_MAX; lia].
    apply parse_uint_bound in E; unfold U64_MAX in *; lia. }
  assert (Hs : exists c', with_artifacts m c' = Some c /\ 0 <= memory_mib c' <= U64_MAX).
  { unfold load in H.
    destruct (from_file m) as [cf|] eqn:E1; [injection H as <-; unfold from_file in E1|].
    { repeat (apply bind_Some in E1 as (? & _ & E1)). eexists; split; [exact E1 | apply Hmem]. }
    destruct (from_env m) as [ce|] eqn:E2; [injection H as <-; unfold from_env in E2|].
    { repeat (apply bind_Some in E2 as (? & _ & E2)). eexists; split; [exact E2 | apply Hmem]. }
    destruct (from_path_sibling m) as [cp|] eqn:E3; [injection H as <-; unfold from_path_sibling in E3|].
    { repeat (apply bind_Some in E3 as (? & _ & E3)). eexists; split; [exact E3 | apply Hmem]. }
    destruct (from_dev_out m) as [cd|] eqn:E4; [injection H as <-; unfold from_dev_out in E4|done].
    repeat (apply bind_Some in E4 as (? & _ & E4)). eexists; split; [exact E4 | apply Hmem]. }
  destruct Hs as (c' & Hc & Hm). apply Hw in Hc as (-> & Hex). repeat split; try apply Hex; try apply Hm.
  unfold load in H. destruct (from_file m), (from_env m), (from_path_sibling m), (from_dev_out m); cbn; congruence.
Qed.

(** * Witnesses *)

Definition demo_config : Config :=
  mkConfig #"/opt/bin/pelagos" #"/vm/my kernel" #"/vm/initrd" #"/vm/root.img" #"console=hvc0" 2048.

Definition demo_machine : machine :=
  mkMachine (fun v => if bool_decide (v = #"HOME") then Some #"/Users/me" else None)
    (fun p => if bool_decide (p = #"/Users/me/.config/pelagos/config.toml") then Some (unlines (rev (settings demo_config))) else None)
    (fun _ => true) (fun _ => false) None.

Lemma config_file_loaded_witness : load demo_machine = Ok demo_config.
Proof.
  apply (config_file_loaded demo_machine demo_config #"/Users/me/.config/pelagos/config.toml" (rev (settings demo_config))).
  - reflexivity.
  - reflexivity.
  - symmetry. apply Permutation_rev.
  - repeat constructor; cbn; try done; by apply not_in_literal.
  - cbn. unfold U64_MAX. lia.
  - reflexivity.
  - reflexivity.
  - reflexivity.
Defined.

(** Without a configuration the files next to the [pelagos] of the path are taken. *)
Definition path_machine : machine :=
  mkMachine (fun v => if bool_decide (v = #"PATH") then Some #"/bin:/opt/pel" else None) (fun _ => None)
    (fun p => starts_with #"/opt/pel/" p) (fun p => bool_decide (p = #"/opt/pel/pelagos")) None.
Definition path_config : Config :=
  mkConfig #"/opt/pel/pelagos" #"/opt/pel/vmlinuz" #"/opt/pel/initramfs-custom.gz" #"/opt/pel/root.img" DEFAULT_CMDLINE 4096.

Lemma loaded_artifacts_exist_witness :
  load path_machine = Ok path_config /\ exists_ path_machine (kernel path_config) = true.
Proof.
  assert (load path_machine = Ok path_config) as H by (vm_compute; reflexivity).
  split; [exact H|]. apply (loaded_artifacts_exist path_machine path_config H).
Defined.
