(* ===== verification/DockerText.v ===== *)
(** The data of the docker shim and its conversions ([pelagos-docker/src/docker_types.rs] and the helpers
    of [pelagos-docker/src/main.rs]): container tables, mounts, ports, FROM lines and the argument lists
    of the commands it runs. *)

From S2P Require Import Prelude RustStd.

#[local] Open Scope Z_scope.

(** * Containers ([docker_types.rs]) *)

Record PsEntry := mkEntry { name : str; status : str; image : str }.

Record PortBinding := mkBinding { host_ip : str; host_port : str }.

Record MountEntry := mkMountEntry {
  mount_type : str; source : str; destination : str; mode : str; rw : bool; propagation : str }.

Record ContainerState := mkState { cs_status : str; running : bool; cs_started_at : str }.

Record ContainerConfig := mkContainerConfig {
  cc_image : str; labels : gmap str str; user : str; env : list str; cmd : list str; working_dir : str;
  entrypoint : option (list str) }.

Record HostConfig := mkHostConfig { binds : list str; port_bindings : gmap str (list PortBinding) }.

Record ContainerInspect := mkInspect {
  id : str; ci_name : str; created : str; state : ContainerState; config : ContainerConfig;
  host_config : HostConfig; mounts : list MountEntry; ports : gmap str (list PortBinding) }.

Record ImageConfig := mkImageConfig {
  ic_user : str; ic_env : list str; ic_cmd : list str; ic_working_dir : str; ic_entrypoint : option (list str);
  ic_labels : gmap str str }.
Record ImageInspect := mkImage { ii_id : str; repo_tags : list str; ii_config : ImageConfig }.

Record PsRow := mkRow { row_id : str; names : str; row_image : str; row_status : str; row_state : str }.

#[export] Instance PsEntry_eq_dec : EqDecision PsEntry.
Proof. solve_decision. Defined.
#[export] Instance PortBinding_eq_dec : EqDecision PortBinding.
Proof. solve_decision. Defined.

(** What the shim remembers of a container it has run. *)
Record CachedContainer := mkCached {
  c_image : str; c_labels : gmap str str; vol_specs : list str; bind_specs : list str; started_at : str;
  port_specs : list str; proxy_pid : option Z }.

#[export] Instance CachedContainer_eq_dec : EqDecision CachedContainer.
Proof. solve_decision. Defined.

#[export] Instance CachedContainer_countable : Countable CachedContainer.
Proof.
  refine (inj_countable' (fun c => (c_image c, c_labels c, vol_specs c, bind_specs c, started_at c, port_specs c, proxy_pid c))
    (fun x => let '(a, b, c, d, e, f, g) := x in mkCached a b c d e f g) _). by intros [].
Defined.

(** The options of [docker run] that the shim uses. *)
Record RunOpts := mkRun {
  r_name : option str; detach : bool; volumes : list str; r_mounts : list str; r_env : list str;
  r_ports : list str; label_args : list str; r_entrypoint : option str; image_and_args : list str }.

Section Unicode.
(** [str::to_uppercase] and [str::to_lowercase], and [char::is_alphanumeric] on a code point. *)
Context (to_uppercase to_lowercase : str -> str) (is_alphanumeric : Z -> bool).

(** ** The table [pelagos ps] prints *)

Definition skip_line (line : str) : bool :=
  bool_decide (line = []) || starts_with #"[" line
  || starts_with #"NAME" (to_uppercase line) || starts_with #"no containers" (to_lowercase line).

Definition ps_entry (line : str) : option PsEntry :=
  if skip_line line then None
  else match split_whitespace line with
       | n :: s :: _ :: i :: _ => Some (mkEntry n s i)
       | _ => None
       end.

Definition parse_pelagos_ps (output : str) : list PsEntry := omap ps_entry (lines output).

(** ** Mounts *)

(** One part of a [--mount] specification. *)
Definition mount_part (acc : option str * option str * option str) (part : str) :=
  let '(ty, src, tgt) := acc in
  match strip_prefix #"type=" part with Some v => (Some v, src, tgt) | None =>
  match strip_prefix #"source=" part with Some v => (ty, Some v, tgt) | None =>
  match strip_prefix #"src=" part with Some v => (ty, Some v, tgt) | None =>
  match strip_prefix #"target=" part with Some v => (ty, src, Some v) | None =>
  match strip_prefix #"dst=" part with Some v => (ty, src, Some v) | None =>
  match strip_prefix #"destination=" part with Some v => (ty, src, Some v) | None => acc
  end end end end end end.

Definition parse_mount_as_volume (mount_spec : str) : option str :=
  let '(ty, src, tgt) := fold_left mount_part (split_char "," mount_spec) (None, None, None) in
  if bool_decide (ty = Some #"volume") then None
  else match src, tgt with
       | Some s, Some t => Some (s ++ #":" ++ t)
       | _, _ => None
       end.

(** The host path of a path under the mount point of a share. *)
Definition share_path (vm_src : str) (share : str * str) : option str :=
  let '(tag, host_path) := share in
  match strip_prefix (#"/mnt/" ++ tag) vm_src with
  | Some [] => Some host_path
  | Some suffix => Some (trim_end_matches "/" host_path ++ suffix)
  | None => None
  end.

Fixpoint first_share (vm_src : str) (share_map : list (str * str)) : option str :=
  match share_map with
  | [] => None
  | share :: share_map =>
      match share_path vm_src share with Some p => Some p | None => first_share vm_src share_map end
  end.

Definition translate_volume_spec (spec : str) (share_map : list (str * str)) : str :=
  match split_once ":" spec with
  | None => spec
  | Some (vm_src, rest) =>
      match first_share vm_src share_map with
      | Some host_src => host_src ++ #":" ++ rest
      | None => spec
      end
  end.

(** An entry of the container's mounts, for a specification with a colon. *)
Definition mount_entry (spec : str) : option MountEntry :=
  match split_once ":" spec with
  | Some (src, dst) => Some (mkMountEntry #"bind" src dst [] true #"rprivate")
  | None => None
  end.

(** ** Ports *)

(** Container port, protocol and host port of [[ip:]host:container[/proto]]. *)
Definition port_parts (spec : str) : option (str * str * str) :=
  let '(spec_no_proto, proto) :=
    match rsplit_once "/" spec with Some (s, p) => (s, p) | None => (spec, #"tcp") end in
  match splitn 3 ":" spec_no_proto with
  | [_; host_port; container_port] => Some (container_port, proto, host_port)
  | [host_port; container_port] => Some (container_port, proto, host_port)
  | _ => None
  end.

Definition add_binding (m : gmap str (list PortBinding)) (spec : str) : gmap str (list PortBinding) :=
  match port_parts spec with
  | Some (container_port, proto, host_port) =>
      let key := container_port ++ #"/" ++ proto in
      <[key := unwrap_or (m !! key) [] ++ [mkBinding #"0.0.0.0" host_port]]> m
  | None => m
  end.

Definition build_ports_map (port_specs : list str) : gmap str (list PortBinding) :=
  fold_left add_binding port_specs ∅.

(** The line [docker port] prints for a specification. *)
Definition port_line (spec : str) : option str :=
  match port_parts spec with
  | Some (container_port, proto, host_port) =>
      Some (container_port ++ #"/" ++ proto ++ #" -> 0.0.0.0:" ++ host_port)
  | None => None
  end.

(** ** FROM lines *)

(** The image and the alias, in lower case, of the text after [FROM]; [None]: the slice panics. *)
Definition from_parts (rest : str) : option (str * option str) :=
  match find_sub #" AS " (to_uppercase rest) with
  | Some idx =>
      '(image_part, _) ← split_at idx rest;
      '(_, alias) ← split_at (idx + 4) rest;
      Some (trim image_part, Some (to_lowercase (trim alias)))
  | None => Some (rest, None)
  end.

(** Without a platform option. *)
Definition plain_image (image_part : str) : str :=
  if starts_with #"--" image_part then unwrap_or (split_whitespace image_part !! 1%nat) [] else image_part.

Definition is_from (trimmed : str) : bool :=
  negb (bool_decide (trimmed = []) || starts_with #"#" trimmed) && starts_with #"FROM " (to_uppercase trimmed).

Definition not_pulled (stages : gset str) (image : str) : bool :=
  bool_decide (image = []) || bool_decide (image = #"scratch") || starts_with #"$" image
  || bool_decide (to_lowercase image ∈ stages).

Fixpoint from_images (stages : gset str) (ls : list str) : option (list str) :=
  match ls with
  | [] => Some []
  | line :: ls =>
      if is_from (trim line) then
        '(_, rest) ← split_at 5 (trim line);
        '(image_part, alias) ← from_parts (trim rest);
        let image := plain_image image_part in
        let stages := match alias with Some n => {[ n ]} ∪ stages | None => stages end in
        if not_pulled stages image then from_images stages ls else (cons image) <$> from_images stages ls
      else from_images stages ls
  end.

Definition parse_from_images (dockerfile : str) : option (list str) := from_images ∅ (lines dockerfile).

(** The image name as a container name: what is neither alphanumeric nor a dash becomes a dash. *)
Definition sanitize (image : str) : str :=
  concat (map (fun ch => if is_alphanumeric (hd 0 (chars ch)) || bool_decide (ch = #"-") then ch else #"-")
            (char_slices image)).

Definition probe_name (image : str) : option str :=
  let safe := sanitize image in
  '(short, _) ← split_at (Nat.min (length safe) 40) safe;
  Some (#"pelagos-docker-pull-" ++ short).

(** Only names with a dot or a slash are taken from a registry. *)
Definition is_registry (image : str) : bool :=
  let name_part := hd image (split_char ":" image) in
  contains_char "." name_part || contains_char "/" name_part.
End Unicode.

(** ** Build arguments *)

Section Args.
(** The order in which a [HashMap] is traversed. *)
Context (order : gmap str str -> list (str * str)).

(** The values of [KEY=VALUE] arguments; later ones replace earlier ones. *)
Definition arg_values (build_args : list str) : gmap str str :=
  fold_left (fun m kv => match split_once "=" kv with Some (k, v) => <[k := v]> m | None => m end) build_args ∅.

Definition replace_vars (vars : list (str * str)) (s : str) : str :=
  fold_left (fun out kv => replace (#"$" ++ fst kv) (snd kv) (replace (#"${" ++ fst kv ++ #"}") (snd kv) out)) vars s.

Definition from_like (line : str) : bool := starts_with #"FROM" (to_ascii_uppercase (trim line)).

(** Defaults of ARG lines before the first FROM, for keys without a value. *)
Fixpoint arg_defaults (ls : list str) (m : gmap str str) : gmap str str :=
  match ls with
  | [] => m
  | line :: ls =>
      if from_like line then m
      else
        let t := trim line in
        arg_defaults ls
          (if starts_with #"ARG " (to_ascii_uppercase t) then
             match split_once "=" (trim (drop 4 t)) with
             | Some (k, v) => match m !! trim k with Some _ => m | None => <[trim k := trim v]> m end
             | None => m
             end
           else m)
  end.

Definition resolve_line (vars : gmap str str) (line : str) : str :=
  if from_like line then replace_vars (order vars) line else line.

(** The text of the resolved Dockerfile, when it needs one. *)
Definition resolve_dockerfile (content : str) (build_args : list str) : option str :=
  let vars := arg_defaults (lines content) (arg_values build_args) in
  if existsb (fun l => from_like l && contains_char "$" l) (lines content)
  then Some (unlines (map (resolve_line vars) (lines content)))
  else None.

(** The text whose FROM lines are pulled. *)
Definition substituted (raw : str) (build_args : list str) : str :=
  let arg_map := arg_values build_args in
  if bool_decide (arg_map = ∅) then raw else replace_vars (order arg_map) raw.
End Args.

(** ** Argument lists *)

Definition flags (name : str) (vs : list str) : list str := flat_map (fun v => [name; v]) vs.

(** What follows the image: the entry point is put before the command. *)
Definition command_of (entrypoint : option str) (cmd_args : list str) : list str :=
  match entrypoint with Some ep => ep :: cmd_args | None => cmd_args end.

Definition run_args (o : RunOpts) (effective_name img : str) (cmd_args : list str) : list str :=
  [ #"run"; #"--name"; effective_name] ++ (if detach o then [ #"--detach"] else [])
  ++ flags #"-v" (volumes o) ++ flags #"-v" (omap parse_mount_as_volume (r_mounts o))
  ++ flags #"-e" (r_env o) ++ flags #"--label" (label_args o)
  ++ [img] ++ command_of (r_entrypoint o) cmd_args.

Definition home_for_user (user : option str) : option str :=
  let effective_user := unwrap_or user #"root" in
  if bool_decide (effective_user = #"root") || bool_decide (effective_user = #"0") then Some #"/root" else None.

(** The variables set before the command by a leading [env]. *)
Definition env_prefix (user : option str) (env : list str) : list str :=
  let caller_has_home := existsb (starts_with #"HOME=") env in
  let home := if caller_has_home then None else home_for_user user in
  if negb (bool_decide (env = [])) || match home with Some _ => true | None => false end then
    [ #"env"] ++ match home with Some h => [ #"HOME=" ++ h] | None => [] end ++ env
  else [].

Definition exec_args (tty : bool) (user workdir : option str) (env : list str) (name : str) (cmd_args : list str)
    : list str :=
  [ #"exec"] ++ (if tty then [ #"-t"] else [])
  ++ match user with Some u => [ #"--user"; u] | None => [] end
  ++ match workdir with Some w => [ #"-w"; w] | None => [] end
  ++ [name] ++ env_prefix user env ++ cmd_args.

(** The subnet of [docker network create]: the sum of the bytes of the name as a [u8]. *)
Definition network_subnet (n : str) : str :=
  let hash := fold_left (fun acc b => as_u8 (acc + byte_of b)) n 0 in
  #"10.88." ++ dec hash ++ #".0/24".

Definition network_args (sub : str) (name : option str) : list str :=
  [ #"network"; sub] ++
  (if bool_decide (sub = #"create")
   then match name with Some n => [ #"--subnet"; network_subnet n; n] | None => [] end
   else match name with Some n => [n] | None => [] end).

Definition build_argv (tag dockerfile : str) (build_args : list str) (no_cache : bool) (context : str) : list str :=
  [ #"build"; #"-t"; tag; #"-f"; dockerfile] ++ flags #"--build-arg" build_args
  ++ (if no_cache then [ #"--no-cache"] else []) ++ [context].

(** * Ports: [docker port] and [docker inspect] show the same *)

(** Key and host port of a specification. *)
Definition port_pair (spec : str) : option (str * str) :=
  match port_parts spec with Some (cp, proto, hp) => Some (cp ++ #"/" ++ proto, hp) | None => None end.

(** The host ports of a key among pairs. *)
Definition ports_of (key : str) (pairs : list (str * str)) : list str :=
  omap (fun kh => if bool_decide (fst kh = key) then Some (snd kh) else None) pairs.

Lemma ports_of_app key a b : ports_of key (a ++ b) = ports_of key a ++ ports_of key b.
Proof. apply omap_app. Qed.

Lemma port_line_pair spec :
  port_line spec = (fun kh : str * str => fst kh ++ #" -> 0.0.0.0:" ++ snd kh) <$> port_pair spec.
Proof.
  unfold port_line, port_pair. destruct (port_parts spec) as [[[cp proto] hp]|]; [|done].
  cbn [fmap option_fmap option_map fst snd]. by rewrite <- !app_assoc.
Qed.

Lemma add_binding_lookup m spec key : unwrap_or (add_binding m spec !! key) [] =
  unwrap_or (m !! key) [] ++ map (mkBinding #"0.0.0.0") (ports_of key (option_list (port_pair spec))).
Proof.
  unfold add_binding, port_pair. destruct (port_parts spec) as [[[cp proto] hp]|]; unfold ports_of.
  - destruct (decide (cp ++ #"/" ++ proto = key)) as [<-|Hne].
    + rewrite lookup_insert_eq. cbn -[app]. by rewrite bool_decide_eq_true_2.
    + rewrite lookup_insert_ne by done. cbn -[app]. rewrite bool_decide_eq_false_2 by done. by rewrite app_nil_r.
  - by rewrite app_nil_r.
Qed.

Lemma build_ports_from specs : forall m key, unwrap_or (fold_left add_binding specs m !! key) [] =
  unwrap_or (m !! key) [] ++ map (mkBinding #"0.0.0.0") (ports_of key (omap port_pair specs)).
Proof.
  induction specs as [|spec specs IH]; intros m key; cbn [fold_left]; [by rewrite app_nil_r|].
  rewrite IH, add_binding_lookup, <- app_assoc, <- map_app, <- ports_of_app. do 3 f_equal.
  cbn. by destruct (port_pair spec).
Qed.

(** Every entry of the map has a binding. *)
Lemma build_ports_filled specs : forall m, (forall k, m !! k <> Some []) -> forall k, fold_left add_binding specs m !! k <> Some [].
Proof.
  induction specs as [|spec specs IH]; intros m Hm; [done|]. apply IH. intros k. unfold add_binding.
  destruct (port_parts spec) as [[[cp proto] hp]|]; [|apply Hm].
  destruct (decide (cp ++ #"/" ++ proto = k)) as [<-|Hne].
  - rewrite lookup_insert_eq. intros [= H]. by destruct (unwrap_or (m !! _) []).
  - by rewrite lookup_insert_ne.
Qed.

(** C40: [docker port] prints, line by line, exactly the bindings that [docker inspect] lists: every line is
    made of a key and a host port; the list of a key in the map is, in order, the host ports of the
    lines with this key, and a key is in the map exactly when some line has it. *)
Theorem port_views_agree specs :
  omap port_line specs = map (fun kh : str * str => fst kh ++ #" -> 0.0.0.0:" ++ snd kh) (omap port_pair specs) /\
  forall key, build_ports_map specs !! key =
    match ports_of key (omap port_pair specs) with
    | [] => None
    | hps => Some (map (mkBinding #"0.0.0.0") hps)
    end.
Proof.
  split.
  - induction specs as [|spec specs IH]; [done|]. cbn [omap list_omap]. rewrite port_line_pair.
    destruct (port_pair spec); cbn [fmap option_fmap option_map map]; by rewrite <- IH.
  - intros key. pose proof (build_ports_from specs ∅ key) as H. rewrite lookup_empty in H. cbn in H.
    pose proof (build_ports_filled specs ∅ (fun k => ltac:(by rewrite lookup_empty)) key) as Hf.
    unfold build_ports_map. destruct (fold_left add_binding specs ∅ !! key) as [l|]; cbn in H.
    + subst l. by destruct (ports_of key (omap port_pair specs)).
    + by destruct (ports_of key (omap port_pair specs)).
Qed.

Example port_specs_shown :
  omap port_line [ #"5000:5000"; #"127.0.0.1:8080:80/udp"; #"80"; #"5001:5000/tcp"]
  = [ #"5000/tcp -> 0.0.0.0:5000"; #"80/udp -> 0.0.0.0:8080"; #"5000/tcp -> 0.0.0.0:5001"].
Proof. vm_compute. reflexivity. Qed.

(** * Resolved FROM lines *)

(** A line in pieces: text without dollars, and references [${NAME}]. *)
Inductive piece : Type :=
| Lit (s : str)
| Ref (k : str).

Definition show_piece (p : piece) : str := match p with Lit s => s | Ref k => #"${" ++ k ++ #"}" end.
Definition show_pieces (ps : list piece) : str := concat (map show_piece ps).

Definition DOLLAR : ascii := "$".
Definition plain_name (k : str) : Prop := k <> [] /\ Forall (fun c => (c ∉ k)) [DOLLAR; "{"%char; "}"%char].
Definition plain_piece (p : piece) : Prop := match p with Lit s => DOLLAR ∉ s | Ref k => plain_name k end.

(** One variable, and all of them. *)
Definition fill1 (p : piece) (kv : str * str) : piece :=
  match p with Ref k => if decide (k = fst kv) then Lit (snd kv) else p | Lit _ => p end.
Definition fill (vars : gmap str str) (p : piece) : piece :=
  match p with Ref k => match vars !! k with Some v => Lit v | None => p end | Lit _ => p end.

(** Variables with plain names, whose values have no dollar and stay on the line. *)
Definition plain_vars (vars : gmap str str) : Prop :=
  forall k v, vars !! k = Some v -> plain_name k /\ Forall (fun c => (c ∉ v)) [DOLLAR; NL; CR].

Lemma plain_name_inv k : plain_name k -> k <> [] /\ (DOLLAR ∉ k) /\ ("{"%char ∉ k) /\ ("}"%char ∉ k).
Proof. intros [? H]. rewrite !Forall_cons in H. tauto. Qed.

Lemma plain_name_other k k' s : plain_name k -> plain_name k' -> k <> k' ->
  starts_with (k ++ #"}") (k' ++ #"}" ++ s) = false.
Proof.
  intros (_ & _ & _ & Hk)%plain_name_inv (_ & _ & _ & Hk')%plain_name_inv Hne.
  unfold starts_with. destruct (strip_prefix _ _) as [t|] eqn:E; [|done]. exfalso. apply Hne.
  apply strip_prefix_inv in E. rewrite <- app_assoc in E.
  pose proof (split_once_app "}" k t Hk) as H1. pose proof (split_once_app "}" k' s Hk') as H2.
  cbn in E. rewrite E in H2. congruence.
Qed.

(** The text of a reference after its dollar. *)
Lemma ref_tail_plain k : plain_name k -> DOLLAR ∉ ("{"%char :: k ++ #"}").
Proof.
  intros (_ & H & _ & _)%plain_name_inv. rewrite not_elem_of_cons, not_elem_of_app.
  repeat split; [done|done|by apply not_in_literal].
Qed.

Lemma replace_ref k v ps : plain_name k -> Forall plain_piece ps ->
  replace (#"${" ++ k ++ #"}") v (show_pieces ps) = show_pieces (map (fun p => fill1 p (k, v)) ps).
Proof.
  intros Hk. unfold show_pieces. induction 1 as [|p ps Hp _ IH]; [done|]. cbn [map concat].
  destruct p as [s|k']; cbn [show_piece fill1 fst snd plain_piece] in *.
  - change (#"${" ++ k ++ #"}") with (DOLLAR :: "{"%char :: k ++ #"}") in *. by rewrite replace_copy, IH.
  - destruct (decide (k' = k)) as [->|Hne]; cbn [show_piece].
    + by rewrite replace_here, IH.
    + change (#"${" ++ k' ++ #"}") with (DOLLAR :: ("{"%char :: k' ++ #"}")).
      change (#"${" ++ k ++ #"}") with (DOLLAR :: ("{"%char :: k ++ #"}")) in *.
      rewrite <- app_comm_cons, replace_skip.
      * rewrite replace_copy, IH by (by apply ref_tail_plain). done.
      * unfold starts_with. cbn. rewrite <- app_assoc. apply plain_name_other; congruence || done.
Qed.

(** The form without braces does not touch a reference with braces. *)
Lemma replace_bare k v ps : plain_name k -> Forall plain_piece ps ->
  replace (#"$" ++ k) v (show_pieces ps) = show_pieces ps.
Proof.
  intros Hk. unfold show_pieces. change (#"$" ++ k) with (DOLLAR :: k).
  induction 1 as [|p ps Hp _ IH]; [done|]. cbn [map concat].
  destruct p as [s|k']; cbn [show_piece plain_piece] in *.
  - by rewrite replace_copy, IH.
  - change (#"${" ++ k' ++ #"}") with (DOLLAR :: ("{"%char :: k' ++ #"}")).
    rewrite <- app_comm_cons, replace_skip.
    + rewrite replace_copy, IH by (by apply ref_tail_plain). done.
    + apply plain_name_inv in Hk as (Hne & _ & Hb & _). destruct k as [|c k]; [done|].
      apply not_elem_of_cons in Hb as [Hc _].
      rewrite starts_with_cons, decide_True by done. rewrite <- app_comm_cons, starts_with_cons. by rewrite decide_False by congruence.
Qed.

Lemma fill1_plain p k v : plain_piece p -> DOLLAR ∉ v -> plain_piece (fill1 p (k, v)).
Proof. destruct p; cbn; [done|]. intros. by case_decide. Qed.

Lemma replace_vars_pieces vars : forall ps,
  Forall (fun kv => plain_name (fst kv) /\ DOLLAR ∉ snd kv) vars -> Forall plain_piece ps ->
  replace_vars vars (show_pieces ps) = show_pieces (map (fun p => fold_left fill1 vars p) ps).
Proof.
  unfold replace_vars. induction vars as [|[k v] vars IH]; intros ps Hv Hp; cbn [fold_left fst snd].
  - by rewrite map_id.
  - apply Forall_cons in Hv as [[Hk Hd] Hv]. cbn [fst snd] in *. rewrite replace_ref by done.
    assert (Hp' : Forall plain_piece (map (fun p => fill1 p (k, v)) ps)).
    { apply Forall_map. eapply Forall_impl; [exact Hp|]. intros p Hpp. by apply fill1_plain. }
    rewrite replace_bare by done. rewrite IH by done. by rewrite map_map.
Qed.

(** A reference is filled by the first variable of its name. *)
Lemma fold_fill vars p : fold_left fill1 vars p = fill (list_to_map vars) p.
Proof.
  destruct p as [s|k]; cbn [fill].
  - induction vars; [done|]. cbn. done.
  - induction vars as [|[k' v] vars IH]; [done|]. cbn [fold_left fill1 fst snd list_to_map foldr uncurry].
    destruct (decide (k = k')) as [->|Hne].
    + cbn. rewrite lookup_insert_eq. clear. induction vars; [done|]. cbn. done.
    + cbn. rewrite lookup_insert_ne by congruence. exact IH.
Qed.

Section Resolved.
Context (order : gmap str str -> list (str * str)) (order_perm : forall m, order m ≡ₚ map_to_list m).

Lemma order_in m k v : (k, v) ∈ order m -> m !! k = Some v.
Proof. rewrite order_perm. apply elem_of_map_to_list. Qed.

Lemma order_map (m : gmap str str) : list_to_map (order m) = m.
Proof.
  rewrite <- (list_to_map_to_list m) at 2. apply list_to_map_proper; [|apply order_perm].
  rewrite order_perm. apply NoDup_fst_map_to_list.
Qed.

Lemma replace_vars_line vars ps : plain_vars vars -> Forall plain_piece ps ->
  replace_vars (order vars) (show_pieces ps) = show_pieces (map (fill vars) ps).
Proof.
  intros Hv Hp. rewrite replace_vars_pieces; [|apply Forall_forall; intros [k v] Hkv%order_in | done].
  - f_equal. apply map_ext. intros p. by rewrite fold_fill, order_map.
  - apply Hv in Hkv as [Hk Hd]. apply Forall_cons in Hd as [? _]. done.
Qed.

Lemma replace_vars_not_in c vars s : Forall (fun kv : str * str => c ∉ snd kv) vars -> c ∉ s -> c ∉ replace_vars vars s.
Proof.
  unfold replace_vars. revert s. induction vars as [|[k v] vars IH]; intros s Hv Hs; [done|].
  apply Forall_cons in Hv as [H Hv]. cbn [fold_left fst snd] in *. apply IH; [done|]. by repeat apply replace_not_in.
Qed.

Lemma resolve_line_keeps vars line : plain_vars vars -> NL ∉ line -> CR ∉ line ->
  (NL ∉ resolve_line order vars line) /\ last (resolve_line order vars line) <> Some CR.
Proof.
  intros Hv Hn Hc. assert (H : forall c, c ∈ [NL; CR] -> c ∉ line -> c ∉ resolve_line order vars line).
  { intros c Hin Hl. unfold resolve_line. case_goal; [|done]. apply replace_vars_not_in; [|done].
    apply Forall_forall. intros [k v] Hkv%order_in. apply Hv in Hkv as [_ Hd]. cbn [snd].
    rewrite Forall_forall in Hd. apply Hd. set_solver. }
  split; [apply H; [set_solver|done]|]. intros Hlast%last_Some_elem_of. by eapply H; [|exact Hc|]; [set_solver|].
Qed.

(** The Dockerfile passed to [pelagos] has the same lines as the original; only FROM lines differ, and
    there every reference to a variable with a value (a build argument or, without one, the default of a
    global ARG line) is replaced by exactly that value, in whatever order the hash map is traversed. *)
Theorem dockerfile_resolved content build_args text :
  resolve_dockerfile order content build_args = Some text ->
  let vars := arg_defaults (lines content) (arg_values build_args) in
  plain_vars vars -> Forall (fun l => CR ∉ l) (lines content) ->
  length (lines text) = length (lines content) /\
  forall i line out, lines content !! i = Some line -> lines text !! i = Some out ->
    (from_like line = false -> out = line) /\
    (forall ps, from_like line = true -> Forall plain_piece ps -> line = show_pieces ps ->
       out = show_pieces (map (fill vars) ps)).
Proof.
  intros H vars Hv Hcr. unfold resolve_dockerfile in H. fold vars in H. case_hyp H; [|done]. injection H as <-.
  assert (Hlines : lines (unlines (map (resolve_line order vars) (lines content))) = map (resolve_line order vars) (lines content)).
  { apply lines_unlines, Forall_map, Forall_forall. intros l Hl. rewrite Forall_forall in Hcr.
    apply resolve_line_keeps; [done|by eapply lines_no_nl|by apply Hcr]. }
  rewrite Hlines. split; [apply length_map|]. intros i line out Hi Ho.
  rewrite list_lookup_fmap, Hi in Ho. injection Ho as <-. unfold resolve_line. split.
  - by intros ->.
  - intros ps -> Hp ->. by apply replace_vars_line.
Qed.
End Resolved.

(** Without braces the result depends on the order of the hash map. *)
Example bare_names_clash :
  replace_vars [( #"A", #"x"); ( #"AB", #"y")] #"FROM $AB" = #"FROM xB" /\
  replace_vars [( #"AB", #"y"); ( #"A", #"x")] #"FROM $AB" = #"FROM y".
Proof. vm_compute. split; reflexivity. Qed.

(** * The table of [pelagos ps] *)

(** A row: cells, each followed by a number of spaces, at least one. *)
Definition spaces (n : nat) : str := replicate (S n) " "%char.
Definition row_line (cells : list (str * nat)) : str := concat (map (fun cn : str * nat => fst cn ++ spaces (snd cn)) cells).
Definition word (s : str) : Prop := s <> [] /\ Forall (fun c => is_graph c = true) s.

Lemma split_ws_word w acc s : Forall (fun c => is_graph c = true) w ->
  split_ws_go 0 acc (w ++ s) = split_ws_go 0 (rev w ++ acc) s.
Proof.
  intros Hw. revert acc. induction Hw as [|c w Hc _ IH]; intros acc; [done|].
  cbn [app split_ws_go]. rewrite ws_len_graph by done. rewrite IH. cbn [rev]. by rewrite <- app_assoc.
Qed.

Lemma split_ws_spaces n acc s :
  split_ws_go 0 acc (spaces n ++ s) = match acc with [] => [] | _ => [rev acc] end ++ split_ws_go 0 [] s.
Proof.
  unfold spaces. revert acc. induction n as [|n IH]; intros acc.
  - cbn. by destruct acc.
  - change (replicate (S (S n)) " "%char ++ s) with (" "%char :: (replicate (S n) " "%char ++ s)).
    cbn [split_ws_go]. change (ws_len _) with 1%nat. cbn match. rewrite (IH []). by destruct acc.
Qed.

Lemma split_whitespace_row cells : Forall (fun cn => word (fst cn)) cells -> split_whitespace (row_line cells) = map fst cells.
Proof.
  unfold split_whitespace, row_line. induction 1 as [|[w n] cells [Hne Hw] _ IH]; [done|].
  cbn [map concat fst snd] in *. rewrite <- app_assoc, split_ws_word, app_nil_r, split_ws_spaces, IH by done.
  destruct (rev w) as [|c r] eqn:E; [by apply (f_equal (@rev ascii)) in E; rewrite rev_involutive in E|].
  cbn. by rewrite <- (rev_involutive w), E.
Qed.

Lemma starts_with_before c p : c ∉ p -> forall a b, starts_with p (a ++ c :: b) = starts_with p a.
Proof.
  induction p as [|x p IH]; [done|]. intros [Hx Hp]%not_elem_of_cons a b. destruct a as [|y a].
  - cbn [app]. rewrite starts_with_cons, decide_False by congruence. done.
  - cbn [app]. rewrite !starts_with_cons. case_decide; [by apply IH|done].
Qed.

Lemma is_graph_not_space w : Forall (fun c => is_graph c = true) w -> " "%char ∉ w.
Proof. intros Hw Hin. rewrite Forall_forall in Hw. by apply Hw in Hin. Qed.

Section Table.
(** The conversions of case, of which it is only used that they work on ASCII text as expected. *)
Context (to_uppercase to_lowercase : str -> str).
Definition ascii_text (s : str) : Prop := Forall (fun c => byte_of c < 128) s.
Context (upper_ascii : forall s, ascii_text s -> to_uppercase s = to_ascii_uppercase s).
Context (lower_ascii : forall s, ascii_text s -> to_lowercase s = to_ascii_lowercase s).

(** Names the shim can tell from a header, a log line and the message for an empty table. *)
Definition visible (n : str) : Prop :=
  starts_with #"[" n = false /\ starts_with #"NAME" (to_ascii_uppercase n) = false /\ to_ascii_lowercase n <> #"no".

Lemma lower_graph c : is_graph c = true -> lower c <> " "%char.
Proof.
  intros Hc. unfold lower. case_goal; [|intros ->; done]. unfold is_upper in *. bool_arith.
  intros Heq. apply (f_equal byte_of) in Heq. rewrite byte_of_of_byte in Heq by (unfold is_u8; lia).
  change (byte_of " ") with 32 in Heq. lia.
Qed.

Lemma upper_graph c : is_graph c = true -> upper c <> " "%char.
Proof.
  intros Hc. unfold upper. case_goal; [|intros ->; done]. unfold is_lower in *. bool_arith.
  intros Heq. apply (f_equal byte_of) in Heq. rewrite byte_of_of_byte in Heq by (unfold is_u8; lia).
  change (byte_of " ") with 32 in Heq. lia.
Qed.

Lemma skip_row n k rest : word n -> visible n -> ascii_text rest ->
  skip_line to_uppercase to_lowercase (n ++ spaces k ++ rest) = false.
Proof.
  intros [Hne Hg] (Hb & Hn & Hno) Hr.
  assert (Ha : ascii_text (n ++ spaces k ++ rest)).
  { apply Forall_app. split; [|apply Forall_app; split; [|done]].
    - eapply Forall_impl; [exact Hg|]. intros c. unfold is_graph. intros. bool_arith.
    - unfold spaces. by apply Forall_replicate. }
  unfold skip_line. rewrite upper_ascii, lower_ascii by done.
  unfold to_ascii_uppercase, to_ascii_lowercase in *. rewrite !map_app. unfold spaces. cbn [replicate app map].
  change (upper " ") with " "%char. change (lower " ") with " "%char.
  rewrite (starts_with_before " "), (starts_with_before " " #"NAME"), Hb, Hn by (by apply not_in_literal).
  rewrite bool_decide_eq_false_2 by (by destruct n). cbn [orb].
  unfold starts_with. destruct (strip_prefix #"no containers" _) as [t|] eqn:E; [|done].
  exfalso. apply Hno. apply strip_prefix_inv in E.
  assert (Hl : " "%char ∉ map lower n).
  { intros (c & Hc & Hin)%list_elem_of_In%in_map_iff. rewrite Forall_forall in Hg.
    apply list_elem_of_In in Hin. by apply Hg, lower_graph in Hin. }
  pose proof (split_once_app " " _ (map lower (replicate k " "%char) ++ map lower rest) Hl) as H1.
  pose proof (split_once_app " " #"no" (#"containers" ++ t) ltac:(by apply not_in_literal)) as H2.
  rewrite E in H1. change (#"no containers" ++ t) with (#"no" ++ " "%char :: #"containers" ++ t) in H1. congruence.
Qed.

(** What [pelagos ps] lists of a container: name, status, process, image and further columns. *)
Definition listed (cells : list (str * nat)) : option PsEntry :=
  match cells with (n, _) :: (s, _) :: _ :: (i, _) :: _ => Some (mkEntry n s i) | _ => None end.
Definition proper_row (cells : list (str * nat)) : Prop :=
  Forall (fun cn => word (fst cn)) cells /\ match head cells with Some (n, _) => visible n | None => False end
  /\ is_Some (listed cells).

Lemma ps_entry_row cells : proper_row cells -> ps_entry to_uppercase to_lowercase (row_line cells) = listed cells.
Proof.
  intros (Hw & Hv & Hl). unfold ps_entry. rewrite split_whitespace_row by done.
  destruct cells as [|[n k] cells]; [done|]. apply Forall_cons in Hw as [Hn Hw]. cbn [head fst] in *.
  unfold row_line. cbn [map concat fst snd]. rewrite <- app_assoc, skip_row; [|done|done|].
  - destruct cells as [|[s ?] [|[? ?] [|[i ?] ?]]]; reflexivity.
  - clear -Hw. induction Hw as [|[w m] cells [_ Hw] _ IH]; [constructor|]. cbn [map concat fst snd] in *.
    apply Forall_app. split; [|exact IH]. apply Forall_app. split.
    + eapply Forall_impl; [exact Hw|]. intros c. unfold is_graph. intros. bool_arith.
    + unfold spaces. by apply Forall_replicate.
Qed.

Lemma row_line_plain cells : proper_row cells -> (NL ∉ row_line cells) /\ last (row_line cells) <> Some CR.
Proof.
  intros (Hw & _ & _). assert (H : forall c, c ∈ row_line cells -> c <> NL /\ c <> CR).
  { intros c. unfold row_line. intros (l & Hl & Hc)%list_elem_of_In%in_concat.
    apply list_elem_of_In in Hc. apply in_map_iff in Hl as ([w n] & <- & Hin%list_elem_of_In).
    rewrite Forall_forall in Hw. destruct (Hw _ Hin) as [_ Hg]. cbn [fst snd] in *. apply elem_of_app in Hc as [Hc|Hc].
    - rewrite Forall_forall in Hg. apply Hg in Hc. by split; intros ->.
    - unfold spaces in Hc. apply elem_of_replicate in Hc as [-> _]. done. }
  split; [intros Hin; by destruct (H _ Hin) | intros Hl%last_Some_elem_of; by destruct (H _ Hl)].
Qed.

(** The shim reads every row of the table [pelagos ps] prints, whatever its width, in order, and
    nothing else: not the header, log lines or empty lines. *)
Theorem ps_table_read head rows : Forall proper_row rows ->
  Forall (fun l => (NL ∉ l) /\ last l <> Some CR /\ skip_line to_uppercase to_lowercase l = true) head ->
  parse_pelagos_ps to_uppercase to_lowercase (unlines (head ++ map row_line rows)) = omap listed rows
  /\ length (omap listed rows) = length rows.
Proof.
  intros Hrows Hhead. split.
  - unfold parse_pelagos_ps. rewrite lines_unlines.
    + rewrite omap_app. replace (omap _ head) with (@nil PsEntry).
      * cbn [app]. induction Hrows as [|cells rows Hc _ IH]; [done|]. cbn [map omap list_omap].
        by rewrite ps_entry_row, IH.
      * induction Hhead as [|l head (_ & _ & Hl) _ IH]; [done|]. cbn [omap list_omap]. unfold ps_entry at 1. by rewrite Hl.
    + apply Forall_app. split; [eapply Forall_impl; [exact Hhead|]; by intros ? (? & ? & _)|].
      apply Forall_map. eapply Forall_impl; [exact Hrows|]. apply row_line_plain.
  - induction Hrows as [|cells rows (_ & _ & [e He]) _ IH]; [done|]. cbn [omap list_omap]. rewrite He. cbn. by rewrite IH.
Qed.
End Table.

(** A container whose name begins like the header is not seen. *)
Example nameserver_hidden :
  parse_pelagos_ps to_ascii_uppercase to_ascii_lowercase #"nameserver  running  12  alpine  sh" = [].
Proof. vm_compute. reflexivity. Qed.

(** * The environment of [docker exec] *)

(** What [env] does with its arguments: leading assignments, then the command. *)
Fixpoint env_words (argv : list str) : list (str * str) * list str :=
  match argv with
  | [] => ([], [])
  | w :: rest =>
      match split_once "=" w with
      | Some kv => let '(vars, command) := env_words rest in (kv :: vars, command)
      | None => ([], argv)
      end
  end.

(** How a process starts from an argument list. *)
Definition started (argv : list str) : list (str * str) * list str :=
  match argv with
  | w :: rest => if bool_decide (w = #"env") then env_words rest else ([], argv)
  | [] => ([], [])
  end.

Lemma env_words_app env cmd : Forall (fun kv => is_Some (split_once "=" kv)) env ->
  match cmd with [] => True | w :: _ => "="%char ∉ w end ->
  env_words (env ++ cmd) = (omap (split_once "=") env, cmd).
Proof.
  intros Henv Hcmd. induction Henv as [|w env [kv Hw] _ IH]; cbn [app].
  - destruct cmd as [|w cmd]; [done|]. cbn. by rewrite split_once_none.
  - cbn [env_words]. rewrite Hw, IH. cbn [omap list_omap]. by rewrite Hw.
Qed.

(** the command of [docker exec] runs unchanged with exactly the variables given with [-e], in order,
    after [HOME=/root] when the user is root and the caller does not set [HOME]. *)
Theorem exec_environment user env prog args :
  Forall (fun kv => is_Some (split_once "=" kv)) env -> "="%char ∉ prog -> prog <> #"env" ->
  started (env_prefix user env ++ prog :: args)
  = ((if existsb (starts_with #"HOME=") env then []
      else match home_for_user user with Some h => [(#"HOME", h)] | None => [] end)
     ++ omap (split_once "=") env, prog :: args).
Proof.
  intros Henv Hp Hne. unfold env_prefix, started.
  assert (Happ := env_words_app env (prog :: args) Henv Hp).
  destruct (existsb _ env) eqn:Eh.
  - destruct env as [|e env]; [done|]. rewrite bool_decide_eq_false_2 by done. cbn [negb orb app].
    by rewrite bool_decide_eq_true_2.
  - destruct (home_for_user user) as [h|] eqn:E.
    + assert (h = #"/root") as ->.
      { unfold home_for_user in E. case_hyp E; congruence. }
      rewrite orb_true_r, <- !app_assoc. cbn [app]. rewrite bool_decide_eq_true_2 by done.
      cbn [env_words]. by rewrite Happ.
    + destruct env as [|e env].
      * cbn [app]. rewrite bool_decide_eq_true_2 by done. cbn. by rewrite bool_decide_eq_false_2.
      * rewrite bool_decide_eq_false_2 by done. cbn [negb orb app]. by rewrite bool_decide_eq_true_2.
Qed.

(** * Witnesses *)

Definition demo_content : str :=
  unlines [ #"ARG BASE=alpine:3"; #"FROM ${BASE} AS ${STAGE}"; #"RUN echo ${BASE}"].

Lemma dockerfile_resolved_witness :
  resolve_dockerfile map_to_list demo_content [ #"STAGE=dev"]
  = Some (unlines [ #"ARG BASE=alpine:3"; #"FROM alpine:3 AS dev"; #"RUN echo ${BASE}"]) /\
  (forall out, lines (unlines [ #"ARG BASE=alpine:3"; #"FROM alpine:3 AS dev"; #"RUN echo ${BASE}"]) !! 1%nat = Some out ->
     out = #"FROM alpine:3 AS dev").
Proof.
  assert (H : resolve_dockerfile map_to_list demo_content [ #"STAGE=dev"]
    = Some (unlines [ #"ARG BASE=alpine:3"; #"FROM alpine:3 AS dev"; #"RUN echo ${BASE}"])) by (vm_compute; reflexivity).
  split; [exact H|]. intros out Hout.
  assert (Hvars : arg_defaults (lines demo_content) (arg_values [ #"STAGE=dev"])
    = {[ #"BASE" := #"alpine:3"; #"STAGE" := #"dev" ]}) by (vm_compute; reflexivity).
  destruct (dockerfile_resolved map_to_list (fun m => reflexivity _) _ _ _ H) as [_ Hl].
  - rewrite Hvars. intros k v. rewrite lookup_insert_Some, lookup_singleton_Some.
    intros [[<- <-]|[_ [<- <-]]]; (split; [split; [done|]|]); by apply not_in_literals.
  - assert (forallb (fun l => negb (existsb (Ascii.eqb CR) l)) (lines demo_content) = true) as Hcr by (vm_compute; reflexivity).
    rewrite forallb_forall in Hcr. apply Forall_forall. intros l Hin%list_elem_of_In. by apply not_in_literal, negb_true_iff, Hcr.
  - rewrite Hvars in Hl.
    destruct (Hl 1%nat #"FROM ${BASE} AS ${STAGE}" out) as [_ Hf]; [vm_compute; reflexivity | exact Hout|].
    apply (Hf [Lit #"FROM "; Ref #"BASE"; Lit #" AS "; Ref #"STAGE"]); [vm_compute; reflexivity | | reflexivity].
    rewrite !Forall_cons. cbn [plain_piece].
    split; [by apply not_in_literal|]. split; [split; [done|by apply not_in_literals]|].
    split; [by apply not_in_literal|]. split; [split; [done|by apply not_in_literals]|]. constructor.
Defined.

Definition demo_row (n s : str) : list (str * nat) :=
  [(n, 10%nat); (s, 4%nat); ( #"123", 0%nat); ( #"alpine:3", 2%nat); ( #"/bin/sh", 0%nat)].

Lemma ps_table_read_witness :
  parse_pelagos_ps to_ascii_uppercase to_ascii_lowercase
    (unlines ([ #"[INFO] ready"; #"NAME  STATUS"; []] ++ map row_line [demo_row #"web" #"running"; demo_row #"db" #"exited"]))
  = [mkEntry #"web" #"running" #"alpine:3"; mkEntry #"db" #"exited" #"alpine:3"].
Proof.
  apply (ps_table_read to_ascii_uppercase to_ascii_lowercase (fun _ _ => eq_refl) (fun _ _ => eq_refl)
           [ #"[INFO] ready"; #"NAME  STATUS"; []] [demo_row #"web" #"running"; demo_row #"db" #"exited"]).
  - assert (Hw : forall n s, word n -> visible n -> word s -> proper_row (demo_row n s)).
    { intros n s Hn Hv Hs. unfold proper_row, demo_row. rewrite !Forall_cons. cbn [fst head].
      repeat split; try done; try apply Hn; try apply Hv; try apply Hs; try (by eexists); by repeat constructor. }
    rewrite !Forall_cons. split; [|split; [|constructor]]; apply Hw; repeat split; by repeat constructor.
  - rewrite !Forall_cons. split; [|split; [|split; [|constructor]]]; repeat split; try done; by apply not_in_literal.
Defined.

Lemma exec_environment_witness :
  started (env_prefix None [ #"A=1"] ++ [ #"make"; #"all"]) = ([(#"HOME", #"/root"); (#"A", #"1")], [ #"make"; #"all"]).
Proof.
  apply (exec_environment None [ #"A=1"] #"make" [ #"all"]); [by repeat econstructor | by apply not_in_literal | done].
Defined.
