(* ===== verification/DockerJson.v ===== *)
(** The JSON texts of the docker shim ([pelagos-docker/src/docker_types.rs] and the file of containers of
    [pelagos-docker/src/main.rs]): what serde writes for the answers of [docker inspect] and [docker ps], the codec
    of the containers the shim remembers, and the values of [json!], whose keys are sorted. *)

From stdpp Require Import sorting.
From S2P Require Import Prelude RustStd JsonText Protocol DockerText.

#[local] Open Scope Z_scope.

(** * Hash maps *)

Section Maps.
(** The order in which a [HashMap] is traversed. *)
Context (order : forall V : Type, gmap str V -> list (str * V)).

Definition enc_hash {V} (enc : V -> jval) (m : gmap str V) : jval := JObj (map (fun kv => (kv.1, enc kv.2)) (order V m)).

(** The last value of a key counts. *)
Definition dec_hash {V} (dec : jval -> option V) (v : jval) : option (gmap str V) :=
  match v with
  | JObj m => (fun l => list_to_map (rev l)) <$> mapM (fun kv => x ← dec kv.2; Some (kv.1, x)) m
  | _ => None
  end.

(** * Answers: [#[serde(rename_all = "PascalCase")]], an absent option is [null] *)

Definition enc_binding (b : PortBinding) : jval :=
  JObj (fld #"HostIp" (JStr (host_ip b)) ++ fld #"HostPort" (JStr (host_port b))).
Definition enc_ports : gmap str (list PortBinding) -> jval := enc_hash (fun l => JArr (map enc_binding l)).

Definition enc_mount (m : MountEntry) : jval :=
  JObj (fld #"Type" (JStr (mount_type m)) ++ fld #"Source" (JStr (source m)) ++ fld #"Destination" (JStr (destination m))
        ++ fld #"Mode" (JStr (mode m)) ++ fld #"RW" (JBool (rw m)) ++ fld #"Propagation" (JStr (propagation m))).

Definition enc_state (s : ContainerState) : jval :=
  JObj (fld #"Status" (JStr (cs_status s)) ++ fld #"Running" (JBool (running s)) ++ fld #"StartedAt" (JStr (cs_started_at s))).

Definition enc_config (c : ContainerConfig) : jval :=
  JObj (fld #"Image" (JStr (cc_image c)) ++ fld #"Labels" (enc_hash JStr (labels c)) ++ fld #"User" (JStr (user c))
        ++ fld #"Env" (enc_strs (env c)) ++ fld #"Cmd" (enc_strs (cmd c)) ++ fld #"WorkingDir" (JStr (working_dir c))
        ++ fld #"Entrypoint" (enc_option enc_strs (entrypoint c))).

Definition enc_host_config (h : HostConfig) : jval :=
  JObj (fld #"Binds" (enc_strs (binds h)) ++ fld #"PortBindings" (enc_ports (port_bindings h))).

Definition enc_network (ports : gmap str (list PortBinding)) : jval := JObj (fld #"Ports" (enc_ports ports)).

Definition enc_inspect (c : ContainerInspect) : jval :=
  JObj (fld #"Id" (JStr (id c)) ++ fld #"Name" (JStr (ci_name c)) ++ fld #"Created" (JStr (created c))
        ++ fld #"State" (enc_state (state c)) ++ fld #"Config" (enc_config (config c))
        ++ fld #"HostConfig" (enc_host_config (host_config c)) ++ fld #"Mounts" (JArr (map enc_mount (mounts c)))
        ++ fld #"NetworkSettings" (enc_network (ports c))).

Definition enc_image_config (c : ImageConfig) : jval :=
  JObj (fld #"User" (JStr (ic_user c)) ++ fld #"Env" (enc_strs (ic_env c)) ++ fld #"Cmd" (enc_strs (ic_cmd c))
        ++ fld #"WorkingDir" (JStr (ic_working_dir c)) ++ fld #"Entrypoint" (enc_option enc_strs (ic_entrypoint c))
        ++ fld #"Labels" (enc_hash JStr (ic_labels c))).

Definition enc_image (i : ImageInspect) : jval :=
  JObj (fld #"Id" (JStr (ii_id i)) ++ fld #"RepoTags" (enc_strs (repo_tags i)) ++ fld #"Config" (enc_image_config (ii_config i))).

Definition enc_row (r : PsRow) : jval :=
  JObj (fld #"Id" (JStr (row_id r)) ++ fld #"Names" (JStr (names r)) ++ fld #"Image" (JStr (row_image r))
        ++ fld #"Status" (JStr (row_status r)) ++ fld #"State" (JStr (row_state r))).

(** * The file of containers *)

Definition enc_cached (c : CachedContainer) : jval :=
  JObj (fld #"image" (JStr (c_image c)) ++ fld #"labels" (enc_hash JStr (c_labels c)) ++ fld #"vol_specs" (enc_strs (vol_specs c))
        ++ fld #"bind_specs" (enc_strs (bind_specs c)) ++ fld #"started_at" (JStr (started_at c))
        ++ strs_fld #"port_specs" (port_specs c) ++ some_fld #"proxy_pid" JNum (proxy_pid c)).

Definition dec_u32 : jval -> option Z := dec_int 0 U32_MAX.

Definition cached_fields : D CachedContainer :=
  image <~ required #"image" dec_str ;;
  labels <~ required #"labels" (dec_hash dec_str) ;;
  vol_specs <~ required #"vol_specs" dec_strs ;;
  bind_specs <~ required #"bind_specs" dec_strs ;;
  started_at <~ required #"started_at" dec_str ;;
  port_specs <~ defaulted [] #"port_specs" dec_strs ;;
  proxy_pid <~ defaulted None #"proxy_pid" (dec_option dec_u32) ;;
  dret (mkCached image labels vol_specs bind_specs started_at port_specs proxy_pid).
Definition dec_cached : jval -> option CachedContainer := struct cached_fields.

Definition enc_cache : gmap str CachedContainer -> jval := enc_hash enc_cached.
Definition dec_cache : jval -> option (gmap str CachedContainer) := dec_hash dec_cached.

(** Its process ids are [u32]s. *)
Definition pid_ok (pid : option Z) : Prop := match pid with Some p => 0 <= p <= U32_MAX | None => True end.
Definition storable (c : gmap str CachedContainer) : Prop := map_Forall (fun _ e => pid_ok (proxy_pid e)) c.

(** ** What is read has the types of the fields *)

Definition yields {A} (d : D A) (Q : A -> Prop) : Prop := forall f a f', d f = Some (a, f') -> Q a.

Lemma yields_bind {A B} (d : D A) (k : A -> D B) P Q : yields d P -> (forall a, P a -> yields (k a) Q) -> yields (dbind d k) Q.
Proof. intros Hd Hk f b f'. unfold dbind. destruct (d f) as [[a f1]|] eqn:E; [|done]. cbn. apply Hk. by eapply Hd. Qed.

Lemma yields_any {A} (d : D A) : yields d (fun _ => True).
Proof. done. Qed.

Lemma yields_ret {A} (a : A) (Q : A -> Prop) : Q a -> yields (dret a) Q.
Proof. by intros HQ f b f' [= <- _]. Qed.

Lemma yields_field {A} (m1 m2 : option A) k dec (Q : A -> Prop) : (forall a, m1 = Some a -> Q a) -> (forall a, m2 = Some a -> Q a) ->
  (forall v a, dec v = Some a -> Q a) -> yields (field m1 m2 k dec) Q.
Proof.
  intros H1 H2 Hd f a f'. unfold field. destruct f as [m|[|v l]]; [destruct (look k m) as [|v [|]]; [| |done]|..].
  - destruct m1 as [x|]; [|done]. intros [= <- _]. by apply H1.
  - destruct (dec v) as [x|] eqn:E; [|done]. intros [= <- _]. by eapply Hd.
  - destruct m2 as [x|]; [|done]. intros [= <- _]. by apply H2.
  - destruct (dec v) as [x|] eqn:E; [|done]. intros [= <- _]. by eapply Hd.
Qed.

Lemma struct_yields {A} (d : D A) Q v a : yields d Q -> struct d v = Some a -> Q a.
Proof.
  intros Hd. unfold struct. assert (Hf : forall f, finish (d f) = Some a -> Q a).
  { intros f. destruct (d f) as [[b f']|] eqn:E; [|done]. cbn. destruct f' as [|[|]]; try done; intros [= <-]; by eapply Hd. }
  destruct v; try done; apply Hf.
Qed.

Lemma dec_cached_pid v e : dec_cached v = Some e -> pid_ok (proxy_pid e).
Proof.
  apply (struct_yields _ (fun e => pid_ok (proxy_pid e))). unfold cached_fields, required, defaulted.
  do 6 (eapply yields_bind; [apply yields_any|intros ? _]). eapply yields_bind with (P := pid_ok); [|intros pid Hp; by apply yields_ret].
  apply yields_field; try (by intros ? [= <-]). intros x o. unfold dec_option. destruct x; try (by intros [= <-]); try discriminate.
  unfold dec_u32, dec_int. destruct (_ && _) eqn:E; [|done]. intros [= <-]. bool_arith. done.
Qed.

Lemma dec_cache_storable v c : dec_cache v = Some c -> storable c.
Proof.
  unfold dec_cache, dec_hash. destruct v as [| | | | |m]; try done. destruct (mapM _ m) as [l|] eqn:E; [|done]. intros [= <-] k e He.
  apply elem_of_list_to_map_2 in He. rewrite <- Permutation_rev in He. apply mapM_Some_1 in E. apply list_elem_of_lookup in He as [i Hi].
  destruct (Forall2_lookup_r _ _ _ _ _ E Hi) as (kv & _ & Hkv). destruct (dec_cached kv.2) as [x|] eqn:Ed; [|done].
  injection Hkv as _ <-. by eapply dec_cached_pid.
Qed.

(** ** What is written is read back *)

Context (order_all : forall V m, order V m ≡ₚ map_to_list m).

Lemma mapM_enc {V} (enc : V -> jval) (dec : jval -> option V) (l : list (str * V)) : Forall (fun kv => dec (enc kv.2) = Some kv.2) l ->
  mapM (fun kv : str * jval => x ← dec kv.2; Some (kv.1, x)) (map (fun kv => (kv.1, enc kv.2)) l) = Some l.
Proof. induction 1 as [|[k v] l Hv Hl IH]; [done|]. cbn in *. by rewrite Hv; cbn; rewrite IH. Qed.

Lemma dec_enc_hash {V} (enc : V -> jval) (dec : jval -> option V) (m : gmap str V) : map_Forall (fun _ v => dec (enc v) = Some v) m ->
  dec_hash dec (enc_hash enc m) = Some m.
Proof.
  intros Hm. unfold dec_hash, enc_hash. rewrite mapM_enc; cbn.
  - f_equal. rewrite <- (list_to_map_to_list m) at 2. symmetry. apply list_to_map_proper; [apply NoDup_fst_map_to_list|].
    rewrite <- Permutation_rev. symmetry. apply order_all.
  - apply Forall_forall. intros [k v] Hk. rewrite order_all in Hk. apply elem_of_map_to_list in Hk. by apply (Hm k).
Qed.

Lemma dec_enc_strings (m : gmap str str) : dec_hash dec_str (enc_hash JStr m) = Some m.
Proof. by apply dec_enc_hash. Qed.
#[local] Hint Resolve dec_enc_strings : codec.

Lemma dec_enc_cached c : pid_ok (proxy_pid c) -> dec_cached (enc_cached c) = Some c.
Proof.
  intros Hp. apply struct_gets. destruct c as [im la vo bi st po pid]. cbn [proxy_pid] in Hp. unfold cached_fields, defaulted, required.
  do 6 (eapply gets_bind; [gets_one|]). eapply gets_bind; [|apply gets_ret].
  destruct pid as [p|]; [eapply gets_field; [looks|]|apply gets_missing; looks].
  unfold dec_option, dec_u32. by rewrite dec_enc_int.
Qed.

Lemma dec_enc_cache c : storable c -> dec_cache (enc_cache c) = Some c.
Proof. intros Hc. apply dec_enc_hash. intros k e He. by apply dec_enc_cached, (Hc k). Qed.

Lemma within_hash {V} (n : nat) (enc : V -> jval) (m : gmap str V) : map_Forall (fun _ v => within n (enc v) = true) m ->
  within (S n) (enc_hash enc m) = true.
Proof.
  intros Hm. unfold enc_hash. rewrite within_obj. unfold fields_within. rewrite forallb_forall.
  intros x (kv & <- & Hk%list_elem_of_In)%in_map_iff. destruct kv as [k v]. rewrite order_all in Hk.
  apply elem_of_map_to_list in Hk. by apply (Hm k).
Qed.

Lemma within_strings (n : nat) (m : gmap str str) : within (S n) (enc_hash JStr m) = true.
Proof. apply within_hash. intros k s _. apply within_str. Qed.
#[local] Hint Resolve within_strings : sizes.

Lemma within_cached (n : nat) e : pid_ok (proxy_pid e) -> within (S (S n)) (enc_cached e) = true.
Proof.
  intros Hp. unfold enc_cached. rewrite within_obj. sizes. destruct (proxy_pid e) as [p|]; [|done].
  cbn [some_fld]. change [(?a, ?b)] with (fld a b). rewrite fields_within_fld. apply within_num. cbn in Hp. unfold U32_MAX, U64_MAX in *. lia.
Qed.

Lemma cache_readable c : storable c -> readable (enc_cache c) = true.
Proof. intros Hc. apply (within_hash 126). intros k e He. by apply (within_cached 124), (Hc k). Qed.
End Maps.

(** * Values of [json!]: the library keeps an object as a [BTreeMap] *)

Definition key_le (a b : str * jval) : Prop := str_le a.1 b.1.
#[export] Instance key_le_dec : RelDecision key_le.
Proof. intros a b. unfold key_le. apply _. Defined.

(** The keys are distinct. *)
Definition json_object (m : list (str * jval)) : jval := JObj (merge_sort key_le m).

Lemma str_le_trans : Transitive str_le.
Proof.
  intros a. unfold str_le. induction a as [|x a IH]; intros [|y b] [|z c]; cbn; try done. rewrite !orb_true_iff, !andb_true_iff.
  intros [H1|[H1 H2]] [H3|[H3 H4]]; bool_arith; first [left; apply Z.ltb_lt; lia | right; split; [apply Z.eqb_eq; lia|by eapply IH]].
Qed.

Lemma str_le_total : Total str_le.
Proof.
  intros a. unfold str_le. induction a as [|x a IH]; intros [|y b]; cbn; [by left..|by right|]. rewrite !orb_true_iff, !andb_true_iff.
  destruct (Z.lt_trichotomy (byte_of x) (byte_of y)) as [H|[H|H]].
  - left. left. by apply Z.ltb_lt.
  - destruct (IH b); [left|right]; right; (split; [by apply Z.eqb_eq|done]).
  - right. left. by apply Z.ltb_lt.
Qed.

Lemma str_le_antisym a b : str_le a b -> str_le b a -> a = b.
Proof.
  unfold str_le. revert b. induction a as [|x a IH]; intros [|y b]; cbn; try done. rewrite !orb_true_iff, !andb_true_iff.
  intros [H1|[H1 H2]] [H3|[H3 H4]]; bool_arith; try lia. f_equal; [|by apply IH].
  rewrite <- (of_byte_byte_of x), <- (of_byte_byte_of y). by f_equal.
Qed.

(** The text does not depend on the order of a hash map. *)
Lemma json_object_permutation m m' : NoDup m.*1 -> m ≡ₚ m' -> json_object m = json_object m'.
Proof.
  intros Hn Hp. unfold json_object. f_equal.
  assert (Ht : Transitive key_le) by (intros a b c; apply str_le_trans).
  assert (Hk : Total key_le) by (intros a b; apply str_le_total).
  apply (StronglySorted_unique_strong key_le); try by apply (StronglySorted_merge_sort key_le).
  - intros [k1 v1] [k2 v2] H1 H2 Ha Hb. rewrite merge_sort_Permutation in H1. rewrite merge_sort_Permutation, <- Hp in H2.
    pose proof (str_le_antisym _ _ Ha Hb) as Hkk. cbn in Hkk. subst k2. f_equal.
    apply list_elem_of_lookup in H1 as [i Hi]. apply list_elem_of_lookup in H2 as [j Hj].
    assert (i = j) as ->; [|congruence]. apply (NoDup_lookup m.*1 i j k1 Hn); rewrite list_lookup_fmap; [by rewrite Hi|by rewrite Hj].
  - by rewrite !merge_sort_Permutation.
Qed.

(** * Texts *)

Section Texts.
Context (order : forall V : Type, gmap str V -> list (str * V)) `{JT : JsonText}.
(** [to_string_pretty] *)
Context (pretty : jval -> str).

Definition cache_to_text (c : gmap str CachedContainer) : str := to_string (enc_cache order c).
Definition cache_of_text (s : str) : option (gmap str CachedContainer) := read dec_cache s.
Definition inspect_text (results : list ContainerInspect) : str := pretty (JArr (map (enc_inspect order) results)).
Definition images_text (results : list ImageInspect) : str := pretty (JArr (map (enc_image order) results)).
Definition row_text (r : PsRow) : str := to_string (enc_row r).

(** What the shim has written it reads back, whatever the order of the maps. *)
Lemma cache_round c : (forall V m, order V m ≡ₚ map_to_list m) -> storable c -> cache_of_text (cache_to_text c) = Some c.
Proof. intros Ho Hc. unfold cache_of_text, cache_to_text. rewrite read_object by by apply cache_readable. by apply dec_enc_cache. Qed.

(** A row is a line of its own, and reads as an object of its five fields. *)
Lemma row_read r : (NL ∉ row_text r) /\ of_string (row_text r) = Some (enc_row r).
Proof. split; [apply to_string_line|]. apply of_to_string, readable_obj. sizes. Qed.
End Texts.

(** * Concrete texts, with [compact_json] *)

#[local] Abbreviation by_key := (fun V => @map_to_list str V (gmap str V) _).

Definition demo_entry : CachedContainer :=
  mkCached #"alpine:3" {[ #"dev" := #"1" ]} [] [ #"/src:/work"] #"1700000000" [ #"8080:80"] (Some 4242).

Example entry_written : cache_to_text by_key {[ #"web" := demo_entry ]} =
  json #"{'web':{'image':'alpine:3','labels':{'dev':'1'},'vol_specs':[],'bind_specs':['/src:/work'],'started_at':'1700000000','port_specs':['8080:80'],'proxy_pid':4242}}".
Proof. vm_compute. reflexivity. Qed.

(** Files of before the ports and the proxy were kept are read; a file without one of the other fields, or with a
    process id that is no [u32], is not, and counts as no containers at all. *)
Example old_file : cache_of_text (json #"{'web':{'image':'a','labels':{},'vol_specs':[],'bind_specs':[],'started_at':'1'}}") =
  Some {[ #"web" := mkCached #"a" ∅ [] [] #"1" [] None ]}.
Proof. vm_compute. reflexivity. Qed.
Example unread_files : map cache_of_text
  [json #"{'web':{'image':'a','labels':{},'vol_specs':[],'bind_specs':[]}}";
   json #"{'web':{'image':'a','labels':{},'vol_specs':[],'bind_specs':[],'started_at':'1','proxy_pid':-1}}"; []] = [None; None; None].
Proof. vm_compute. reflexivity. Qed.

Example row_written : row_text (mkRow #"web" #"web" #"alpine" #"running" #"running") =
  json #"{'Id':'web','Names':'web','Image':'alpine','Status':'running','State':'running'}".
Proof. vm_compute. reflexivity. Qed.

(** A container that has exited, as [docker inspect] shows it but for the white space. *)
Example inspect_written : to_string (enc_inspect by_key
    (mkInspect #"web" #"/web" #"1" (mkState #"exited" false #"1") (mkContainerConfig #"alpine" ∅ [] [] [] [] None)
       (mkHostConfig [] {[ #"80/tcp" := [mkBinding #"0.0.0.0" #"8080"] ]}) [mkMountEntry #"bind" #"/src" #"/work" [] true #"rprivate"]
       {[ #"80/tcp" := [mkBinding #"0.0.0.0" #"8080"] ]})) =
  json #"{'Id':'web','Name':'/web','Created':'1','State':{'Status':'exited','Running':false,'StartedAt':'1'},'Config':{'Image':'alpine','Labels':{},'User':'','Env':[],'Cmd':[],'WorkingDir':'','Entrypoint':null},'HostConfig':{'Binds':[],'PortBindings':{'80/tcp':[{'HostIp':'0.0.0.0','HostPort':'8080'}]}},'Mounts':[{'Type':'bind','Source':'/src','Destination':'/work','Mode':'','RW':true,'Propagation':'rprivate'}],'NetworkSettings':{'Ports':{'80/tcp':[{'HostIp':'0.0.0.0','HostPort':'8080'}]}}}".
Proof. vm_compute. reflexivity. Qed.
