(* ===== verification/Docker.v ===== *)
(** The commands of the docker shim ([pelagos-docker/src/main.rs], [pelagos-docker/src/invoke.rs]):
    [docker run], [exec], [ps], [inspect], [build] and the others as programs that call [pelagos], with
    the cache of containers the shim keeps in a file. *)

From S2P Require Import Prelude RustStd JsonText Paths Json DockerConfig DockerText DockerJson.

#[local] Open Scope Z_scope.

(** * Outside *)

(** A finished process: its output and its exit code, none when a signal ended it. *)
Record output := mkOutput { stdout : str; stderr : str; code : option Z }.
Definition success (o : output) : bool := bool_decide (code o = Some 0).

Inductive ev : Type :=
| Output (program : str) (args : list str)
| OutputWithin (millis : Z) (program : str) (args : list str)
| Status (program : str) (args : list str)
| Spawn (program : str) (args : list str)
| KillAndWait (pid : Z)
| ReadFile (path : str)
| WriteFile (path text : str)
| RemoveFile (path : str)
| CreateDirs (path : str)
| NowMillis
| Println (text : str)
| Eprintln (text : str)
| Sleep (millis : Z)
| ReadStdin.

(** An [Err] carries the text of the error; a process that is over in time or not. *)
Definition reply (e : ev) : Type :=
  match e with
  | Output _ _ => result output str
  | OutputWithin _ _ _ => option output
  | Status _ _ => result (option Z) str
  | Spawn _ _ => result Z str
  | ReadFile _ => result str str
  | WriteFile _ _ => bool
  | NowMillis => Z
  | KillAndWait _ | RemoveFile _ | CreateDirs _ | Println _ | Eprintln _ | Sleep _ | ReadStdin => unit
  end.

(** The state are the files the shim has written: it reads from them what it wrote, and any other file
    holds what the outside says.  A failed write leaves the contents to the outside. *)
Definition M (A : Type) : Type := Sys ev reply (gmap str str) A.

Definition read_file (path : str) : M (result str str) :=
  files <- get_st ;;
  match files !! path with Some text => ret (Ok text) | None => call (ReadFile path) end.

Definition write_file (path text : str) : M bool :=
  ok <- call (WriteFile path text) ;;
  modify (fun files => if (ok : bool) then <[path := text]> files else delete path files) ;;
  ret ok.

Definition remove_file (path : str) : M unit :=
  call (RemoveFile path) ;; modify (delete path).

(** [retain] with a test that runs commands. *)
Fixpoint filter_m {A} (test : A -> M bool) (l : list A) : M (list A) :=
  match l with
  | [] => ret []
  | x :: l => keep <- test x ;; rest <- filter_m test l ;; ret (if (keep : bool) then x :: rest else rest)
  end.

Section Shim.
Context {J : Json} {JT : JsonText}.
(** Unicode tables, the order of hash maps, [String::from_utf8_lossy], [to_string_pretty], and the environment
    variables. *)
Context (to_uppercase to_lowercase : str -> str) (is_alphanumeric : Z -> bool).
Context (order : forall V : Type, gmap str V -> list (str * V)) (lossy : str -> str) (pretty : jval -> str).
Context (var : str -> option str).

Section Loaded.
(** The configuration. *)
Context (cfg : Config).

Definition ps_entries (stdout : str) : list PsEntry := parse_pelagos_ps to_uppercase to_lowercase (lossy stdout).

(** * Running [pelagos] ([invoke.rs]) *)

Definition pelagos_args (sub_args : list str) : list str := pelagos_prefix_args cfg ++ sub_args.
Definition run_pelagos (sub_args : list str) : M (result output str) :=
  call (Output (pelagos_bin cfg) (pelagos_args sub_args)).
Definition run_pelagos_timeout (sub_args : list str) (millis : Z) : M (option output) :=
  call (OutputWithin millis (pelagos_bin cfg) (pelagos_args sub_args)).
Definition run_pelagos_inherited (sub_args : list str) : M (result (option Z) str) :=
  call (Status (pelagos_bin cfg) (pelagos_args sub_args)).

(** The exit code of most commands: that of [pelagos], 1 when it was killed or did not start. *)
Definition exit_with (what : str) (status : result (option Z) str) : M Z :=
  match status with
  | Ok code => ret (unwrap_or code 1)
  | Err e => call (Eprintln (#"pelagos-docker " ++ what ++ #": " ++ e)) ;; ret 1
  end.
Definition pass_through (what : str) (sub : list str) : M Z :=
  status <- run_pelagos_inherited sub ;; exit_with what status.

(** * The cache of containers *)

Definition shim_containers_path : option str :=
  base ← match var #"XDG_DATA_HOME" with
         | Some xdg => Some (path_join xdg #"pelagos")
         | None => (fun home => path_join home #".local/share/pelagos") <$> var #"HOME"
         end;
  Some (path_join base #"shim-containers.json").

Definition load_shim_containers : M (gmap str CachedContainer) :=
  match shim_containers_path with
  | None => ret ∅
  | Some path =>
      s <- read_file path ;;
      ret match s with Ok s => unwrap_or (cache_of_text s) ∅ | Err _ => ∅ end
  end.

Definition create_dirs (dir : option str) : M unit :=
  match dir with Some dir => call (CreateDirs dir) | None => ret tt end.

Definition save_shim_containers (m : gmap str CachedContainer) : M unit :=
  match shim_containers_path with
  | None => ret tt
  | Some path =>
      create_dirs (parent path) ;;
      write_file path (cache_to_text order m) ;;
      ret tt
  end.

Definition cache_container (name : str) (entry : CachedContainer) : M unit :=
  m <- load_shim_containers ;;
  save_shim_containers (<[name := entry]> m).

Definition uncache_container (name : str) : M unit :=
  m <- load_shim_containers ;;
  match m !! name with
  | Some _ => save_shim_containers (delete name m)
  | None => ret tt
  end.

Definition kill_proxy_for_container (name : str) : M unit :=
  cache <- load_shim_containers ;;
  match (entry ← cache !! name; proxy_pid entry) with
  | Some pid => call (Status #"kill" [ #"-TERM"; dec pid]) ;; ret tt
  | None => ret tt
  end.

(** * [docker pull], [run], [exec] *)

Definition PULL_PROBE : str := #"pelagos-docker-pull-probe".

Definition cmd_pull (image : str) (quiet : bool) : M Z :=
  out <- run_pelagos ([ #"run"; #"--detach"; #"--name"; PULL_PROBE; image; #"/bin/true"]) ;;
  match out with
  | Err e => call (Eprintln (#"pelagos-docker pull: " ++ e)) ;; ret 1
  | Ok out =>
      run_pelagos [ #"stop"; PULL_PROBE] ;;
      run_pelagos [ #"rm"; PULL_PROBE] ;;
      (if quiet then ret tt
       else for_each (lines (lossy (stderr out)))
              (fun line => if starts_with #"[" line then ret tt else call (Eprintln line))) ;;
      ret (if success out then 0 else unwrap_or (code out) 1)
  end.

(** The port proxy: started before the container when ports are published. *)
Definition spawn_proxy (ports : list str) : M (option Z) :=
  match ports with
  | [] => ret None
  | _ =>
      child <- call (Spawn (pelagos_bin cfg) (pelagos_args ([ #"port-proxy"] ++ flags #"--port" ports))) ;;
      match (child : result Z str) with
      | Ok pid => ret (Some pid)
      | Err e => call (Eprintln (#"pelagos-docker: port-proxy spawn failed: " ++ e)) ;; ret None
      end
  end.

Definition kill_proxy (child : option Z) : M unit :=
  match child with Some pid => call (KillAndWait pid) | None => ret tt end.

Definition effective_name (name : option str) : M str :=
  match name with
  | Some n => ret n
  | None => now <- call NowMillis ;; ret (#"dc-" ++ dec (now mod 1000))
  end.

(** [cmd_run] once the name is known. *)
Definition run_named (opts : RunOpts) (image : str) (cmd_args : list str) (name : str) : M Z :=
  proxy_child <- spawn_proxy (r_ports opts) ;;
  status <- run_pelagos_inherited (run_args opts name image cmd_args) ;;
  exit_code <- exit_with #"run" status ;;
  if exit_code =? 0 then
    proxy_pid <- (if detach opts then ret proxy_child else kill_proxy proxy_child ;; ret None) ;;
    now <- call NowMillis ;;
    cache_container name
      (mkCached image (arg_values (label_args opts)) (volumes opts) (omap parse_mount_as_volume (r_mounts opts))
         (dec (now / 1000)) (r_ports opts) proxy_pid) ;;
    ret exit_code
  else kill_proxy proxy_child ;; ret exit_code.

Definition cmd_run (opts : RunOpts) : M Z :=
  match image_and_args opts with
  | [] => call (Eprintln #"pelagos-docker run: missing image") ;; ret 1
  | image :: cmd_args => name <- effective_name (r_name opts) ;; run_named opts image cmd_args name
  end.

Definition cmd_exec (tty : bool) (user workdir : option str) (env name_and_args : list str) : M Z :=
  match name_and_args with
  | [] => call (Eprintln #"pelagos-docker exec: missing container name") ;; ret 1
  | name :: cmd_args => pass_through #"exec" (exec_args tty user workdir env name cmd_args)
  end.

(** * [docker start], [stop], [rm], [logs], [cp] *)

Fixpoint start_all (names : list str) (exit : Z) : M Z :=
  match names with
  | [] => ret exit
  | name :: names =>
      status <- run_pelagos_inherited [ #"start"; name] ;;
      code <- exit_with #"start" status ;;
      start_all names (if code =? 0 then exit else code)
  end.
Definition cmd_start (names : list str) : M Z := start_all names 0.

Definition cmd_stop (name : str) : M Z :=
  exit <- pass_through #"stop" [ #"stop"; name] ;;
  kill_proxy_for_container name ;;
  ret exit.

Definition cmd_rm (force : bool) (name : str) : M Z :=
  kill_proxy_for_container name ;;
  exit <- pass_through #"rm" ([ #"rm"] ++ (if force then [ #"--force"] else []) ++ [name]) ;;
  uncache_container name ;;
  ret exit.

Definition cmd_logs (follow : bool) (name : str) : M Z :=
  pass_through #"logs" ([ #"logs"] ++ (if follow then [ #"--follow"] else []) ++ [name]).

Definition cmd_cp (src dst : str) : M Z := pass_through #"cp" [ #"cp"; src; dst].

(** * [docker ps] *)

(** [None]: not found, failed or not over in two seconds. *)
Definition pelagos_container_inspect_json (name : str) : M (option Value) :=
  out <- run_pelagos_timeout [ #"inspect"; name] 2000 ;;
  ret (o ← (out : option output); if success o then from_str (stdout o) else None).

Definition label_map (v : option Value) : gmap str str :=
  match (v ← v; l ← get #"labels" v; as_object l) with
  | Some obj => fold_left (fun m kv => <[fst kv := unwrap_or (as_str (snd kv)) []]> m) obj ∅
  | None => ∅
  end.

Definition pelagos_container_labels (name : str) : M (gmap str str) :=
  v <- pelagos_container_inspect_json name ;;
  ret (label_map v).

Definition label_filters (filters : list str) : list (str * str) :=
  omap (fun f => kv ← strip_prefix #"label=" f; split_once "=" kv) filters.

Definition has_labels (wanted : list (str * str)) (have : gmap str str) : bool :=
  forallb (fun kv => bool_decide (have !! fst kv = Some (snd kv))) wanted.

(** The name filters, one after the other. *)
Definition name_filters (filters : list str) (entries : list PsEntry) : list PsEntry :=
  fold_left (fun es f => match strip_prefix #"name=" f with
                         | Some val => List.filter (fun e => contains val (name e)) es
                         | None => es
                         end) filters entries.

Definition select_entries (filters : list str) (entries : list PsEntry) : M (list PsEntry) :=
  entries <- (match label_filters filters with
              | [] => ret entries
              | wanted => filter_m (fun e => have <- pelagos_container_labels (name e) ;; ret (has_labels wanted have)) entries
              end) ;;
  ret (name_filters filters entries).

Definition ps_row (e : PsEntry) : PsRow := mkRow (name e) (name e) (image e) (status e) (status e).

Definition is_json (format : option str) : bool :=
  match format with Some f => contains #"json" f || bool_decide (f = #"{{json .}}") | None => false end.

Definition ps_lines (quiet : bool) (format : option str) (entries : list PsEntry) : list str :=
  if quiet then map name entries
  else if is_json format then map (fun e => row_text (ps_row e)) entries
  else match entries with
       | [] => []
       | _ => (pad_right 30 #"NAMES" ++ #" " ++ pad_right 12 #"STATUS" ++ #" IMAGE")
              :: map (fun e => pad_right 30 (name e) ++ #" " ++ pad_right 12 (status e) ++ #" " ++ image e) entries
       end.

Definition print_lines (ls : list str) : M unit := for_each ls (fun l => call (Println l)).

Definition cmd_ps (all quiet : bool) (filters : list str) (format : option str) : M Z :=
  out <- run_pelagos_timeout ([ #"ps"] ++ (if all then [ #"--all"] else [])) 5000 ;;
  match out with
  | None => call (Eprintln #"pelagos-docker ps: timed out (VM not responding)") ;; ret 1
  | Some o =>
      entries <- select_entries filters (ps_entries (stdout o)) ;;
      print_lines (ps_lines quiet format entries) ;;
      ret 0
  end.

(** * [docker events] *)

Definition start_event (e : PsEntry) (attrs : gmap str str) (now : Z) : jval :=
  json_object [( #"status", JStr #"start"); ( #"id", JStr (name e)); ( #"from", JStr (image e)); ( #"Type", JStr #"container");
        ( #"Action", JStr #"start");
        ( #"Actor", json_object [( #"ID", JStr (name e));
           ( #"Attributes", json_object (map (fun kv => (fst kv, JStr (snd kv)))
              (order str (<[ #"name" := name e]> (<[ #"image" := image e]> attrs)))))]);
        ( #"scope", JStr #"local"); ( #"time", JNum now); ( #"timeNano", JNum (now * 1000000000 mod 2 ^ 64))].

Fixpoint announce (known : gset str) (entries : list PsEntry) : M (gset str) :=
  match entries with
  | [] => ret known
  | e :: entries =>
      if bool_decide (name e ∈ known) then announce known entries
      else
        now <- call NowMillis ;;
        attrs <- pelagos_container_labels (name e) ;;
        call (Println (to_string (start_event e attrs (now / 1000)))) ;;
        announce ({[ name e ]} ∪ known) entries
  end.

Definition events_round (known : gset str) : M (gset str) :=
  call (Sleep 500) ;;
  out <- run_pelagos [ #"ps"; #"--all"] ;;
  match out with
  | Ok o => announce known (ps_entries (stdout o))
  | Err _ => ret known
  end.

(** The loop runs until the process is killed, here after [rounds] rounds. *)
Fixpoint events_loop (rounds : nat) (known : gset str) : M (gset str) :=
  match rounds with
  | O => ret known
  | S rounds => known <- events_round known ;; events_loop rounds known
  end.

(** [reloaded]: whether loading the configuration again succeeded. *)
Definition cmd_events (reloaded : bool) (rounds : nat) : M Z :=
  if reloaded then events_loop rounds ∅ ;; ret 0 else call ReadStdin ;; ret 0.

(** * [docker inspect] *)

Definition share_entry (e : Value) : option (str * str) :=
  tag ← (t ← get #"tag" e; as_str t); host ← (h ← get #"host_path" e; as_str h); Some (tag, host).

Definition read_vm_share_map : M (list (str * str)) :=
  match var #"HOME" with
  | None => ret []
  | Some home =>
      bytes <- read_file (path_join home #".local/share/pelagos/vm.mounts") ;;
      ret match bytes with
          | Ok text => omap share_entry (unwrap_or (v ← from_str text; as_array v) [])
          | Err _ => []
          end
  end.

(** The strings of an array of the container's start options, as host paths. *)
Definition spawn_specs (field : str) (share_map : list (str * str)) (native : option Value) : list str :=
  match (v ← native; c ← get #"spawn_config" v; a ← get field c; as_array a) with
  | Some arr => map (fun s => translate_volume_spec s share_map) (omap as_str arr)
  | None => []
  end.

Definition inspect_config (image : str) (labels : gmap str str) : ContainerConfig :=
  mkContainerConfig image labels [] [] [] [] None.

Definition running_inspect (entry : PsEntry) (native : option Value) (share_map : list (str * str)) (specs : list str)
    : ContainerInspect :=
  let all_specs := spawn_specs #"volume" share_map native ++ spawn_specs #"bind" share_map native in
  let ports := build_ports_map specs in
  let started := unwrap_or (v ← native; s ← get #"started_at" v; as_str s) [] in
  mkInspect (name entry) (#"/" ++ name entry) started
    (mkState (status entry) (bool_decide (status entry = #"running")) started)
    (inspect_config (image entry) (label_map native))
    (mkHostConfig all_specs ports) (omap mount_entry all_specs) ports.

(** A container only the cache knows has exited. *)
Definition exited_inspect (name : str) (c : CachedContainer) (share_map : list (str * str)) : ContainerInspect :=
  let all_specs := map (fun s => translate_volume_spec s share_map) (vol_specs c ++ bind_specs c) in
  let ports := build_ports_map (port_specs c) in
  mkInspect name (#"/" ++ name) (started_at c) (mkState #"exited" false (started_at c))
    (inspect_config (c_image c) (c_labels c)) (mkHostConfig all_specs ports) (omap mount_entry all_specs) ports.

(** One name: an entry of the result, or a message. *)
Definition inspect_one (entries : list PsEntry) (shim_cache : gmap str CachedContainer) (share_map : list (str * str))
    (n : str) : M (option ContainerInspect) :=
  match List.find (fun e => bool_decide (name e = n)) entries with
  | Some entry =>
      native <- pelagos_container_inspect_json n ;;
      ret (Some (running_inspect entry native share_map
                   match shim_cache !! n with Some c => port_specs c | None => [] end))
  | None =>
      cache <- load_shim_containers ;;
      match cache !! n with
      | Some cached => share_map <- read_vm_share_map ;; ret (Some (exited_inspect n cached share_map))
      | None => call (Eprintln (#"pelagos-docker inspect: container '" ++ n ++ #"' not found")) ;; ret None
      end
  end.

Fixpoint inspect_all (entries : list PsEntry) (shim_cache : gmap str CachedContainer) (share_map : list (str * str))
    (names : list str) : M (list (option ContainerInspect)) :=
  match names with
  | [] => ret []
  | n :: names =>
      r <- inspect_one entries shim_cache share_map n ;;
      rs <- inspect_all entries shim_cache share_map names ;;
      ret (r :: rs)
  end.

Definition cmd_inspect_container (names : list str) : M Z :=
  out <- run_pelagos [ #"ps"; #"--all"] ;;
  match out with
  | Err e => call (Eprintln (#"pelagos-docker inspect: " ++ e)) ;; ret 1
  | Ok o =>
      shim_cache <- load_shim_containers ;;
      share_map <- read_vm_share_map ;;
      results <- inspect_all (ps_entries (stdout o)) shim_cache share_map names ;;
      call (Println (inspect_text order pretty (omap (fun r => r) results))) ;;
      ret (if forallb (fun r => match r with Some _ => true | None => false end) results then 0 else 1)
  end.

(** What is reported of an image; its text depends on the name only. *)
Definition image_stub (n : str) : ImageInspect := mkImage n [n] (mkImageConfig [] [] [] [] None ∅).
Definition cmd_inspect_image (names : list str) : M Z :=
  call (Println (images_text order pretty (map image_stub names))) ;; ret 0.

Definition cmd_inspect (inspect_type : option str) (names : list str) : M Z :=
  match names with
  | [] => call (Eprintln #"pelagos-docker inspect: requires at least one name") ;; ret 1
  | _ =>
      if bool_decide (inspect_type = Some #"image") then cmd_inspect_image names
      else if bool_decide (inspect_type = Some #"container") then cmd_inspect_container names
      else
        out <- run_pelagos [ #"ps"; #"--all"] ;;
        let known := match (out : result output str) with Ok o => map name (ps_entries (stdout o)) | Err _ => [] end in
        if forallb (fun n => bool_decide (n ∈ known)) names then cmd_inspect_container names
        else cmd_inspect_image names
  end.

Definition cmd_port (name : str) : M Z :=
  cache <- load_shim_containers ;;
  match cache !! name with
  | None => call (Eprintln (#"Error: No such container: " ++ name)) ;; ret 1
  | Some c => print_lines (omap port_line (port_specs c)) ;; ret 0
  end.

(** * [docker build] *)

(** [None]: the program panics on a slice inside a character. *)
Definition pull_image_probe (image : str) : M (option Z) :=
  match probe_name is_alphanumeric image with
  | None => ret None
  | Some probe =>
      out <- run_pelagos [ #"run"; #"--detach"; #"--name"; probe; image; #"/bin/true"] ;;
      match out with
      | Err e => call (Eprintln (#"pelagos-docker build: pull probe for " ++ image ++ #": " ++ e)) ;; ret (Some 1)
      | Ok o =>
          run_pelagos [ #"stop"; probe] ;;
          run_pelagos [ #"rm"; probe] ;;
          if success o then ret (Some 0)
          else
            call (Eprintln (#"pelagos-docker build: pull " ++ image ++ #" failed: " ++ trim (lossy (stderr o)))) ;;
            ret (Some (unwrap_or (code o) 1))
      end
  end.

Fixpoint pull_each (images : list str) : M (option Z) :=
  match images with
  | [] => ret (Some 0)
  | image :: images =>
      if negb (is_registry image) then pull_each images
      else
        call (Eprintln (#"pelagos-docker build: pulling base image " ++ image)) ;;
        rc <- pull_image_probe image ;;
        match rc with
        | Some code => if code =? 0 then pull_each images else ret rc
        | None => ret None
        end
  end.

Definition pull_base_images (dockerfile_path : str) (build_args : list str) : M (option Z) :=
  raw <- read_file dockerfile_path ;;
  match raw with
  | Err e =>
      call (Eprintln (#"pelagos-docker build: cannot read Dockerfile " ++ dockerfile_path ++ #": " ++ e)) ;;
      ret (Some 1)
  | Ok raw =>
      match parse_from_images to_uppercase to_lowercase (substituted (order str) raw build_args) with
      | None => ret None
      | Some images => pull_each images
      end
  end.

(** The path of the resolved copy, if one is needed and can be written. *)
Definition preprocess_dockerfile_args (dockerfile_path : str) (build_args : list str) : M (option str) :=
  content <- read_file dockerfile_path ;;
  match content with
  | Err _ => ret None
  | Ok content =>
      match resolve_dockerfile (order str) content build_args with
      | None => ret None
      | Some resolved =>
          let tmp_path := dockerfile_path ++ #".pelagos-resolved" in
          ok <- write_file tmp_path resolved ;;
          if (ok : bool) then ret (Some tmp_path)
          else
            now <- call NowMillis ;;
            let tmp_path2 := #"/tmp/pelagos-dockerfile-" ++ dec (now mod 1000) ++ #".resolved" in
            ok <- write_file tmp_path2 resolved ;;
            ret (if (ok : bool) then Some tmp_path2 else None)
      end
  end.

Definition remove_resolved (resolved : option str) : M unit :=
  match resolved with Some p => remove_file p | None => ret tt end.

Definition cmd_build (tag file : str) (build_args : list str) (no_cache : bool) (target : option str) (context : str)
    : M (option Z) :=
  let file := if is_absolute file then file else context ++ #"/" ++ file in
  resolved <- preprocess_dockerfile_args file build_args ;;
  let dockerfile := unwrap_or resolved file in
  rc <- pull_base_images dockerfile build_args ;;
  match rc with
  | Some code =>
      if negb (code =? 0) then remove_resolved resolved ;; ret (Some code)
      else
        exit <- pass_through #"build" (build_argv tag dockerfile build_args no_cache context) ;;
        ret (Some exit)
  | None => ret None
  end.

(** * Volumes, networks and stubs *)

Definition last_word (line : str) : option str := last (split_whitespace line).

Definition cmd_volume (sub : str) (name : option str) (quiet : bool) : M Z :=
  let a := [ #"volume"; sub] ++ match name with Some n => [n] | None => [] end in
  if bool_decide (sub = #"ls") && quiet then
    out <- run_pelagos a ;;
    match out with
    | Err e => call (Eprintln (#"pelagos-docker volume ls: " ++ e)) ;; ret 1
    | Ok o =>
        print_lines (omap last_word (drop 1 (lines (lossy (stdout o))))) ;;
        ret (if success o then 0 else 1)
    end
  else pass_through #"volume" a.

Definition cmd_network (sub : str) (name : option str) (quiet : bool) : M Z :=
  pass_through #"network" (network_args sub name).

Definition cmd_context (sub : str) : M Z :=
  if bool_decide (sub = #"ls") then
    call (Println (to_string (json_object [( #"Current", JBool true); ( #"Description", JStr #"pelagos VM");
      ( #"DockerEndpoint", JStr []); ( #"Error", JStr []); ( #"Name", JStr #"default"); ( #"StackOrchestrator", JStr [])]))) ;;
    ret 0
  else if bool_decide (sub = #"show") then call (Println #"default") ;; ret 0
  else ret 0.

Definition BUILD_TIME : str := #"2025-01-01T00:00:00.000000000+00:00".

Definition cmd_version : M Z :=
  call (Println (to_string (json_object [
    ( #"Client", json_object [( #"Version", JStr #"20.10.0"); ( #"ApiVersion", JStr #"1.41"); ( #"Os", JStr #"darwin");
       ( #"Arch", JStr #"arm64"); ( #"GoVersion", JStr #"go1.21.0"); ( #"GitCommit", JStr #"pelagos"); ( #"BuildTime", JStr BUILD_TIME)]);
    ( #"Server", json_object [( #"Engine", json_object [( #"Version", JStr #"20.10.0"); ( #"ApiVersion", JStr #"1.41");
       ( #"MinAPIVersion", JStr #"1.12"); ( #"GitCommit", JStr #"pelagos"); ( #"GoVersion", JStr #"go1.21.0"); ( #"Os", JStr #"linux");
       ( #"Arch", JStr #"arm64"); ( #"BuildTime", JStr BUILD_TIME)])])]))) ;;
  ret 0.

Definition cmd_version_with_format (format : option str) : M Z :=
  match format with
  | Some fmt =>
      if contains #"Server.Version" fmt || contains #"server.version" fmt
      then call (Println #"20.10.0") ;; ret 0
      else cmd_version
  | None => cmd_version
  end.

Definition cmd_info : M Z :=
  call (Println (to_string (json_object [
    ( #"ID", JStr #"pelagos"); ( #"ServerVersion", JStr #"20.10.0"); ( #"OperatingSystem", JStr #"Alpine Linux (VM)");
    ( #"OSType", JStr #"linux"); ( #"Architecture", JStr #"aarch64"); ( #"NCPU", JNum 1); ( #"MemTotal", JNum 1073741824);
    ( #"Containers", JNum 0); ( #"ContainersRunning", JNum 0); ( #"ContainersPaused", JNum 0); ( #"ContainersStopped", JNum 0);
    ( #"Images", JNum 0); ( #"DockerRootDir", JStr #"/var/lib/docker"); ( #"HttpProxy", JStr []); ( #"HttpsProxy", JStr []);
    ( #"NoProxy", JStr []); ( #"Labels", JArr []); ( #"ExperimentalBuild", JBool false);
    ( #"RegistryConfig", json_object [( #"AllowNondistributableArtifactsCIDRs", JArr []);
       ( #"AllowNondistributableArtifactsHostnames", JArr []); ( #"InsecureRegistryCIDRs", JArr []); ( #"IndexConfigs", json_object []);
       ( #"Mirrors", JArr [])])]))) ;;
  ret 0.

(** * The command line *)

Inductive DockerCmd : Type :=
| Pull (image : str) (quiet : bool)
| Run (opts : RunOpts)
| Events (format : option str) (filters : list str)
| Exec (interactive tty : bool) (env : list str) (user workdir detach_keys : option str) (name_and_args : list str)
| Start (names : list str) (attach interactive : bool)
| Stop (name : str)
| Rm (force : bool) (name : str)
| Ps (all quiet : bool) (filters : list str) (format : option str)
| Logs (follow : bool) (name : str)
| Inspect (inspect_type : option str) (names : list str)
| Version (format : option str)
| Info (format : option str)
| Build (tag file : str) (build_args : list str) (no_cache : bool) (target : option str) (context : str)
| Buildx (args : list str)
| Volume (sub : str) (name : option str) (quiet : bool)
| Network (sub : str) (name : option str) (quiet : bool)
| Cp (src dst : str)
| Port (name : str)
| ContextCmd (sub : str) (args : list str).

(** The exit code of a panic. *)
Definition PANIC : Z := 101.

(** The dispatch of [main]; [rounds] and [reloaded] as for [cmd_events]. *)
Definition dispatch (reloaded : bool) (rounds : nat) (command : DockerCmd) : M Z :=
  match command with
  | Pull image quiet => cmd_pull image quiet
  | Run opts => cmd_run opts
  | Exec _ tty env user workdir _ name_and_args => cmd_exec tty user workdir env name_and_args
  | Start names _ _ => cmd_start names
  | Stop name => cmd_stop name
  | Rm force name => cmd_rm force name
  | Ps all quiet filters format => cmd_ps all quiet filters format
  | Logs follow name => cmd_logs follow name
  | Inspect inspect_type names => cmd_inspect inspect_type names
  | Version format => cmd_version_with_format format
  | Info _ => cmd_info
  | Events _ _ => cmd_events reloaded rounds
  | Build tag file build_args no_cache target context =>
      rc <- cmd_build tag file build_args no_cache target context ;; ret (unwrap_or rc PANIC)
  | Buildx _ => ret 1
  | Volume sub name quiet => cmd_volume sub name quiet
  | Network sub name quiet => cmd_network sub name quiet
  | Cp src dst => cmd_cp src dst
  | ContextCmd sub _ => cmd_context sub
  | Port name => cmd_port name
  end.
End Loaded.

(** [main]: the version flag, the command line (clap, given as the function [parse]) and the
    configuration. *)
Definition shim_main (loaded : result Config str) (parse : list str -> result DockerCmd Z)
    (reloaded : bool) (rounds : nat) (argv : list str) : M Z :=
  if bool_decide (argv = [ #"-v"]) then call (Println #"Docker version 20.10.0, build pelagos") ;; ret 0
  else
    match parse argv with
    | Err code => ret code
    | Ok command =>
        match loaded with
        | Err e => call (Eprintln (#"pelagos-docker: " ++ e)) ;; ret 1
        | Ok cfg => dispatch cfg reloaded rounds command
        end
    end.

(** * The cache as a map *)

(** What the shim makes of the contents of its file: no containers, when it is not there or cannot be read. *)
Definition cache_in (contents : result str str) : gmap str CachedContainer :=
  match contents with Ok s => unwrap_or (cache_of_text s) ∅ | Err _ => ∅ end.

(** There is a place for the file, and its contents, as the shim wrote them or as it finds them, are the cache [c]. *)
Definition held (env : Env ev reply) (c : gmap str CachedContainer) (files : gmap str str) : Prop :=
  exists path, shim_containers_path = Some path /\
    match files !! path with Some text => cache_in (Ok text) = c | None => forall h, cache_in (env h (ReadFile path)) = c end.
(** The shim's file can be written, and the system gives [u32]s as process ids. *)
Definition disk_ok (env : Env ev reply) : Prop :=
  (forall h path text, shim_containers_path = Some path -> env h (WriteFile path text) = true) /\
  (forall h program args pid, (env h (Spawn program args) : result Z str) = Ok pid -> pid_ok (Some pid)).

Lemma cache_in_storable contents : storable (cache_in contents).
Proof.
  destruct contents as [s|]; [|apply map_Forall_empty]. cbn. destruct (cache_of_text s) as [c|] eqn:E; [|apply map_Forall_empty].
  unfold cache_of_text, Protocol.read in E. destruct (of_string s) as [v|]; [|done]. by eapply dec_cache_storable.
Qed.

Lemma held_storable env c files : held env c files -> storable c.
Proof. intros (path & _ & H). destruct (files !! path); [subst c|rewrite <- (H [])]; apply cache_in_storable. Qed.

Section Cache.
Context (cfg : Config).
Context (order_all : forall V m, order V m ≡ₚ map_to_list m).

Lemma load_held env c s h : held env c s -> exists h', load_shim_containers env s h = (c, (s, h')).
Proof.
  intros (path & Hp & Hs). unfold load_shim_containers, read_file. rewrite Hp. cbn -[cache_of_text]. destruct (s !! path) as [text|].
  - exists h. cbn -[cache_of_text]. by rewrite <- Hs.
  - exists (ReadFile path :: h). cbn -[cache_of_text]. by rewrite <- (Hs h).
Qed.

Lemma save_held c c' env s h : held env c s -> disk_ok env -> storable c' -> held env c' (fst (snd (save_shim_containers c' env s h))).
Proof.
  intros (path & Hp & _) [Hd _] Hc. exists path. split; [done|]. unfold save_shim_containers, create_dirs, write_file. rewrite Hp.
  assert (Hw : cache_in (Ok (cache_to_text order c')) = c') by (cbn -[cache_of_text cache_to_text]; by rewrite cache_round).
  cbn -[cache_of_text cache_to_text cache_in]. destruct (parent path); cbn -[cache_of_text cache_to_text cache_in];
    rewrite Hd by done; by rewrite lookup_insert_eq.
Qed.

(** ** Port proxies *)

Inductive proxy_op : Type :=
| Started (pid : Z)
| Ended (pid : Z)
| Signalled (pid : str).

Definition see_proxy (e : ev) : reply e -> list proxy_op :=
  match e with
  | Spawn _ _ => fun r => match r with Ok pid => [Started pid] | Err _ => [] end
  | KillAndWait pid => fun _ => [Ended pid]
  | Status program args => fun _ => if bool_decide (program = #"kill") then map Signalled (drop 1 args) else []
  | _ => fun _ => []
  end.

Abbreviation mute := (silent see_proxy).

Lemma steady_read path : steady (read_file path).
Proof. unfold read_file. steady_go. Qed.
Lemma mute_read path : mute (read_file path).
Proof. unfold read_file. silent_go. Qed.
Lemma mute_write path text : mute (write_file path text).
Proof. unfold write_file. silent_go. Qed.
#[local] Hint Resolve steady_read mute_read mute_write : sys_db.

Lemma steady_load : steady load_shim_containers.
Proof. unfold load_shim_containers. steady_go. Qed.
Lemma mute_load : mute load_shim_containers.
Proof. unfold load_shim_containers. silent_go. Qed.
Lemma mute_save m : mute (save_shim_containers m).
Proof. unfold save_shim_containers, create_dirs. silent_go. Qed.
Lemma steady_exit_with what status : steady (exit_with what status).
Proof. unfold exit_with. steady_go. Qed.
Lemma mute_exit_with what status : mute (exit_with what status).
Proof. unfold exit_with. silent_go. Qed.
#[local] Hint Resolve steady_load mute_load mute_save steady_exit_with mute_exit_with : sys_db.

(** The shim's binary is not [kill]. *)
Context (not_kill : pelagos_bin cfg <> #"kill").

Lemma mute_inherited sub : mute (run_pelagos_inherited cfg sub).
Proof. unfold run_pelagos_inherited. refine (silent_call _ _ _). intros a. cbn. by rewrite bool_decide_eq_false_2. Qed.
Lemma steady_inherited sub : steady (run_pelagos_inherited cfg sub).
Proof. unfold run_pelagos_inherited. steady_go. Qed.
#[local] Hint Resolve mute_inherited steady_inherited : sys_db.

Lemma spawn_does env P ports : disk_ok env -> does see_proxy env P (spawn_proxy cfg ports)
  (fun r s os => (P s /\ pid_ok r) /\ os = match r with Some pid => [Started pid] | None => [] end).
Proof.
  intros [_ Hd]. unfold spawn_proxy. destruct ports; [by apply does_ret|].
  eapply does_bind.
  { refine (does_call see_proxy env P (Spawn _ _)
      (fun (r : result Z str) s os => (P s /\ forall pid, r = Ok pid -> pid_ok (Some pid))
         /\ os = match r with Ok pid => [Started pid] | Err _ => [] end) _).
    intros h s HP. split; [|done]. split; [done|]. intros pid. apply Hd. }
  intros [pid|e] os.
  - apply does_ret. intros s [[HP Hp] ->]. split; [|done]. split; [done|]. by apply Hp.
  - intros s h [[HP _] ->]. exists []. cbn. by rewrite !app_nil_r.
Qed.

Lemma kill_proxy_does env P child : does see_proxy env P (kill_proxy child)
  (fun _ s os => P s /\ os = match child with Some pid => [Ended pid] | None => [] end).
Proof. unfold kill_proxy. destruct child; [refine (does_call _ _ _ _ _ _); done | by apply does_ret]. Qed.

Lemma save_does env P c c' : disk_ok env -> (forall s, P s -> held env c s) -> storable c' ->
  does see_proxy env P (save_shim_containers c') (fun _ s os => held env c' s /\ os = []).
Proof.
  intros Hd HP Hc s h Hs. destruct (mute_save c' env s h) as (os & H & ->). exists [].
  split; [exact H|]. split; [|done]. eapply save_held; [by apply HP|done..].
Qed.

Lemma load_does env c : does see_proxy env (held env c) load_shim_containers (fun r s os => (r = c /\ held env c s) /\ os = []).
Proof.
  intros s h Hs. destruct (mute_load env s h) as (os & H1 & ->). exists []. split; [exact H1|].
  destruct (load_held env c s h Hs) as [h' ->]. done.
Qed.

Lemma cache_does env name entry c : disk_ok env -> pid_ok (proxy_pid entry) ->
  does see_proxy env (held env c) (cache_container name entry) (fun _ s os => held env (<[name := entry]> c) s /\ os = []).
Proof.
  intros Hd Hp. unfold cache_container. eapply does_bind; [apply load_does|]. intros m os s h [[-> Hs] ->].
  apply (save_does env (held env c) c); [done..| |done]. apply map_Forall_insert_2; [done|by eapply held_storable].
Qed.

Lemma uncache_does env name c : disk_ok env ->
  does see_proxy env (held env c) (uncache_container name) (fun _ s os => held env (delete name c) s /\ os = []).
Proof.
  intros Hd. unfold uncache_container. eapply does_bind; [apply load_does|]. intros m os s h [[-> Hs] ->].
  destruct (c !! name) eqn:E; [by apply (save_does env (held env c) c); [..|eapply map_Forall_delete, held_storable, Hs|]|].
  exists []. rewrite app_nil_r. cbn. by rewrite delete_id.
Qed.

(** The signal sent for a container. *)
Definition signals (c : gmap str CachedContainer) (name : str) : list proxy_op :=
  match (entry ← c !! name; proxy_pid entry) with Some pid => [Signalled (dec pid)] | None => [] end.

Lemma kill_does env name c :
  does see_proxy env (held env c) (kill_proxy_for_container name) (fun _ s os => held env c s /\ os = signals c name).
Proof.
  unfold kill_proxy_for_container. eapply does_bind; [apply load_does|]. intros m os s h [[-> Hs] ->].
  unfold signals. destruct (c !! name ≫= proxy_pid) as [pid|]; [|by exists []; cbn; rewrite app_nil_r].
  exists [Signalled (dec pid)]. done.
Qed.

(** What a container's entry is made of. *)
Definition entry_of (opts : RunOpts) (img : str) (entry : CachedContainer) : Prop :=
  c_image entry = img /\ c_labels entry = arg_values (label_args opts) /\ vol_specs entry = volumes opts
  /\ bind_specs entry = omap parse_mount_as_volume (r_mounts opts) /\ port_specs entry = r_ports opts.

(** What [cmd_run] leaves behind. *)
Definition after_run (env : Env ev reply) (opts : RunOpts) (img name : str) (c : gmap str CachedContainer) (exit : Z) (s : gmap str str)
    (os : list proxy_op) : Prop :=
  exists child, let started := match child with Some pid => [Started pid] | None => [] end in
    let ended := match child with Some pid => [Ended pid] | None => [] end in
  if exit =? 0 then
    exists entry, held env (<[name := entry]> c) s /\ entry_of opts img entry
      /\ (if detach opts then proxy_pid entry = child /\ os = started else proxy_pid entry = None /\ os = started ++ ended)
  else held env c s /\ os = started ++ ended.

Lemma run_named_does env opts img args name c : disk_ok env ->
  does see_proxy env (held env c) (run_named cfg opts img args name) (after_run env opts img name c).
Proof.
  intros Hd. unfold run_named. eapply does_bind; [by apply spawn_does|]. intros child os0.
  apply does_quiet_bind; [steady_go|apply mute_inherited|]. intros status.
  apply does_quiet_bind; [steady_go|silent_go|]. intros exit.
  destruct (exit =? 0) eqn:He.
  - eapply does_bind with (Q := fun pid s os => ((held env c s /\ pid_ok pid) /\ os0 = match child with Some p => [Started p] | None => [] end)
      /\ (if detach opts then pid = child /\ os = [] else pid = None /\ os = match child with Some p => [Ended p] | None => [] end)).
    { destruct (detach opts); [by apply does_ret|].
      eapply does_bind; [apply kill_proxy_does|]. intros [] os. apply does_ret. intros s [[[H _] ->] ->]. by rewrite app_nil_r. }
    intros pid os1. apply does_quiet_bind; [steady_go|silent_go|]. intros now.
    intros s h [[[Hs Hp] ->] Hpid].
    refine ((_ : does see_proxy env (held env c) _ (fun e s os => after_run env opts img name c e s (_ ++ os1 ++ os))) s h Hs).
    eapply does_bind; [by apply cache_does|]. intros [] os2. apply does_ret.
    intros s' [Hs' ->]. unfold after_run. exists child. cbn. rewrite He, !app_nil_r. eexists. split; [exact Hs'|].
    split; [done|]. destruct (detach opts), Hpid as [-> ->]; by rewrite ?app_nil_r.
  - eapply does_bind; [apply kill_proxy_does|]. intros [] os1. apply does_ret. intros s [[[Hs _] ->] ->].
    exists child. cbn. by rewrite He, app_nil_r.
Qed.

Lemma run_does env opts img args c : disk_ok env -> image_and_args opts = img :: args ->
  does see_proxy env (held env c) (cmd_run cfg opts)
    (fun exit s os => exists name, (forall n, r_name opts = Some n -> name = n) /\ after_run env opts img name c exit s os).
Proof.
  intros Hd Hi. unfold cmd_run. rewrite Hi. unfold effective_name. destruct (r_name opts) as [n|].
  - intros s h Hs. destruct (run_named_does env opts img args n c Hd s h Hs) as (os & H1 & H2). exists os.
    split; [exact H1|]. exists n. split; [by intros ? [= ->]|exact H2].
  - apply does_quiet_bind; [steady_go|silent_go|]. intros name.
    eapply does_weaken; [by apply run_named_does|]. intros exit s os H. by exists name.
Qed.

Lemma mute_pass_through what sub : mute (pass_through cfg what sub).
Proof. unfold pass_through. silent_go. Qed.
Lemma steady_pass_through what sub : steady (pass_through cfg what sub).
Proof. unfold pass_through. steady_go. Qed.
#[local] Hint Resolve mute_pass_through steady_pass_through : sys_db.

Lemma stop_does env name c :
  does see_proxy env (held env c) (cmd_stop cfg name) (fun _ s os => held env c s /\ os = signals c name).
Proof.
  unfold cmd_stop. apply does_quiet_bind; [steady_go|silent_go|]. intros exit.
  eapply does_bind; [apply kill_does|]. intros [] os. apply does_ret. intros s [H ->]. by rewrite app_nil_r.
Qed.

Lemma rm_does env force name c : disk_ok env ->
  does see_proxy env (held env c) (cmd_rm cfg force name) (fun _ s os => held env (delete name c) s /\ os = signals c name).
Proof.
  intros Hd. unfold cmd_rm. eapply does_bind; [apply kill_does|]. intros [] os0.
  apply does_quiet_bind; [steady_go|silent_go|]. intros exit s h [Hs ->].
  refine ((_ : does see_proxy env (held env c) _ (fun (e : Z) s os => held env (delete name c) s /\ signals c name ++ os = signals c name)) s h Hs).
  eapply does_bind; [by apply uncache_does|]. intros [] os. apply does_ret. intros s' [H ->]. by rewrite !app_nil_r.
Qed.

(** C37: no port proxy is left behind.  When there is a place for the shim's file that can be written, and process ids
    are [u32]s, then whatever [pelagos] and the rest of the outside do and whatever the file holds, also when it is
    not there yet: when a named container was run and is stopped or removed afterwards, each proxy process the run
    started has been killed and waited for by the run itself or is sent the signal to terminate; a run that fails or
    stays in the foreground ends its proxy itself. *)
Theorem no_proxy_left env opts n last c s h : disk_ok env -> held env c s -> r_name opts = Some n ->
  last = cmd_stop cfg n \/ (exists force, last = cmd_rm cfg force n) ->
  let '(exit, (s1, h1)) := cmd_run cfg opts env s h in
  let '(_, (_, h2)) := last env s1 h1 in
  exists os1 os2,
    seen see_proxy env h1 = seen see_proxy env h ++ os1 /\ seen see_proxy env h2 = seen see_proxy env h1 ++ os2 /\
    (forall pid, Started pid ∈ os1 -> Ended pid ∈ os1 \/ Signalled (dec pid) ∈ os2) /\
    (exit <> 0 \/ detach opts = false -> forall pid, Started pid ∈ os1 -> Ended pid ∈ os1).
Proof.
  clear to_uppercase to_lowercase lossy is_alphanumeric pretty.
  intros Hd Hs Hn Hlast.
  assert (Hstop : forall c, does see_proxy env (held env c) last (fun _ s os => os = signals c n)).
  { intros c'. destruct Hlast as [->|[force ->]]; (eapply does_weaken; [by first [apply stop_does | apply rm_does]|]); by intros ? ? ? [_ ?]. }
  destruct (image_and_args opts) as [|img args] eqn:Hi.
  { unfold cmd_run. rewrite Hi. cbn. destruct (Hstop c s (Eprintln #"pelagos-docker run: missing image" :: h) Hs) as (os & H & _).
    destruct (last env s _) as [? [? ?]]. exists [], os. cbn in H |- *. rewrite !app_nil_r in H |- *. split; [done|]. split; [exact H|].
    split; [intros ? []%not_elem_of_nil | intros _ ? []%not_elem_of_nil]. }
  destruct (run_does env opts img args c Hd Hi s h Hs) as (os1 & H1 & name & Hname & child & Hafter).
  rewrite (Hname n Hn) in Hafter. destruct (cmd_run cfg opts env s h) as [exit [s1 h1]]. cbn [fst snd] in H1, Hafter.
  assert (Hheld : exists c', held env c' s1 /\ forall pid, child = Some pid -> exit = 0 -> detach opts = true -> signals c' n = [Signalled (dec pid)]).
  { case_hyp Hafter; [destruct Hafter as (entry & Hh & _ & Hpid); exists (<[n := entry]> c)|exists c].
    - split; [exact Hh|]. intros pid -> _ Hdet. rewrite Hdet in Hpid. destruct Hpid as [Hpid _].
      unfold signals. by rewrite lookup_insert_eq; cbn; rewrite Hpid.
    - split; [apply Hafter|]. intros pid _ ->. done. }
  assert (Hos1 : os1 = match child with Some pid => [Started pid] | None => [] end \/
                 os1 = match child with Some pid => [Started pid; Ended pid] | None => [] end).
  { case_hyp Hafter; [destruct Hafter as (entry & _ & _ & Hpid); destruct (detach opts)|];
      destruct child; cbn in *; tauto. }
  assert (Hended : exit <> 0 \/ detach opts = false -> forall pid, Started pid ∈ os1 -> Ended pid ∈ os1).
  { intros Hor. assert (Hos : os1 = match child with Some pid => [Started pid; Ended pid] | None => [] end).
    { case_hyp Hafter; [destruct Hafter as (entry & _ & _ & Hpid); destruct (detach opts)|]; destruct child; cbn in *; bool_arith; tauto. }
    rewrite Hos. destruct child as [p|]; [|by intros ? ?%not_elem_of_nil]. intros pid. set_solver. }
  destruct Hheld as (c' & Hh & Hsig). destruct (Hstop c' s1 h1 Hh) as (os2 & H2 & ->).
  destruct (last env s1 h1) as [? [? h2]]. cbn [fst snd] in H2. exists os1, (signals c' n).
  split; [exact H1|]. split; [exact H2|]. split; [|exact Hended]. intros pid Hpid.
  destruct (decide (exit = 0)) as [He|He]; [|left; apply Hended; [by left|done]].
  destruct (detach opts) eqn:Hdet; [|left; apply Hended; [by right|done]].
  right. assert (child = Some pid) as Hc by (destruct child, Hos1; set_solver).
  rewrite (Hsig pid Hc He eq_refl). set_solver.
Qed.

(** ** Every command and the cache *)

Lemma steady_pelagos sub : steady (run_pelagos cfg sub).
Proof. unfold run_pelagos. steady_go. Qed.
Lemma steady_pelagos_timeout sub ms : steady (run_pelagos_timeout cfg sub ms).
Proof. unfold run_pelagos_timeout. steady_go. Qed.
Lemma steady_for_each {A} (l : list A) (body : A -> M unit) : (forall a, steady (body a)) -> steady (for_each l body).
Proof. intros H. induction l; cbn [for_each]; [apply steady_ret | by apply steady_bind]. Qed.
Lemma steady_print_lines ls : steady (print_lines ls).
Proof. apply steady_for_each. intros l. steady_go. Qed.
#[local] Hint Resolve steady_pelagos steady_pelagos_timeout steady_print_lines : sys_db.

Lemma steady_labels name : steady (pelagos_container_labels cfg name).
Proof. unfold pelagos_container_labels, pelagos_container_inspect_json. steady_go. Qed.
Lemma steady_inspect_json name : steady (pelagos_container_inspect_json cfg name).
Proof. unfold pelagos_container_inspect_json. steady_go. Qed.
Lemma steady_filter {A} (test : A -> M bool) l : (forall a, steady (test a)) -> steady (filter_m test l).
Proof. intros H. induction l; cbn [filter_m]; [apply steady_ret|]. apply steady_bind; [done|]. intros ?. by apply steady_bind; [|intros; apply steady_ret]. Qed.
Lemma steady_kill name : steady (kill_proxy_for_container name).
Proof. unfold kill_proxy_for_container. steady_go. Qed.
Lemma steady_share_map : steady read_vm_share_map.
Proof. unfold read_vm_share_map. steady_go. Qed.
#[local] Hint Resolve steady_labels steady_inspect_json steady_kill steady_share_map : sys_db.

Lemma steady_announce_all entries : forall known, steady (announce cfg known entries).
Proof. induction entries as [|e entries IH]; intros known; cbn [announce]; [apply steady_ret|]. steady_go; apply IH. Qed.
Lemma steady_events rounds : forall known, steady (events_loop cfg rounds known).
Proof.
  induction rounds as [|n IH]; intros known; cbn [events_loop]; [apply steady_ret|]. apply steady_bind; [|apply IH].
  unfold events_round. steady_go. apply steady_announce_all.
Qed.
Lemma steady_select filters entries : steady (select_entries cfg filters entries).
Proof. unfold select_entries. steady_go. apply steady_filter. intros. steady_go. Qed.
Lemma steady_inspect_all entries cache sm names : steady (inspect_all cfg entries cache sm names).
Proof. induction names; cbn [inspect_all]; [apply steady_ret|]. unfold inspect_one. steady_go; done. Qed.
Lemma steady_start_all names : forall exit, steady (start_all cfg names exit).
Proof. induction names as [|n names IH]; intros exit; cbn [start_all]; [apply steady_ret|]. steady_go; apply IH. Qed.
Lemma steady_pull image quiet : steady (cmd_pull cfg image quiet).
Proof. unfold cmd_pull. steady_go. apply steady_for_each. intros. steady_go. Qed.
Lemma steady_inspect_container names : steady (cmd_inspect_container cfg names).
Proof. unfold cmd_inspect_container. steady_go. apply steady_inspect_all. Qed.
#[local] Hint Resolve steady_announce_all steady_events steady_select steady_inspect_all steady_start_all steady_pull
  steady_inspect_container : sys_db.

Lemma steady_probe image : steady (pull_image_probe cfg image).
Proof. unfold pull_image_probe. steady_go. Qed.
#[local] Hint Resolve steady_probe : sys_db.
Lemma steady_pull_each images : steady (pull_each cfg images).
Proof. induction images; cbn [pull_each]; [apply steady_ret|]. steady_go; done. Qed.
#[local] Hint Resolve steady_pull_each : sys_db.
Lemma steady_pull_base path args : steady (pull_base_images cfg path args).
Proof. unfold pull_base_images. steady_go. Qed.
#[local] Hint Resolve steady_pull_base : sys_db.

(** The resolved Dockerfile is another file than the cache: the names end differently. *)
Lemma cache_path_last path : shim_containers_path = Some path -> last path = Some "n"%char.
Proof.
  unfold shim_containers_path. destruct (match var _ with Some _ => _ | None => _ end) as [base|]; [|done].
  intros [= <-]. unfold path_join. cbn [head]. rewrite bool_decide_eq_false_2 by done.
  case_goal; by rewrite !last_app.
Qed.

Lemma other_path path p : shim_containers_path = Some path -> last p = Some "d"%char -> path <> p.
Proof. intros Hp%cache_path_last Hl ->. congruence. Qed.

Definition keeps_cache {A} (m : M A) : Prop := forall env c s h, held env c s -> held env c (fst (snd (m env s h))).

Lemma steady_keeps_cache {A} (m : M A) : steady m -> keeps_cache m.
Proof. intros Hm env c s h Hs. by rewrite Hm. Qed.
Lemma bind_keeps_cache {A B} (m : M A) (k : A -> M B) : keeps_cache m -> (forall a, keeps_cache (k a)) -> keeps_cache (bind m k).
Proof.
  intros Hm Hk env c s h Hs. specialize (Hm env c s h Hs). unfold bind. destruct (m env s h) as [a [s1 h1]].
  by apply Hk.
Qed.

Lemma write_keeps_cache p text : last p = Some "d"%char -> keeps_cache (write_file p text).
Proof.
  intros Hl env c s h (path & Hp & Hs). exists path. split; [done|]. pose proof (other_path path p Hp Hl).
  unfold write_file. cbn. destruct (env h (WriteFile p text)); [by rewrite lookup_insert_ne | by rewrite lookup_delete_ne].
Qed.
Lemma remove_keeps_cache p : last p = Some "d"%char -> keeps_cache (remove_file p).
Proof.
  intros Hl env c s h (path & Hp & Hs). exists path. split; [done|]. pose proof (other_path path p Hp Hl).
  unfold remove_file. cbn. by rewrite lookup_delete_ne.
Qed.

(** The resolved copy has one of two names. *)
Lemma last_app_d (p : str) : last (p ++ #".pelagos-resolved") = Some "d"%char.
Proof. by rewrite last_app. Qed.
Lemma last_tmp_d (p : str) : last (#"/tmp/pelagos-dockerfile-" ++ p ++ #".resolved") = Some "d"%char.
Proof. by rewrite !last_app. Qed.

Lemma preprocess_cache path args env c s h : held env c s ->
  let '(r, (s', _)) := preprocess_dockerfile_args path args env s h in
  held env c s' /\ forall p, r = Some p -> last p = Some "d"%char.
Proof.
  intros Hs. unfold preprocess_dockerfile_args.
  unfold bind at 1. pose proof (steady_read path env s h) as Hr.
  destruct (read_file path env s h) as [content [s0 h1]]. cbn in Hr. subst s0.
  destruct content as [content|e]; [|by cbn]. destruct (resolve_dockerfile (order str) content args) as [resolved|]; [|by cbn].
  unfold bind at 1. pose proof (write_keeps_cache (path ++ #".pelagos-resolved") resolved (last_app_d path) env c s h1 Hs) as H1.
  destruct (write_file _ resolved env s h1) as [[|] [s1 h2]]; cbn [fst snd] in H1.
  - cbn. split; [exact H1|]. intros p [= <-]. apply last_app_d.
  - unfold bind at 1. cbn [call]. unfold bind at 1.
    pose proof (write_keeps_cache _ resolved (last_tmp_d (dec (env h2 NowMillis mod 1000))) env c s1 (NowMillis :: h2) H1) as H2.
    destruct (write_file _ resolved env s1 (NowMillis :: h2)) as [[|] [s2 h3]]; cbn [fst snd ret] in *; (split; [exact H2|]);
      [intros p [= <-]; apply last_tmp_d | done].
Qed.

Lemma build_keeps_cache tag file args no_cache target ctx : keeps_cache (cmd_build cfg tag file args no_cache target ctx).
Proof.
  intros env c s h Hs. unfold cmd_build. cbv zeta. unfold bind at 1.
  pose proof (preprocess_cache (if is_absolute file then file else ctx ++ #"/" ++ file) args env c s h Hs) as Hpre.
  destruct (preprocess_dockerfile_args _ args env s h) as [resolved [s1 h1]]. destruct Hpre as [H1 Hlast].
  apply bind_keeps_cache; [apply steady_keeps_cache; steady_go| |exact H1]. intros [rc|]; [|by apply steady_keeps_cache, steady_ret].
  assert (Hrm : keeps_cache (remove_resolved resolved)).
  { destruct resolved as [p|]; [by apply remove_keeps_cache, Hlast | by apply steady_keeps_cache, steady_ret]. }
  case_goal; [apply bind_keeps_cache; [exact Hrm | intros; by apply steady_keeps_cache, steady_ret]|].
  apply steady_keeps_cache. steady_go.
Qed.

(** The specification: the cache is a map that [docker run] adds to when it succeeds and [docker rm]
    removes from. *)
Definition cache_after (command : DockerCmd) (exit : Z) (c c' : gmap str CachedContainer) : Prop :=
  match command with
  | Run opts =>
      match image_and_args opts with
      | [] => c' = c
      | img :: _ =>
          if exit =? 0 then
            exists name entry, (forall n, r_name opts = Some n -> name = n) /\ entry_of opts img entry /\ c' = <[name := entry]> c
          else c' = c
      end
  | Rm _ name => c' = delete name c
  | _ => c' = c
  end.

(** C38: the file refines the map: as long as there is a place for it that can be written and process ids are [u32]s,
    every command of the shim, whatever [pelagos] and the rest of the outside do, takes the map in the file, the empty
    one when there is no file yet, to exactly the map the specification gives, as the shim will read it. *)
Theorem cache_refined env reloaded rounds command c s h : disk_ok env -> held env c s ->
  let '(exit, (s', _)) := dispatch cfg reloaded rounds command env s h in
  exists c', held env c' s' /\ cache_after command exit c c'.
Proof.
  intros Hd Hs.
  assert (Hkeep : forall m : M Z, keeps_cache m -> let '(exit, (s', _)) := m env s h in exists c', held env c' s' /\ c' = c).
  { intros m Hm. specialize (Hm env c s h Hs). destruct (m env s h) as [a [s' h']]. by exists c. }
  assert (Hsteady : forall m : M Z, steady m -> let '(exit, (s', _)) := m env s h in exists c', held env c' s' /\ c' = c).
  { intros m Hm. by apply Hkeep, steady_keeps_cache. }
  destruct command; cbn [dispatch cache_after]; try (apply Hsteady; unfold cmd_exec, cmd_start, cmd_stop, cmd_ps, cmd_logs,
    cmd_inspect, cmd_inspect_image, cmd_version_with_format, cmd_version, cmd_info, cmd_events, cmd_volume, cmd_network, cmd_cp,
    cmd_context, cmd_port; solve [steady_go]).
  - destruct (image_and_args opts) as [|img args] eqn:Hi.
    { apply Hsteady. unfold cmd_run. rewrite Hi. steady_go. }
    destruct (run_does env opts img args c Hd Hi s h Hs) as (os & _ & name & Hname & child & Hafter).
    destruct (cmd_run cfg opts env s h) as [exit [s' h']]. cbn [fst snd] in *. destruct (exit =? 0).
    + destruct Hafter as (entry & Hh & He & _). exists (<[name := entry]> c). split; [exact Hh|]. by exists name, entry.
    + exists c. by destruct Hafter.
  - destruct (rm_does env force name c Hd s h Hs) as (os & _ & Hh & _).
    destruct (cmd_rm cfg force name env s h) as [exit [s' h']]. by exists (delete name c).
  - apply Hkeep. apply bind_keeps_cache; [apply build_keeps_cache|]. intros. apply steady_keeps_cache, steady_ret.
Qed.

End Cache.

(** * Events *)

Section Announcements.
Context (cfg : Config).

Inductive event_op : Type :=
| Polled (entries : list PsEntry)
| Shown (text : str).

Definition see_event (e : ev) : reply e -> list event_op :=
  match e with
  | Output _ _ => fun r => match r with Ok o => [Polled (ps_entries (stdout o))] | Err _ => [] end
  | Println text => fun _ => [Shown text]
  | _ => fun _ => []
  end.

Definition shown (os : list event_op) : list str := omap (fun o => match o with Shown t => Some t | _ => None end) os.

(** What is shown before the next poll. *)
Fixpoint shown_first (os : list event_op) : list str :=
  match os with Shown t :: os => t :: shown_first os | _ => [] end.

(** An event: the entry, the attributes and the time it was made from. *)
Definition event : Type := (PsEntry * gmap str str * Z)%type.
Definition event_name (v : event) : str := name (fst (fst v)).
Definition event_text (v : event) : str := let '(e, attrs, now) := v in to_string (start_event e attrs now).

(** The entries with a new name. *)
Fixpoint fresh (known : gset str) (entries : list PsEntry) : list PsEntry :=
  match entries with
  | [] => []
  | e :: entries => if bool_decide (name e ∈ known) then fresh known entries else e :: fresh ({[ name e ]} ∪ known) entries
  end.

(** Rounds of the loop: after each poll the entries with a new name are announced. *)
Inductive announced : gset str -> list event_op -> list event -> Prop :=
| no_round known : announced known [] []
| one_round known known' entries evs os rest :
    map (fun v => fst (fst v)) evs = fresh known entries ->
    (forall n, n ∈ known' <-> n ∈ known \/ n ∈ map name entries) ->
    announced known' os rest ->
    announced known (Polled entries :: map (fun v => Shown (event_text v)) evs ++ os) (evs ++ rest).

Lemma silent_event_labels name : silent see_event (pelagos_container_labels cfg name).
Proof. unfold pelagos_container_labels, pelagos_container_inspect_json, run_pelagos_timeout. silent_go. Qed.
#[local] Hint Resolve silent_event_labels : sys_db.

Lemma announce_adds entries : forall known, adds see_event (announce cfg known entries) (fun known' os =>
  exists evs, os = map (fun v => Shown (event_text v)) evs /\ map (fun v => fst (fst v)) evs = fresh known entries
    /\ forall n, n ∈ known' <-> n ∈ known \/ n ∈ map name entries).
Proof.
  induction entries as [|e entries IH]; intros known; cbn [announce fresh map].
  - apply adds_ret. exists []. split; [done|]. split; [done|]. set_solver.
  - case_bool_decide as Hin.
    + eapply adds_weaken; [apply IH|]. intros k os (evs & -> & H1 & H2). exists evs. split; [done|]. split; [done|].
      intros n. rewrite H2, elem_of_cons. set_solver.
    + apply adds_silent; [silent_go|]. intros now. apply adds_silent; [silent_go|]. intros attrs.
      eapply adds_bind; [refine (adds_call see_event (Println _) (fun _ os => os = [Shown (event_text (e, attrs, now / 1000))]) _); done|].
      intros []. eapply adds_weaken; [apply IH|]. intros k os (evs & -> & H1 & H2) os0 ->.
      exists ((e, attrs, now / 1000) :: evs). split; [done|]. split; [cbn; by rewrite H1|].
      intros n. rewrite H2, elem_of_cons. set_solver.
Qed.

Lemma events_adds rounds : forall known, adds see_event (events_loop cfg rounds known) (fun _ os => exists evs, announced known os evs).
Proof.
  induction rounds as [|rounds IH]; intros known; cbn [events_loop].
  - apply adds_ret. exists []. constructor.
  - eapply adds_bind with (P := fun k os => (k = known /\ os = []) \/ exists entries evs, os = Polled entries :: map (fun v => Shown (event_text v)) evs
      /\ map (fun v => fst (fst v)) evs = fresh known entries /\ forall n, n ∈ k <-> n ∈ known \/ n ∈ map name entries).
    + unfold events_round. apply adds_silent; [silent_go|]. intros _.
      eapply adds_bind; [refine (adds_call see_event (Output _ _) (fun (r : result output str) os => os = match r with Ok o => [Polled (ps_entries (stdout o))] | Err _ => [] end) _); done|].
      intros [o|e].
      * eapply adds_weaken; [apply announce_adds|]. intros k os (evs & -> & H1 & H2) os0 ->. right. by exists (ps_entries (stdout o)), evs.
      * apply adds_ret. intros os ->. by left.
    + intros k. eapply adds_weaken; [apply IH|]. intros _ os (rest & Hrest) os0 [[-> ->]|(entries & evs & -> & H1 & H2)].
      * by exists rest.
      * exists (evs ++ rest). cbn. by econstructor.
Qed.

Lemma fresh_names known entries : NoDup (map name (fresh known entries)) /\
  forall n, n ∈ map name (fresh known entries) <-> (n ∉ known) /\ n ∈ map name entries.
Proof.
  revert known. induction entries as [|e entries IH]; intros known; cbn [fresh map].
  - split; [constructor|]. set_solver.
  - case_bool_decide as Hin.
    + destruct (IH known) as [H1 H2]. split; [done|]. intros n. rewrite H2, elem_of_cons. set_solver.
    + destruct (IH ({[ name e ]} ∪ known)) as [H1 H2]. cbn [map]. split.
      * constructor; [rewrite H2; set_solver|done].
      * intros n. rewrite !elem_of_cons, H2. destruct (decide (n = name e)); set_solver.
Qed.

Lemma announced_shown known os evs : announced known os evs -> shown os = map event_text evs.
Proof.
  induction 1 as [|known known' entries evs os rest H1 H2 _ IH]; [done|]. unfold shown in *. cbn [omap list_omap].
  rewrite omap_app, map_app, IH. f_equal. clear. induction evs as [|v evs IH]; [done|]. cbn. by rewrite IH.
Qed.

Lemma announced_names known os evs : announced known os evs -> NoDup (map event_name evs) /\
  forall n, n ∈ map event_name evs <-> (n ∉ known) /\ exists entries, Polled entries ∈ os /\ n ∈ map name entries.
Proof.
  assert (Hname : forall evs, map event_name evs = map name (map (fun v => fst (fst v)) evs)) by (intros; by rewrite map_map).
  induction 1 as [|known known' entries evs os rest H1 H2 _ [IH1 IH2]].
  - split; [constructor|]. intros n. split; [by intros ?%not_elem_of_nil|]. intros (_ & ? & []%not_elem_of_nil & _).
  - destruct (fresh_names known entries) as [F1 F2]. rewrite map_app, Hname, H1. split.
    + apply NoDup_app. split; [done|]. split; [|done]. intros n (_ & Hn)%F2 (Hk & _)%IH2. apply Hk, H2. by right.
    + intros n. rewrite elem_of_app, F2, IH2, H2. split.
      * intros [[Hk Hn]|(Hk & entries' & Hp & Hn)].
        -- split; [done|]. exists entries. split; [by left|done].
        -- split; [tauto|]. exists entries'. split; [|done]. right. apply elem_of_app. by right.
      * intros (Hk & entries' & Hp & Hn). apply elem_of_cons in Hp as [[= ->]|Hp]; [by left|].
        apply elem_of_app in Hp as [(v & Hv & _)%list_elem_of_fmap|Hp]; [done|].
        destruct (decide (n ∈ map name entries)); [by left|right]. split; [tauto|]. by exists entries'.
Qed.

Lemma shown_first_map evs os : forall v, v ∈ evs -> event_text v ∈ shown_first (map (fun v => Shown (event_text v)) evs ++ os).
Proof. intros v. induction evs as [|w evs IH]; [by intros ?%not_elem_of_nil|]. cbn. rewrite !elem_of_cons. intros [->|H]; auto. Qed.

Lemma after_shown evs os os1 es os2 : map (fun v => Shown (event_text v)) evs ++ os = os1 ++ Polled es :: os2 ->
  exists os1', os1 = map (fun v => Shown (event_text v)) evs ++ os1' /\ os = os1' ++ Polled es :: os2.
Proof.
  revert os1. induction evs as [|v evs IH]; intros os1; cbn [map app]; [by exists os1|].
  destruct os1 as [|o os1]; cbn [app]; [done|]. intros [= <- H]. destruct (IH os1 H) as (os1' & -> & ->). by exists os1'.
Qed.

Lemma announced_timely known os evs : announced known os evs -> forall os1 entries os2, os = os1 ++ Polled entries :: os2 ->
  forall n, n ∈ map name entries -> n ∈ known \/
    exists v, v ∈ evs /\ event_name v = n /\ (Shown (event_text v) ∈ os1 \/ event_text v ∈ shown_first os2).
Proof.
  induction 1 as [|known known' es evs os rest H1 H2 _ IH]; intros os1 entries os2 Hos n Hn; [by destruct os1|].
  assert (Hnew : n ∈ map name es -> n ∈ known \/ exists v, v ∈ evs /\ event_name v = n).
  { intros Hin. destruct (decide (n ∈ known)); [by left|right]. destruct (fresh_names known es) as [_ F].
    assert (n ∈ map name (fresh known es)) as Hf by (apply F; done). rewrite <- H1 in Hf.
    apply list_elem_of_fmap in Hf as (e & -> & He). apply list_elem_of_fmap in He as (v & -> & Hv). by exists v. }
  destruct os1 as [|o os1]; cbn [app] in Hos.
  - injection Hos as <- <-. destruct (Hnew Hn) as [|(v & Hv & Hvn)]; [by left|right]. exists v.
    rewrite elem_of_app. split; [by left|]. split; [done|]. right. by apply shown_first_map.
  - injection Hos as <- Hos. apply after_shown in Hos as (os1' & -> & Hos). destruct (IH os1' entries os2 Hos n Hn) as [Hk|(v & Hv & Hvn & Hs)].
    + apply H2 in Hk as [Hk|Hk]; [by left|]. destruct (Hnew Hk) as [|(v & Hv & Hvn)]; [by left|right]. exists v.
      rewrite elem_of_app. split; [by left|]. split; [done|]. left. right. apply elem_of_app. left.
      apply list_elem_of_fmap. by exists v.
    + right. exists v. rewrite elem_of_app. split; [by right|]. split; [done|].
      destruct Hs as [Hs|Hs]; [left; right; apply elem_of_app; by right | by right].
Qed.

(** C39: every container a poll lists is announced, once.  In any number of rounds and whatever the outside
    answers, the lines printed are start events with different names, of exactly the containers that
    the polls listed, and when a poll lists a container its event has been printed before or is printed
    before the next poll. *)
Theorem events_exactly_once rounds env s h :
  let '(_, (_, h')) := events_loop cfg rounds ∅ env s h in
  exists os evs, seen see_event env h' = seen see_event env h ++ os
    /\ shown os = map event_text evs /\ NoDup (map event_name evs)
    /\ (forall n, n ∈ map event_name evs <-> exists entries, Polled entries ∈ os /\ n ∈ map name entries)
    /\ (forall os1 entries os2 n, os = os1 ++ Polled entries :: os2 -> n ∈ map name entries ->
         exists v, v ∈ evs /\ event_name v = n /\ (Shown (event_text v) ∈ os1 \/ event_text v ∈ shown_first os2)).
Proof.
  destruct (events_adds rounds ∅ env s h) as (os & H & evs & Ha).
  destruct (events_loop cfg rounds ∅ env s h) as [k [s' h']]. exists os, evs. cbn in H. split; [exact H|].
  split; [by eapply announced_shown|]. destruct (announced_names _ _ _ Ha) as [Hd Hn]. split; [done|]. split.
  - intros n. rewrite Hn. split; [by intros (_ & ?)|]. intros ?. split; [set_solver|done].
  - intros os1 entries os2 n Hos Hin. by destruct (announced_timely _ _ _ Ha os1 entries os2 Hos n Hin) as [?%not_elem_of_empty|].
Qed.
End Announcements.

(** * Builds *)

Section Builds.
Context (cfg : Config).

(** What [docker build] does to the outside: commands whose output is kept, with their success, the build
    itself, and removed files. *)
Inductive build_op : Type :=
| Ran (args : list str) (ok : bool)
| Built (args : list str)
| Removed (path : str).

Definition see_build (e : ev) : reply e -> list build_op :=
  match e with
  | Output _ args => fun r => [Ran args match r with Ok o => success o | Err _ => false end]
  | Status _ args => fun _ => [Built args]
  | RemoveFile path => fun _ => [Removed path]
  | _ => fun _ => []
  end.

Definition probe_run (probe image : str) : list str :=
  pelagos_args cfg [ #"run"; #"--detach"; #"--name"; probe; image; #"/bin/true"].
Definition probe_ends (probe : str) (stopped removed : bool) : list build_op :=
  [Ran (pelagos_args cfg [ #"stop"; probe]) stopped; Ran (pelagos_args cfg [ #"rm"; probe]) removed].

(** The images are pulled one after the other, those that are not of a registry skipped, up to the first
    failure. *)
Inductive pulled : list str -> option Z -> list build_op -> Prop :=
| pulled_all : pulled [] (Some 0) []
| pulled_skip image images rc os : is_registry image = false -> pulled images rc os -> pulled (image :: images) rc os
| pulled_next image images rc os probe a b : is_registry image = true -> probe_name is_alphanumeric image = Some probe ->
    pulled images rc os -> pulled (image :: images) rc ([Ran (probe_run probe image) true] ++ probe_ends probe a b ++ os)
| pulled_failed image images rc probe ends : is_registry image = true -> probe_name is_alphanumeric image = Some probe ->
    rc <> 0 -> (ends = [] \/ exists a b, ends = probe_ends probe a b) ->
    pulled (image :: images) (Some rc) ([Ran (probe_run probe image) false] ++ ends)
| pulled_panic image images : is_registry image = true -> probe_name is_alphanumeric image = None ->
    pulled (image :: images) None [].

Lemma ran_adds sub : adds see_build (run_pelagos cfg sub)
  (fun r os => os = [Ran (pelagos_args cfg sub) match r with Ok o => success o | Err _ => false end]).
Proof. unfold run_pelagos. by refine (adds_call see_build (Output _ _) (fun (r : result output str) os => os = [Ran _ match r with Ok o => success o | Err _ => false end]) _). Qed.

Lemma failed_code o : success o = false -> unwrap_or (code o) 1 <> 0.
Proof. unfold success. case_bool_decide as H; [done|]. intros _. destruct (code o) as [c|]; cbn; [congruence|lia]. Qed.

Lemma probe_adds image : adds see_build (pull_image_probe cfg image) (fun rc os =>
  match probe_name is_alphanumeric image with
  | None => rc = None /\ os = []
  | Some probe =>
      (rc = Some 0 /\ exists a b, os = [Ran (probe_run probe image) true] ++ probe_ends probe a b) \/
      (exists code ends, rc = Some code /\ code <> 0 /\ (ends = [] \/ exists a b, ends = probe_ends probe a b)
         /\ os = [Ran (probe_run probe image) false] ++ ends)
  end).
Proof.
  unfold pull_image_probe. destruct (probe_name is_alphanumeric image) as [probe|]; [|by apply adds_ret].
  eapply adds_bind; [apply ran_adds|]. intros [o|e].
  - eapply adds_bind; [apply ran_adds|]. intros r1. eapply adds_bind; [apply ran_adds|]. intros r2. destruct (success o) eqn:Hs.
    + apply adds_ret. intros os2 -> os1 -> os0 ->. left. split; [done|]. by eexists _, _.
    + apply adds_silent; [silent_go|]. intros _. apply adds_ret. intros os2 -> os1 -> os0 ->. right.
      eexists _, _. split; [done|]. split; [by apply failed_code|]. split; [right; by eexists _, _|done].
  - apply adds_silent; [silent_go|]. intros _. apply adds_ret. intros os ->. right.
    exists 1, []. split; [done|]. split; [done|]. split; [by left|done].
Qed.

Lemma pull_each_adds images : adds see_build (pull_each cfg images) (pulled images).
Proof.
  induction images as [|image images IH]; cbn [pull_each]; [apply adds_ret; constructor|].
  destruct (is_registry image) eqn:Hr; cbn [negb]; [|eapply adds_weaken; [exact IH|]; intros rc os H; by constructor].
  apply adds_silent; [silent_go|]. intros _. eapply adds_bind; [apply probe_adds|]. intros rc.
  assert (Hret : adds (S := gmap str str) see_build (ret rc) (fun rc' os => rc' = rc /\ os = [])) by by apply adds_ret.
  destruct (probe_name is_alphanumeric image) as [probe|] eqn:Hp.
  - destruct (decide (rc = Some 0)) as [->|Hne].
    + eapply adds_weaken; [exact IH|]. intros rc' os H os0 [[_ (a & b & ->)]|(code & ends & [= <-] & Hc & _)]; [|done].
      rewrite <- app_assoc. by constructor.
    + destruct rc as [rc|]; [|by eapply adds_weaken; [apply adds_ret with (P := fun _ _ => True)|]; [|intros ? ? _ ? [[? _]|(? & ? & ? & _)]]].
      replace (rc =? 0) with false by (symmetry; apply Z.eqb_neq; congruence).
      eapply adds_weaken; [exact Hret|]. intros rc' os [-> ->] os0 [[[= ->] _]|(code & ends & [= ->] & Hc & He & ->)]; [done|].
      rewrite app_nil_r. by econstructor.
  - destruct rc as [rc|].
    + eapply adds_weaken with (P := fun _ _ => True); [|by intros ? ? _ ? [? _]]. case_goal; [eapply adds_weaken; [exact IH|done]|]; by apply adds_ret.
    + eapply adds_weaken; [exact Hret|]. intros rc' os [-> ->] os0 [_ ->]. by apply pulled_panic.
Qed.

Lemma silent_build_read path : silent see_build (read_file path).
Proof. unfold read_file. silent_go. Qed.
Lemma silent_build_write path text : silent see_build (write_file path text).
Proof. unfold write_file. silent_go. Qed.
#[local] Hint Resolve silent_build_read silent_build_write : sys_db.

Lemma silent_build_preprocess path args : silent see_build (preprocess_dockerfile_args path args).
Proof. unfold preprocess_dockerfile_args. silent_go. Qed.
#[local] Hint Resolve silent_build_preprocess : sys_db.

(** The bases of a text with the build arguments. *)
Definition bases_of (build_args : list str) (raw : str) : option (list str) :=
  parse_from_images to_uppercase to_lowercase (substituted (order str) raw build_args).

(** A file the shim has written is read as it was written. *)
Lemma pull_base_adds path build_args env s h :
  let '(rc, (_, h')) := pull_base_images cfg path build_args env s h in
  exists os, seen see_build env h' = seen see_build env h ++ os /\
    ((exists raw images, (forall text, s !! path = Some text -> raw = text) /\ bases_of build_args raw = Some images /\ pulled images rc os)
     \/ (rc <> Some 0 /\ os = [])).
Proof.
  unfold pull_base_images. unfold bind at 1. pose proof (steady_read path env s h) as Hs. pose proof (silent_build_read path env s h) as (os & Hr & ->).
  assert (Htext : forall text, s !! path = Some text -> fst (read_file path env s h) = Ok text).
  { intros text H. unfold read_file. cbn. by rewrite H. }
  destruct (read_file path env s h) as [[raw|e] [s1 h1]]; cbn in Hs, Hr, Htext; subst s1; rewrite app_nil_r in Hr.
  - destruct (parse_from_images to_uppercase to_lowercase (substituted (order str) raw build_args)) as [images|] eqn:E.
    + destruct (pull_each_adds images env s h1) as (os & H1 & H2). destruct (pull_each cfg images env s h1) as [rc [s2 h2]].
      exists os. cbn in H1, H2. rewrite H1, Hr. split; [done|]. left. exists raw, images. split; [|done].
      intros text H%Htext. congruence.
    + cbn. exists []. rewrite !app_nil_r. split; [exact Hr|]. by right.
  - cbn. exists []. rewrite !app_nil_r. split; [exact Hr|]. by right.
Qed.

Lemma write_leaves path text env s h :
  let '(ok, (s', _)) := write_file path text env s h in ok = true -> s' !! path = Some text.
Proof. unfold write_file. cbn -[insert delete]. destruct (env h _); [|done]. intros _. apply lookup_insert_eq. Qed.

(** The resolved copy holds the resolved text. *)
Lemma preprocess_leaves path args env s h :
  let '(resolved, (s', _)) := preprocess_dockerfile_args path args env s h in
  forall p, resolved = Some p -> exists content text, resolve_dockerfile (order str) content args = Some text /\ s' !! p = Some text.
Proof.
  unfold preprocess_dockerfile_args. unfold bind at 1. destruct (read_file path env s h) as [[content|e] [s1 h1]]; [|done].
  destruct (resolve_dockerfile (order str) content args) as [text|] eqn:E; [|done].
  cbv zeta. unfold bind at 1. pose proof (write_leaves (path ++ #".pelagos-resolved") text env s1 h1) as H1.
  destruct (write_file _ text env s1 h1) as [[|] [s2 h2]].
  - intros p [= <-]. exists content, text. split; [done|]. by apply H1.
  - unfold bind at 1 2. unfold call. cbv zeta.
    pose proof (write_leaves (#"/tmp/pelagos-dockerfile-" ++ dec (env h2 NowMillis mod 1000) ++ #".resolved") text env s2 (NowMillis :: h2)) as H2.
    destruct (write_file _ text env s2 (NowMillis :: h2)) as [[|] [s3 h3]]; [|done].
    intros p [= <-]. exists content, text. split; [done|]. by apply H2.
Qed.

Definition no_build (o : build_op) : Prop := match o with Built _ => False | _ => True end.

Lemma pulled_no_build images rc os : pulled images rc os -> Forall no_build os.
Proof. induction 1 as [| | |? ? ? ? ? ? ? ? [->|(a & b & ->)]|]; try done; by repeat constructor. Qed.

(** A build starts only when the bases of its Dockerfile are there.  The file built is the resolved
    copy if one was written, and then its bases are those of the resolved text.  Either all of them have
    been pulled with success, in order, and after that [pelagos build] is run, once; or a pull failed or
    the file cannot be read: then nothing is built, the exit code is not 0 and the resolved copy is
    removed, unless the program panics. *)
Theorem build_pulls_first tag file build_args no_cache target context env s h :
  let path := if is_absolute file then file else context ++ #"/" ++ file in
  let resolved := fst (preprocess_dockerfile_args path build_args env s h) in
  let '(rc, (_, h')) := cmd_build cfg tag file build_args no_cache target context env s h in
  exists os, seen see_build env h' = seen see_build env h ++ os /\
    ((exists raw images pulls, bases_of build_args raw = Some images /\ pulled images (Some 0) pulls
        /\ (forall p, resolved = Some p -> exists content, resolve_dockerfile (order str) content build_args = Some raw)
        /\ os = pulls ++ [Built (pelagos_args cfg (build_argv tag (unwrap_or resolved path) build_args no_cache context))]) \/
     (rc <> Some 0 /\ Forall no_build os
        /\ forall p, resolved = Some p -> rc <> None -> last os = Some (Removed p))).
Proof.
  intros path. unfold cmd_build. fold path. cbv zeta. unfold bind at 1 2.
  pose proof (preprocess_leaves path build_args env s h) as Hleft.
  destruct (silent_build_preprocess path build_args env s h) as (os0 & Hpre & ->).
  destruct (preprocess_dockerfile_args path build_args env s h) as [resolved [s1 h1]]. cbn [fst snd] in *.
  pose proof (pull_base_adds (unwrap_or resolved path) build_args env s1 h1) as Hpull.
  destruct (pull_base_images cfg (unwrap_or resolved path) build_args env s1 h1) as [rc [s2 h2]].
  destruct Hpull as (os & H1 & Hos). rewrite app_nil_r in Hpre. rewrite Hpre in H1.
  destruct (decide (rc = Some 0)) as [->|Hne].
  - destruct Hos as [(raw & images & Hraw & Hb & Hp)|[? _]]; [|done].
    set (sub := build_argv tag (unwrap_or resolved path) build_args no_cache context).
    assert (Hpass : adds see_build (exit <- pass_through cfg #"build" sub ;; ret (Some exit)) (fun _ os => os = [Built (pelagos_args cfg sub)])).
    { unfold pass_through, run_pelagos_inherited. eapply adds_bind with (P := fun _ os => os = [Built (pelagos_args cfg sub)]).
      - eapply adds_bind; [refine (adds_call see_build (Status _ _) (fun _ os => os = [Built (pelagos_args cfg sub)]) _); done|].
        intros status. assert (He : silent see_build (exit_with #"build" status)) by (unfold exit_with; silent_go).
        eapply adds_weaken; [exact He|]. by intros ? ? -> ? ->.
      - intros exit. apply adds_ret. intros ? ->. by rewrite app_nil_r. }
    destruct (Hpass env s2 h2) as (os' & H2 & ->).
    match goal with |- let '(_, _) := ?m in _ => change m with ((exit <- pass_through cfg #"build" sub ;; ret (Some exit)) env s2 h2) end.
    destruct ((exit <- pass_through cfg #"build" sub ;; ret (Some exit)) env s2 h2) as [exit [s3 h3]]. cbn [fst snd] in H2.
    exists (os ++ [Built (pelagos_args cfg sub)]). rewrite H2, H1, app_assoc. split; [done|]. left.
    exists raw, images, os. split; [done|]. split; [done|]. split; [|done].
    intros p Hr. destruct (Hleft p Hr) as (content & text & Hc & Ht). exists content. rewrite Hc. f_equal.
    rewrite Hr in Hraw. symmetry. by apply Hraw.
  - assert (Hno : Forall no_build os).
    { destruct Hos as [(raw & images & _ & _ & Hp)|[_ ->]]; [by eapply pulled_no_build|constructor]. }
    destruct rc as [rc|]; [|cbn; exists os; split; [done|]; right; by split_and!].
    replace (negb (rc =? 0)) with true by (symmetry; apply negb_true_iff, Z.eqb_neq; congruence).
    destruct resolved as [p|]; cbn.
    + exists (os ++ [Removed p]). rewrite H1, app_assoc. split; [done|]. right. split; [done|].
      split; [apply Forall_app; split; [done|by repeat constructor]|]. intros p' [= <-] _. by rewrite last_snoc.
    + exists os. rewrite H1. split; [done|]. right. by split_and!.
Qed.
End Builds.

(** * Inspection *)

Section Inspection.
Context (cfg : Config).

(** The shim knows a container that [pelagos ps --all] lists or that is in its cache. *)
Definition known_to (entries : list PsEntry) (c : gmap str CachedContainer) (n : str) : Prop :=
  n ∈ map name entries \/ is_Some (c !! n).

#[local] Instance known_to_dec entries c n : Decision (known_to entries c n).
Proof. apply _. Defined.

(** What a report says of a container: that it runs only if it is listed as running; of one that is not
    listed, that it has exited, with the image, labels and ports of its last run. *)
Definition reports (entries : list PsEntry) (c : gmap str CachedContainer) (n : str) (r : ContainerInspect) : Prop :=
  id r = n /\ ci_name r = #"/" ++ n /\
  (running (state r) = true -> exists e, e ∈ entries /\ name e = n /\ status e = #"running") /\
  (n ∉ map name entries -> exists cached, c !! n = Some cached /\ cs_status (state r) = #"exited"
     /\ cc_image (config r) = c_image cached /\ DockerText.labels (config r) = c_labels cached) /\
  (forall cached, c !! n = Some cached -> ports r = build_ports_map (port_specs cached)).

Lemma find_entry entries n :
  match List.find (fun e => bool_decide (name e = n)) entries with
  | Some e => e ∈ entries /\ name e = n
  | None => n ∉ map name entries
  end.
Proof.
  destruct (List.find _ entries) as [e|] eqn:E.
  - apply find_some in E as [H1%list_elem_of_In H2]. split; [done|]. by apply bool_decide_eq_true in H2.
  - intros (e & -> & He%list_elem_of_In)%list_elem_of_fmap. apply (find_none _ _ E) in He.
    by apply bool_decide_eq_false in He.
Qed.

Lemma inspect_one_reports entries c sm n env s h : held env c s ->
  let '(r, (s', _)) := inspect_one cfg entries c sm n env s h in
  s' = s /\ match r with Some r => known_to entries c n /\ reports entries c n r | None => ~ known_to entries c n end.
Proof.
  intros Hs. unfold inspect_one. pose proof (find_entry entries n) as Hf.
  destruct (List.find _ entries) as [e|].
  - destruct Hf as [He Hn]. unfold bind at 1. pose proof (steady_inspect_json cfg n env s h) as Hst.
    destruct (pelagos_container_inspect_json cfg n env s h) as [native [s1 h1]]. cbn in Hst. subst s1. cbn [ret].
    split; [done|]. assert (n ∈ map name entries) by (apply list_elem_of_fmap; by exists e).
    split; [by left|]. unfold reports, running_inspect. cbn [id ci_name state running config ports].
    rewrite Hn. split; [done|]. split; [done|]. split; [|split; [done|]].
    + intros Hr%bool_decide_eq_true. by exists e.
    + by intros cached ->.
  - unfold bind at 1. destruct (load_held env c s h Hs) as [hl ->]. destruct (c !! n) as [cached|] eqn:Ec.
    + unfold bind. pose proof (steady_share_map env s hl) as Hst. destruct (read_vm_share_map env s hl) as [sm' [s1 h1]].
      cbn in Hst. subst s1. cbn [ret]. split; [done|]. split; [right; by eexists|].
      unfold reports, exited_inspect. cbn. split; [done|]. split; [done|]. split; [done|].
      split; [intros _; by exists cached|]. rewrite Ec. by intros ? [= <-].
    + cbn. split; [done|]. intros [?|[? ?]]; [done|congruence].
Qed.

Lemma inspect_all_reports entries c sm names env s : forall h, held env c s ->
  let '(rs, (s', _)) := inspect_all cfg entries c sm names env s h in
  s' = s /\ Forall2 (reports entries c) (filter (known_to entries c) names) (omap (fun r => r) rs)
  /\ (forallb (fun r => match r with Some _ => true | None => false end) rs = true <-> Forall (known_to entries c) names).
Proof.
  induction names as [|n names IH]; intros h Hs; cbn [inspect_all].
  - cbn. split; [done|]. split; [constructor|]. split; [by constructor|done].
  - unfold bind at 1. pose proof (inspect_one_reports entries c sm n env s h Hs) as H1.
    destruct (inspect_one cfg entries c sm n env s h) as [r [s1 h1]]. destruct H1 as [-> H1].
    unfold bind. pose proof (IH h1 Hs) as H2. destruct (inspect_all cfg entries c sm names env s h1) as [rs [s2 h2]].
    destruct H2 as (-> & H2 & H3). cbn [ret]. split; [done|]. destruct r as [r|].
    + destruct H1 as [Hk Hr]. rewrite filter_cons_True by done. cbn [omap list_omap forallb andb].
      split; [by constructor|]. rewrite H3, Forall_cons. by split; [|intros [_ ?]].
    + rewrite filter_cons_False by done. cbn [omap list_omap forallb andb]. split; [exact H2|].
      split; [done|]. by intros [? _]%Forall_cons.
Qed.

(** [docker inspect] reports, in order, exactly the containers it knows: those listed, and those that
    are gone but were run and not removed, which it reports as exited with the data of their run.  The
    ports are those of the run.  Its exit code is 0 exactly when all names are known. *)
Theorem inspect_reports names c env s h : held env c s ->
  let '(exit, (_, h')) := cmd_inspect_container cfg names env s h in
  match (env h (Output (pelagos_bin cfg) (pelagos_args cfg [ #"ps"; #"--all"])) : result output str) with
  | Err _ => exit = 1
  | Ok o =>
      let entries := ps_entries (stdout o) in
      exists rs, head h' = Some (Println (inspect_text order pretty rs))
        /\ Forall2 (reports entries c) (filter (known_to entries c) names) rs
        /\ (exit = 0 <-> Forall (known_to entries c) names)
  end.
Proof.
  intros Hs. unfold cmd_inspect_container, run_pelagos. unfold bind at 1. unfold call at 1. cbv zeta.
  destruct (env h (Output _ _) : result output str) as [o|e] eqn:E; [|done].
  unfold bind at 1. set (h0 := Output _ _ :: h). destruct (load_held env c s h0 Hs) as [h1' ->].
  unfold bind at 1. pose proof (steady_share_map env s h1') as Hst. destruct (read_vm_share_map env s h1') as [sm [s1 h1]].
  cbn [fst snd] in Hst. subst s1. unfold bind at 1.
  pose proof (inspect_all_reports (ps_entries (stdout o)) c sm names env s h1 Hs) as H.
  destruct (inspect_all cfg (ps_entries (stdout o)) c sm names env s h1) as [rs [s2 h2]]. destruct H as (-> & H1 & H2).
  cbn. exists (omap (fun r => r) rs). split; [done|]. split; [exact H1|].
  rewrite <- H2. destruct (forallb _ rs); split; congruence.
Qed.
End Inspection.
End Shim.

(** * Witnesses *)

(** The order of the maps' keys, and a printer. *)
Definition demo_order (V : Type) : gmap str V -> list (str * V) := map_to_list.
Definition demo_pretty : jval -> str := to_string.

(** A [pelagos] that lists one running container, and a disk that takes every write. *)
Definition demo_env : Env ev reply := fun _ e =>
  match e return reply e with
  | Output _ _ => Ok (mkOutput (unlines [ #"NAME  STATUS"; #"web  running  7  alpine:3  sh"]) [] (Some 0))
  | OutputWithin _ _ _ => None
  | Status _ _ => Ok (Some 0)
  | Spawn _ _ => Ok 4242
  | ReadFile _ => Err #"not found"
  | WriteFile _ _ => true
  | NowMillis => 1700000000123
  | KillAndWait _ | RemoveFile _ | CreateDirs _ | Println _ | Eprintln _ | Sleep _ | ReadStdin => tt
  end.

Definition demo_var (v : str) : option str := if bool_decide (v = #"HOME") then Some #"/Users/me" else None.
Definition demo_opts : RunOpts := mkRun (Some #"web") true [] [] [] [ #"8080:80"] [ #"a=b"] None [ #"alpine:3"; #"sh"].
Definition demo_cached : CachedContainer := mkCached #"alpine:3" ∅ [] [] #"1700000000" [ #"8080:80"] (Some 4242).
Definition demo_cache : gmap str CachedContainer := {[ #"old" := demo_cached ]}.
Definition demo_files (c : gmap str CachedContainer) : gmap str str :=
  {[ #"/Users/me/.local/share/pelagos/shim-containers.json" := cache_to_text demo_order c ]}.

(** The file is as the shim wrote it. *)
Lemma demo_held c : storable c -> held demo_var demo_env c (demo_files c).
Proof.
  intros Hc. exists #"/Users/me/.local/share/pelagos/shim-containers.json". split; [reflexivity|]. unfold demo_files.
  rewrite lookup_singleton_eq. cbn -[cache_of_text cache_to_text]. by rewrite cache_round.
Qed.
(** There is no file. *)
Lemma demo_new : held demo_var demo_env ∅ ∅.
Proof. exists #"/Users/me/.local/share/pelagos/shim-containers.json". split; [reflexivity|]. by rewrite lookup_empty. Qed.
Lemma demo_disk : disk_ok demo_var demo_env.
Proof. split; [done|]. intros h program args pid [= <-]. done. Qed.
Lemma demo_storable : storable demo_cache.
Proof. unfold storable, demo_cache. by apply map_Forall_singleton. Qed.
Lemma demo_not_kill : pelagos_bin demo_config <> #"kill".
Proof. done. Qed.

Lemma no_proxy_left_witness :
  let '(exit, (s1, h1)) := cmd_run demo_order demo_var demo_config demo_opts demo_env ∅ [] in
  let '(_, (_, h2)) := cmd_stop demo_var demo_config #"web" demo_env s1 h1 in
  exists os1 os2,
    seen see_proxy demo_env h1 = seen see_proxy demo_env [] ++ os1 /\ seen see_proxy demo_env h2 = seen see_proxy demo_env h1 ++ os2 /\
    (forall pid, Started pid ∈ os1 -> Ended pid ∈ os1 \/ Signalled (dec pid) ∈ os2) /\
    (exit <> 0 \/ detach demo_opts = false -> forall pid, Started pid ∈ os1 -> Ended pid ∈ os1).
Proof.
  pose proof (no_proxy_left demo_order demo_var demo_config (fun V m => reflexivity _) demo_not_kill demo_env demo_opts #"web"
    (cmd_stop demo_var demo_config #"web") ∅ ∅ []) as H.
  apply H; [exact demo_disk | apply demo_new | reflexivity | left; reflexivity].
Defined.

(** There the proxy is started by the run and signalled by the stop. *)
Example demo_proxy :
  let '(_, (s1, h1)) := cmd_run demo_order demo_var demo_config demo_opts demo_env ∅ [] in
  let '(_, (_, h2)) := cmd_stop demo_var demo_config #"web" demo_env s1 h1 in
  seen see_proxy demo_env h2 = [Started 4242; Signalled #"4242"].
Proof. vm_compute. reflexivity. Qed.

(** After a stop the cache still has the process, so a removal signals whatever has its number by then. *)
Example proxy_signalled_twice :
  let '(_, (s1, h1)) := cmd_run demo_order demo_var demo_config demo_opts demo_env ∅ [] in
  let '(_, (s2, h2)) := cmd_stop demo_var demo_config #"web" demo_env s1 h1 in
  let '(_, (_, h3)) := cmd_rm demo_order demo_var demo_config false #"web" demo_env s2 h2 in
  seen see_proxy demo_env h3 = [Started 4242; Signalled #"4242"; Signalled #"4242"].
Proof. vm_compute. reflexivity. Qed.

(** A failing write of the file is ignored: the run succeeds, and the proxy is never signalled. *)
Definition full_env : Env ev reply := fun h e => match e with WriteFile _ _ => false | e => demo_env h e end.
Example unwritten_proxy_left :
  let '(exit, (s1, h1)) := cmd_run demo_order demo_var demo_config demo_opts full_env ∅ [] in
  let '(_, (_, h2)) := cmd_stop demo_var demo_config #"web" full_env s1 h1 in
  exit = 0 /\ seen see_proxy full_env h2 = [Started 4242].
Proof. vm_compute. by split. Qed.

#[local] Abbreviation demo_dispatch := (dispatch (J := tree_json []) to_ascii_uppercase to_ascii_lowercase (fun _ => true) demo_order
  (fun s => s) demo_pretty demo_var demo_config).

Lemma cache_refined_witness :
  let '(exit, (s', _)) := demo_dispatch false 0 (Rm true #"old") demo_env (demo_files demo_cache) [] in
  exists c', held demo_var demo_env c' s' /\ cache_after (Rm true #"old") exit demo_cache c'.
Proof.
  exact (cache_refined (J := tree_json []) to_ascii_uppercase to_ascii_lowercase (fun _ => true) demo_order (fun s => s)
    demo_pretty demo_var demo_config (fun V m => reflexivity _) demo_not_kill
    demo_env false 0 (Rm true #"old") demo_cache (demo_files demo_cache) [] demo_disk (demo_held demo_cache demo_storable)).
Defined.

(** The text of an event does not depend on the order of the attributes. *)
Lemma start_event_text (order order' : forall V : Type, gmap str V -> list (str * V)) e attrs now :
  (forall V m, order V m ≡ₚ map_to_list m) -> (forall V m, order' V m ≡ₚ map_to_list m) ->
  start_event order e attrs now = start_event order' e attrs now.
Proof.
  intros Ho Ho'. unfold start_event. set (m := <[ #"name" := _ ]> _).
  rewrite (json_object_permutation (map _ (order str m)) (map (fun kv => (kv.1, JStr kv.2)) (order' str m))); [done| |].
  - rewrite <- list_fmap_compose. change (_ ∘ _) with (fst : str * str -> str). rewrite Ho. apply NoDup_fst_map_to_list.
  - by rewrite Ho, Ho'.
Qed.

Example event_written : to_string (start_event demo_order (mkEntry #"web" #"running" #"alpine") {[ #"dev" := #"1" ]} 1700000000) =
  Protocol.json #"{'Action':'start','Actor':{'Attributes':{'dev':'1','image':'alpine','name':'web'},'ID':'web'},'Type':'container','from':'alpine','id':'web','scope':'local','status':'start','time':1700000000,'timeNano':1700000000000000000}".
Proof. vm_compute. reflexivity. Qed.

(** Two names: one that is listed, one only in the cache. *)
Lemma inspect_reports_witness :
  let '(exit, (_, h')) := cmd_inspect_container (J := tree_json []) to_ascii_uppercase to_ascii_lowercase demo_order (fun s => s)
    demo_pretty demo_var demo_config [ #"old"; #"web"] demo_env (demo_files demo_cache) [] in
  exit = 0 /\ exists rs, Forall2 (reports (ps_entries to_ascii_uppercase to_ascii_lowercase (fun s => s)
      (unlines [ #"NAME  STATUS"; #"web  running  7  alpine:3  sh"])) demo_cache) [ #"old"; #"web"] rs.
Proof.
  pose proof (inspect_reports (J := tree_json []) to_ascii_uppercase to_ascii_lowercase demo_order (fun s => s)
    demo_pretty demo_var demo_config [ #"old"; #"web"] demo_cache demo_env (demo_files demo_cache) []
    (demo_held demo_cache demo_storable)) as H.
  destruct (cmd_inspect_container _ _ _ _ _ _ _ _ _ _ _) as [exit [s' h']].
  destruct H as (rs & _ & H1 & H2).
  assert (Hk : Forall (known_to (ps_entries to_ascii_uppercase to_ascii_lowercase (fun s => s)
      (unlines [ #"NAME  STATUS"; #"web  running  7  alpine:3  sh"])) demo_cache) [ #"old"; #"web"]).
  { apply Forall_cons. split; [right; exists demo_cached; apply lookup_singleton_eq|].
    apply Forall_cons. split; [left; apply list_elem_of_In; left; reflexivity | constructor]. }
  split; [by apply H2|]. exists rs. apply Forall_cons in Hk as [Hk1 [Hk2 _]%Forall_cons].
  by rewrite !filter_cons_True in H1.
Defined.
