(* ===== verification/DockerPaths.v ===== *)
(** A volume on its way through the programs: the host ([pelagos-mac/src/main.rs]) turns [-v] into a mount of a
    shared directory, the guest ([pelagos-guest/src/main.rs]) into a path under [/mnt], and the docker shim
    ([pelagos-docker/src/main.rs]) shows it as a path of the host again. *)

From S2P Require Import Prelude RustStd Paths Json VmState PortDaemon GuestProto GuestServer HostCli HostMain DockerText.

#[local] Open Scope Z_scope.

(** What the file of the daemon's mounts says: tag and host path of every share. *)
Definition share_map (a : DaemonArgs) : list (str * str) :=
  map (fun s => (VmState.tag s, VmState.host_path s)) (a_shares a).

(** A home directory that mounts can be told apart with, and a host path without empty components. *)
Definition plain_home (h : str) : Prop := h <> [] /\ (":"%char ∉ h) /\ last h <> Some "/"%char.
Definition normal_under (h host : str) : Prop :=
  forall sub, host = h ++ #"/" ++ sub -> sub <> [] /\ head sub <> Some "/"%char.

(** * Tags *)

Definition share_tag (i : nat) : str := #"share" ++ dec (Z.of_nat i).
Definition all_tags : list str := #"pelagos-volumes" :: map share_tag (seq 0 10).

(** No tag of the first ten shares is the beginning of another. *)
Lemma tags_prefix_free i j a b : all_tags !! i = Some a -> all_tags !! j = Some b -> (i < j)%nat -> starts_with a b = false.
Proof.
  assert (H : forallb (fun j => forallb (fun i => negb (starts_with (nth i all_tags []) (nth j all_tags []))) (seq 0 j)) (seq 0 11) = true)
    by (vm_compute; reflexivity).
  intros Ha Hb Hij. rewrite forallb_forall in H.
  assert (Hj : (j < 11)%nat) by (apply lookup_lt_Some in Hb; exact Hb).
  assert (Hj' : In j (seq 0 11)) by (apply in_seq; lia). apply H in Hj'. rewrite forallb_forall in Hj'.
  assert (Hi' : In i (seq 0 j)) by (apply in_seq; lia). apply Hj' in Hi'.
  rewrite (nth_lookup_Some _ _ _ _ Ha), (nth_lookup_Some _ _ _ _ Hb) in Hi'. by apply negb_true_iff.
Qed.

Lemma parse_volumes_tags e vs : forall i l, parse_volumes_from e i vs = Some l ->
  map VmState.tag l = map share_tag (seq i (length vs)).
Proof.
  induction vs as [|v vs IH]; intros i l; cbn [parse_volumes_from]; [by intros [= <-]|].
  destruct (parse_volume e i v) as [s|] eqn:Ev; [|done].
  destruct (parse_volumes_from e (S i) vs) as [l'|] eqn:El; [|done]. intros [= <-].
  apply parse_volume_inv in Ev as (_ & _ & _ & Ht & _). cbn. rewrite Ht. by rewrite (IH _ _ El).
Qed.

Lemma volume_host_home h t : ":"%char ∉ h -> volume_host (h ++ ":"%char :: t) = h.
Proof. intros Hh. unfold volume_host. by rewrite split_once_app. Qed.

(** The shares of the arguments: the volumes directory, the home directory and the volumes outside it. *)
Lemma shares_of_args e cli a h : daemon_args_from_cli e cli = Some a -> home e = Some h -> ":"%char ∉ h ->
  exists l, a_shares a = volumes_share e (cli_profile cli) :: l
    /\ parse_volumes e ((h ++ #":") :: outside e (cli_volumes cli)) = Some l.
Proof.
  intros Ha Hh Hc. assert (Hb : exists l, build_virtiofs_shares e (cli_volumes cli) = Some l
    /\ a_shares a = volumes_share e (cli_profile cli) :: l).
  { unfold daemon_args_from_cli in Ha. cbv zeta in Ha.
    destruct (or_else _ _) as [k|]; [|done]. destruct (or_else _ _) as [d|]; [|done].
    destruct (build_virtiofs_shares e (cli_volumes cli)) as [l|]; [|done]. destruct (parse_ports _); [|done].
    injection Ha as <-. by exists l. }
  destruct Hb as (l & Hb & ->). exists l. split; [done|]. rewrite <- Hb. unfold build_virtiofs_shares, home_already_present.
  rewrite Hh. destruct (cli_volumes cli) as [|v vs]; [done|]. case_bool_decide as Hv; [|done].
  unfold outside at 1. cbn [List.filter]. unfold under_home at 1. rewrite Hh, Hv.
  change (h ++ #":") with (h ++ [":"%char]). rewrite volume_host_home by done.
  by rewrite bool_decide_eq_true_2.
Qed.

(** The tag a mount is found under is that of its share. *)
Lemma first_share_found pre s post : Forall (fun s' => starts_with (VmState.tag s') (VmState.tag s) = false) pre ->
  first_share (#"/mnt/" ++ VmState.tag s) (map (fun s => (VmState.tag s, VmState.host_path s)) (pre ++ s :: post)) = Some (VmState.host_path s).
Proof.
  induction 1 as [|s' pre Hs _ IH]; cbn [app map first_share].
  - unfold share_path. replace (strip_prefix (#"/mnt/" ++ VmState.tag s) (#"/mnt/" ++ VmState.tag s)) with (Some (@nil ascii)); [done|].
    symmetry. rewrite <- (app_nil_r (#"/mnt/" ++ VmState.tag s)) at 2. apply strip_prefix_app.
  - unfold share_path at 1. replace (strip_prefix (#"/mnt/" ++ VmState.tag s') (#"/mnt/" ++ VmState.tag s)) with (@None str); [done|].
    unfold starts_with in Hs. cbn. by destruct (strip_prefix (VmState.tag s') (VmState.tag s)).
Qed.

Lemma find_split {A} (f : A -> bool) l x : List.find f l = Some x -> exists pre post, l = pre ++ x :: post /\ f x = true.
Proof.
  induction l as [|y l IH]; cbn; [done|]. destruct (f y) eqn:E.
  - intros [= <-]. by exists [], l.
  - intros Hx. destruct (IH Hx) as (pre & post & -> & Hf). by exists (y :: pre), post.
Qed.

Lemma shares_prefix_free e cli h l pre s post : parse_volumes e ((h ++ #":") :: outside e (cli_volumes cli)) = Some l ->
  (length (outside e (cli_volumes cli)) <= 9)%nat -> volumes_share e (cli_profile cli) :: l = pre ++ s :: post ->
  Forall (fun s' => starts_with (VmState.tag s') (VmState.tag s) = false) pre.
Proof.
  intros Hl Hn Hsplit. apply parse_volumes_tags in Hl. cbn [length] in Hl.
  assert (Htags : exists rest, all_tags = map VmState.tag (pre ++ s :: post) ++ rest).
  { rewrite <- Hsplit. cbn [map]. rewrite Hl. unfold all_tags.
    exists (map share_tag (seq (S (length (outside e (cli_volumes cli)))) (9 - length (outside e (cli_volumes cli))))).
    cbn [app VmState.tag volumes_share]. f_equal. rewrite <- map_app. f_equal. rewrite <- seq_app. f_equal. lia. }
  destruct Htags as [rest Htags]. apply Forall_lookup. intros i s' Hi.
  apply (tags_prefix_free i (length pre)); [| |by apply lookup_lt_Some in Hi].
  - rewrite Htags, lookup_app_l by (rewrite length_map, length_app; apply lookup_lt_Some in Hi; lia).
    rewrite list_lookup_fmap, lookup_app_l by (by apply lookup_lt_Some in Hi). by rewrite Hi.
  - rewrite Htags, lookup_app_l by (rewrite length_map, length_app; cbn; lia).
    rewrite list_lookup_fmap, lookup_app_r by lia. by rewrite Nat.sub_diag.
Qed.

(** * Paths *)

(** The mount's path in the guest. *)
Definition guest_path (m : GuestMount) : str :=
  if bool_decide (subpath m = []) then #"/mnt/" ++ GuestProto.tag m
  else #"/mnt/" ++ GuestProto.tag m ++ #"/" ++ trim_start_matches "/" (subpath m).

Lemma run_mount_path m : run_mount m = guest_path m ++ #":" ++ GuestProto.container_path m.
Proof. done. Qed.

Lemma translate_path m path shares : ":"%char ∉ guest_path m -> first_share (guest_path m) shares = Some path ->
  translate_volume_spec (run_mount m) shares = path ++ #":" ++ GuestProto.container_path m.
Proof.
  intros Hc Hf. rewrite run_mount_path. unfold translate_volume_spec.
  change (#":" ++ GuestProto.container_path m) with (":"%char :: GuestProto.container_path m).
  rewrite split_once_app by done. by rewrite Hf.
Qed.

Lemma tag_no_colon e cli h l s : parse_volumes e ((h ++ #":") :: outside e (cli_volumes cli)) = Some l ->
  s ∈ volumes_share e (cli_profile cli) :: l -> ":"%char ∉ VmState.tag s.
Proof.
  intros Hl Hs. apply parse_volumes_tags in Hl. apply elem_of_cons in Hs as [->|Hs]; [by apply not_in_literal|].
  apply (list_elem_of_fmap_2 VmState.tag) in Hs. change (VmState.tag <$> l) with (map VmState.tag l) in Hs. rewrite Hl in Hs.
  apply list_elem_of_fmap in Hs as (i & -> & _). unfold share_tag. apply not_elem_of_app. split; [by apply not_in_literal|].
  intros Hin. pose proof (dec_digits (Z.of_nat i) ltac:(lia)) as Hd. rewrite Forall_forall in Hd. by apply Hd in Hin.
Qed.

Lemma splitn_host spec host container rest : splitn 3 ":" spec = host :: container :: rest ->
  (":"%char ∉ host) /\ volume_host spec = host.
Proof.
  cbn [splitn]. unfold volume_host. destruct (split_once ":" spec) as [[hp t]|] eqn:E; [|done].
  apply split_once_inv in E as [_ Hh]. destruct (split_once ":" t) as [[c r]|]; by intros [= <- _ _].
Qed.

Lemma volume_has_share e vs : forall i l v, parse_volumes_from e i vs = Some l -> v ∈ vs ->
  exists s, s ∈ l /\ VmState.host_path s = volume_host v.
Proof.
  induction vs as [|w vs IH]; intros i l v; cbn [parse_volumes_from]; [by intros _ ?%elem_of_nil|].
  destruct (parse_volume e i w) as [s|] eqn:Ew; [|done].
  destruct (parse_volumes_from e (S i) vs) as [l'|] eqn:El; [|done]. intros [= <-] [->|Hv]%elem_of_cons.
  - apply parse_volume_inv in Ew as (_ & _ & _ & _ & ->). exists s. split; [left|done].
  - destruct (IH _ _ _ El Hv) as (s' & Hs' & ?). exists s'. split; [by right|done].
Qed.

Lemma find_there {A} (f : A -> bool) l x : x ∈ l -> f x = true -> exists y, List.find f l = Some y.
Proof.
  intros Hx Hf. destruct (List.find f l) as [y|] eqn:E; [by exists y|]. exfalso.
  apply list_elem_of_In in Hx. pose proof (find_none _ _ E _ Hx). congruence.
Qed.

(** The first volume is the home directory. *)
Lemma home_share e h outs l : ":"%char ∉ h -> parse_volumes e ((h ++ #":") :: outs) = Some l ->
  exists s l', l = s :: l' /\ VmState.tag s = #"share0" /\ VmState.host_path s = h.
Proof.
  intros Hh Hl. unfold parse_volumes in Hl. cbn [parse_volumes_from] in Hl.
  destruct (parse_volume e 0 (h ++ #":")) as [s|] eqn:Es; [|done]. destruct (parse_volumes_from e 1 outs) as [l'|]; [|done].
  injection Hl as <-. apply parse_volume_inv in Es as (_ & _ & _ & Ht & Hv). exists s, l'. split; [done|]. split; [done|].
  rewrite <- Hv. by apply volume_host_home.
Qed.

Lemma trim_start_matches_other c s : head s <> Some c -> trim_start_matches c s = s.
Proof. destruct s as [|a s]; [done|]. cbn. intros H. unfold trim_start_matches. cbn. rewrite decide_False by congruence. done. Qed.

Lemma trim_end_matches_other c s : last s <> Some c -> trim_end_matches c s = s.
Proof.
  intros H. unfold trim_end_matches. change (strip_front (one c) 0 (rev s)) with (trim_start_matches c (rev s)).
  rewrite trim_start_matches_other; [apply rev_involutive|]. destruct s as [|a s] using rev_ind; [done|].
  rewrite rev_app_distr. cbn. by rewrite last_snoc in H.
Qed.

Lemma first_share_home e profile s l suffix : VmState.tag s = #"share0" -> (suffix = [] \/ head suffix = Some "/"%char) ->
  last (VmState.host_path s) <> Some "/"%char ->
  first_share (#"/mnt/share0" ++ suffix) (map (fun s => (VmState.tag s, VmState.host_path s)) (volumes_share e profile :: s :: l))
  = Some (VmState.host_path s ++ suffix).
Proof.
  intros Ht Hs Hl. cbn [map first_share]. rewrite Ht.
  assert (H1 : share_path (#"/mnt/share0" ++ suffix) (VmState.tag (volumes_share e profile), VmState.host_path (volumes_share e profile)) = None) by reflexivity.
  rewrite H1. unfold share_path. change (#"/mnt/" ++ #"share0") with (#"/mnt/share0"). rewrite strip_prefix_app.
  destruct suffix as [|a suffix]; [by rewrite app_nil_r|]. by rewrite trim_end_matches_other.
Qed.

(** C29: a volume given to [pelagos run] is shown by docker under the path it was given with.  With a plain home
    directory and at most nine volumes outside it, every [-v] option with a host path in normal form gets a
    mount; the specification the guest makes of it, translated by the shim with the daemon's share file, is
    the host path up to its spelling, a colon and the container path. *)
Theorem volume_round_trip e cli a h spec host container rest :
  daemon_args_from_cli e cli = Some a -> home e = Some h -> plain_home h ->
  (length (outside e (cli_volumes cli)) <= 9)%nat ->
  spec ∈ cli_volumes cli -> splitn 3 ":" spec = host :: container :: rest -> normal_under h host ->
  exists m path, m ∈ guest_mounts e cli a
    /\ translate_volume_spec (run_mount m) (share_map a) = path ++ #":" ++ container
    /\ components path = components host.
Proof.
  intros Ha Hh (Hne & Hcolon & Hlast) Hn Hspec Hsplit Hnorm.
  destruct (shares_of_args e cli a h Ha Hh Hcolon) as (l & Hshares & Hl).
  destruct (splitn_host _ _ _ _ Hsplit) as [Hhc Hvh].
  assert (Hm : exists m, guest_mount h (a_shares a) spec = Some m /\ GuestProto.container_path m = container /\
    (":"%char ∉ guest_path m) /\ exists path, first_share (guest_path m) (share_map a) = Some path /\ components path = components host).
  { unfold guest_mount. rewrite Hsplit, bool_decide_eq_false_2 by done. cbn [negb andb].
    destruct (home_share e h _ l Hcolon Hl) as (s & l' & -> & Ht & Hhp).
    destruct (bool_decide (host = h) || starts_with (h ++ #"/") host) eqn:Eu.
    - eexists. split; [done|]. split; [done|]. unfold share_map, guest_path. rewrite Hshares. cbn [GuestProto.tag subpath].
      destruct (strip_prefix (h ++ #"/") host) as [sub|] eqn:Esub; cbn [unwrap_or].
      + apply strip_prefix_inv in Esub. rewrite <- app_assoc in Esub. destruct (Hnorm sub Esub) as [Hs1 Hs2].
        rewrite bool_decide_eq_false_2, trim_start_matches_other by done. split.
        { rewrite Esub in Hhc. apply not_elem_of_app in Hhc as [_ Hhc]. apply not_elem_of_app. split; [by apply not_in_literal|].
          apply not_elem_of_app. split; [by apply not_in_literal|done]. }
        exists (VmState.host_path s ++ #"/" ++ sub). split; [|by rewrite Hhp, Esub].
        apply (first_share_home e (cli_profile cli) s l' (#"/" ++ sub)); [done|by right|by rewrite Hhp].
      + rewrite bool_decide_eq_true_2 by done. split; [by apply not_in_literal|]. exists (VmState.host_path s ++ []).
        assert (Hhost : host = h) by (unfold starts_with in Eu; rewrite Esub, orb_false_r in Eu; by apply bool_decide_eq_true in Eu).
        split; [|by rewrite app_nil_r, Hhp, Hhost].
        apply (first_share_home e (cli_profile cli) s l' []); [done|by left|by rewrite Hhp].
    - assert (Hout : spec ∈ outside e (cli_volumes cli)).
      { unfold outside. apply list_elem_of_In, filter_In. split; [by apply list_elem_of_In|]. unfold under_home. by rewrite Hh, Hvh, Eu. }
      destruct (volume_has_share e _ _ _ spec Hl) as (s1 & Hs1 & Hhp1); [by right|].
      set (f := fun s : VirtiofsShare => bool_decide (components (VmState.host_path s) = components host)).
      destruct (find_there f (a_shares a) s1) as [s2 Hs2].
      { rewrite Hshares. by right. }
      { unfold f. apply bool_decide_eq_true. by rewrite Hhp1, Hvh. }
      destruct (find_split f _ _ Hs2) as (pre & post & Hsp & Hf). unfold f in Hf. apply bool_decide_eq_true in Hf.
      rewrite Hs2. cbn. eexists. split; [done|]. split; [done|]. unfold guest_path. cbn [subpath GuestProto.tag].
      rewrite bool_decide_eq_true_2 by done. split.
      + apply not_elem_of_app. split; [by apply not_in_literal|]. eapply tag_no_colon; [exact Hl|].
        rewrite <- Hshares, Hsp. apply elem_of_app. right. left.
      + exists (VmState.host_path s2). split; [|done]. unfold share_map. rewrite Hsp. apply first_share_found.
        eapply shares_prefix_free; [exact Hl|done|]. by rewrite <- Hshares. }
  destruct Hm as (m & Hm & Hcont & Hg & path & Hpath & Hcomp). exists m, path. split; [|split; [|done]].
  - unfold guest_mounts. rewrite Hh. cbn [unwrap_or]. apply list_elem_of_omap. by exists spec.
  - rewrite (translate_path m path) by done. by rewrite Hcont.
Qed.

(** * Witnesses *)

Lemma volume_round_trip_witness : exists m path,
  m ∈ guest_mounts (demo_host None 0) demo_cli demo_args
  /\ translate_volume_spec (run_mount m) (share_map demo_args) = path ++ #":/src"
  /\ components path = components #"/Users/me/src".
Proof.
  destruct (daemon_args_from_cli (demo_host None 0) demo_cli) as [a|] eqn:Ea; [|vm_compute in Ea; discriminate].
  replace (guest_mounts (demo_host None 0) demo_cli demo_args) with (guest_mounts (demo_host None 0) demo_cli a)
    by (vm_compute in Ea; injection Ea as <-; vm_compute; reflexivity).
  replace (share_map demo_args) with (share_map a) by (vm_compute in Ea; injection Ea as <-; vm_compute; reflexivity).
  change (#":/src") with (#":" ++ #"/src").
  apply (volume_round_trip (demo_host None 0) demo_cli a #"/Users/me" #"/Users/me/src:/src" #"/Users/me/src" #"/src" []).
  - exact Ea.
  - reflexivity.
  - split; [done|]. split; [by apply not_in_literal|done].
  - vm_compute. lia.
  - left.
  - reflexivity.
  - intros sub Hs. change (#"/Users/me/src") with (#"/Users/me" ++ #"/" ++ #"src") in Hs.
    apply app_inv_head in Hs. apply app_inv_head in Hs. by subst sub.
Defined.

(** The read-only flag of a volume in the home directory is lost. *)
Example read_only_lost a :
  guest_mount #"/Users/me" (a_shares a) #"/Users/me/src:/src:ro" = guest_mount #"/Users/me" (a_shares a) #"/Users/me/src:/src".
Proof. reflexivity. Qed.

(** With ten volumes outside the home directory, docker shows the last one under the path of the first. *)
Definition many : Cli :=
  mkCli #"default" (Some #"/k") None (Some #"/d") #"console=hvc0" None None
    (map (fun i => #"/" ++ replicate i "d"%char ++ #":/data") (seq 1 10)) [] [].
Example tenth_volume_mistaken : match daemon_args_from_cli (demo_host None 0) many with
  | Some a => map (fun m => translate_volume_spec (run_mount m) (share_map a)) (drop 9 (guest_mounts (demo_host None 0) many a))
  | None => []
  end = [ #"/d0:/data"].
Proof. vm_compute. reflexivity. Qed.
